(* ===== verification/_CoqProject ===== *)
-Q . S2P
Prelude.v
Primitives.v
MoveTypes.v
Errors.v
BaseFee.v
Envelope.v
Fees.v
EvMap.v
Transactions.v
Blocks.v
Receipts.v
Payloads.v
Application.v
Chain.v
Simulation.v
MoveVm.v
EthToken.v
ToyVm.v
Nonces.v
TagValidation.v
Events.v
Execution.v
Storage.v
StateTree.v
GenesisImage.v
EvmState.v
EvmCalls.v
SolidityAbi.v
StateQueries.v
World.v
Publication.v
Queries.v
Columns.v
RocksDb.v
RocksState.v
Heed.v
HeedState.v
Crash.v
RocksNode.v
Rpc.v
BridgedTokens.v
Engine.v
Api.v
Server.v
Genesis.v
Node.v
Dependencies.v
DiskDependencies.v
GenesisBuilder.v
