(* ===== verification/Prelude.v ===== *)
(** * op-move: the Move VM execution layer of an OP Stack rollup

    The program ([src/]) is an execution client: the rollup node asks it over
    the engine API to build a block on the latest one, the block builder runs
    the transactions given in the payload attributes and those pooled by the
    users, and the block, its transactions and receipts are stored and served.
    Transactions are Ethereum transactions whose data is Move: entry functions,
    scripts and modules, or calls to an EVM that lives inside the Move VM.

    ** How the parts interact

    Requests arrive on two ports ([server/src]): the public one answers the
    Ethereum methods, the authenticated one the engine methods too ([api/src]).
    What a request reads it reads from the stores; what it wants done becomes a
    command in a bounded queue.  [app/src/actor.rs] takes the commands from the
    queue, one at a time.  A [StartBlockBuild] makes [app/src/command.rs] select
    transactions, execute each with [execution/src] on the Move state
    ([state/src]) and the EVM storage tries ([evm-ext/src/state]), apply the
    changes of each before the next, and commit a block to the stores of
    [blockchain/src], which are kept in memory or on disk ([storage]).  An
    [AddTransaction] puts a transaction into the memory pool.  The execution
    checks and charges the transaction (nonce, fees), validates the arguments of
    entry functions, runs the payload in a VM session, replays the token
    movements the EVM logged, refunds the gas not used and returns an outcome.

    ** The files

    - [Prelude]: panics ([exec]), results, the monad [cmd] of code that mutates
      an object and returns a [Result], machine integers as [Z] with their
      saturation and wrap-around, bytes, lists, automation.
    - [Primitives]: [shared/src/primitives.rs], [shared/src/iter.rs].
    - [MoveTypes], [Errors]: the data of the Move core library by its
      constructors; [shared/src/error.rs].
    - [BaseFee]: [blockchain/src/block/gas.rs].
    - [Envelope]: [execution/src/transaction.rs], from a wallet's envelope to the
      normalised transaction, its parsed data and its receipt envelope.
    - [Fees]: the fees of [execution/src/gas.rs].
    - [EvMap]: the interface of the third-party map the in-memory stores use,
      and a model of it; [Transactions], [Blocks], [Receipts], [Payloads]: the
      stores and responses of [blockchain/src].
    - [Application]: the application state, the commands and the block build
      ([app/src/command.rs], [actor.rs], [input.rs]), against the interfaces
      [WorldState], [Executor] and [Callbacks] (traits in the code); [Chain]: what
      the builder guarantees.
    - [MoveVm]: the interface of the VM and the logger of EVM transfers;
      [EthToken], [Nonces]: the calls into the token and account modules
      ([execution/src/eth_token.rs], [nonces.rs]) with the interfaces [EthLedger]
      and [AccountModule] of those Move modules; [ToyVm]: a small concrete VM with
      which every interface is shown to be satisfiable.
    - [TagValidation]: [execution/src/tag_validation.rs], [layout.rs].
    - [Events]: EVM data in Move values, session identity, EVM gas, block hashes
      ([evm-ext/src/type_utils.rs], [events.rs], [native_impl.rs],
      [native_evm_context.rs], [execution/src/session_id.rs]).
    - [Execution]: [execution/src/execute.rs], [canonical.rs], [deposited.rs],
      [simulate.rs], [lib.rs].
    - [Storage], [StateTree]: [trie/src/staging.rs], [evm-ext/src/state/storage.rs],
      [state/src], against the interface [EthTrie] of Merkle tries.
    - [EvmState], [EvmCalls]: the accounts and code of the EVM in the Move state
      and the extraction of what a session changed ([evm-ext/src/state_changes.rs],
      [state/account.rs], [native_evm_context.rs]); the natives that run the EVM
      ([native_impl.rs]), with revm as a parameter.
    - [StateQueries]: [blockchain/src/state/read.rs]; [World]: the in-memory state
      and storage instantiate [WorldState], every block's state stays readable, and
      the builds of the back ends on disk; [Publication]: the writes of a command one by one ([extend] and
      [add] of [blockchain/src/receipt/in_memory.rs], [transaction/in_memory.rs],
      [block/in_memory.rs], the nodes of [state/src/lib.rs]) and runs in which
      readers look in between; [Queries]: the query side of the application
      ([app/src/query.rs]).
    - [Node]: the executor of [Execution] instantiates the interface the block
      builder of [Application] is written against.

    - [SolidityAbi]: the natives that encode and decode Solidity ABI values
      ([evm-ext/src/solidity_abi.rs]), against the interface [SolCodec] of the
      codec.
    - [Columns]: a column of bytes with JSON values and 8-byte keys, and what it
      means that it holds a table; [RocksDb], [RocksState]: the back end of
      [storage/rocksdb/src] over the interface [RocksDb] of the database: blocks,
      transactions, receipts and payloads; the state, its roots by height and the
      storage tries.  [Heed], [HeedState]: the same over LMDB ([storage/heed/src])
      and its transactions, with the changes of a block's transactions applied one
      by one ([app/src/command.rs]).  [Crash]: the block build on RocksDB
      ([app/src/command.rs]) batch by batch, over a database that records every
      content its disk has had, and what is found after a stop between two
      batches.  [RocksNode]: the actor on RocksDB, its transactions executed on the
      world the disk holds; [Simulation]: the block builder runs alike on two
      worlds that a relation keeps together.
    - [Rpc]: JSON values, parameters, hexadecimal texts, method names, errors
      ([api/src/json_utils.rs], [jsonrpc.rs], [method_name.rs]); [Engine]: the
      engine methods ([api/src/schema/engine.rs], [forkchoice_updated.rs],
      [get_payload.rs], [new_payload.rs]); [Api]: the Ethereum methods and the
      dispatch ([api/src/methods], [request.rs]).
    - [Server]: the routes, the mirror to op-geth, the genesis block, the start of
      the application ([server/src/lib.rs], [geth_genesis.rs]), the command queue
      ([app/src/queue.rs], [factory.rs]) and the node: requests and actor as a
      step relation.
    - [GenesisImage]: change sets in their serialised form and the image
      ([genesis/src/serde.rs], [genesis-image]); [BridgedTokens]: the token list
      and its deployment ([genesis/src/bridged_tokens.rs]); [Genesis]: the
      frameworks, the L2 contracts, the configuration and the genesis state
      ([genesis/src/framework.rs], [l2_contracts.rs], [config.rs], [lib.rs]).
    - [Dependencies]: the stores a process shares, the handles of the application
      and its readers on them, and their wiring in memory
      ([app/src/dependency.rs], [server/src/dependency/in_memory.rs]) against the
      interface [Dependencies]; [DiskDependencies]: the same for the two back
      ends on disk, and that a node that stops starts again in its state.
    - [GenesisBuilder]: the Move modules generated from Solidity ABIs and the
      edits of package files ([genesis-builder/src]).

    State corresponds to the code's: [Application.Application] is the actor's
    [Application] (its repositories are stateless handles and are inlined),
    [Blocks.SharedMemory] the three maps behind readers and writers, [MoveVm.Vm_]
    the session, gas meter and transfer logger an execution threads through,
    [StateTree.InMemoryState] and [Storage.InMemoryStorageTrieRepository] the two
    Merkle-backed states.  A definition names its lines in its [Source] comment.

    ** What the theorems show

    - The chain (C1, C4, C14, C15): any sequence of commands is a
      sequence of steps that append well-formed, linked blocks, which the stores
      hold; the payload returned is the block asked for; a block's receipts
      account for its execution; dropped transactions leave no trace in it, and
      ([Chain.pool_is_drained]) no pooled transaction is lost.  The history is the
      abstract specification ([Chain.History], [Chain.chain_step]) the commands
      refine.
    - The node (C3, C10, C11, C12): a forkchoice update, the build and the payload
      asked for afterwards are one conversation; whatever is asked, in any
      interleaving, the chain only grows; what was accepted is done; the public
      port builds nothing.
    - The state (C5, C18, C31): the state of every block stays readable while the
      chain grows, a change set is read back from the new state, calls run on the
      state of the block they name.
    - The disk (C19, C20, C32): a node on RocksDB or LMDB
      ([Heed.heed_answers_as_memory]) answers like one in memory, where they differ
      being stated; every command handled in memory is handled on RocksDB, and
      leaves on the disk what memory has; the state of every block stays readable
      and survives a restart; accounts do not disturb each other's storage
      ([RocksState.storage_accounts_isolated]).
    - Crashes (C21, C22, C23): wherever a run on RocksDB stops, the disk has a whole
      chain with its transactions, receipts and states; what it has besides, of the
      block that was lost, shifts the states of the blocks to come and drops the
      transactions of the lost block.
    - Execution (C6, C7, C8, C9, C40): exact fees, errors of users as outcomes,
      no replay, as many arguments as parameters and all of them checked, the replay
      of EVM transfers on the ledger.
    - The EVM (C13, C16, C17): a call never runs the transaction out of gas,
      logs its transfers and keeps its changes; the changes of a session are
      extracted exactly and read back by the next transaction; results and logs
      ([Events.evm_results_cross_move]) cross the Move values unchanged.
    - Argument validation (C24, C25, C26): the stack machine terminates and is
      the structural recursion, accepted values keep their types' promises, the
      analysis that skips validation is sound ([TagValidation.skipping_is_sound]).
    - Readers beside the actor (C2, C30): between any two writes of a commit, what
      a reader finds is a whole block or none of it, and what one read promised
      the next finds; at the end of every command the stores are what handling it
      at once gives.
    - Queries (C27, C28, C29): the answers of the reader are those of the history,
      and the reader that is wired to an application in memory follows it.
    - Genesis (C33): a node that starts from the image starts from the state
      that was built; exactly the listed tokens are bridged
      ([BridgedTokens.parse_json_listed]).
    - The Solidity ABI (C34, C35): what Move encodes it decodes, for the types the
      code maps to Solidity and for strings on their own, and what is decoded has
      the type asked for.
    - Transaction data (C36, C37), the base fee (C38, C39), the L1 fee
      ([Fees.l1_fee_is_ecotone]).

    ** Interfaces, fuel and bounds

    Third-party code (the Move VM, revm, alloy's RLP and signatures, hashes,
    Merkle tries, evmap) and Move code are class parameters.  What is relied on of
    them is in the law classes ([EvMapLaws], [EthTrieLaws], [EthLedger],
    [AccountModule], [BcsLaws], [ChangeSetLaws], [EvmStateLaws], [RevmLaws],
    [StateReadingLaws], [RocksDbLaws], [TrieReadsLaws], [HeedLaws], [HeedReadsLaws],
    [JsonLaws], [EngineJsonLaws], [SolCodecLaws], [AbiNativesLaws],
    [EffectsOpsLaws], [ImageCodecLaws], [FrameworkLaws], [RocksOpenLaws],
    [HeedOpenLaws]) or a named hypothesis; each
    has an instance, and each theorem with hypotheses a [_witness] at a concrete
    input.  Hash functions
    are not assumed injective in general: the theorems that keep old states
    readable (C2, C5, C21 to C23, C30, C32) take it of the hash of trie nodes that it does not collide
    ([World.NoNodeCollision]), others of the values they name.

    [TagValidation.validate_stack] is the one loop with fuel in its state: it
    starts with the number of values of the argument, and C25 and C26 show it never
    runs out.  The pairing iterator of [Primitives] is proved to stop within the length
    of its input.  Stripping the prefix of a token
    ([Server.trim_bearer]) has the length of the text as fuel.  Everything else is
    structural.  Integers keep their width
    ([uint 64], [uint 256]): saturating, wrapping and narrowing operations are
    written out, and the theorems bound inputs only by their types, except for
    the height of the chain (below 2^64) and what
    [Fees.l1_fee_is_ecotone] needs for the L1 fee.

    ** Not modelled

    Of the genesis builder the calls of git, of the Move compilers and of the
    template engine; the hooks of test doubles; the registration of the natives.
    HTTP, the verification of tokens, the proxy to
    op-geth, JSON codecs of single types, revm and the Move VM are parameters.
    In the node of [Server] a request is answered in one step; what its reads can
    find when the actor writes between them is in [Publication], in memory, for
    sequentially consistent writes (each insert and refresh of a map is one
    step).  [Crash] takes the batches RocksDB reported written for durable, in
    their order, and what the execution of a block's transactions yields as an
    argument of the build.  [RocksNode] executes them: there the VM is a parameter
    that reads the state, the storage tries and the block hashes of the disk, and
    C20 takes of it that what it does depends on what it reads, that the cache of
    its resolver has the content of the state trie, and that the database does not
    fail. *)
From stdpp Require Export base option list gmap strings.
From Stdlib Require Export ZArith Lia.

#[export] Set Default Goal Selector "!".

(** ** Panics and errors

    A Rust function either returns or panics; [exec] is that choice.  A
    [Result] is [result], with the error first so that [result E] is a
    functor. *)
Inductive exec (A : Type) : Type :=
| Done (a : A)
| Panic.
Arguments Done {_} _.
Arguments Panic {_}.

Inductive result (E A : Type) : Type :=
| Ok (a : A)
| Err (e : E).
Arguments Ok {_ _} _.
Arguments Err {_ _} _.

#[export] Instance exec_ret : MRet exec := @Done.
#[export] Instance exec_bind : MBind exec := λ A B f m,
  match m with Done a => f a | Panic => Panic end.
#[export] Instance exec_fmap : FMap exec := λ A B f m,
  match m with Done a => Done (f a) | Panic => Panic end.

#[export] Instance result_ret {E} : MRet (result E) := @Ok E.
#[export] Instance result_bind {E} : MBind (result E) := λ A B f m,
  match m with Ok a => f a | Err e => Err e end.
#[export] Instance result_fmap {E} : FMap (result E) := λ A B f m,
  match m with Ok a => Ok (f a) | Err e => Err e end.

(** [Option::ok_or], [Result::map_err], [Result::ok], [Result::is_ok]. *)
Definition ok_or {E A} (o : option A) (e : E) : result E A :=
  match o with Some a => Ok a | None => Err e end.
Definition map_err {E F A} (f : E → F) (r : result E A) : result F A :=
  match r with Ok a => Ok a | Err e => Err (f e) end.
Definition ok {E A} (r : result E A) : option A :=
  match r with Ok a => Some a | Err _ => None end.
Definition is_ok {E A} (r : result E A) : bool :=
  match r with Ok _ => true | Err _ => false end.

(** [Result::unwrap], [Option::expect], [panic!] on a failed condition. *)
Definition unwrap {E A} (r : result E A) : exec A :=
  match r with Ok a => Done a | Err _ => Panic end.
Definition expect {A} (o : option A) : exec A :=
  match o with Some a => Done a | None => Panic end.
Definition assert_or_panic (b : bool) : exec unit := if b then Done () else Panic.

Definition no_panic {A} (m : exec A) : Prop := ∃ a, m = Done a.

Lemma bind_Done {A B} (m : exec A) (f : A → exec B) b :
  m ≫= f = Done b ↔ ∃ a, m = Done a ∧ f a = Done b.
Proof. destruct m; naive_solver. Qed.

Lemma bind_Ok {E A B} (m : result E A) (f : A → result E B) b :
  m ≫= f = Ok b ↔ ∃ a, m = Ok a ∧ f a = Ok b.
Proof. destruct m; naive_solver. Qed.

Lemma expect_Done {A} (o : option A) a : expect o = Done a ↔ o = Some a.
Proof. destruct o; naive_solver. Qed.

Lemma unwrap_Done {E A} (r : result E A) a : unwrap r = Done a ↔ r = Ok a.
Proof. destruct r; naive_solver. Qed.

(** A map whose function may panic. *)
Fixpoint exec_map {A B} (f : A → exec B) (l : list A) : exec (list B) :=
  match l with
  | [] => Done []
  | x :: l => y ← f x; ys ← exec_map f l; Done (y :: ys)
  end.

Lemma exec_map_Done {A B} (f : A → exec B) l ys :
  exec_map f l = Done ys → Forall2 (λ x y, f x = Done y) l ys.
Proof.
  revert ys. induction l as [|x l IH]; simpl; intros ys Hys; simplify_eq/=; [constructor|].
  apply bind_Done in Hys as (y & Hy & Hys). apply bind_Done in Hys as (ys' & Hys' & Hys).
  simplify_eq/=. constructor; auto.
Qed.

(** A [Result] of code that may panic, and the question mark on it. *)
Definition qbind {E A B} (m : exec (result E A)) (f : A → exec (result E B)) : exec (result E B) :=
  match m with
  | Done (Ok a) => f a
  | Done (Err e) => Done (Err e)
  | Panic => Panic
  end.
Notation "x ←? m ; k" := (qbind m (λ x, k))
  (at level 20, m at level 100, k at level 200, only parsing).
Notation "' x ←? m ; k" := (qbind m (λ x, k))
  (at level 20, x pattern, m at level 100, k at level 200, only parsing).

Lemma qbind_Ok {E A B} (m : exec (result E A)) (f : A → exec (result E B)) b :
  qbind m f = Done (Ok b) ↔ ∃ a, m = Done (Ok a) ∧ f a = Done (Ok b).
Proof. destruct m as [[a|e]|]; simpl; naive_solver. Qed.

(** A value that may panic, as a result. *)
Definition qret {E A} (m : exec A) : exec (result E A) := Ok <$> m.

(** ** State with errors and panics

    Code that mutates a shared object and returns a [Result]: the state
    reached so far survives an [Err] (the early return of [?]), a panic
    loses it. *)
Definition cmd (S E A : Type) : Type := S → exec (result E A * S).

Definition cret {S E A} (a : A) : cmd S E A := λ s, Done (Ok a, s).
Definition cfail {S E A} (e : E) : cmd S E A := λ s, Done (Err e, s).
Definition cpanic {S E A} : cmd S E A := λ _, Panic.
Definition cbind {S E A B} (m : cmd S E A) (f : A → cmd S E B) : cmd S E B := λ s,
  match m s with
  | Done (Ok a, s') => f a s'
  | Done (Err e, s') => Done (Err e, s')
  | Panic => Panic
  end.
(** The result as a value: what a Rust caller that matches on it sees. *)
Definition ctry {S E F A} (m : cmd S E A) : cmd S F (result E A) := λ s,
  match m s with
  | Done (r, s') => Done (Ok r, s')
  | Panic => Panic
  end.
Definition cmap_err {S E F A} (g : E → F) (m : cmd S E A) : cmd S F A := λ s,
  match m s with
  | Done (r, s') => Done (map_err g r, s')
  | Panic => Panic
  end.
Definition clift {S E A} (r : result E A) : cmd S E A := λ s, Done (r, s).
Definition cexec {S E A} (r : exec A) : cmd S E A := λ s,
  match r with Done a => Done (Ok a, s) | Panic => Panic end.

Declare Scope cmd_scope.
Delimit Scope cmd_scope with cmd.
Notation "'let!' x := m 'in' k" := (cbind m (λ x, k))
  (at level 10, x pattern, m at level 100, k at level 200) : cmd_scope.
Notation "m ;;! k" := (cbind m (λ _, k))
  (at level 199, right associativity) : cmd_scope.

Fixpoint cfor {S E A} (f : A → cmd S E unit) (l : list A) : cmd S E unit :=
  match l with
  | [] => cret ()
  | x :: l => cbind (f x) (λ _, cfor f l)
  end.

Lemma cbind_Done {S E A B} (m : cmd S E A) (f : A → cmd S E B) s r s'' :
  cbind m f s = Done (r, s'') ↔
  (∃ a s', m s = Done (Ok a, s') ∧ f a s' = Done (r, s''))
  ∨ (∃ e, m s = Done (Err e, s'') ∧ r = Err e).
Proof.
  unfold cbind. destruct (m s) as [[[a|e] s']|]; naive_solver.
Qed.

Lemma cbind_ret_l {S E A B} (a : A) (f : A → cmd S E B) s :
  cbind (cret a) f s = f a s.
Proof. done. Qed.

Lemma cfor_app {S E A} (f : A → cmd S E unit) l1 l2 s :
  cfor f (l1 ++ l2) s = cbind (cfor f l1) (λ _, cfor f l2) s.
Proof.
  revert s. induction l1 as [|x l1 IH]; intros s; [done|]. simpl.
  unfold cbind. destruct (f x s) as [[[]]|]; [|done|done]. by rewrite IH.
Qed.

(** ** Machine integers

    An unsigned integer of [w] bits is a [Z] in [0, 2^w).  Ruint's operators
    on [U256] and Rust's on [u64] in release builds wrap; the saturating and
    checked variants are written out. *)
Local Open Scope Z_scope.

Definition umax (w : Z) : Z := 2 ^ w - 1.
Definition wrap (w z : Z) : Z := z mod 2 ^ w.
Definition uint (w z : Z) : Prop := 0 ≤ z < 2 ^ w.
Definition sat_add (w a b : Z) : Z := Z.min (a + b) (umax w).
Definition sat_sub (a b : Z) : Z := Z.max (a - b) 0.
Definition sat_mul (w a b : Z) : Z := Z.min (a * b) (umax w).
Definition checked_sub (a b : Z) : option Z :=
  if decide (b ≤ a) then Some (a - b) else None.
(** [saturating_to::<T>()] for a [w]-bit target. *)
Definition sat_to (w z : Z) : Z := Z.min z (umax w).
(** Integer division panics on a zero divisor. *)
Definition div_exec (a b : Z) : exec Z := if decide (b = 0) then Panic else Done (a / b).

#[export] Instance uint_dec w z : Decision (uint w z).
Proof. unfold uint. apply _. Defined.

Lemma pow2_pos w : 0 ≤ w → 0 < 2 ^ w.
Proof. intros. apply Z.pow_pos_nonneg; lia. Qed.

Lemma wrap_small w z : uint w z → wrap w z = z.
Proof. apply Z.mod_small. Qed.

Lemma wrap_uint w z : 0 ≤ w → uint w (wrap w z).
Proof. intros. apply Z.mod_pos_bound, pow2_pos. done. Qed.

Lemma sat_add_uint w a b : 0 ≤ w → 0 ≤ a → 0 ≤ b → uint w (sat_add w a b).
Proof. intros Hw. pose proof (pow2_pos w Hw). unfold uint, sat_add, umax. lia. Qed.

Lemma sat_mul_uint w a b : 0 ≤ w → 0 ≤ a → 0 ≤ b → uint w (sat_mul w a b).
Proof. intros Hw. pose proof (pow2_pos w Hw). unfold uint, sat_mul, umax. nia. Qed.

Lemma sat_add_exact w a b : a + b < 2 ^ w → sat_add w a b = a + b.
Proof. unfold sat_add, umax. lia. Qed.

Lemma sat_mul_exact w a b : a * b < 2 ^ w → sat_mul w a b = a * b.
Proof. unfold sat_mul, umax. lia. Qed.

Lemma sat_to_exact w z : z < 2 ^ w → sat_to w z = z.
Proof. unfold sat_to, umax. lia. Qed.

Lemma uint_weaken w w' z : 0 ≤ w ≤ w' → uint w z → uint w' z.
Proof.
  unfold uint. intros ? [??]. split; [done|].
  eapply Z.lt_le_trans; [done|]. apply Z.pow_le_mono_r; lia.
Qed.

(** ** Bytes

    A byte is a [Z] in [0, 256); addresses, hashes and buffers are lists of
    bytes. *)
Abbreviation bytes := (list Z).

Definition is_byte (b : Z) : Prop := 0 ≤ b < 256.
Definition is_bytes (l : bytes) : Prop := Forall is_byte l.
Definition bytes_len (n : nat) (l : bytes) : Prop := length l = n ∧ is_bytes l.

(** The bytes of a text. *)
Definition string_bytes (s : string) : bytes :=
  (λ a, Z.of_N (Ascii.N_of_ascii a)) <$> String.list_ascii_of_string s.

Fixpoint le_bytes (n : nat) (z : Z) : bytes :=
  match n with
  | O => []
  | S n => z mod 256 :: le_bytes n (z / 256)
  end.
Definition be_bytes (n : nat) (z : Z) : bytes := rev (le_bytes n z).
Definition le_val (l : bytes) : Z := foldr (λ b acc, b + 256 * acc) 0 l.
Definition be_val (l : bytes) : Z := le_val (rev l).

Lemma length_le_bytes n z : length (le_bytes n z) = n.
Proof. revert z. induction n; simpl; auto. Qed.

Lemma length_be_bytes n z : length (be_bytes n z) = n.
Proof. unfold be_bytes. by rewrite length_rev, length_le_bytes. Qed.

Lemma le_bytes_is_bytes n z : is_bytes (le_bytes n z).
Proof.
  revert z. induction n as [|n IH]; intros z; simpl; constructor; [|apply IH].
  apply Z.mod_pos_bound. lia.
Qed.

Lemma be_bytes_is_bytes n z : is_bytes (be_bytes n z).
Proof. apply Forall_rev, le_bytes_is_bytes. Qed.

Lemma pow256_succ n : 2 ^ (8 * Z.of_nat (S n)) = 256 * 2 ^ (8 * Z.of_nat n).
Proof.
  replace (8 * Z.of_nat (S n)) with (8 + 8 * Z.of_nat n) by lia.
  rewrite Z.pow_add_r by lia. reflexivity.
Qed.

Lemma le_val_bytes n z : le_val (le_bytes n z) = wrap (8 * Z.of_nat n) z.
Proof.
  revert z. induction n as [|n IH]; intros z.
  - unfold wrap. simpl. by rewrite Z.mod_1_r.
  - simpl. rewrite IH. unfold wrap. rewrite pow256_succ.
    pose proof (pow2_pos (8 * Z.of_nat n) ltac:(lia)).
    rewrite (Z.rem_mul_r z 256) by lia. lia.
Qed.

Lemma le_val_bound l : is_bytes l → uint (8 * Z.of_nat (length l)) (le_val l).
Proof.
  unfold uint. induction 1 as [|b l Hb Hl IH]; [simpl; lia|].
  cbn [length le_val foldr]. fold (le_val l). rewrite pow256_succ. unfold is_byte in Hb. lia.
Qed.

Lemma le_bytes_val l : is_bytes l → le_bytes (length l) (le_val l) = l.
Proof.
  induction 1 as [|b l Hb Hl IH]; [done|].
  cbn [length le_val foldr le_bytes]. fold (le_val l). unfold is_byte in Hb. f_equal.
  - rewrite Z.mul_comm, Z.mod_add by lia. apply Z.mod_small. lia.
  - rewrite Z.mul_comm, Z.div_add by lia. rewrite Z.div_small by lia. done.
Qed.

Lemma be_val_bytes n z : be_val (be_bytes n z) = wrap (8 * Z.of_nat n) z.
Proof. unfold be_val, be_bytes. by rewrite rev_involutive, le_val_bytes. Qed.

Lemma be_bytes_val n l : bytes_len n l → be_bytes n (be_val l) = l.
Proof.
  intros [<- Hl]. unfold be_val, be_bytes. rewrite <- length_rev.
  rewrite le_bytes_val by by apply Forall_rev. apply rev_involutive.
Qed.

Lemma be_val_bound l : is_bytes l → uint (8 * Z.of_nat (length l)) (be_val l).
Proof.
  intros Hl. unfold be_val. rewrite <- length_rev. by apply le_val_bound, Forall_rev.
Qed.

Lemma is_bytes_drop n l : is_bytes l → is_bytes (drop n l).
Proof. apply Forall_drop. Qed.

Lemma is_bytes_take n l : is_bytes l → is_bytes (take n l).
Proof. apply Forall_take. Qed.

(** Rust's slice [&data[a..b]]: panics out of range. *)
Definition slice (data : bytes) (a b : nat) : exec bytes :=
  if decide (a ≤ b ∧ b ≤ length data)%nat then Done (take (b - a) (drop a data)) else Panic.

Lemma slice_length data a b s : slice data a b = Done s → length s = (b - a)%nat.
Proof.
  unfold slice. case_decide; [|done]. intros [= <-].
  rewrite length_take, length_drop. lia.
Qed.

(** The order Rust's [Ord] gives fixed-size byte arrays: lexicographic. *)
Fixpoint bytes_le (a b : bytes) : bool :=
  match a, b with
  | [], _ => true
  | _ :: _, [] => false
  | x :: a, y :: b => if x <? y then true else if y <? x then false else bytes_le a b
  end.

(** ** Lists *)
Definition zsum (l : list Z) : Z := foldr Z.add 0 l.

Lemma zsum_app l1 l2 : zsum (l1 ++ l2) = zsum l1 + zsum l2.
Proof. unfold zsum. induction l1; simpl; lia. Qed.

Lemma zsum_nonneg l : Forall (λ z, 0 ≤ z) l → 0 ≤ zsum l.
Proof. unfold zsum. induction 1; simpl; lia. Qed.

(** [Forall] by recursion, for predicates on trees. *)
Definition every {A} (P : A → Prop) : list A → Prop := foldr (λ x Q, P x ∧ Q) True.

Lemma every_Forall {A} (P : A → Prop) l : every P l ↔ Forall P l.
Proof.
  unfold every. induction l as [|x l IH]; simpl; [by split|]. rewrite IH. by rewrite Forall_cons.
Qed.

(** Lookup in an association list. *)
Fixpoint assoc {K V} `{EqDecision K} (k : K) (l : list (K * V)) : option V :=
  match l with
  | [] => None
  | (k', v) :: l => if decide (k = k') then Some v else assoc k l
  end.

Lemma assoc_None {K V} `{EqDecision K} (k : K) (l : list (K * V)) : assoc k l = None ↔ k ∉ l.*1.
Proof.
  induction l as [|[k' v] l IH]; simpl; [by split; [intros _; apply not_elem_of_nil|]|].
  rewrite not_elem_of_cons, <- IH. case_decide; naive_solver.
Qed.

Lemma assoc_in {K V} `{EqDecision K} (k : K) (v : V) l : assoc k l = Some v → (k, v) ∈ l.
Proof.
  induction l as [|[k' v'] l IH]; simpl; [done|]. case_decide as Hk.
  - intros [= <-]. subst. apply elem_of_cons. by left.
  - intros Hl. apply elem_of_cons. right. by apply IH.
Qed.

Lemma assoc_nodup {K V} `{EqDecision K} (k : K) (v : V) l :
  NoDup l.*1 → (k, v) ∈ l → assoc k l = Some v.
Proof.
  induction l as [|[k' v'] l IH]; simpl; [by intros _ ?%not_elem_of_nil|].
  intros [Hni Hnd]%NoDup_cons [[= <- <-]|Hin]%elem_of_cons; [by rewrite decide_True|].
  rewrite decide_False; [by apply IH|]. intros ->. apply Hni. apply list_elem_of_fmap. by exists (k', v).
Qed.

(** ** Automation *)
Create HintDb opmove.
#[export] Hint Resolve wrap_small sat_add_exact sat_mul_exact sat_to_exact : opmove.
#[export] Hint Resolve le_bytes_is_bytes be_bytes_is_bytes is_bytes_drop is_bytes_take : opmove.
#[export] Hint Rewrite @length_le_bytes @length_be_bytes @cbind_ret_l : opmove.

(** Case analysis on the scrutinee of the first match or decision found. *)
Ltac case_one :=
  match goal with
  | |- context [ decide ?P ] => destruct (decide P)
  | |- context [ match ?x with _ => _ end ] => destruct x eqn:?
  | H : context [ decide ?P ] |- _ => destruct (decide P)
  | H : context [ match ?x with _ => _ end ] |- _ => destruct x eqn:?
  end.
Ltac inv_done := repeat (case_one; simplify_eq/=).

(** Arithmetic on machine integers with the widths made concrete. *)
Ltac uint_lia := unfold uint, umax, sat_add, sat_sub, sat_mul, sat_to, wrap in *; lia.
