(* ===== verification/Primitives.v ===== *)
(** Primitive conversions and iterator adaptors of [shared/src/primitives.rs]
    and [shared/src/iter.rs]: addresses between Ethereum's 20 and Move's 32
    bytes, 64- and 256-bit words between their representations, pairing and
    grouping iterators. *)
From S2P Require Import Prelude.

Local Open Scope Z_scope.

(** [Address] is 20 bytes, [AccountAddress] and [B256] are 32 bytes. *)
Abbreviation Address := bytes.
Abbreviation AccountAddress := bytes.
Abbreviation B256 := bytes.

(** The [n] 64-bit limbs of a word, least significant first ([into_limbs]). *)
Fixpoint limbs (n : nat) (z : Z) : list Z :=
  match n with
  | O => []
  | S n => wrap 64 z :: limbs n (z / 2 ^ 64)
  end.

Module Addresses.

(** Source: shared/src/primitives.rs 9-19 [AccountAddress::to_eth_address] *)
Definition to_eth_address (a : AccountAddress) : Address := drop 12 a.

(** Source: shared/src/primitives.rs 21-32 [to_move_address] *)
Definition to_move_address (a : Address) : AccountAddress := replicate 12 0 ++ a.

Lemma to_move_address_len a : bytes_len 20 a → bytes_len 32 (to_move_address a).
Proof.
  intros [Hl Hb]. unfold to_move_address. split.
  - rewrite length_app, length_replicate. lia.
  - apply Forall_app. split; [|done]. apply Forall_replicate. unfold is_byte. lia.
Qed.

Lemma to_eth_address_len a : bytes_len 32 a → bytes_len 20 (to_eth_address a).
Proof.
  intros [Hl Hb]. unfold to_eth_address. split; [|by apply is_bytes_drop].
  rewrite length_drop. lia.
Qed.

Lemma to_eth_to_move a : to_eth_address (to_move_address a) = a.
Proof. unfold to_eth_address, to_move_address. by rewrite drop_app_length'. Qed.

Lemma to_move_address_inj a b : to_move_address a = to_move_address b → a = b.
Proof. intros H. by rewrite <- (to_eth_to_move a), H, to_eth_to_move. Qed.

(** An Ethereum address survives the trip through the Move
    address space, and a Move address survives the trip back exactly when its
    first twelve bytes are zero; so the only Move accounts an Ethereum key can
    name are the zero-padded ones, and distinct Ethereum addresses never share
    a Move account. *)
Lemma address_roundtrip :
  (∀ a, to_eth_address (to_move_address a) = a)
  ∧ (∀ m, bytes_len 32 m →
       (to_move_address (to_eth_address m) = m ↔ take 12 m = replicate 12 0))
  ∧ (∀ a b, to_move_address a = to_move_address b → a = b).
Proof.
  split; [apply to_eth_to_move|]. split; [|apply to_move_address_inj].
  intros m [Hm _]. unfold to_move_address, to_eth_address. split; intros H.
  - rewrite <- H. by rewrite take_app_length'.
  - rewrite <- H. apply take_drop.
Qed.

End Addresses.

Module Words.

(** Source: shared/src/primitives.rs 40-48 [U64::to_u64] *)
Definition to_u64 (z : Z) : Z := nth 0 (limbs 1 z) 0.

(** Source: shared/src/primitives.rs 50-61 [U256::to_saturated_u64] *)
Definition to_saturated_u64 (z : Z) : Z :=
  match limbs 4 z with
  | [value; 0; 0; 0] => value
  | _ => umax 64
  end.

(** Source: shared/src/primitives.rs 63-71 [MoveU256::to_u256] *)
Definition to_u256 (z : Z) : Z := le_val (le_bytes 32 z).

(** Source: shared/src/primitives.rs 73-81 [B256::to_move_u256] *)
Definition B256_to_move_u256 (b : B256) : Z := le_val b.

(** Source: shared/src/primitives.rs 83-87 [U256::to_move_u256] *)
Definition U256_to_move_u256 (z : Z) : Z := le_val (le_bytes 32 z).

(** Source: shared/src/primitives.rs 89-93 [u128::to_move_u256] *)
Definition u128_to_move_u256 (z : Z) : Z := z.

Lemma to_u64_wrap z : to_u64 z = wrap 64 z.
Proof. done. Qed.

Lemma to_u64_small z : uint 64 z → to_u64 z = z.
Proof. rewrite to_u64_wrap. apply wrap_small. Qed.

Lemma to_u256_id z : uint 256 z → to_u256 z = z.
Proof. intros H. unfold to_u256. rewrite le_val_bytes. by apply wrap_small. Qed.

Lemma U256_to_move_u256_id z : uint 256 z → U256_to_move_u256 z = z.
Proof. apply to_u256_id. Qed.

Lemma limbs_le z : 0 ≤ z < 2 ^ 64 → limbs 4 z = [z; 0; 0; 0].
Proof.
  intros H. cbn [limbs].
  rewrite (wrap_small 64 z), (Z.div_small z) by done.
  by rewrite !(Z.div_0_l (2 ^ 64)).
Qed.

Lemma limbs_gt z : uint 256 z → 2 ^ 64 ≤ z →
  ∃ a b c d, limbs 4 z = [a; b; c; d] ∧ (b ≠ 0 ∨ c ≠ 0 ∨ d ≠ 0).
Proof.
  intros [_ Hz] Hlt. cbn [limbs]. do 4 eexists. split; [done|].
  unfold wrap.
  set (y := z / 2 ^ 64). assert (0 < y) as Hy by (apply Z.div_str_pos; lia).
  assert (y < 2 ^ 192) as Hy' by (apply Z.div_lt_upper_bound; lia).
  destruct (decide (y mod 2 ^ 64 = 0)) as [H0|]; [|by left].
  destruct (decide ((y / 2 ^ 64) mod 2 ^ 64 = 0)) as [H1|]; [|by right; left].
  right. right.
  pose proof (Z.div_mod y (2 ^ 64) ltac:(done)).
  pose proof (Z.div_mod (y / 2 ^ 64) (2 ^ 64) ltac:(done)).
  set (w := y / 2 ^ 64 / 2 ^ 64) in *.
  rewrite Z.mod_small; lia.
Qed.

(** Reading a 256-bit word as 64 bits is exact up to [u64::MAX]
    and saturates above, for every word; no limb is dropped silently. *)
Lemma to_saturated_u64_spec z : uint 256 z → to_saturated_u64 z = Z.min z (umax 64).
Proof.
  intros Hz. unfold to_saturated_u64. destruct (decide (z < 2 ^ 64)).
  - rewrite limbs_le by (unfold uint in Hz; lia). unfold umax. lia.
  - destruct (limbs_gt z) as (a & b & c & d & -> & H); [done|lia|].
    unfold umax. rewrite Z.min_r by lia.
    destruct b; [|done|done]. destruct c; [|done|done]. destruct d; naive_solver.
Qed.

Lemma to_saturated_u64_witness :
  uint 256 (2 ^ 64) ∧ to_saturated_u64 (2 ^ 64) = Z.min (2 ^ 64) (umax 64).
Proof. split; [done|]. apply to_saturated_u64_spec. done. Defined.

End Words.

Module Iter.

(** Source: shared/src/iter.rs 89-93 [PairOrSingle] *)
Inductive PairOrSingle (T : Type) :=
| Pair (a b : T)
| Single (a : T).
Arguments Pair {_} _ _.
Arguments Single {_} _.

(** The inner iterator is the list of the items it has left.
    Source: shared/src/iter.rs 116-123 [PairIterator::next] *)
Definition next {T} (inner : list T) : option (PairOrSingle T * list T) :=
  match inner with
  | [] => None
  | first :: inner =>
    Some (match inner with
          | second :: inner => (Pair first second, inner)
          | [] => (Single first, [])
          end)
  end.

(** Everything the adaptor yields: [next] until it returns [None].
    Source: shared/src/iter.rs 78-82 [pair] *)
Fixpoint pair {T} (fuel : nat) (inner : list T) : option (list (PairOrSingle T)) :=
  match next inner with
  | None => Some []
  | Some (x, inner) =>
    match fuel with
    | O => None
    | S fuel => (cons x) <$> pair fuel inner
    end
  end.

Definition flatten {T} (x : PairOrSingle T) : list T :=
  match x with Pair a b => [a; b] | Single a => [a] end.
Definition is_pair {T} (x : PairOrSingle T) : Prop :=
  match x with Pair _ _ => True | Single _ => False end.

(** Pairing an iterator of [n] items stops after at most [n]
    steps; what it yields, flattened, is the input in order, and only the last
    item, and only for an odd length, is a single. *)
Lemma pair_spec {T} (l : list T) (fuel : nat) : (length l ≤ fuel)%nat →
  ∃ ps last, pair fuel l = Some (ps ++ last) ∧ l = concat (flatten <$> ps ++ last)
  ∧ Forall is_pair ps
  ∧ (last = [] ∧ Nat.Even (length l) ∨ ∃ a, last = [Single a] ∧ Nat.Odd (length l)).
Proof.
  revert fuel. induction l as [l IH] using (induction_ltof1 _ length). intros fuel Hf.
  destruct l as [|a [|b l]].
  - exists [], []. destruct fuel; simpl; repeat split; try done; left; split; auto; by exists 0%nat.
  - exists [], [Single a]. destruct fuel as [|[]]; simpl in *; try lia.
    all: repeat split; try done; right; exists a; split; auto; by exists 0%nat.
  - destruct fuel as [|fuel]; [simpl in Hf; lia|].
    destruct (IH l) with (fuel := fuel) as (ps & last & Hp & Hl & Hps & Hlast);
      [unfold ltof; simpl; lia|simpl in Hf; lia|].
    exists (Pair a b :: ps), last. repeat split.
    + simpl. by rewrite Hp.
    + rewrite <- app_comm_cons, fmap_cons. cbn [concat flatten app]. by rewrite <- Hl.
    + by constructor.
    + destruct Hlast as [[-> He]|(x & -> & Ho)]; [left|right; exists x];
        (split; [done|]); simpl.
      * destruct He as [k ->]. exists (S k). lia.
      * destruct Ho as [k ->]. exists (S k). lia.
Qed.

Lemma pair_witness : (length [1; 2; 3] ≤ 3)%nat ∧ ∃ ps last,
  pair 3 [1; 2; 3] = Some (ps ++ last) ∧ [1; 2; 3] = concat (flatten <$> ps ++ last)
  ∧ Forall is_pair ps
  ∧ (last = [] ∧ Nat.Even (length [1; 2; 3]) ∨ ∃ a, last = [Single a] ∧ Nat.Odd (length [1; 2; 3])).
Proof. split; [done|]. apply pair_spec. done. Defined.

(** [entry(key).or_insert_with(Vec::new).push(value)].
    Source: shared/src/iter.rs 27-32 [group_by] *)
Definition push_entry {K V} `{Countable K} (m : gmap K (list V)) (key : K) (value : V)
    : gmap K (list V) :=
  <[ key := default [] (m !! key) ++ [value] ]> m.

(** Source: shared/src/iter.rs 20-36 [group_by] *)
Definition group_by {K V} `{Countable K} (f : V → K) (l : list V) : gmap K (list V) :=
  fold_left (λ m v, push_entry m (f v) v) l ∅.

Lemma group_by_snoc {K V} `{Countable K} (f : V → K) l v :
  group_by f (l ++ [v]) = push_entry (group_by f l) (f v) v.
Proof. unfold group_by. by rewrite fold_left_app. Qed.

(** Grouping keeps, under each key, exactly the values with
    that key in their original order, and has no entry for a key no value has. *)
Lemma group_by_lookup {K V} `{Countable K} (f : V → K) (l : list V) (k : K) :
  group_by f l !! k =
    match filter (λ v, f v = k) l with [] => None | g => Some g end.
Proof.
  induction l as [|v l IH] using rev_ind; [done|].
  rewrite group_by_snoc, filter_app. unfold push_entry.
  destruct (decide (f v = k)) as [Hk|Hk].
  - rewrite Hk, lookup_insert_eq, IH. rewrite (filter_cons_True _ v) by done. simpl.
    by destruct (filter _ l).
  - rewrite lookup_insert_ne by done. rewrite IH, (filter_cons_False _ v) by done.
    simpl. by rewrite app_nil_r.
Qed.

End Iter.
