(* ===== verification/MoveTypes.v ===== *)
(** The data types of the Move core library that the program builds and takes
    apart by their constructors: type tags, values and layouts.  They are data
    only; every operation the library defines on them is a parameter of the
    component that calls it. *)
From S2P Require Import Prelude Primitives.

Local Open Scope Z_scope.

(** [move_core_types::language_storage::TypeTag] and [StructTag]. *)
Inductive TypeTag :=
| TBool | TU8 | TU16 | TU32 | TU64 | TU128 | TU256 | TAddress | TSigner
| TVector (t : TypeTag)
| TStruct (s : StructTag)
with StructTag :=
| MkStructTag (address : AccountAddress) (module name : string) (type_args : list TypeTag).

Definition tag_address (s : StructTag) := let '(MkStructTag a _ _ _) := s in a.
Definition tag_module (s : StructTag) := let '(MkStructTag _ m _ _) := s in m.
Definition tag_name (s : StructTag) := let '(MkStructTag _ _ n _) := s in n.
Definition tag_type_args (s : StructTag) := let '(MkStructTag _ _ _ l) := s in l.

(** [ModuleId]: the address and the name of a module. *)
Record ModuleId := MkModuleId { module_address : AccountAddress; module_name : string }.

Definition tag_module_id (s : StructTag) : ModuleId := MkModuleId (tag_address s) (tag_module s).

(** [move_core_types::value::MoveValue]; a struct is seen through
    [into_optional_variant_and_fields]. *)
Inductive MoveValue :=
| VBool (b : bool)
| VU8 (z : Z) | VU16 (z : Z) | VU32 (z : Z) | VU64 (z : Z) | VU128 (z : Z) | VU256 (z : Z)
| VAddress (a : AccountAddress)
| VSigner (a : AccountAddress)
| VVector (l : list MoveValue)
| VStruct (variant : option Z) (fields : list MoveValue).

(** [move_core_types::value::MoveTypeLayout] and [MoveStructLayout]; a field is
    its name with its layout.  A native layout comes with the kind of the native,
    which the program does not look at. *)
Inductive MoveTypeLayout :=
| LBool | LU8 | LU16 | LU32 | LU64 | LU128 | LU256 | LAddress | LSigner
| LVector (l : MoveTypeLayout)
| LStruct (s : MoveStructLayout)
| LNative (l : MoveTypeLayout)
with MoveStructLayout :=
| LRuntime (fields : list MoveTypeLayout)
| LWithTypes (type_ : StructTag) (fields : list (string * MoveTypeLayout))
| LWithFields (fields : list (string * MoveTypeLayout))
| LRuntimeVariants (variants : list (list MoveTypeLayout))
| LWithVariants (variants : list (string * list (string * MoveTypeLayout))).

(** Induction on layouts through the fields of structs with types. *)
Section LayoutInduction.
Variable P : MoveTypeLayout → Prop.
Hypothesis P_basic : ∀ l, match l with LVector _ | LStruct _ | LNative _ => False | _ => True end → P l.
Hypothesis P_vector : ∀ l, P l → P (LVector l).
Hypothesis P_native : ∀ l, P l → P (LNative l).
Hypothesis P_typed : ∀ tag fields, Forall (λ f, P f.2) fields → P (LStruct (LWithTypes tag fields)).
Hypothesis P_struct : ∀ s, match s with LWithTypes _ _ => False | _ => True end → P (LStruct s).

Lemma layout_fields_ind : ∀ l, P l.
Proof.
  fix IH 1. intros [| | | | | | | | |l|s|l]; try by apply P_basic.
  - apply P_vector, IH.
  - destruct s as [|tag fields| | |]; try by apply P_struct.
    apply P_typed. induction fields as [|[name l] fields IHf]; constructor; [apply IH|exact IHf].
  - apply P_native, IH.
Qed.
End LayoutInduction.

Fixpoint TypeTag_eq_dec (x y : TypeTag) : {x = y} + {x ≠ y}
with StructTag_eq_dec (x y : StructTag) : {x = y} + {x ≠ y}.
Proof.
  - decide equality.
  - decide equality; try apply String.string_dec.
    + apply (List.list_eq_dec TypeTag_eq_dec).
    + apply (List.list_eq_dec Z.eq_dec).
Defined.

#[export] Instance TypeTag_eqdec : EqDecision TypeTag := TypeTag_eq_dec.
#[export] Instance StructTag_eqdec : EqDecision StructTag := StructTag_eq_dec.
#[export] Instance ModuleId_eqdec : EqDecision ModuleId.
Proof. solve_decision. Defined.

(** [AccountAddress::ONE], the address of the framework and of the EVM native. *)
Definition address_one : AccountAddress := replicate 31 0 ++ [1].
