(* ===== verification/Errors.v ===== *)
(** The error values of [shared/src/error.rs]: user errors that still produce
    a receipt, invalid-transaction causes that drop a transaction, and
    invariant violations that stop the node. *)
From S2P Require Import Prelude Primitives MoveTypes.

Local Open Scope Z_scope.

(** The error types of the libraries, which the program only carries or asks
    for their status. *)
Class ErrorTypes := {
  VMError : Type;
  PartialVMError : Type;
  BcsError : Type;
  SignatureError : Type;
  TxType : Type;
  (** [e.major_status() == StatusCode::OUT_OF_GAS] *)
  is_out_of_gas : VMError → bool;
  (** [bcs::Error::Custom(message)] *)
  bcs_custom : string → BcsError;
}.

Section Errors.
Context `{ErrorTypes}.

(** Source: shared/src/error.rs 64-79 [UserError] *)
Inductive UserError :=
| Vm (e : VMError)
| PartialVm (e : PartialVMError)
| InvalidSignature (e : SignatureError)
| DepositFailure (output : bytes)
| L2ContractCallFailure
| EvmContractCreationFailure.

(** Source: shared/src/error.rs 81-120 [InvalidTransactionCause] *)
Inductive InvalidTransactionCause :=
| InvalidDestination
| InvalidSigner
| InvalidPayload (e : BcsError)
| MismatchedArgumentCount
| FailedArgumentDeserialization
| UnsupportedNestedReference
| UnsupportedType
| UnknownType (t : TxType)
| IncorrectNonce (expected given : Z)
| ExhaustedAccount
| IncorrectChainId
| DisallowedEntryFunctionType (t : TypeTag)
| InsufficientIntrinsicGas
| InvalidString
| InvalidOption
| InvalidObject
| FailedToPayL1Fee
| FailedToPayL2Fee.

(** Source: shared/src/error.rs 146-160 [NonceChecking] *)
Inductive NonceChecking :=
| AnyAccountCanBeCreated
| GetNonceAlwaysSucceeds
| GetNonceReturnsAValue
| GetNoneReturnDeserializes
| GetNonceReturnsU64
| IncrementNonceAlwaysSucceeds.

(** Source: shared/src/error.rs 162-176 [EthToken] *)
Inductive EthToken :=
| MintAlwaysSucceeds
| GetBalanceAlwaysSucceeds
| GetBalanceReturnsAValue
| GetBalanceReturnDeserializes
| GetBalanceReturnsU256
| RefundAlwaysSucceeds.

(** Source: shared/src/error.rs 178-204 [EntryFunctionValue] *)
Inductive EntryFunctionValue :=
| OnlyAllowedStructs
| StringStructHasField
| StringStructFieldIsVector
| StringElementsAreU8
| OptionHasInnerType
| OptionStructHasField
| OptionStructFieldIsVector
| ObjectStructHasTypeParameter
| ObjectStructHasField
| ObjectStructFieldIsAddress
| ObjectCoreTypeExists
| ObjectInnerTypeExists.

(** Source: shared/src/error.rs 206-210 [ScriptTransaction] *)
Inductive ScriptTransaction := ArgsMustSerialize.

(** Source: shared/src/error.rs 134-144 [InvariantViolation] *)
Inductive InvariantViolation :=
| NonceCheckingViolation (v : NonceChecking)
| EthTokenViolation (v : EthToken)
| EntryFunctionValueViolation (v : EntryFunctionValue)
| ScriptTransactionViolation (v : ScriptTransaction).

(** Source: shared/src/error.rs 21-35 [Error] *)
Inductive Error :=
| User (e : UserError)
| InvalidTransaction (c : InvalidTransactionCause)
| Invariant (v : InvariantViolation).

(** Source: shared/src/error.rs 38-40 [Error::nonce_invariant_violation] *)
Definition nonce_invariant_violation (v : NonceChecking) : Error :=
  Invariant (NonceCheckingViolation v).

(** Source: shared/src/error.rs 42-44 [Error::eth_token_invariant_violation] *)
Definition eth_token_invariant_violation (v : EthToken) : Error :=
  Invariant (EthTokenViolation v).

(** Source: shared/src/error.rs 46-48 [Error::entry_fn_invariant_violation] *)
Definition entry_fn_invariant_violation (v : EntryFunctionValue) : Error :=
  Invariant (EntryFunctionValueViolation v).

(** Source: shared/src/error.rs 50-52 [Error::script_tx_invariant_violation] *)
Definition script_tx_invariant_violation (v : ScriptTransaction) : Error :=
  Invariant (ScriptTransactionViolation v).

(** The conversions the question mark operator applies.
    Source: shared/src/error.rs 55-62 [From<T> for Error] *)
Definition from_vm_error (e : VMError) : Error := User (Vm e).

(** Source: shared/src/error.rs 55-62 [From<T> for Error] *)
Definition from_partial_vm_error (e : PartialVMError) : Error := User (PartialVm e).

(** Source: shared/src/error.rs 55-62 [From<T> for Error] *)
Definition from_signature_error (e : SignatureError) : Error := User (InvalidSignature e).

(** Source: shared/src/error.rs 122-126 [From<InvalidTransactionCause> for Error] *)
Definition from_cause (c : InvalidTransactionCause) : Error := InvalidTransaction c.

(** Source: shared/src/error.rs 128-132 [From<bcs::Error> for Error] *)
Definition from_bcs_error (e : BcsError) : Error := InvalidTransaction (InvalidPayload e).

End Errors.
