(* ===== verification/BaseFee.v ===== *)
(** The base fee per gas of [blockchain/src/block/gas.rs]: the EIP-1559 update
    from the parent block's gas limit, gas used and base fee, in saturating
    256-bit arithmetic. *)
From S2P Require Import Prelude.

Local Open Scope Z_scope.

(** Source: blockchain/src/block/gas.rs 37-53 [Eip1559GasFee] *)
Record Eip1559GasFee := MkEip1559GasFee {
  elasticity_multiplier : Z;
  base_fee_max_change_denominator : Z;
}.

(** Source: blockchain/src/block/gas.rs 55-72 [Eip1559GasFee::new] *)
Definition new (elasticity_multiplier base_fee_max_change_denominator : Z)
    : exec Eip1559GasFee :=
  assert_or_panic (bool_decide (elasticity_multiplier > 0));;
  assert_or_panic (bool_decide (base_fee_max_change_denominator > 0));;
  Done (MkEip1559GasFee elasticity_multiplier base_fee_max_change_denominator).

(** Source: blockchain/src/block/gas.rs 74-104 [Eip1559GasFee::base_fee_per_gas] *)
Definition base_fee_per_gas (self : Eip1559GasFee)
    (parent_gas_limit parent_gas_used parent_base_fee_per_gas : Z) : exec Z :=
  gas_target ← div_exec parent_gas_limit (elasticity_multiplier self);
  match parent_gas_used ?= gas_target with
  | Gt =>
    q ← div_exec (sat_mul 256 parent_base_fee_per_gas (parent_gas_used - gas_target)) gas_target;
    q ← div_exec q (base_fee_max_change_denominator self);
    let delta := Z.max q 1 in
    Done (sat_add 256 parent_base_fee_per_gas delta)
  | Lt =>
    q ← div_exec (sat_mul 256 parent_base_fee_per_gas (gas_target - parent_gas_used)) gas_target;
    delta ← div_exec q (base_fee_max_change_denominator self);
    Done (sat_sub parent_base_fee_per_gas delta)
  | Eq => Done parent_base_fee_per_gas
  end.

(** A fee rule [new] accepts, and the ranges of its inputs. *)
Definition fee_wf (self : Eip1559GasFee) : Prop :=
  uint 64 (elasticity_multiplier self) ∧ elasticity_multiplier self > 0
  ∧ uint 256 (base_fee_max_change_denominator self) ∧ base_fee_max_change_denominator self > 0.

Definition gas_target (self : Eip1559GasFee) (limit : Z) : Z :=
  limit / elasticity_multiplier self.

(** EIP-1559 as specified, in unbounded integers. *)
Definition eip1559 (elasticity denominator limit used base : Z) : Z :=
  let target := limit / elasticity in
  if used =? target then base
  else if target <? used then
    base + Z.max (base * (used - target) / target / denominator) 1
  else base - base * (target - used) / target / denominator.

Lemma new_wf e d fee : uint 64 e → uint 256 d → new e d = Done fee → fee_wf fee.
Proof.
  unfold new, assert_or_panic. intros ??. repeat (case_bool_decide; simpl); try done.
  intros [= <-]. unfold fee_wf. simpl. auto.
Qed.

Lemma div_exec_pos a b : 0 < b → div_exec a b = Done (a / b).
Proof. unfold div_exec. case_decide; [lia|done]. Qed.

Lemma gas_target_bounds self limit :
  fee_wf self → uint 64 limit → 0 ≤ gas_target self limit ≤ limit.
Proof.
  intros (? & He & _) [Hl _]. unfold gas_target. split; [apply Z.div_pos; lia|].
  apply Z.div_le_upper_bound; nia.
Qed.

(** Below the target the quotient never exceeds the parent's fee. *)
Lemma delta_le base x target d :
  0 ≤ base → 0 ≤ x ≤ target → 0 < target → 0 < d → 0 ≤ base * x / target / d ≤ base / d.
Proof.
  intros. split.
  - apply Z.div_pos; [|done]. apply Z.div_pos; [nia|done].
  - apply Z.div_le_mono; [done|]. apply Z.div_le_upper_bound; [done|]. nia.
Qed.

Lemma base_div_le base d : 0 ≤ base → 0 < d → 0 ≤ base / d ≤ base.
Proof. intros. split; [by apply Z.div_pos|]. apply Z.div_le_upper_bound; nia. Qed.

Lemma product64 a b : uint 64 a → uint 64 b → 0 ≤ a * b < 2 ^ 128.
Proof. unfold uint. intros. replace (2 ^ 128) with (2 ^ 64 * 2 ^ 64) by done. nia. Qed.

Lemma sat_mul64 a b : uint 64 a → uint 64 b → sat_mul 256 a b = a * b.
Proof. intros Ha Hb. pose proof (product64 a b Ha Hb). apply sat_mul_exact. lia. Qed.

(** The result for a parent whose fields are the 64-bit words of a header. *)
Lemma base_fee_closed self limit used base :
  fee_wf self → uint 64 limit → uint 64 used → uint 64 base →
  ¬ (gas_target self limit = 0 ∧ 0 < used) →
  base_fee_per_gas self limit used base =
    Done (eip1559 (elasticity_multiplier self) (base_fee_max_change_denominator self)
            limit used base).
Proof.
  intros Hwf Hl Hu Hb Hp. pose proof (gas_target_bounds _ _ Hwf Hl) as Ht.
  destruct Hwf as (Hwe & He & Hwd & Hd).
  unfold base_fee_per_gas, eip1559. rewrite div_exec_pos by lia. simpl.
  fold (gas_target self limit). set (t := gas_target self limit) in *.
  set (d := base_fee_max_change_denominator self) in *.
  destruct (Z.compare_spec used t) as [->|Hlt|Hgt].
  - by rewrite Z.eqb_refl.
  - replace (used =? t) with false by lia. replace (t <? used) with false by lia.
    rewrite sat_mul64 by (unfold uint in *; lia).
    rewrite !div_exec_pos by (unfold uint in *; lia). simpl.
    rewrite div_exec_pos by lia. simpl. f_equal.
    unfold uint in *.
    pose proof (delta_le base (t - used) t d ltac:(lia) ltac:(lia) ltac:(lia) ltac:(lia)).
    pose proof (base_div_le base d ltac:(lia) ltac:(lia)). unfold sat_sub. lia.
  - replace (used =? t) with false by lia. replace (t <? used) with true by lia.
    rewrite sat_mul64 by (unfold uint in *; lia).
    rewrite !div_exec_pos by (unfold uint in *; lia). simpl.
    rewrite div_exec_pos by lia. simpl. f_equal.
    unfold uint in *. set (q := base * (used - t) / t / d).
    assert (q < 2 ^ 128) as Hq.
    { unfold q. pose proof (product64 base (used - t) ltac:(done) ltac:(unfold uint; lia)) as [? Hx].
      eapply Z.le_lt_trans; [|exact Hx].
      etransitivity; [apply (Z.div_le_upper_bound _ d (base * (used - t) / t))|]; [lia| |].
      - pose proof (Z.div_pos (base * (used - t)) t). nia.
      - apply Z.div_le_upper_bound; nia. }
    apply sat_add_exact. lia.
Qed.

(** The only panic of the base fee is the division by a zero gas
    target: a parent block that used gas although its limit is below the
    elasticity multiplier. *)
Lemma base_fee_panics_iff self limit used base :
  fee_wf self → uint 64 limit → uint 64 used → uint 64 base →
  base_fee_per_gas self limit used base = Panic ↔
  limit < elasticity_multiplier self ∧ 0 < used.
Proof.
  intros Hwf Hl Hu Hb. pose proof (gas_target_bounds _ _ Hwf Hl) as Ht.
  assert (gas_target self limit = 0 ↔ limit < elasticity_multiplier self) as Hz.
  { unfold gas_target. destruct Hwf as (_ & He & _). unfold uint in *. split; intros Hx.
    - apply Z.div_small_iff in Hx; lia.
    - apply Z.div_small. lia. }
  rewrite <- Hz. split.
  - intros H. destruct (decide (gas_target self limit = 0 ∧ 0 < used)) as [|Hn]; [done|].
    rewrite base_fee_closed in H by done. done.
  - intros [H0 Hpos]. unfold base_fee_per_gas.
    destruct Hwf as (_ & He & _). rewrite div_exec_pos by lia. simpl.
    fold (gas_target self limit). rewrite H0.
    destruct (Z.compare_spec used 0); [lia|lia|done].
Qed.

Lemma base_fee_panics_witness :
  fee_wf (MkEip1559GasFee 6 50) ∧
  (base_fee_per_gas (MkEip1559GasFee 6 50) 5 1 7 = Panic ↔ 5 < 6 ∧ 0 < 1).
Proof.
  split; [unfold fee_wf, uint; simpl; lia|].
  apply (base_fee_panics_iff (MkEip1559GasFee 6 50)); [unfold fee_wf, uint; simpl; lia|done..].
Defined.

(** C38 (equivalence): for a parent header with a 64-bit gas limit, gas used and
    base fee, the saturating implementation is the unbounded EIP-1559 formula: it
    returns exactly its value, whenever the formula has one.  It has none, and
    the code panics on the division by zero, for a parent that used gas although
    its gas limit is below the elasticity multiplier. *)
Theorem base_fee_is_eip1559 self limit used base :
  fee_wf self → uint 64 limit → uint 64 used → uint 64 base →
  base_fee_per_gas self limit used base =
    if decide (limit < elasticity_multiplier self ∧ 0 < used) then Panic else
    Done (eip1559 (elasticity_multiplier self) (base_fee_max_change_denominator self)
            limit used base).
Proof.
  intros Hwf Hl Hu Hb. case_decide as Hp; [by apply base_fee_panics_iff|].
  apply base_fee_closed; [done..|]. intros [Ht Hpos]. apply Hp. split; [|done].
  destruct Hwf as (_ & He & _). unfold gas_target, uint in *. apply Z.div_small_iff in Ht; lia.
Qed.

Lemma base_fee_is_eip1559_witness :
  base_fee_per_gas (MkEip1559GasFee 6 50) 30000000 21000000 1000000000 =
    Done (eip1559 6 50 30000000 21000000 1000000000)
  ∧ base_fee_per_gas (MkEip1559GasFee 6 50) 5 1 7 = Panic.
Proof.
  split; apply (base_fee_is_eip1559 (MkEip1559GasFee 6 50)); (done || unfold fee_wf, uint; simpl; lia).
Defined.

Lemma eip1559_monotone e d limit base used1 used2 :
  0 < d → 0 < e → 0 ≤ base → 0 < limit / e → 0 ≤ used1 ≤ used2 →
  eip1559 e d limit used1 base ≤ eip1559 e d limit used2 base.
Proof.
  intros Hd He Hb Ht Hu. unfold eip1559. set (t := limit / e) in *.
  assert (∀ x y, x ≤ y → base * x / t / d ≤ base * y / t / d) as Hmono.
  { intros x y Hxy. apply Z.div_le_mono; [done|]. apply Z.div_le_mono; [done|]. nia. }
  assert (∀ x, 0 ≤ x → 0 ≤ base * x / t / d) as Hpos.
  { intros x Hx. apply Z.div_pos; [|done]. apply Z.div_pos; [nia|done]. }
  pose proof (Hpos (t - used1)). pose proof (Hpos (t - used2)).
  pose proof (Hmono (t - used2) (t - used1)). pose proof (Hmono (used1 - t) (used2 - t)).
  destruct (Z.eqb_spec used1 t), (Z.eqb_spec used2 t);
    destruct (Z.ltb_spec t used1), (Z.ltb_spec t used2); lia.
Qed.

Lemma eip1559_rise e d limit used base k :
  0 < d → 0 ≤ base → 0 < limit / e → 0 ≤ k → used ≤ (k + 1) * (limit / e) →
  eip1559 e d limit used base ≤ base + Z.max 1 (base * k / d).
Proof.
  intros Hd Hb Ht Hk Hu. unfold eip1559. set (t := limit / e) in *.
  destruct (Z.eqb_spec used t); [lia|]. destruct (Z.ltb_spec t used).
  - assert (base * (used - t) / t / d ≤ base * k / d); [|lia].
    apply Z.div_le_mono; [done|]. apply Z.div_le_upper_bound; [done|]. nia.
  - assert (0 ≤ base * (t - used) / t / d); [|lia].
    apply Z.div_pos; [apply Z.div_pos; nia|done].
Qed.

(** C39 (bounds): one block moves the base fee by a bounded step in the right
    direction.  The next fee grows with the gas the parent used; it is never below
    the parent's fee less one [1/denominator] part; it never rises at or below the
    target and strictly rises above it, but a parent that used at most [k] times
    the target beyond the target raises it by at most [k] such parts, or by one
    where these are nothing. *)
Theorem base_fee_step self limit used1 used2 base fee1 fee2 k :
  fee_wf self → uint 64 limit → uint 64 used1 → uint 64 used2 → uint 64 base →
  0 < limit / elasticity_multiplier self → used1 ≤ used2 →
  0 ≤ k → used2 ≤ (k + 1) * (limit / elasticity_multiplier self) →
  base_fee_per_gas self limit used1 base = Done fee1 →
  base_fee_per_gas self limit used2 base = Done fee2 →
  fee1 ≤ fee2
  ∧ base - base / base_fee_max_change_denominator self ≤ fee1
  ∧ fee2 ≤ base + Z.max 1 (base * k / base_fee_max_change_denominator self)
  ∧ (limit / elasticity_multiplier self < used1 → base < fee1)
  ∧ (used1 ≤ limit / elasticity_multiplier self → fee1 ≤ base).
Proof.
  intros Hwf Hl Hu1 Hu2 Hb Ht Hle Hk Hmul. pose proof Hwf as (_ & He & _ & Hd).
  rewrite !base_fee_closed by (done || unfold gas_target; lia).
  intros [= <-] [= <-]. unfold uint in *.
  split; [apply eip1559_monotone; lia|].
  pose proof (eip1559_rise (elasticity_multiplier self) (base_fee_max_change_denominator self)
    limit used2 base k ltac:(lia) ltac:(lia) Ht Hk Hmul) as Hrise.
  unfold eip1559 in *. set (t := limit / elasticity_multiplier self) in *.
  set (d := base_fee_max_change_denominator self) in *.
  pose proof (base_div_le base d ltac:(lia) ltac:(lia)).
  destruct (Z.eqb_spec used1 t); [lia|]. destruct (Z.ltb_spec t used1); [lia|].
  pose proof (delta_le base (t - used1) t d ltac:(lia) ltac:(lia) ltac:(lia) ltac:(lia)). lia.
Qed.

(** A full parent, of twice the target, raises the fee by an eighth; on a fee of
    3, by one. *)
Lemma base_fee_step_witness :
  base_fee_per_gas (MkEip1559GasFee 2 8) 20 5 800 = Done 750 ∧
  base_fee_per_gas (MkEip1559GasFee 2 8) 20 20 800 = Done 900 ∧
  (750 ≤ 900 ∧ 800 - 800 / 8 ≤ 750 ∧ 900 ≤ 800 + Z.max 1 (800 * 1 / 8)
   ∧ (20 / 2 < 5 → 800 < 750) ∧ (5 ≤ 20 / 2 → 750 ≤ 800)) ∧
  base_fee_per_gas (MkEip1559GasFee 2 8) 20 20 3 = Done 4.
Proof.
  split; [done|]. split; [done|]. split; [|done].
  apply (base_fee_step (MkEip1559GasFee 2 8) 20 5 20 800);
    [unfold fee_wf, uint; simpl; lia|done..].
Defined.
