(* ===== verification/Envelope.v ===== *)
(** Transactions and receipts: the envelopes the node accepts, their
    normalisation into the one form the executor works on, the parsing of the
    data of a transaction, and the receipt envelopes
    ([execution/src/transaction.rs], [shared/src/primitives.rs]). *)
From S2P Require Import Prelude Primitives MoveTypes Errors.
Import Addresses Words.

Local Open Scope Z_scope.

(** ** Data of the Ethereum libraries

    The transaction kinds carry the fields the program reads; [Signed] and
    [Sealed] pair a transaction with its signature or its hash. *)
Inductive TxKind := Call (to : Address) | Create.

Definition TxKind_to (k : TxKind) : option Address :=
  match k with Call a => Some a | Create => None end.

Record Log := MkLog { log_address : Address; log_topics : list B256; log_data : bytes }.

Record TxEip1559 := MkTxEip1559 {
  tx1559_chain_id : option Z;
  tx1559_nonce : Z;
  tx1559_gas_limit : Z;
  tx1559_max_fee_per_gas : Z;
  tx1559_max_priority_fee_per_gas : Z;
  tx1559_to : TxKind;
  tx1559_value : Z;
  tx1559_access_list : list bytes;
  tx1559_input : bytes;
}.
Record TxEip2930 := MkTxEip2930 {
  tx2930_chain_id : option Z;
  tx2930_nonce : Z;
  tx2930_gas_price : Z;
  tx2930_gas_limit : Z;
  tx2930_to : TxKind;
  tx2930_value : Z;
  tx2930_access_list : list bytes;
  tx2930_input : bytes;
}.
Record TxLegacy := MkTxLegacy {
  legacy_chain_id : option Z;
  legacy_nonce : Z;
  legacy_gas_price : Z;
  legacy_gas_limit : Z;
  legacy_to : TxKind;
  legacy_value : Z;
  legacy_input : bytes;
}.
(** EIP-4844 and EIP-7702 transactions are only ever rejected. *)
Record TxEip4844 := MkTxEip4844 { tx4844_raw : bytes }.
Record TxEip7702 := MkTxEip7702 { tx7702_raw : bytes }.
Record TxDeposit := MkTxDeposit {
  dep_source_hash : B256;
  dep_from : Address;
  dep_to : TxKind;
  dep_mint : option Z;
  dep_value : Z;
  dep_gas_limit : Z;
  dep_is_system_transaction : bool;
  dep_input : bytes;
}.

Record Signed (T : Type) := MkSigned { strip_signature : T; signature : bytes }.
Arguments MkSigned {_} _ _.
Arguments strip_signature {_} _.
Arguments signature {_} _.
Record Sealed (T : Type) := MkSealed { unseal : T; seal : B256 }.
Arguments MkSealed {_} _ _.
Arguments unseal {_} _.
Arguments seal {_} _.

Inductive TxEnvelope :=
| EthLegacy (tx : Signed TxLegacy)
| EthEip2930 (tx : Signed TxEip2930)
| EthEip1559 (tx : Signed TxEip1559)
| EthEip4844 (tx : Signed TxEip4844)
| EthEip7702 (tx : Signed TxEip7702).

Inductive OpTxEnvelope :=
| Legacy (tx : Signed TxLegacy)
| Eip2930 (tx : Signed TxEip2930)
| Eip1559 (tx : Signed TxEip1559)
| Eip7702 (tx : Signed TxEip7702)
| Deposit (tx : Sealed TxDeposit).

Definition as_deposit (tx : OpTxEnvelope) : option TxDeposit :=
  match tx with Deposit tx => Some (unseal tx) | _ => None end.

Record Receipt (L : Type) := MkReceipt {
  status : bool;
  cumulative_gas_used : Z;
  logs : list L;
}.
Arguments MkReceipt {_} _ _ _.
Arguments status {_} _.
Arguments cumulative_gas_used {_} _.
Arguments logs {_} _.

Record ReceiptWithBloom (L : Type) := MkReceiptWithBloom {
  receipt_inner : Receipt L;
  receipt_bloom : bytes;
}.
Arguments MkReceiptWithBloom {_} _ _.
Arguments receipt_inner {_} _.
Arguments receipt_bloom {_} _.

Record OpDepositReceipt (L : Type) := MkOpDepositReceipt {
  deposit_inner : Receipt L;
  deposit_nonce : option Z;
  deposit_receipt_version : option Z;
}.
Arguments MkOpDepositReceipt {_} _ _ _.
Arguments deposit_inner {_} _.
Arguments deposit_nonce {_} _.
Arguments deposit_receipt_version {_} _.

Inductive OpReceiptEnvelope (L : Type) :=
| RLegacy (r : ReceiptWithBloom L)
| REip2930 (r : ReceiptWithBloom L)
| REip1559 (r : ReceiptWithBloom L)
| REip7702 (r : ReceiptWithBloom L)
| RDeposit (r : OpDepositReceipt L) (bloom : bytes).
Arguments RLegacy {_} _.
Arguments REip2930 {_} _.
Arguments REip1559 {_} _.
Arguments REip7702 {_} _.
Arguments RDeposit {_} _ _.

(** The receipt and the bloom of any envelope ([OpReceiptEnvelope::as_receipt],
    [logs_bloom]). *)
Definition envelope_receipt {L} (r : OpReceiptEnvelope L) : Receipt L :=
  match r with
  | RLegacy r | REip2930 r | REip1559 r | REip7702 r => receipt_inner r
  | RDeposit r _ => deposit_inner r
  end.
Definition envelope_bloom {L} (r : OpReceiptEnvelope L) : bytes :=
  match r with
  | RLegacy r | REip2930 r | REip1559 r | REip7702 r => receipt_bloom r
  | RDeposit _ bloom => bloom
  end.

(** Signature recovery, and the nonce a deposit reports. *)
Class TxLibrary `{ErrorTypes} := {
  recover_1559 : Signed TxEip1559 → result SignatureError Address;
  recover_2930 : Signed TxEip2930 → result SignatureError Address;
  recover_legacy : Signed TxLegacy → result SignatureError Address;
  recover_7702 : Signed TxEip7702 → result SignatureError Address;
  deposit_tx_nonce : TxDeposit → Z;
  default_tx_kind : TxKind;
}.

(** ** Normalised transactions *)

(** Source: execution/src/transaction.rs 179-191 [NormalizedEthTransaction] *)
Record NormalizedEthTransaction := MkNormalized {
  signer : Address;
  to : TxKind;
  nonce : Z;
  value : Z;
  data : bytes;
  chain_id : option Z;
  gas_limit_u256 : Z;
  max_priority_fee_per_gas : Z;
  max_fee_per_gas : Z;
  access_list : list bytes;
}.

(** Source: execution/src/transaction.rs 193-202 [NormalizedEthTransaction::gas_limit] *)
Definition gas_limit (tx : NormalizedEthTransaction) : Z :=
  match limbs 4 (gas_limit_u256 tx) with
  | [x; 0; 0; 0] => x
  | _ => umax 64
  end.

(** Source: execution/src/transaction.rs 65-69 [NormalizedExtendedTxEnvelope] *)
Inductive NormalizedExtendedTxEnvelope :=
| Canonical (tx : NormalizedEthTransaction)
| DepositedTx (tx : TxDeposit).

Section Normalize.
Context `{TxLibrary}.

(** Source: execution/src/transaction.rs 219-239 [TryFrom<Signed<TxEip1559>>] *)
Definition try_from_1559 (value : Signed TxEip1559) : result Error NormalizedEthTransaction :=
  address ← map_err from_signature_error (recover_1559 value);
  let tx := strip_signature value in
  Ok {| signer := address;
        to := tx1559_to tx;
        nonce := tx1559_nonce tx;
        Envelope.value := tx1559_value tx;
        chain_id := tx1559_chain_id tx;
        gas_limit_u256 := tx1559_gas_limit tx;
        max_priority_fee_per_gas := tx1559_max_priority_fee_per_gas tx;
        max_fee_per_gas := tx1559_max_fee_per_gas tx;
        data := tx1559_input tx;
        access_list := tx1559_access_list tx |}.

(** Source: execution/src/transaction.rs 241-261 [TryFrom<Signed<TxEip2930>>] *)
Definition try_from_2930 (value : Signed TxEip2930) : result Error NormalizedEthTransaction :=
  address ← map_err from_signature_error (recover_2930 value);
  let tx := strip_signature value in
  Ok {| signer := address;
        to := tx2930_to tx;
        nonce := tx2930_nonce tx;
        Envelope.value := tx2930_value tx;
        chain_id := tx2930_chain_id tx;
        gas_limit_u256 := tx2930_gas_limit tx;
        max_priority_fee_per_gas := tx2930_gas_price tx;
        max_fee_per_gas := tx2930_gas_price tx;
        data := tx2930_input tx;
        access_list := tx2930_access_list tx |}.

(** Source: execution/src/transaction.rs 263-283 [TryFrom<Signed<TxLegacy>>] *)
Definition try_from_legacy (value : Signed TxLegacy) : result Error NormalizedEthTransaction :=
  address ← map_err from_signature_error (recover_legacy value);
  let tx := strip_signature value in
  Ok {| signer := address;
        to := legacy_to tx;
        nonce := legacy_nonce tx;
        Envelope.value := legacy_value tx;
        chain_id := legacy_chain_id tx;
        gas_limit_u256 := legacy_gas_limit tx;
        max_priority_fee_per_gas := legacy_gas_price tx;
        max_fee_per_gas := legacy_gas_price tx;
        data := legacy_input tx;
        access_list := [] |}.

(** Source: execution/src/transaction.rs 204-217 [TryFrom<TxEnvelope> for NormalizedEthTransaction] *)
Definition try_from_envelope (tx : TxEnvelope) : result Error NormalizedEthTransaction :=
  match tx with
  | EthEip1559 tx => try_from_1559 tx
  | EthEip2930 tx => try_from_2930 tx
  | EthLegacy tx => try_from_legacy tx
  | EthEip4844 _ | EthEip7702 _ => Err (from_cause UnsupportedType)
  end.

(** Source: execution/src/transaction.rs 71-83 [TryFrom<OpTxEnvelope> for NormalizedExtendedTxEnvelope] *)
Definition normalize (value : OpTxEnvelope) : result Error NormalizedExtendedTxEnvelope :=
  match value with
  | Eip1559 tx => Canonical <$> try_from_1559 tx
  | Eip2930 tx => Canonical <$> try_from_2930 tx
  | Legacy tx => Canonical <$> try_from_legacy tx
  | Deposit tx => Ok (DepositedTx (unseal tx))
  | Eip7702 _ => Err (from_cause UnsupportedType)
  end.

(** Source: execution/src/transaction.rs 86-92 [NormalizedExtendedTxEnvelope::into_canonical] *)
Definition into_canonical (self : NormalizedExtendedTxEnvelope) : option NormalizedEthTransaction :=
  match self with Canonical tx => Some tx | DepositedTx _ => None end.

(** Source: execution/src/transaction.rs 101-106 [NormalizedExtendedTxEnvelope::gas_limit] *)
Definition ext_gas_limit (self : NormalizedExtendedTxEnvelope) : Z :=
  match self with DepositedTx _ => 0 | Canonical tx => gas_limit tx end.

(** Source: execution/src/transaction.rs 28 [DEPOSIT_RECEIPT_VERSION] *)
Definition DEPOSIT_RECEIPT_VERSION : Z := 1.

(** Source: execution/src/transaction.rs 34-63 [OpTxEnvelope::wrap_receipt] *)
Definition wrap_receipt (self : OpTxEnvelope) (receipt : Receipt Log) (bloom : bytes)
    : exec (OpReceiptEnvelope Log) :=
  match self with
  | Legacy _ => Done (RLegacy (MkReceiptWithBloom receipt bloom))
  | Eip1559 _ => Done (REip1559 (MkReceiptWithBloom receipt bloom))
  | Eip2930 _ => Done (REip2930 (MkReceiptWithBloom receipt bloom))
  | Deposit dep =>
    Done (RDeposit (MkOpDepositReceipt receipt
            (Some (deposit_tx_nonce (unseal dep))) (Some DEPOSIT_RECEIPT_VERSION)) bloom)
  | Eip7702 _ => Panic
  end.

(** The fields of [alloy::rpc::types::TransactionRequest] the node reads. *)
Record TransactionRequest := MkTransactionRequest {
  req_from : option Address;
  req_to : option TxKind;
  req_nonce : option Z;
  req_value : option Z;
  req_chain_id : option Z;
  req_gas : option Z;
  req_max_priority_fee_per_gas : option Z;
  req_max_fee_per_gas : option Z;
  req_input : option bytes;
  req_access_list : option (list bytes);
}.

(** Source: execution/src/transaction.rs 368-385 [From<TransactionRequest>] *)
Definition from_request (value : TransactionRequest) : NormalizedEthTransaction :=
  {| signer := default (replicate 20 0) (req_from value);
     to := default default_tx_kind (req_to value);
     nonce := default 0 (req_nonce value);
     Envelope.value := default 0 (req_value value);
     chain_id := req_chain_id value;
     gas_limit_u256 := default (umax 64) (req_gas value);
     max_priority_fee_per_gas := default 0 (req_max_priority_fee_per_gas value);
     max_fee_per_gas := default 0 (req_max_fee_per_gas value);
     data := default [] (req_input value);
     access_list := default [] (req_access_list value) |}.

End Normalize.

(** Source: shared/src/primitives.rs 95-151 [with_rpc_logs] *)
Definition with_rpc_logs {L M} (receipt : OpReceiptEnvelope L) (logs : list M)
    : exec (OpReceiptEnvelope M) :=
  let relog (r : Receipt L) := MkReceipt (status r) (cumulative_gas_used r) logs in
  match receipt with
  | RLegacy r => Done (RLegacy (MkReceiptWithBloom (relog (receipt_inner r)) (receipt_bloom r)))
  | REip2930 r => Done (REip2930 (MkReceiptWithBloom (relog (receipt_inner r)) (receipt_bloom r)))
  | REip1559 r => Done (REip1559 (MkReceiptWithBloom (relog (receipt_inner r)) (receipt_bloom r)))
  | RDeposit r bloom =>
    Done (RDeposit (MkOpDepositReceipt (relog (deposit_inner r))
            (deposit_nonce r) (deposit_receipt_version r)) bloom)
  | REip7702 _ => Panic
  end.

(** ** Transaction data *)

(** The Aptos payload types, through their accessors. *)
Record EntryFunction := MkEntryFunction {
  ef_module : ModuleId;
  ef_function : string;
  ef_ty_args : list TypeTag;
  ef_args : list bytes;
}.
Record Script := MkScript { script_code : bytes; script_ty_args : list TypeTag; script_args : list MoveValue }.
Record Module_ := MkModule { module_code : bytes }.

(** Source: execution/src/transaction.rs 285-290 [ScriptOrDeployment] *)
Inductive ScriptOrDeployment :=
| SScript (s : Script)
| SModule (m : Module_)
| SEvmContract (bytecode : bytes).

(** Source: execution/src/transaction.rs 292-300 [TransactionData] *)
Inductive TransactionData :=
| EoaBaseTokenTransfer (to : Address)
| DScriptOrDeployment (x : ScriptOrDeployment)
| DEntryFunction (f : EntryFunction)
| L2Contract (a : Address)
| EvmContract (address : Address) (data : bytes).

(** Source: execution/src/transaction.rs 395-406 [SerializableTransactionData] *)
Inductive SerializableTransactionData :=
| SerEoaBaseTokenTransfer (to : Address)
| SerScriptOrDeployment (x : ScriptOrDeployment)
| SerEntryFunction (f : EntryFunction)
| SerL2Contract (a : Address)
| SerEvmContract (data : bytes).

(** Source: execution/src/transaction.rs 408-421 [From<TransactionData> for SerializableTransactionData] *)
Definition to_serializable (value : TransactionData) : SerializableTransactionData :=
  match value with
  | EoaBaseTokenTransfer to => SerEoaBaseTokenTransfer to
  | DScriptOrDeployment x => SerScriptOrDeployment x
  | DEntryFunction x => SerEntryFunction x
  | L2Contract x => SerL2Contract x
  | EvmContract _ data => SerEvmContract data
  end.

(** BCS, for one type. *)
Class Bcs `{ErrorTypes} (A : Type) := {
  bcs_to_bytes : A → result BcsError bytes;
  bcs_from_bytes : bytes → result BcsError A;
}.
Class BcsLaws `{ErrorTypes} (A : Type) `{!Bcs A} :=
  bcs_roundtrip (a : A) (b : bytes) : bcs_to_bytes a = Ok b → bcs_from_bytes b = Ok a.

(** Source: execution/src/transaction.rs 26 [L2_LOWEST_ADDRESS] *)
Definition L2_LOWEST_ADDRESS : Address := 66 :: replicate 19 0.
(** Source: execution/src/transaction.rs 27 [L2_HIGHEST_ADDRESS] *)
Definition L2_HIGHEST_ADDRESS : Address := 66 :: replicate 18 0 ++ [255].

(** Source: execution/src/transaction.rs 306 [L2 contract address range] *)
Definition in_l2_range (a : Address) : bool :=
  bytes_le L2_LOWEST_ADDRESS a && bytes_le a L2_HIGHEST_ADDRESS.

Section Parse.
Context `{ErrorTypes, !Bcs SerializableTransactionData, !Bcs ScriptOrDeployment}.

(** Source: execution/src/transaction.rs 303-340 [TransactionData::parse_from] *)
Definition parse_from (tx : NormalizedEthTransaction) : result Error TransactionData :=
  match to tx with
  | Call to =>
    if in_l2_range to then Ok (L2Contract to)
    else if decide (data tx = []) then Ok (EoaBaseTokenTransfer to)
    else
      tx_data ← map_err from_bcs_error (bcs_from_bytes (data tx));
      match tx_data with
      | SerEntryFunction entry_fn =>
        if decide (module_address (ef_module entry_fn) = to_move_address to)
        then Ok (DEntryFunction entry_fn)
        else Err (from_cause InvalidDestination)
      | SerEvmContract data => Ok (EvmContract to data)
      | _ => Err (from_cause (InvalidPayload
               (bcs_custom "Expected entry function or EVM contract")))
      end
  | Create =>
    script_or_module ← map_err from_bcs_error (bcs_from_bytes (data tx));
    Ok (DScriptOrDeployment script_or_module)
  end.

(** Source: execution/src/transaction.rs 342-347 [TransactionData::to_bytes] *)
Definition to_bytes (self : TransactionData) : result BcsError bytes :=
  bcs_to_bytes (to_serializable self).

(** Source: execution/src/transaction.rs 349-355 [TransactionData::maybe_entry_fn] *)
Definition maybe_entry_fn (self : TransactionData) : option EntryFunction :=
  match self with DEntryFunction f => Some f | _ => None end.

Definition call_tx (tx : NormalizedEthTransaction) (t : Address) (b : bytes)
    : NormalizedEthTransaction :=
  {| signer := signer tx; to := Call t; nonce := nonce tx; value := value tx; data := b;
     chain_id := chain_id tx; gas_limit_u256 := gas_limit_u256 tx;
     max_priority_fee_per_gas := max_priority_fee_per_gas tx;
     max_fee_per_gas := max_fee_per_gas tx; access_list := access_list tx |}.

(** The call payloads that name [t] as their destination. *)
Definition call_payload (d : TransactionData) (t : Address) : Prop :=
  match d with
  | DEntryFunction f => module_address (ef_module f) = to_move_address t
  | EvmContract a _ => a = t
  | _ => False
  end.

Lemma parse_call (Hlaws : BcsLaws SerializableTransactionData) tx t d b :
  in_l2_range t = false → to_bytes d = Ok b → b ≠ [] →
  parse_from (call_tx tx t b) =
    match d with
    | DEntryFunction f =>
      if decide (module_address (ef_module f) = to_move_address t)
      then Ok d else Err (from_cause InvalidDestination)
    | EvmContract _ data => Ok (EvmContract t data)
    | _ => Err (from_cause (InvalidPayload (bcs_custom "Expected entry function or EVM contract")))
    end.
Proof.
  intros Hl2 Hb Hne. unfold parse_from. simpl. rewrite Hl2, decide_False by done.
  apply bcs_roundtrip in Hb. rewrite Hb. simpl. by destruct d.
Qed.

(** C37 (roundtrip): what a wallet encodes with [to_bytes] as the data, not empty,
    of a call to [t] is what the node parses when [t] is outside of the range of
    the system contracts: exactly the entry functions of the module account [t]
    names and the EVM calls of [t] come back unchanged; an EVM call made out to
    another address is one of [t], an entry function of another account is an
    invalid destination, and whatever else [to_bytes] encodes is an invalid
    payload.  For a [t] in the range the data is not looked at, and a call of the
    system contract comes back. *)
Theorem parse_to_bytes (Hlaws : BcsLaws SerializableTransactionData) tx t d b :
  to_bytes d = Ok b → b ≠ [] →
  (in_l2_range t = true → parse_from (call_tx tx t b) = Ok (L2Contract t))
  ∧ (in_l2_range t = false →
      (parse_from (call_tx tx t b) = Ok d ↔ call_payload d t)
      ∧ (∀ a data, d = EvmContract a data → parse_from (call_tx tx t b) = Ok (EvmContract t data))
      ∧ (∀ f, d = DEntryFunction f → ¬ call_payload d t →
           parse_from (call_tx tx t b) = Err (from_cause InvalidDestination))
      ∧ ((∀ f, d ≠ DEntryFunction f) → (∀ a data, d ≠ EvmContract a data) →
           ∃ e, parse_from (call_tx tx t b) = Err (from_cause (InvalidPayload e)))).
Proof.
  intros Hb Hne. split; intros Hl2; [unfold parse_from; simpl; by rewrite Hl2|].
  rewrite (parse_call Hlaws tx t d b) by done.
  unfold call_payload. destruct d; try case_decide; split_and!; naive_solver.
Qed.

(** What a parsed transaction says about the transaction it came from. *)
Definition parsed_as (tx : NormalizedEthTransaction) (d : TransactionData) : Prop :=
  match d with
  | EoaBaseTokenTransfer a => to tx = Call a ∧ in_l2_range a = false ∧ data tx = []
  | L2Contract a => to tx = Call a ∧ in_l2_range a = true
  | EvmContract a _ => to tx = Call a ∧ in_l2_range a = false ∧ data tx ≠ []
  | DEntryFunction f => ∃ a, to tx = Call a ∧ in_l2_range a = false ∧ data tx ≠ []
      ∧ module_address (ef_module f) = to_move_address a
  | DScriptOrDeployment _ => to tx = Create
  end.

(** C36 (functional): parsing never mixes the payload classes: system contracts
    are reached only by their address range, a plain transfer has no data, an
    entry function always belongs to the account the transaction is sent to,
    and only a create transaction deploys code or runs a script. *)
Theorem parse_from_sound tx d : parse_from tx = Ok d → parsed_as tx d.
Proof.
  unfold parse_from, parsed_as. intros Hp. destruct (to tx) as [t|] eqn:Ht.
  - destruct (in_l2_range t) eqn:Hl2; simplify_eq/=; [done|].
    case_decide; simplify_eq/=; [done|].
    apply bind_Ok in Hp as (s & _ & Hp).
    destruct s; simplify_eq/=; [|done]. case_decide; simplify_eq/=. eauto 10.
  - apply bind_Ok in Hp as (s & _ & Hp). by simplify_eq/=.
Qed.

End Parse.

(** ** Receipts *)

(** The logs, and only the logs, change. *)
Lemma with_rpc_logs_receipt {L M} (r : OpReceiptEnvelope L) (l : list M) r' :
  with_rpc_logs r l = Done r' →
  envelope_bloom r' = envelope_bloom r ∧
  envelope_receipt r' = MkReceipt (status (envelope_receipt r))
    (cumulative_gas_used (envelope_receipt r)) l.
Proof. destruct r; naive_solver. Qed.

(** A transaction the normaliser accepts always has a receipt
    envelope, of the transaction's own type; putting the RPC logs into it never
    panics and keeps the status, the cumulative gas and the bloom; the types
    that would panic are those the normaliser refuses. *)
Lemma wrap_then_rpc_logs `{TxLibrary} {M} tx n (r : Receipt Log) bloom (l : list M) :
  normalize tx = Ok n →
  ∃ e e', wrap_receipt tx r bloom = Done e ∧ with_rpc_logs e l = Done e'
    ∧ envelope_receipt e = r ∧ envelope_bloom e = bloom
    ∧ envelope_bloom e' = bloom
    ∧ envelope_receipt e' = MkReceipt (status r) (cumulative_gas_used r) l
    ∧ (is_Some (as_deposit tx) ↔ ∃ d b, e' = RDeposit d b).
Proof.
  destruct tx as [tx|tx|tx|tx|tx]; simpl; intros Hn; try done;
    do 2 eexists; repeat (split; [reflexivity|]); unfold is_Some; naive_solver.
Qed.

(** A concrete library for the witnesses: BCS of EVM calls as a tag byte and
    the payload, a signature that is the signer's address. *)
Module Witness.

#[local] Instance unit_errors : ErrorTypes := {|
  VMError := unit; PartialVMError := unit; BcsError := string; SignatureError := unit;
  TxType := unit; is_out_of_gas := λ _, false; bcs_custom := id |}.

#[local] Instance std_bcs : Bcs SerializableTransactionData := {|
  bcs_to_bytes := λ x, match x with SerEvmContract d => Ok (4 :: d) | _ => Err "not modelled" end;
  bcs_from_bytes := λ b, match b with 4 :: d => Ok (SerEvmContract d) | _ => Err "tag" end |}.

#[local] Instance sod_bcs : Bcs ScriptOrDeployment := {|
  bcs_to_bytes := λ x, match x with SEvmContract d => Ok (2 :: d) | _ => Err "not modelled" end;
  bcs_from_bytes := λ b, match b with 2 :: d => Ok (SEvmContract d) | _ => Err "tag" end |}.

#[local] Instance std_laws : BcsLaws SerializableTransactionData.
Proof. intros [] b; simpl; naive_solver. Qed.

#[local] Instance tx_library : TxLibrary := {|
  recover_1559 := λ s, Ok (signature s); recover_2930 := λ s, Ok (signature s);
  recover_legacy := λ s, Ok (signature s); recover_7702 := λ s, Ok (signature s);
  deposit_tx_nonce := λ _, 0; default_tx_kind := Create |}.

Definition someone : Address := replicate 20 7.
Definition plain_tx : NormalizedEthTransaction :=
  MkNormalized someone Create 0 0 [] None 21000 1 2 [].
Definition legacy_tx : OpTxEnvelope :=
  Legacy (MkSigned (MkTxLegacy None 0 1 21000 (Call someone) 5 []) someone).

(** An EVM call to an ordinary address and to one of the system contracts. *)
Lemma parse_to_bytes_witness :
  in_l2_range someone = false ∧ in_l2_range L2_LOWEST_ADDRESS = true
  ∧ parse_from (call_tx plain_tx someone [4; 9]) = Ok (EvmContract someone [9])
  ∧ parse_from (call_tx plain_tx L2_LOWEST_ADDRESS [4; 9]) = Ok (L2Contract L2_LOWEST_ADDRESS).
Proof.
  split; [done|]. split; [done|]. split.
  - by apply (parse_to_bytes std_laws plain_tx someone (EvmContract someone [9]) [4; 9]).
  - by apply (parse_to_bytes std_laws plain_tx L2_LOWEST_ADDRESS (EvmContract someone [9]) [4; 9]).
Defined.

Lemma parse_from_sound_witness : parsed_as (call_tx plain_tx someone [4; 9]) (EvmContract someone [9]).
Proof. apply parse_from_sound. reflexivity. Defined.

Lemma wrap_then_rpc_logs_witness :
  ∃ e e', wrap_receipt legacy_tx (MkReceipt true 7 []) [1] = Done e
    ∧ with_rpc_logs e [tt] = Done e'
    ∧ envelope_receipt e = MkReceipt true 7 [] ∧ envelope_bloom e = [1]
    ∧ envelope_bloom e' = [1] ∧ envelope_receipt e' = MkReceipt true 7 [tt]
    ∧ (is_Some (as_deposit legacy_tx) ↔ ∃ d b, e' = RDeposit d b).
Proof. eapply (wrap_then_rpc_logs legacy_tx). reflexivity. Defined.

End Witness.
