(* ===== verification/Fees.v ===== *)
(** Fees of [execution/src/gas.rs]: the tip and the effective gas price of a
    transaction, the Ecotone fee for publishing it on layer 1, the layer 2 fee,
    and the parsing of the layer 1 parameters out of the deposit that opens a
    block. *)
From S2P Require Import Prelude Primitives Envelope.

Local Open Scope Z_scope.

(** ** Gas price of a transaction *)

(** Source: execution/src/gas.rs 80-86 [NormalizedEthTransaction::tip_per_gas] *)
Definition tip_per_gas (self : NormalizedEthTransaction) (base_fee : Z) : Z :=
  let extra_fee := default 0 (checked_sub (max_fee_per_gas self) base_fee) in
  Z.min (max_priority_fee_per_gas self) extra_fee.

(** Source: execution/src/gas.rs 88-90 [NormalizedEthTransaction::effective_gas_price] *)
Definition effective_gas_price (self : NormalizedEthTransaction) (base_fee : Z) : Z :=
  wrap 256 (tip_per_gas self base_fee + base_fee).

(** Source: execution/src/transaction.rs 94-99 [NormalizedExtendedTxEnvelope::tip_per_gas] *)
Definition ext_tip_per_gas (self : NormalizedExtendedTxEnvelope) (base_fee : Z) : Z :=
  match self with DepositedTx _ => 0 | Canonical tx => tip_per_gas tx base_fee end.

(** Source: execution/src/transaction.rs 108-113 [NormalizedExtendedTxEnvelope::effective_gas_price] *)
Definition ext_effective_gas_price (self : NormalizedExtendedTxEnvelope) (base_fee : Z) : Z :=
  match self with DepositedTx _ => 0 | Canonical tx => effective_gas_price tx base_fee end.

Definition fees_wf (tx : NormalizedEthTransaction) : Prop :=
  uint 256 (max_fee_per_gas tx) ∧ uint 256 (max_priority_fee_per_gas tx).

Lemma tip_bounds tx base : fees_wf tx → 0 ≤ base →
  0 ≤ tip_per_gas tx base ≤ max_priority_fee_per_gas tx
  ∧ tip_per_gas tx base ≤ Z.max 0 (max_fee_per_gas tx - base).
Proof.
  unfold fees_wf, uint, tip_per_gas, checked_sub. intros (? & ?) ?.
  case_decide; simpl; lia.
Qed.

(** The price a transaction pays per gas is the base fee plus the
    tip without wrap-around; it stays within the offered maximum exactly when
    that maximum covers the base fee, and then the tip is the smaller of the
    priority fee and what the maximum leaves. *)
Lemma effective_gas_price_spec tx base : fees_wf tx → uint 256 base →
  effective_gas_price tx base = base + tip_per_gas tx base
  ∧ (effective_gas_price tx base ≤ max_fee_per_gas tx ↔ base ≤ max_fee_per_gas tx)
  ∧ (base ≤ max_fee_per_gas tx →
       tip_per_gas tx base = Z.min (max_priority_fee_per_gas tx) (max_fee_per_gas tx - base)).
Proof.
  intros Hwf Hb. destruct (tip_bounds tx base Hwf) as [H1 H2]; [unfold uint in Hb; lia|].
  destruct Hwf as [Hm Hp].
  assert (effective_gas_price tx base = base + tip_per_gas tx base) as He.
  { unfold effective_gas_price. rewrite Z.add_comm. apply wrap_small. unfold uint in *. lia. }
  split; [done|]. rewrite He. split.
  - lia.
  - intros Hle. unfold tip_per_gas, checked_sub. rewrite decide_True by lia. done.
Qed.

(** ** Layer 1 *)

(** Source: execution/src/gas.rs 102-106 [L1GasFeeInput] *)
Record L1GasFeeInput := MkL1GasFeeInput { zero_bytes : Z; non_zero_bytes : Z }.

(** Source: execution/src/gas.rs 117-125 [From<T> for L1GasFeeInput] *)
Definition l1_input_from (tx_data : bytes) : L1GasFeeInput :=
  let zero := Z.of_nat (length (filter (λ v, v = 0) tx_data)) in
  MkL1GasFeeInput zero (wrap 256 (Z.of_nat (length tx_data) - zero)).

(** Source: execution/src/gas.rs 153-159 [EcotoneGasFee] *)
Record EcotoneGasFee := MkEcotoneGasFee {
  base_fee : Z;
  base_fee_scalar : Z;
  blob_base_fee : Z;
  blob_base_fee_scalar : Z;
}.

(** Source: execution/src/gas.rs 162 [ZERO_BYTE_MULTIPLIER] *)
Definition ZERO_BYTE_MULTIPLIER : Z := 4.
(** Source: execution/src/gas.rs 163 [GAS_PRICE_MULTIPLIER] *)
Definition GAS_PRICE_MULTIPLIER : Z := 16.

Definition wmul (a b : Z) : Z := wrap 256 (a * b).
Definition wadd (a b : Z) : Z := wrap 256 (a + b).

(** Source: execution/src/gas.rs 181-191 [EcotoneGasFee::l1_fee] *)
Definition l1_fee (self : EcotoneGasFee) (input : L1GasFeeInput) : Z :=
  let tx_compressed_size :=
    wadd (wmul (zero_bytes input) ZERO_BYTE_MULTIPLIER)
         (wmul (non_zero_bytes input) GAS_PRICE_MULTIPLIER) / GAS_PRICE_MULTIPLIER in
  let weighted_gas_price :=
    wadd (wmul (wmul GAS_PRICE_MULTIPLIER (base_fee_scalar self)) (base_fee self))
         (wmul (blob_base_fee_scalar self) (blob_base_fee self)) in
  wmul tx_compressed_size weighted_gas_price.

(** The receipt fields of [op_alloy]'s [L1BlockInfo]. *)
Record L1BlockInfo := MkL1BlockInfo {
  l1_gas_price : option Z;
  l1_gas_used : option Z;
  l1_fee_paid : option Z;
  l1_fee_scalar : option bytes;
  l1_base_fee_scalar : option Z;
  l1_blob_base_fee : option Z;
  l1_blob_base_fee_scalar : option Z;
  operator_fee_scalar : option Z;
  operator_fee_constant : option Z;
}.

Definition default_l1_block_info : L1BlockInfo :=
  MkL1BlockInfo None None None None None None None None None.

(** Source: execution/src/gas.rs 193-208 [EcotoneGasFee::l1_block_info] *)
Definition l1_block_info (self : EcotoneGasFee) (input : L1GasFeeInput) : option L1BlockInfo :=
  Some {| l1_gas_price := Some (sat_to 128 (base_fee self));
          l1_gas_used := None;
          l1_fee_paid := Some (sat_to 128 (l1_fee self input));
          l1_fee_scalar := None;
          l1_base_fee_scalar := Some (sat_to 128 (base_fee_scalar self));
          l1_blob_base_fee := Some (sat_to 128 (blob_base_fee self));
          l1_blob_base_fee_scalar := Some (sat_to 128 (blob_base_fee_scalar self));
          operator_fee_scalar := None;
          operator_fee_constant := None |}.

(** Source: execution/src/gas.rs 237-253 [CreateEcotoneL1GasFee::for_deposit] *)
Definition for_deposit (data : bytes) : exec EcotoneGasFee :=
  l1_base_fee ← slice data 36 68;
  l1_blob_base_fee ← slice data 68 100;
  l1_base_fee_scalar ← slice data 4 8;
  l1_blob_base_fee_scalar ← slice data 8 12;
  Done (MkEcotoneGasFee (be_val l1_base_fee) (be_val l1_base_fee_scalar)
          (be_val l1_blob_base_fee) (be_val l1_blob_base_fee_scalar)).

Lemma l1_input_counts d : Z.of_nat (length d) < 2 ^ 256 →
  zero_bytes (l1_input_from d) + non_zero_bytes (l1_input_from d) = Z.of_nat (length d)
  ∧ 0 ≤ zero_bytes (l1_input_from d) ∧ 0 ≤ non_zero_bytes (l1_input_from d).
Proof.
  intros H. unfold l1_input_from. simpl.
  pose proof (length_filter (λ v, v = 0) d).
  rewrite wrap_small; [lia|]. unfold uint. lia.
Qed.

(** The Ecotone formula of the OP Stack specification, unbounded. *)
Definition ecotone_formula (fee : EcotoneGasFee) (zeroes ones : Z) : Z :=
  (zeroes * 4 + ones * 16) / 16
  * (16 * base_fee_scalar fee * base_fee fee + blob_base_fee_scalar fee * blob_base_fee fee).

Definition fee_fits (fee : EcotoneGasFee) : Prop :=
  uint 128 (base_fee fee) ∧ uint 128 (blob_base_fee fee)
  ∧ uint 32 (base_fee_scalar fee) ∧ uint 32 (blob_base_fee_scalar fee).

Lemma mul_uint a b x y : 0 ≤ x → 0 ≤ y → uint x a → uint y b → uint (x + y) (a * b).
Proof. unfold uint. intros. rewrite Z.pow_add_r by done. nia. Qed.

Lemma add_uint a b x : 0 ≤ x → uint x a → uint x b → uint (x + 1) (a + b).
Proof. unfold uint. intros. rewrite Z.pow_add_r by lia. lia. Qed.

Lemma ecotone_price_fits fee : fee_fits fee →
  uint 165 (16 * base_fee_scalar fee * base_fee fee)
  ∧ uint 160 (blob_base_fee_scalar fee * blob_base_fee fee).
Proof.
  intros (Hb & Hbb & Hs & Hbs). split; [|by apply (mul_uint _ _ 32 128)].
  apply (mul_uint _ _ 37 128); [done..| |done]. apply (mul_uint 16 _ 5 32); [done..| |done].
  unfold uint. lia.
Qed.

(** For block parameters of at most 128 bits and data of
    less than 2^64 bytes the wrapping computation of the layer 1 fee is the
    Ecotone formula on the zero and non-zero byte counts of the data. *)
Lemma l1_fee_is_ecotone fee d : fee_fits fee → Z.of_nat (length d) < 2 ^ 64 →
  l1_fee fee (l1_input_from d) =
    ecotone_formula fee (Z.of_nat (length (filter (λ v, v = 0) d)))
      (Z.of_nat (length (filter (λ v, v ≠ 0) d))).
Proof.
  intros Hfit Hd. pose proof (ecotone_price_fits fee Hfit) as [Hp1 Hp2].
  destruct Hfit as (Hb & Hbb & Hs & Hbs).
  assert (length (filter (λ v : Z, v = 0%Z) d) + length (filter (λ v : Z, v ≠ 0%Z) d) = length d)%nat as Hlen.
  { clear. induction d as [|v d IH]; [done|].
    destruct (decide (v = 0)).
    - rewrite filter_cons_True, filter_cons_False by naive_solver. simpl. lia.
    - rewrite filter_cons_False, filter_cons_True by naive_solver. simpl. lia. }
  unfold l1_fee, l1_input_from, ecotone_formula, wmul, wadd,
    ZERO_BYTE_MULTIPLIER, GAS_PRICE_MULTIPLIER. simpl.
  set (z := Z.of_nat (length (filter (λ v, v = 0) d))) in *.
  set (o := Z.of_nat (length (filter (λ v, v ≠ 0) d))) in *.
  assert (uint 64 z ∧ uint 64 o) as [Hz Ho] by (unfold uint; lia).
  replace (Z.of_nat (length d) - z) with o by lia.
  rewrite (wrap_small 256 o) by (unfold uint in *; lia).
  assert (uint 128 ((z * 4 + o * 16) / 16)) as Hq.
  { unfold uint in *. split; [apply Z.div_pos; lia|]. apply Z.div_lt_upper_bound; lia. }
  rewrite (wrap_small 256 (z * 4)), (wrap_small 256 (o * 16)) by (unfold uint in *; lia).
  rewrite (wrap_small 256 (z * 4 + o * 16)) by (unfold uint in *; lia).
  rewrite (wrap_small 256 (16 * base_fee_scalar fee)) by (unfold uint in *; lia).
  rewrite (wrap_small 256 (_ * base_fee fee)) by (unfold uint in *; lia).
  rewrite (wrap_small 256 (blob_base_fee_scalar fee * _)) by (unfold uint in *; lia).
  rewrite (wrap_small 256 (_ + blob_base_fee_scalar fee * _)) by (unfold uint in *; lia).
  apply wrap_small. apply (uint_weaken (68 + 166)); [lia|].
  apply mul_uint; [done..| |unfold uint in *; lia].
  unfold uint in *. split; [lia|]. apply Z.div_lt_upper_bound; lia.
Qed.

(** Deposit data of the Ecotone layout: a selector, the two scalars, three
    64-bit words of block data, then the two base fees. *)
Definition ecotone_data (selector words rest : bytes) (fee : EcotoneGasFee) : bytes :=
  selector ++ be_bytes 4 (base_fee_scalar fee) ++ be_bytes 4 (blob_base_fee_scalar fee)
  ++ words ++ be_bytes 32 (base_fee fee) ++ be_bytes 32 (blob_base_fee fee) ++ rest.

Lemma slice_app pre mid post :
  slice (pre ++ mid ++ post) (length pre) (length pre + length mid) = Done mid.
Proof.
  unfold slice. rewrite decide_True by (rewrite !length_app; lia).
  rewrite drop_app_length. replace (_ + _ - _)%nat with (length mid) by lia.
  by rewrite take_app_length.
Qed.

Lemma slice_at data pre mid post (a b : nat) :
  data = pre ++ mid ++ post → a = length pre → b = (length pre + length mid)%nat →
  slice data a b = Done mid.
Proof. intros -> -> ->. apply slice_app. Qed.

Ltac slice_tac := first [by rewrite <- ?app_assoc | rewrite ?length_app; lia].

(** The layer 1 parameters written into a deposit by the
    rollup node are read back exactly; data shorter than 100 bytes
    panics the block builder, and only that does. *)
Lemma for_deposit_spec :
  (∀ selector words rest fee, length selector = 4%nat → length words = 24%nat →
     uint 256 (base_fee fee) → uint 256 (blob_base_fee fee) →
     uint 32 (base_fee_scalar fee) → uint 32 (blob_base_fee_scalar fee) →
     for_deposit (ecotone_data selector words rest fee) = Done fee)
  ∧ (∀ data, for_deposit data = Panic ↔ (length data < 100)%nat).
Proof.
  split.
  - intros sel w rest [b s bb bs] Hsel Hw Hb Hbb Hs Hbs.
    unfold for_deposit, ecotone_data.
    cbn [base_fee base_fee_scalar blob_base_fee blob_base_fee_scalar] in *.
    set (B := be_bytes 32 b). set (S := be_bytes 4 s).
    set (BB := be_bytes 32 bb). set (BS := be_bytes 4 bs).
    assert (length B = 32%nat ∧ length S = 4%nat ∧ length BB = 32%nat ∧ length BS = 4%nat)
      as (HlB & HlS & HlBB & HlBS) by (repeat split; apply length_be_bytes).
    assert (be_val B = b ∧ be_val S = s ∧ be_val BB = bb ∧ be_val BS = bs)
      as (HvB & HvS & HvBB & HvBS)
      by (unfold B, S, BB, BS; rewrite !be_val_bytes; repeat split; by apply wrap_small).
    clearbody B S BB BS.
    rewrite (slice_at _ (sel ++ S ++ BS ++ w) B (BB ++ rest) 36 68)
      by slice_tac. simpl.
    rewrite (slice_at _ (sel ++ S ++ BS ++ w ++ B) BB rest 68 100)
      by slice_tac. simpl.
    rewrite (slice_at _ sel S (BS ++ w ++ B ++ BB ++ rest) 4 8)
      by slice_tac. simpl.
    rewrite (slice_at _ (sel ++ S) BS (w ++ B ++ BB ++ rest) 8 12)
      by slice_tac. simpl.
    congruence.
  - intros data. unfold for_deposit, slice.
    repeat (case_decide; simpl; try (split; [done|]); try (split; [|done])); lia.
Qed.

(** ** Layer 2 *)

(** Source: execution/src/gas.rs 127-142 [L2GasFeeInput] *)
Record L2GasFeeInput := MkL2GasFeeInput { l2_gas_limit : Z; l2_effective_gas_price : Z }.

(** Source: execution/src/gas.rs 211-217 [MovedGasFee] *)
Record MovedGasFee := MkMovedGasFee { gas_fee_multiplier : Z }.

(** Source: execution/src/gas.rs 219-226 [MovedGasFee::l2_fee] *)
Definition l2_fee (self : MovedGasFee) (input : L2GasFeeInput) : Z :=
  sat_mul 256 (sat_mul 256 (l2_effective_gas_price input) (l2_gas_limit input))
    (gas_fee_multiplier self).

(** Source: execution/src/gas.rs 258-267 [CreateL2GasFee::with_default_gas_fee_multiplier] *)
Definition DEFAULT_L2_GAS_MULTIPLIER : Z := 1.
(** Source: execution/src/gas.rs 269-273 [CreateMovedL2GasFee::with_gas_fee_multiplier] *)
Definition with_gas_fee_multiplier (m : Z) : MovedGasFee := MkMovedGasFee m.
(** Source: execution/src/gas.rs 264-266 [CreateL2GasFee::with_default_gas_fee_multiplier] *)
Definition with_default_gas_fee_multiplier : MovedGasFee :=
  with_gas_fee_multiplier DEFAULT_L2_GAS_MULTIPLIER.

Lemma l2_fee_mono fee price g1 g2 : 0 ≤ gas_fee_multiplier fee → 0 ≤ price → 0 ≤ g1 ≤ g2 →
  0 ≤ l2_fee fee (MkL2GasFeeInput g1 price) ≤ l2_fee fee (MkL2GasFeeInput g2 price).
Proof.
  intros Hm Hp Hg. unfold l2_fee, sat_mul. simpl.
  assert (0 ≤ umax 256) by (unfold umax; lia).
  assert (price * g1 ≤ price * g2) by nia.
  assert (0 ≤ price * g1) by nia.
  assert (0 ≤ Z.min (price * g1) (umax 256) ≤ Z.min (price * g2) (umax 256)) as [??] by lia.
  split; [|apply Z.min_le_compat_r; nia].
  apply Z.min_glb; [nia|done].
Qed.

(** Witness inputs. *)
Definition sample_tx : NormalizedEthTransaction :=
  MkNormalized (replicate 20 7) Create 0 0 [] None 21000 2 100 [].
Definition sample_fee : EcotoneGasFee := MkEcotoneGasFee 30000000000 1368 1 810949.

Lemma effective_gas_price_witness :
  effective_gas_price sample_tx 99 = 99 + tip_per_gas sample_tx 99
  ∧ (effective_gas_price sample_tx 99 ≤ 100 ↔ 99 ≤ 100)
  ∧ (99 ≤ 100 → tip_per_gas sample_tx 99 = Z.min 2 (100 - 99)).
Proof. apply (effective_gas_price_spec sample_tx 99); [split|]; unfold uint; simpl; lia. Defined.

Lemma l1_fee_is_ecotone_witness :
  l1_fee sample_fee (l1_input_from [0; 0; 1; 2; 3]) = ecotone_formula sample_fee 2 3.
Proof.
  apply (l1_fee_is_ecotone sample_fee [0; 0; 1; 2; 3]); [|done].
  unfold fee_fits, uint. simpl. lia.
Defined.
