(* ===== verification/EvMap.v ===== *)
(** The eventually consistent multi-map the in-memory stores are built on.

    The [evmap] crate is third-party: [EvMap] is its interface (each key holds a
    bag of values; a writer's inserts become visible to readers, the writer's
    own reads included, at the next refresh; [get_one] returns some value of the
    bag) and [EvMapLaws] its documented behaviour.  [Indexed] is what the stores
    use it for: an index of a log of records by a key, up to date after every
    refresh.  [Model] is a concrete instance. *)
From S2P Require Import Prelude.

Class EvMap := {
  evmap : ∀ (K V : Type) `{Countable K}, Type;
  ev_new : ∀ {K V} `{Countable K}, evmap K V;
  ev_insert : ∀ {K V} `{Countable K}, K → V → evmap K V → evmap K V;
  ev_refresh : ∀ {K V} `{Countable K}, evmap K V → evmap K V;
  ev_get_one : ∀ {K V} `{Countable K}, evmap K V → K → option V;
  ev_len : ∀ {K V} `{Countable K}, evmap K V → nat;
  (** What the readers see, and what they will see after a refresh. *)
  ev_read : ∀ {K V} `{Countable K}, evmap K V → K → list V;
  ev_pend : ∀ {K V} `{Countable K}, evmap K V → K → list V;
  ev_keys : ∀ {K V} `{Countable K}, evmap K V → gset K;
}.

Class EvMapLaws `{EvMap} := {
  ev_new_read : ∀ {K V} `{Countable K} k, ev_read (@ev_new _ K V _ _) k = [];
  ev_new_pend : ∀ {K V} `{Countable K} k, ev_pend (@ev_new _ K V _ _) k = [];
  ev_insert_read : ∀ {K V} `{Countable K} k v (m : evmap K V) k',
    ev_read (ev_insert k v m) k' = ev_read m k';
  ev_insert_pend_eq : ∀ {K V} `{Countable K} k v (m : evmap K V),
    ev_pend (ev_insert k v m) k ≡ₚ v :: ev_pend m k;
  ev_insert_pend_ne : ∀ {K V} `{Countable K} k k' v (m : evmap K V),
    k ≠ k' → ev_pend (ev_insert k v m) k' ≡ₚ ev_pend m k';
  ev_refresh_read : ∀ {K V} `{Countable K} (m : evmap K V) k,
    ev_read (ev_refresh m) k ≡ₚ ev_pend m k;
  ev_refresh_pend : ∀ {K V} `{Countable K} (m : evmap K V) k,
    ev_pend (ev_refresh m) k ≡ₚ ev_pend m k;
  ev_get_one_Some : ∀ {K V} `{Countable K} (m : evmap K V) k v,
    ev_get_one m k = Some v → v ∈ ev_read m k;
  ev_get_one_None : ∀ {K V} `{Countable K} (m : evmap K V) k,
    ev_get_one m k = None ↔ ev_read m k = [];
  ev_keys_spec : ∀ {K V} `{Countable K} (m : evmap K V) k,
    k ∈ ev_keys m ↔ ev_read m k ≠ [];
  ev_len_spec : ∀ {K V} `{Countable K} (m : evmap K V), ev_len m = size (ev_keys m);
}.

(** [extend]: one insert per pair, in order. *)
Definition ev_extend `{EvMap} {K V} `{Countable K} (l : list (K * V)) (m : evmap K V)
    : evmap K V :=
  fold_left (λ m '(k, v), ev_insert k v m) l m.

(** [contains_key] *)
Definition ev_contains_key `{EvMap} {K V} `{Countable K} (m : evmap K V) (k : K) : bool :=
  bool_decide (ev_read m k ≠ []).

Section Index.
Context `{EvMapLaws} {K V : Type} `{Countable K} (f : V → K).

(** The index of the log [l] by [f]: pending writes only, or published too. *)
Definition Pending (m : evmap K V) (l : list V) : Prop :=
  ∀ k, ev_pend m k ≡ₚ filter (λ v, f v = k) l.
Definition Shown (m : evmap K V) (l : list V) : Prop :=
  ∀ k, ev_read m k ≡ₚ filter (λ v, f v = k) l.
Definition Indexed (m : evmap K V) (l : list V) : Prop := Pending m l ∧ Shown m l.

Lemma Indexed_new : Indexed ev_new [].
Proof. split; intros k; by rewrite ?ev_new_pend, ?ev_new_read. Qed.

Lemma Pending_insert m l v : Pending m l → Pending (ev_insert (f v) v m) (l ++ [v]).
Proof.
  intros Hp k. rewrite filter_app. destruct (decide (f v = k)) as [<-|Hk].
  - rewrite ev_insert_pend_eq, (filter_cons_True _ v) by done. rewrite Hp.
    by rewrite Permutation_cons_append.
  - rewrite ev_insert_pend_ne, (filter_cons_False _ v) by done. simpl.
    by rewrite app_nil_r.
Qed.

Lemma Pending_refresh m l : Pending m l → Indexed (ev_refresh m) l.
Proof.
  intros Hp. split; intros k.
  - by rewrite ev_refresh_pend.
  - by rewrite ev_refresh_read.
Qed.

Lemma Indexed_insert m l v : Indexed m l → Indexed (ev_refresh (ev_insert (f v) v m)) (l ++ [v]).
Proof. intros [? _]. by apply Pending_refresh, Pending_insert. Qed.

Lemma Pending_extend m l vs :
  Pending m l → Pending (ev_extend ((λ v, (f v, v)) <$> vs) m) (l ++ vs).
Proof.
  unfold ev_extend. revert m l. induction vs as [|v vs IH]; intros m l Hp; simpl.
  - by rewrite app_nil_r.
  - rewrite cons_middle, app_assoc. by apply IH, Pending_insert.
Qed.

Lemma Indexed_extend m l vs :
  Indexed m l → Indexed (ev_refresh (ev_extend ((λ v, (f v, v)) <$> vs) m)) (l ++ vs).
Proof. intros [? _]. by apply Pending_refresh, Pending_extend. Qed.

(** *** What the readers find, whatever is staged *)

Lemma Shown_read_elem m l k v : Shown m l → v ∈ ev_read m k ↔ v ∈ l ∧ f v = k.
Proof.
  intros Hr. rewrite (Hr k). rewrite list_elem_of_filter. naive_solver.
Qed.

Lemma Shown_get_one m l k v : Shown m l → ev_get_one m k = Some v → v ∈ l ∧ f v = k.
Proof. intros Hi Hg. eapply Shown_read_elem; [done|]. by apply ev_get_one_Some. Qed.

Lemma Shown_get_one_None m l k :
  Shown m l → ev_get_one m k = None ↔ ∀ v, v ∈ l → f v ≠ k.
Proof.
  intros Hi. rewrite ev_get_one_None. destruct (ev_read m k) as [|v vs] eqn:Hr.
  - split; [|done]. intros _ v Hv Hk.
    assert (v ∈ ev_read m k) by by eapply Shown_read_elem. by rewrite Hr in *; set_solver.
  - split; [done|]. intros Hno.
    assert (v ∈ l ∧ f v = k) as [??]; [|by edestruct Hno].
    apply (Shown_read_elem m); [done|]. rewrite Hr. set_solver.
Qed.

(** A key with a single record is looked up exactly. *)
Lemma Shown_get_one_unique m l k v :
  Shown m l → v ∈ l → f v = k → (∀ v', v' ∈ l → f v' = k → v' = v) →
  ev_get_one m k = Some v.
Proof.
  intros Hi Hv Hk Hu. destruct (ev_get_one m k) as [v'|] eqn:Hg.
  - destruct (Shown_get_one m l k v' Hi Hg). f_equal. auto.
  - exfalso. eapply (Shown_get_one_None m l k); eauto.
Qed.

Lemma Shown_contains m l k :
  Shown m l → ev_contains_key m k = true ↔ ∃ v, v ∈ l ∧ f v = k.
Proof.
  intros Hi. unfold ev_contains_key. rewrite bool_decide_eq_true. split.
  - intros Hne. destruct (ev_read m k) as [|v vs] eqn:Hr; [done|].
    exists v. apply (Shown_read_elem m); [done|]. rewrite Hr. set_solver.
  - intros (v & Hv) Hr. apply (Shown_read_elem m) in Hv; [|done]. by rewrite Hr in Hv; set_solver.
Qed.

Lemma Shown_keys m l : Shown m l → ev_keys m = list_to_set (f <$> l).
Proof.
  intros Hi. apply set_eq. intros k. rewrite ev_keys_spec, elem_of_list_to_set.
  rewrite list_elem_of_fmap. split.
  - intros Hne. destruct (ev_read m k) as [|v vs] eqn:Hr; [done|].
    assert (v ∈ l ∧ f v = k) as [? <-]; [|eauto].
    apply (Shown_read_elem m); [done|]. rewrite Hr. set_solver.
  - intros (v & -> & Hv) Hr. assert (v ∈ ev_read m (f v)) as Hx by by eapply Shown_read_elem.
    rewrite Hr in Hx. set_solver.
Qed.

Lemma Shown_len m l : Shown m l → NoDup (f <$> l) → ev_len m = length l.
Proof.
  intros Hi Hnd. rewrite ev_len_spec, (Shown_keys m l Hi), size_list_to_set by done.
  apply length_fmap.
Qed.

Lemma Indexed_shown m l : Indexed m l → Shown m l.
Proof. by intros [_ ?]. Qed.

Lemma Indexed_read_elem m l k v : Indexed m l → v ∈ ev_read m k ↔ v ∈ l ∧ f v = k.
Proof. intros Hi. exact (Shown_read_elem m l k v (Indexed_shown m l Hi)). Qed.

Lemma Indexed_get_one m l k v : Indexed m l → ev_get_one m k = Some v → v ∈ l ∧ f v = k.
Proof. intros Hi. exact (Shown_get_one m l k v (Indexed_shown m l Hi)). Qed.

Lemma Indexed_get_one_None m l k :
  Indexed m l → ev_get_one m k = None ↔ ∀ v, v ∈ l → f v ≠ k.
Proof. intros Hi. exact (Shown_get_one_None m l k (Indexed_shown m l Hi)). Qed.

Lemma Indexed_get_one_unique m l k v :
  Indexed m l → v ∈ l → f v = k → (∀ v', v' ∈ l → f v' = k → v' = v) →
  ev_get_one m k = Some v.
Proof. intros Hi. exact (Shown_get_one_unique m l k v (Indexed_shown m l Hi)). Qed.

Lemma Indexed_contains m l k :
  Indexed m l → ev_contains_key m k = true ↔ ∃ v, v ∈ l ∧ f v = k.
Proof. intros Hi. exact (Shown_contains m l k (Indexed_shown m l Hi)). Qed.

Lemma Indexed_keys m l : Indexed m l → ev_keys m = list_to_set (f <$> l).
Proof. intros Hi. exact (Shown_keys m l (Indexed_shown m l Hi)). Qed.

Lemma Indexed_len m l : Indexed m l → NoDup (f <$> l) → ev_len m = length l.
Proof. intros Hi. exact (Shown_len m l (Indexed_shown m l Hi)). Qed.

End Index.

(** A pair of finite maps: what readers see, and what is staged. *)
Module Model.

Definition bag {K V} `{Countable K} (m : gmap K (list V)) (k : K) : list V :=
  default [] (m !! k).

#[export] Instance model : EvMap := {|
  evmap := λ K V _ _, (gmap K (list V) * gmap K (list V))%type;
  ev_new := λ K V _ _, (∅, ∅);
  ev_insert := λ K V _ _ k v m, (m.1, <[k := v :: bag m.2 k]> m.2);
  ev_refresh := λ K V _ _ m, (m.2, m.2);
  ev_get_one := λ K V _ _ m k, head (bag m.1 k);
  ev_len := λ K V _ _ m, size (filter (λ k, bag m.1 k ≠ []) (dom m.1));
  ev_read := λ K V _ _ m k, bag m.1 k;
  ev_pend := λ K V _ _ m k, bag m.2 k;
  ev_keys := λ K V _ _ m, filter (λ k, bag m.1 k ≠ []) (dom m.1);
|}.

#[export] Instance model_laws : EvMapLaws.
Proof.
  split; simpl; unfold bag; intros.
  - done.
  - done.
  - done.
  - by rewrite lookup_insert_eq.
  - by rewrite lookup_insert_ne.
  - done.
  - done.
  - destruct (default [] (m.1 !! k)); simplify_eq/=. set_solver.
  - by destruct (default [] (m.1 !! k)).
  - rewrite elem_of_filter, elem_of_dom. split; [naive_solver|]. intros Hne.
    split; [done|]. destruct (m.1 !! k); simpl in *; [eauto|done].
  - done.
Qed.

End Model.
