(* ===== verification/Transactions.v ===== *)
(** Stored transactions of [blockchain/src/transaction]: the record kept per
    executed transaction, the nonce and version carried by a bridge deposit,
    the in-memory store and its queries, and the RPC view. *)
From S2P Require Import Prelude Primitives Errors Envelope EvMap.

Local Open Scope Z_scope.

(** What the program takes from the transaction library. *)
Class EnvelopeLibrary := {
  trie_hash : OpTxEnvelope → B256;
  envelope_effective_gas_price : OpTxEnvelope → option Z → Z;
  encode_2718 : OpTxEnvelope → bytes;
  (** The first word of the ABI-decoded [RelayMessageArgs]. *)
  decode_relay_message_nonce : bytes → option Z;
  u256_checked_shr : Z → Z → option Z;
}.

(** Source: blockchain/src/transaction/write.rs 8-15 [ExtendedTransaction] *)
Record ExtendedTransaction := MkExtendedTransaction {
  et_inner : OpTxEnvelope;
  et_block_number : Z;
  et_block_hash : B256;
  et_transaction_index : Z;
  et_effective_gas_price : Z;
}.

(** Source: blockchain/src/transaction/write.rs 18-32 [ExtendedTransaction::new] *)
Definition et_new (effective_gas_price : Z) (inner : OpTxEnvelope) (block_number : Z)
    (block_hash : B256) (transaction_index : Z) : ExtendedTransaction :=
  MkExtendedTransaction inner block_number block_hash transaction_index effective_gas_price.

(** Source: blockchain/src/transaction/write.rs 63-67 [VersionedNonce] *)
Record VersionedNonce := MkVersionedNonce { vn_version : Z; vn_nonce : Z }.

(** Source: blockchain/src/transaction/write.rs 74 [RELAY_MESSAGE_SELECTOR] *)
Definition RELAY_MESSAGE_SELECTOR : bytes := [0xd7; 0x64; 0xad; 0x0b].

(** Source: blockchain/src/transaction/write.rs 77-79 [NONCE_MASK] *)
Definition NONCE_MASK : Z := be_val (replicate 2 0 ++ replicate 30 255).

(** The fields of the RPC transaction. *)
Record TransactionResponse := MkTransactionResponse {
  tr_inner : OpTxEnvelope;
  tr_from : Address;
  tr_block_hash : option B256;
  tr_block_number : option Z;
  tr_transaction_index : option Z;
  tr_effective_gas_price : option Z;
  tr_deposit_nonce : option Z;
  tr_deposit_receipt_version : option Z;
}.

Section Transactions.
Context `{TxLibrary, EnvelopeLibrary}.

(** Source: blockchain/src/transaction/write.rs 34-44 [ExtendedTransaction::from] *)
Definition et_from (self : ExtendedTransaction) : result SignatureError Address :=
  match et_inner self with
  | Legacy tx => recover_legacy tx
  | Eip1559 tx => recover_1559 tx
  | Eip2930 tx => recover_2930 tx
  | Eip7702 tx => recover_7702 tx
  | Deposit tx => Ok (dep_from (unseal tx))
  end.

(** Source: blockchain/src/transaction/write.rs 50-52 [ExtendedTransaction::hash] *)
Definition et_hash (self : ExtendedTransaction) : B256 := trie_hash (et_inner self).

(** Source: blockchain/src/transaction/write.rs 69-103 [inner_get_deposit_nonce] *)
Definition inner_get_deposit_nonce (tx : TxDeposit) : option VersionedNonce :=
  if decide (take 4 (dep_input tx) = RELAY_MESSAGE_SELECTOR) then
    encoded_versioned_nonce ← decode_relay_message_nonce (drop 4 (dep_input tx));
    shifted ← u256_checked_shr encoded_versioned_nonce 240;
    let version := sat_to 64 shifted in
    let nonce := sat_to 64 (Z.land encoded_versioned_nonce NONCE_MASK) in
    Some (MkVersionedNonce version nonce)
  else None.

(** Source: blockchain/src/transaction/write.rs 54-60 [ExtendedTransaction::deposit_nonce] *)
Definition et_deposit_nonce (self : ExtendedTransaction) : option VersionedNonce :=
  match as_deposit (et_inner self) with
  | Some tx => inner_get_deposit_nonce tx
  | None => None
  end.

(** Source: blockchain/src/transaction/read.rs 19-41 [From<ExtendedTransaction> for TransactionResponse] *)
Definition to_response (value : ExtendedTransaction) : exec TransactionResponse :=
  let '(deposit_nonce, deposit_receipt_version) :=
    match et_deposit_nonce value with
    | Some nonce => (Some (vn_nonce nonce), Some (vn_version nonce))
    | None => (None, None)
    end in
  from ← unwrap (et_from value);
  Done {| tr_inner := et_inner value;
          tr_from := from;
          tr_block_hash := Some (et_block_hash value);
          tr_block_number := Some (et_block_number value);
          tr_transaction_index := Some (et_transaction_index value);
          tr_effective_gas_price := Some (et_effective_gas_price value);
          tr_deposit_nonce := deposit_nonce;
          tr_deposit_receipt_version := deposit_receipt_version |}.

Lemma NONCE_MASK_ones : NONCE_MASK = Z.ones 240.
Proof. reflexivity. Qed.

(** For a relayed bridge message the 256-bit versioned nonce
    is split without overlap into its top 16 bits and its low 240: the version
    is exact, the nonce is exact up to [u64::MAX] and saturates above, and a
    nonce that fits is recovered from the two parts; a deposit with another
    selector has none. *)
Lemma deposit_nonce_split tx word :
  (∀ z, u256_checked_shr z 240 = Some (z / 2 ^ 240)) →
  take 4 (dep_input tx) = RELAY_MESSAGE_SELECTOR →
  decode_relay_message_nonce (drop 4 (dep_input tx)) = Some word → uint 256 word →
  ∃ v, inner_get_deposit_nonce tx = Some v
    ∧ vn_version v = word / 2 ^ 240 ∧ uint 16 (vn_version v)
    ∧ vn_nonce v = Z.min (word mod 2 ^ 240) (umax 64)
    ∧ (word mod 2 ^ 240 < 2 ^ 64 → vn_version v * 2 ^ 240 + vn_nonce v = word).
Proof.
  intros Hshr Hsel Hdec Hw. unfold inner_get_deposit_nonce.
  rewrite decide_True by done. rewrite Hdec. simpl. rewrite Hshr. simpl.
  eexists. split; [done|]. simpl. rewrite NONCE_MASK_ones, Z.land_ones by done.
  assert (uint 16 (word / 2 ^ 240)) as Hv.
  { unfold uint in *. split; [apply Z.div_pos; lia|]. apply Z.div_lt_upper_bound; lia. }
  rewrite sat_to_exact by (unfold uint in *; lia).
  repeat split; try done; try apply Hv.
  intros Hlt. rewrite sat_to_exact by done.
  pose proof (Z.div_mod word (2 ^ 240)). lia.
Qed.

End Transactions.

(** ** The in-memory store *)

(** In blockchain/src/transaction/in_memory.rs 27-30 [TransactionMemory]. *)
Abbreviation TransactionMemory := (evmap B256 ExtendedTransaction).

Section TransactionMemory.
Context `{EnvelopeLibrary, EvMapLaws}.

(** Source: blockchain/src/transaction/in_memory.rs 37-41 [TransactionMemory::extend] *)
Definition tx_extend (m : TransactionMemory) (txs : list ExtendedTransaction) : TransactionMemory :=
  ev_refresh (ev_extend ((λ tx, (et_hash tx, tx)) <$> txs) m).

(** Source: blockchain/src/transaction/in_memory.rs 56-60 [ReadTransactionMemory::by_hash] *)
Definition tx_by_hash (m : TransactionMemory) (hash : B256) : option ExtendedTransaction :=
  ev_get_one m hash.

(** Source: blockchain/src/transaction/in_memory.rs 62-67 [ReadTransactionMemory::by_hashes] *)
Definition tx_by_hashes (m : TransactionMemory) (hashes : list B256) : list ExtendedTransaction :=
  omap (tx_by_hash m) hashes.

Abbreviation TxIndexed := (Indexed et_hash).

Lemma tx_extend_indexed m l txs : TxIndexed m l → TxIndexed (tx_extend m txs) (l ++ txs).
Proof. apply Indexed_extend. Qed.

(** Looking up the hashes of stored transactions, when no two stored
    transactions share a hash. *)
Lemma tx_by_hashes_exact m l txs : TxIndexed m l → NoDup (et_hash <$> l) → txs ⊆ l →
  tx_by_hashes m (et_hash <$> txs) = txs.
Proof.
  intros Hi Hnd Hsub. unfold tx_by_hashes. induction txs as [|tx txs IH]; [done|].
  assert (tx_by_hash m (et_hash tx) = Some tx) as Htx.
  { apply (Indexed_get_one_unique et_hash _ l); [done|set_solver|done|].
    intros tx' Hin Heq. apply list_elem_of_lookup in Hin as [i Hi'].
    assert (tx ∈ l) as [j Hj]%list_elem_of_lookup by set_solver.
    assert (i = j) as ->; [|congruence].
    eapply (NoDup_lookup _ _ _ (et_hash tx)); [done| |]; rewrite list_lookup_fmap.
    - by rewrite Hi', <- Heq.
    - by rewrite Hj. }
  simpl. rewrite Htx. f_equal. apply IH. set_solver.
Qed.

End TransactionMemory.

(** Witness: the abstract library decodes one fixed word. *)
Module TxWitness.
Import Envelope.Witness.

#[local] Instance lib : EnvelopeLibrary := {|
  trie_hash := λ _, []; envelope_effective_gas_price := λ _ _, 0; encode_2718 := λ _, [];
  decode_relay_message_nonce := λ b, match b with [] => None | x :: _ => Some (2 ^ 240 + x) end;
  u256_checked_shr := λ a b, Some (a / 2 ^ b) |}.

Definition dep : TxDeposit :=
  MkTxDeposit [] someone (Call someone) None 0 0 false (RELAY_MESSAGE_SELECTOR ++ [2]).

Lemma deposit_nonce_split_witness :
  ∃ v, inner_get_deposit_nonce dep = Some v
    ∧ vn_version v = (2 ^ 240 + 2) / 2 ^ 240 ∧ uint 16 (vn_version v)
    ∧ vn_nonce v = Z.min ((2 ^ 240 + 2) mod 2 ^ 240) (umax 64)
    ∧ ((2 ^ 240 + 2) mod 2 ^ 240 < 2 ^ 64 → vn_version v * 2 ^ 240 + vn_nonce v = 2 ^ 240 + 2).
Proof.
  apply (deposit_nonce_split dep (2 ^ 240 + 2)); [done|reflexivity|reflexivity|].
  split; [done|reflexivity].
Defined.

End TxWitness.
