(* ===== verification/Blocks.v ===== *)
(** Blocks of [blockchain/src/block] and the shared memory of
    [blockchain/src/in_memory.rs]: the stored block, its three indices by hash,
    height and payload id, the repository the block builder writes to and the
    queries the API reads with. *)
From S2P Require Import Prelude Primitives Errors Envelope EvMap Transactions.

Local Open Scope Z_scope.

Abbreviation PayloadId := Z.

(** The consensus header of [alloy], with the fields the program sets or reads. *)
Record Header := MkHeader {
  h_parent_hash : B256;
  h_ommers_hash : B256;
  h_beneficiary : Address;
  h_state_root : B256;
  h_transactions_root : B256;
  h_receipts_root : B256;
  h_logs_bloom : bytes;
  h_difficulty : Z;
  h_number : Z;
  h_gas_limit : Z;
  h_gas_used : Z;
  h_timestamp : Z;
  h_extra_data : bytes;
  h_mix_hash : B256;
  h_nonce : Z;
  h_base_fee_per_gas : option Z;
  h_withdrawals_root : option B256;
  h_blob_gas_used : option Z;
  h_excess_blob_gas : option Z;
  h_parent_beacon_block_root : option B256;
  h_requests_hash : option B256;
}.

(** The header's hash and its [Default]. *)
Class HeaderLibrary := {
  hash_slow : Header → B256;
  header_default : Header;
}.

(** Source: blockchain/src/block/hash.rs 13-17 [MovedBlockHash::block_hash] *)
Definition block_hash `{HeaderLibrary} (header : Header) : B256 := hash_slow header.

(** Source: blockchain/src/block/write.rs 52-57 [Block] *)
Record Block := MkBlock { header : Header; transactions : list B256 }.

(** Source: blockchain/src/block/write.rs 9-25 [ExtendedBlock] *)
Record ExtendedBlock := MkExtendedBlock {
  hash : B256;
  value : Z;
  payload_id : PayloadId;
  block : Block;
}.

(** Source: blockchain/src/block/write.rs 60-65 [Block::new] *)
Definition block_new (header : Header) (transactions : list B256) : Block :=
  MkBlock header transactions.

(** Source: blockchain/src/block/write.rs 67-69 [Block::with_hash] *)
Definition with_hash (self : Block) (h : B256) : ExtendedBlock := MkExtendedBlock h 0 0 self.

(** Source: blockchain/src/block/write.rs 37-40 [ExtendedBlock::with_value] *)
Definition with_value (self : ExtendedBlock) (v : Z) : ExtendedBlock :=
  MkExtendedBlock (hash self) v (payload_id self) (block self).

(** Source: blockchain/src/block/write.rs 42-45 [ExtendedBlock::with_payload_id] *)
Definition with_payload_id (self : ExtendedBlock) (id : PayloadId) : ExtendedBlock :=
  MkExtendedBlock (hash self) (value self) id (block self).

(** Source: blockchain/src/block/write.rs 47-49 [ExtendedBlock::transaction_hashes] *)
Definition transaction_hashes (self : ExtendedBlock) : list B256 := transactions (block self).

Definition number (b : ExtendedBlock) : Z := h_number (header (block b)).

(** ** Memory *)

Section Memory.
Context `{EvMapLaws}.

(** Source: blockchain/src/block/in_memory.rs 18-23 [BlockMemory] *)
Record BlockMemory := MkBlockMemory {
  hashes : evmap B256 ExtendedBlock;
  heights : evmap Z ExtendedBlock;
  payload_ids : evmap PayloadId ExtendedBlock;
}.

(** Source: blockchain/src/in_memory.rs 24-28 [SharedMemory] *)
Record SharedMemory := MkSharedMemory {
  block_memory : BlockMemory;
  transaction_memory : TransactionMemory;
}.

(** The writer and its reader share the maps; the reader sees what has been
    refreshed.  Source: blockchain/src/in_memory.rs 46-59 [shared_memory::new] *)
Definition shared_memory_new : SharedMemory :=
  MkSharedMemory (MkBlockMemory ev_new ev_new ev_new) ev_new.

(** Source: blockchain/src/block/in_memory.rs 38-47 [BlockMemory::add] *)
Definition mem_add (self : BlockMemory) (b : ExtendedBlock) : BlockMemory :=
  let hashes := ev_insert (hash b) b (hashes self) in
  let heights := ev_insert (h_number (header (block b))) b (heights self) in
  let payload_ids := ev_insert (payload_id b) b (payload_ids self) in
  MkBlockMemory (ev_refresh hashes) (ev_refresh heights) (ev_refresh payload_ids).

(** Source: blockchain/src/block/in_memory.rs 121-125 [ReadBlockMemory::by_hash] *)
Definition by_hash (self : BlockMemory) (h : B256) : option ExtendedBlock :=
  ev_get_one (hashes self) h.

(** Source: blockchain/src/block/in_memory.rs 127-131 [ReadBlockMemory::by_payload_id] *)
Definition by_payload_id (self : BlockMemory) (id : PayloadId) : option ExtendedBlock :=
  ev_get_one (payload_ids self) id.

(** Source: blockchain/src/block/in_memory.rs 133-137 [ReadBlockMemory::map_by_height] *)
Definition map_by_height {U} (self : BlockMemory) (height : Z) (f : ExtendedBlock → U) : option U :=
  f <$> ev_get_one (heights self) height.

(** Source: blockchain/src/block/in_memory.rs 110-112 [ReadBlockMemory::by_height] *)
Definition by_height (self : BlockMemory) (height : Z) : option ExtendedBlock :=
  map_by_height self height id.

(** Source: blockchain/src/block/in_memory.rs 139-141 [ReadBlockMemory::height] *)
Definition height (self : BlockMemory) : option Z :=
  checked_sub (wrap 64 (Z.of_nat (ev_len (heights self)))) 1.

(** Source: blockchain/src/block/in_memory.rs 115-117 [ReadBlockMemory::last] *)
Definition last (self : BlockMemory) : option ExtendedBlock :=
  h ← height self; by_height self h.

(** Source: blockchain/src/block/write.rs 124-127 [InMemoryBlockRepository::add] *)
Definition repository_add (mem : SharedMemory) (b : ExtendedBlock) : SharedMemory :=
  MkSharedMemory (mem_add (block_memory mem) b) (transaction_memory mem).

(** Source: blockchain/src/block/write.rs 129-135 [InMemoryBlockRepository::by_hash] *)
Definition repository_by_hash (mem : SharedMemory) (h : B256) : option ExtendedBlock :=
  by_hash (block_memory mem) h.

(** Source: blockchain/src/block/write.rs 137-139 [InMemoryBlockRepository::latest] *)
Definition repository_latest (mem : SharedMemory) : option ExtendedBlock :=
  last (block_memory mem).

(** Source: blockchain/src/transaction/write.rs 138-145 [InMemoryTransactionRepository::extend] *)
Definition transaction_extend `{EnvelopeLibrary} (mem : SharedMemory)
    (txs : list ExtendedTransaction) : SharedMemory :=
  MkSharedMemory (block_memory mem) (tx_extend (transaction_memory mem) txs).

(** ** The memory is a log of the blocks added *)

Definition Represents (self : BlockMemory) (log : list ExtendedBlock) : Prop :=
  Indexed hash (hashes self) log
  ∧ Indexed number (heights self) log
  ∧ Indexed payload_id (payload_ids self) log.

Lemma represents_new : Represents (block_memory shared_memory_new) [].
Proof. repeat split; intros; apply Indexed_new. Qed.

Lemma represents_add self log b : Represents self log → Represents (mem_add self b) (log ++ [b]).
Proof.
  intros (Hh & Hn & Hp). split; [by apply (Indexed_insert hash)|].
  split; [by apply (Indexed_insert number)|by apply (Indexed_insert payload_id)].
Qed.

(** The three indices implement an append-only log of blocks:
    adding a block appends it, and a lookup by hash, height or payload id
    returns a block of the log with that key whenever there is one, and nothing
    otherwise. *)
Lemma block_memory_refines self log b :
  Represents self log →
  Represents (mem_add self b) (log ++ [b])
  ∧ (∀ k, match by_hash self k with
          | Some x => x ∈ log ∧ hash x = k | None => ∀ x, x ∈ log → hash x ≠ k end)
  ∧ (∀ k, match by_height self k with
          | Some x => x ∈ log ∧ number x = k | None => ∀ x, x ∈ log → number x ≠ k end)
  ∧ (∀ k, match by_payload_id self k with
          | Some x => x ∈ log ∧ payload_id x = k | None => ∀ x, x ∈ log → payload_id x ≠ k end).
Proof.
  intros Hrep. split; [by apply represents_add|]. destruct Hrep as (Hh & Hn & Hp).
  assert (∀ {K} `{Countable K} (f : ExtendedBlock → K) (m : evmap K ExtendedBlock) k,
    Indexed f m log → match ev_get_one m k with
      | Some x => x ∈ log ∧ f x = k | None => ∀ x, x ∈ log → f x ≠ k end) as Hget.
  { intros K ?? f m k Hi. destruct (ev_get_one m k) eqn:Hg.
    - by eapply Indexed_get_one.
    - by eapply Indexed_get_one_None. }
  split; [|split]; intros k; [by apply Hget| |by apply Hget].
  unfold by_height, map_by_height. specialize (Hget _ _ _ number _ k Hn).
  by destruct (ev_get_one (heights self) k).
Qed.

(** A lookup by height, without the other indices. *)
Lemma block_at_height self log h : Represents self log →
  (∀ b, by_height self h = Some b → b ∈ log ∧ number b = h)
  ∧ (by_height self h = None → ∀ b, b ∈ log → number b ≠ h).
Proof.
  intros (_ & Hn & _). unfold by_height, map_by_height.
  destruct (ev_get_one (heights self) h) as [x|] eqn:Hg; simpl; (split; [|try done]).
  - intros b [= <-]. by eapply Indexed_get_one.
  - intros b [=].
  - intros _. by eapply Indexed_get_one_None.
Qed.

(** ** Chains *)

(** The blocks of a chain: height [i] holds block [i], each block names the
    hash of the one before it as its parent. *)
Definition Linked (log : list ExtendedBlock) : Prop :=
  (∀ i b, log !! i = Some b → number b = Z.of_nat i)
  ∧ (∀ i b c, log !! i = Some b → log !! S i = Some c →
       h_parent_hash (header (block c)) = hash b).

Lemma linked_numbers log : Linked log → NoDup (number <$> log).
Proof.
  intros [Hn _]. apply NoDup_alt. intros i j x Hi Hj.
  rewrite list_lookup_fmap in Hi, Hj.
  destruct (log !! i) eqn:Hbi, (log !! j) eqn:Hbj; simplify_eq/=.
  apply Hn in Hbi, Hbj. lia.
Qed.

(** The height and the blocks by height, from what the readers find. *)
Lemma height_shown self log : Shown number (heights self) log → Linked log →
  Z.of_nat (length log) < 2 ^ 64 → log ≠ [] →
  height self = Some (Z.of_nat (length log) - 1).
Proof.
  intros Hn Hl Hlen Hne. unfold height.
  rewrite (Shown_len number _ log) by by try apply linked_numbers.
  rewrite wrap_small by (unfold uint; lia). unfold checked_sub.
  rewrite decide_True; [done|]. destruct log; simpl; [done|lia].
Qed.

Lemma by_height_shown self log i b : Shown number (heights self) log → Linked log →
  log !! i = Some b → by_height self (Z.of_nat i) = Some b.
Proof.
  intros Hn [Hnum _] Hb. unfold by_height, map_by_height.
  rewrite (Shown_get_one_unique number _ log _ b); [done|done| | |].
  - by eapply list_elem_of_lookup_2.
  - by apply Hnum.
  - intros b' [j Hj]%list_elem_of_lookup Hb'. apply Hnum in Hj as Hj'.
    assert (i = j) as -> by lia. congruence.
Qed.

Lemma represents_shown self log : Represents self log → Shown number (heights self) log.
Proof. intros (_ & Hn & _). by apply Indexed_shown. Qed.

Lemma height_linked self log : Represents self log → Linked log →
  Z.of_nat (length log) < 2 ^ 64 → log ≠ [] →
  height self = Some (Z.of_nat (length log) - 1).
Proof. intros Hr. by apply height_shown, represents_shown. Qed.

Lemma by_height_linked self log i b : Represents self log → Linked log →
  log !! i = Some b → by_height self (Z.of_nat i) = Some b.
Proof. intros Hr. by apply by_height_shown, represents_shown. Qed.

Lemma last_linked self log b : Represents self (log ++ [b]) → Linked (log ++ [b]) →
  Z.of_nat (length (log ++ [b])) < 2 ^ 64 → last self = Some b.
Proof.
  intros Hr Hl Hlen. unfold last. rewrite (height_linked _ _ Hr Hl) by (done || by destruct log).
  simpl. rewrite length_app in *. simpl in *.
  replace (_ - 1) with (Z.of_nat (length log)) by lia.
  eapply by_height_linked; [done..|]. apply list_lookup_middle. done.
Qed.

Lemma linked_snoc log b c : Linked (log ++ [b]) →
  number c = number b + 1 → h_parent_hash (header (block c)) = hash b →
  Linked ((log ++ [b]) ++ [c]).
Proof.
  intros [Hn Hp] Hnum Hpar. split.
  - intros i x Hx. apply lookup_app_Some in Hx as [Hx|[Hge Hx]]; [by apply Hn|].
    apply list_lookup_singleton_Some in Hx as [Hi <-].
    rewrite Hnum, (Hn (length log) b) by by apply list_lookup_middle.
    rewrite length_app in *. simpl in *. lia.
  - intros i x y Hx Hy. apply lookup_app_Some in Hy as [Hy|[Hge Hy]].
    + rewrite lookup_app_l in Hx; [by eapply Hp|]. apply lookup_lt_Some in Hy. lia.
    + apply list_lookup_singleton_Some in Hy as [Hi <-].
      rewrite length_app in *. simpl in *.
      assert (i = length log) as -> by lia.
      rewrite lookup_app_l in Hx by (rewrite length_app; simpl; lia).
      rewrite list_lookup_middle in Hx by done. by simplify_eq.
Qed.

(** ** Queries *)

(** The RPC block: transactions as hashes or in full, the header with its hash.
    Source: blockchain/src/block/read.rs 31-35 [BlockResponse] *)
Inductive BlockTransactions :=
| Hashes (l : list B256)
| Full (l : list TransactionResponse).
Record BlockResponse := MkBlockResponse {
  br_transactions : BlockTransactions;
  br_hash : B256;
  br_header : Header;
  br_uncles : list B256;
  br_withdrawals : option (list bytes);
}.

(** Source: blockchain/src/block/read.rs 38-51 [BlockResponse::new] *)
Definition response_new (txs : BlockTransactions) (b : ExtendedBlock) : BlockResponse :=
  MkBlockResponse txs (hash b) (header (block b)) [] (Some []).

(** Source: blockchain/src/block/read.rs 53-58 [BlockResponse::from_block_with_transaction_hashes] *)
Definition from_block_with_transaction_hashes (b : ExtendedBlock) : BlockResponse :=
  response_new (Hashes (transactions (block b))) b.

Context `{TxLibrary, EnvelopeLibrary}.

(** Source: blockchain/src/block/read.rs 60-68 [BlockResponse::from_block_with_transactions] *)
Definition from_block_with_transactions (b : ExtendedBlock) (txs : list ExtendedTransaction)
    : exec BlockResponse :=
  full ← exec_map to_response txs;
  Done (response_new (Full full) b).

Definition block_query (mem : SharedMemory) (found : option ExtendedBlock)
    (include_transactions : bool) : exec (option BlockResponse) :=
  match found with
  | None => Done None
  | Some b =>
    if include_transactions then
      let txs := tx_by_hashes (transaction_memory mem) (transaction_hashes b) in
      Some <$> from_block_with_transactions b txs
    else Done (Some (from_block_with_transaction_hashes b))
  end.

(** Source: blockchain/src/block/read.rs 92-109 [InMemoryBlockQueries::by_hash] *)
Definition query_by_hash (mem : SharedMemory) (h : B256) (include_transactions : bool)
    : exec (option BlockResponse) :=
  block_query mem (by_hash (block_memory mem) h) include_transactions.

(** Source: blockchain/src/block/read.rs 111-128 [InMemoryBlockQueries::by_height] *)
Definition query_by_height (mem : SharedMemory) (height : Z) (include_transactions : bool)
    : exec (option BlockResponse) :=
  block_query mem (by_height (block_memory mem) height) include_transactions.

(** Source: blockchain/src/block/read.rs 130-132 [InMemoryBlockQueries::latest] *)
Definition query_latest (mem : SharedMemory) : option Z := height (block_memory mem).

Lemma to_response_inner tx r : to_response tx = Done r →
  tr_inner r = et_inner tx ∧ tr_block_hash r = Some (et_block_hash tx)
  ∧ tr_block_number r = Some (et_block_number tx)
  ∧ tr_transaction_index r = Some (et_transaction_index tx).
Proof.
  unfold to_response. destruct (et_deposit_nonce tx), (et_from tx); simpl; naive_solver.
Qed.

End Memory.
Arguments BlockMemory {_}.
Arguments SharedMemory {_}.

(** Witness: one block in the concrete memory. *)
Module BlockWitness.
Import EvMap.Model.

Definition h0 : Header :=
  MkHeader [] [] [] [] [] [] [] 0 0 0 0 0 [] [] 0 None None None None None None.
Definition b0 : ExtendedBlock := MkExtendedBlock [7] 0 1 (MkBlock h0 []).

Lemma block_memory_witness :
  let self := mem_add (block_memory shared_memory_new) b0 in
  Represents (mem_add self b0) ([b0] ++ [b0])
  ∧ (∀ k, match by_hash self k with
          | Some x => x ∈ [b0] ∧ hash x = k | None => ∀ x, x ∈ [b0] → hash x ≠ k end)
  ∧ (∀ k, match by_height self k with
          | Some x => x ∈ [b0] ∧ number x = k | None => ∀ x, x ∈ [b0] → number x ≠ k end)
  ∧ (∀ k, match by_payload_id self k with
          | Some x => x ∈ [b0] ∧ payload_id x = k | None => ∀ x, x ∈ [b0] → payload_id x ≠ k end).
Proof.
  apply (block_memory_refines _ [b0] b0), (represents_add _ []), represents_new.
Defined.

End BlockWitness.
