(* ===== verification/Receipts.v ===== *)
(** Stored receipts of [blockchain/src/receipt]: the record kept per executed
    transaction, the in-memory store and the RPC receipt made from it. *)
From S2P Require Import Prelude Primitives Envelope EvMap Fees.

Local Open Scope Z_scope.

(** Source: blockchain/src/receipt/write.rs 20-47 [ExtendedReceipt] *)
Record ExtendedReceipt := MkExtendedReceipt {
  transaction_hash : B256;
  transaction_index : Z;
  to : option Address;
  from : Address;
  receipt : OpReceiptEnvelope Log;
  l1_block_info : option L1BlockInfo;
  gas_used : Z;
  l2_gas_price : Z;
  contract_address : option Address;
  logs_offset : Z;
  block_hash : B256;
  block_number : Z;
  block_timestamp : Z;
}.

(** Source: blockchain/src/receipt/write.rs 49-54 [ExtendedReceipt::with_block_hash] *)
Definition with_block_hash (h : B256) (self : ExtendedReceipt) : ExtendedReceipt :=
  MkExtendedReceipt (transaction_hash self) (transaction_index self) (to self) (from self)
    (receipt self) (l1_block_info self) (gas_used self) (l2_gas_price self)
    (contract_address self) (logs_offset self) h (block_number self) (block_timestamp self).

(** A log as the RPC reports it. *)
Record RpcLog := MkRpcLog {
  rl_inner : Log;
  rl_block_hash : option B256;
  rl_block_number : option Z;
  rl_block_timestamp : option Z;
  rl_transaction_hash : option B256;
  rl_transaction_index : option Z;
  rl_log_index : option Z;
  rl_removed : bool;
}.

Record TransactionReceipt := MkTransactionReceipt {
  rx_inner : OpReceiptEnvelope RpcLog;
  rx_transaction_hash : B256;
  rx_transaction_index : option Z;
  rx_block_hash : option B256;
  rx_block_number : option Z;
  rx_gas_used : Z;
  rx_effective_gas_price : Z;
  rx_blob_gas_used : option Z;
  rx_blob_gas_price : option Z;
  rx_from : Address;
  rx_to : option Address;
  rx_contract_address : option Address;
  rx_l1_block_info : L1BlockInfo;
}.

(** Source: blockchain/src/receipt/read.rs 24-39 [From<ExtendedReceipt> for TransactionReceipt] *)
Definition rpc_logs (rx : ExtendedReceipt) : list RpcLog :=
  imap (λ internal_index log,
    {| rl_inner := log;
       rl_block_hash := Some (block_hash rx);
       rl_block_number := Some (block_number rx);
       rl_block_timestamp := Some (block_timestamp rx);
       rl_transaction_hash := Some (transaction_hash rx);
       rl_transaction_index := Some (transaction_index rx);
       rl_log_index := Some (wrap 64 (logs_offset rx + Z.of_nat internal_index));
       rl_removed := false |}) (logs (envelope_receipt (receipt rx))).

(** Source: blockchain/src/receipt/read.rs 21-62 [From<ExtendedReceipt> for TransactionReceipt] *)
Definition to_rpc_receipt (rx : ExtendedReceipt) : exec TransactionReceipt :=
  inner ← with_rpc_logs (receipt rx) (rpc_logs rx);
  Done {| rx_inner := inner;
          rx_transaction_hash := transaction_hash rx;
          rx_transaction_index := Some (transaction_index rx);
          rx_block_hash := Some (block_hash rx);
          rx_block_number := Some (block_number rx);
          rx_gas_used := gas_used rx;
          rx_effective_gas_price := sat_to 128 (l2_gas_price rx);
          rx_blob_gas_used := None;
          rx_blob_gas_price := None;
          rx_from := from rx;
          rx_to := to rx;
          rx_contract_address := contract_address rx;
          rx_l1_block_info := default default_l1_block_info (l1_block_info rx) |}.

(** ** The in-memory store *)

(** In blockchain/src/receipt/in_memory.rs 32-35 [ReceiptMemory]. *)
Abbreviation ReceiptMemory := (evmap B256 ExtendedReceipt).

Section ReceiptMemory.
Context `{EvMapLaws}.

(** Source: blockchain/src/receipt/in_memory.rs 42-49 [ReceiptMemory::extend] *)
Definition extend (m : ReceiptMemory) (receipts : list ExtendedReceipt) : ReceiptMemory :=
  ev_refresh (ev_extend ((λ r, (transaction_hash r, r)) <$> receipts) m).

(** Source: blockchain/src/receipt/in_memory.rs 81-83 [ReadReceiptMemory::contains] *)
Definition contains (m : ReceiptMemory) (h : B256) : bool := ev_contains_key m h.

(** Source: blockchain/src/receipt/in_memory.rs 85-89 [ReadReceiptMemory::by_transaction_hash] *)
Definition by_transaction_hash (m : ReceiptMemory) (h : B256) : option ExtendedReceipt :=
  ev_get_one m h.

(** Source: blockchain/src/receipt/in_memory.rs 121-129 [InMemoryReceiptQueries::by_transaction_hash] *)
Definition query_by_transaction_hash (m : ReceiptMemory) (h : B256)
    : exec (option TransactionReceipt) :=
  match by_transaction_hash m h with
  | None => Done None
  | Some r => Some <$> to_rpc_receipt r
  end.

Abbreviation RxIndexed := (Indexed transaction_hash).

Lemma extend_indexed m l rs : RxIndexed m l → RxIndexed (extend m rs) (l ++ rs).
Proof. apply Indexed_extend. Qed.

End ReceiptMemory.

(** The log indices of consecutive receipts of one block: each receipt's
    offset is the number of logs before it. *)
Definition log_count (r : ExtendedReceipt) : nat := length (logs (envelope_receipt (receipt r))).

Fixpoint contiguous (offset : Z) (rs : list ExtendedReceipt) : Prop :=
  match rs with
  | [] => True
  | r :: rs => logs_offset r = offset ∧ contiguous (offset + Z.of_nat (log_count r)) rs
  end.

Definition total_logs (rs : list ExtendedReceipt) : nat := sum_list (log_count <$> rs).

Lemma total_logs_cons r rs : total_logs (r :: rs) = (log_count r + total_logs rs)%nat.
Proof. done. Qed.

Lemma rpc_logs_length r : length (rpc_logs r) = log_count r.
Proof. unfold rpc_logs. apply length_imap. Qed.

Lemma rpc_logs_indices r : 0 ≤ logs_offset r →
  logs_offset r + Z.of_nat (log_count r) ≤ 2 ^ 64 →
  rl_log_index <$> rpc_logs r = Some <$> seqZ (logs_offset r) (Z.of_nat (log_count r)).
Proof.
  intros H0 Hmax. apply list_eq. intros i. rewrite !list_lookup_fmap.
  unfold rpc_logs. rewrite list_lookup_imap.
  fold (log_count r) in *. destruct (logs (envelope_receipt (receipt r)) !! i) eqn:Hi; simpl.
  - apply lookup_lt_Some in Hi. unfold log_count in *. rewrite lookup_seqZ_lt by lia. simpl.
    f_equal. f_equal. apply wrap_small. unfold uint. lia.
  - apply lookup_ge_None in Hi. unfold log_count. by rewrite lookup_seqZ_ge by lia.
Qed.

(** The RPC logs of the receipts of one block carry the
    consecutive log indices of the block: concatenated in block order they are
    exactly the offset of the first receipt and its successors, so no index is
    reused or skipped across transactions. *)
Lemma block_log_indices offset rs :
  0 ≤ offset → offset + Z.of_nat (total_logs rs) ≤ 2 ^ 64 → contiguous offset rs →
  rl_log_index <$> concat (rpc_logs <$> rs) =
    Some <$> seqZ offset (Z.of_nat (total_logs rs)).
Proof.
  revert offset. induction rs as [|r rs IH]; intros offset H0 Hmax Hc; [done|].
  destruct Hc as [Ho Hc]. rewrite total_logs_cons in *.
  rewrite fmap_cons. cbn [concat]. rewrite fmap_app. subst offset.
  rewrite (IH (logs_offset r + Z.of_nat (log_count r))) by (done || lia).
  rewrite rpc_logs_indices by lia.
  rewrite Nat2Z.inj_add, seqZ_app by lia. by rewrite fmap_app.
Qed.

(** Witness: two receipts with two and one logs. *)
Definition sample_receipt (n : nat) (offset : Z) : ExtendedReceipt :=
  MkExtendedReceipt [] 0 None [] (RLegacy (MkReceiptWithBloom
    (MkReceipt true 0 (replicate n (MkLog [] [] []))) [])) None 0 0 None offset [] 0 0.

Lemma block_log_indices_witness :
  rl_log_index <$> concat (rpc_logs <$> [sample_receipt 2 0; sample_receipt 1 2]) =
    Some <$> seqZ 0 3.
Proof. apply (block_log_indices 0); done. Defined.
