(* ===== verification/Payloads.v ===== *)
(** Payloads of [blockchain/src/payload]: the identifier of a payload under
    construction, the execution payload made from a stored block, and the
    queries that serve it. *)
From S2P Require Import Prelude Primitives Errors Envelope EvMap Transactions Blocks.

Local Open Scope Z_scope.

(** [alloy]'s withdrawal. *)
Record Withdrawal := MkWithdrawal {
  w_index : Z; w_validator_index : Z; w_address : Address; w_amount : Z }.

Class PayloadLibrary := {
  sha256 : bytes → bytes;
  rlp_withdrawals : list Withdrawal → bytes;
}.

(** Source: blockchain/src/payload/id.rs 12-21 [NewPayloadIdInput] *)
Record NewPayloadIdInput := MkNewPayloadIdInput {
  pi_parent : B256;
  pi_timestamp : Z;
  pi_random : B256;
  pi_fee_recipient : Address;
  pi_withdrawals : list Withdrawal;
  pi_beacon_root : option B256;
  pi_version : Z;
}.

(** Source: blockchain/src/payload/id.rs 28-43 [NewPayloadIdInput::new_v3] *)
Definition new_v3 (parent : B256) (timestamp : Z) (random : B256) (fee_recipient : Address)
    : NewPayloadIdInput :=
  MkNewPayloadIdInput parent timestamp random fee_recipient [] None 3.

(** Source: blockchain/src/payload/id.rs 46-52 [NewPayloadIdInput::with_withdrawals] *)
Definition with_withdrawals (ws : list Withdrawal) (self : NewPayloadIdInput) : NewPayloadIdInput :=
  MkNewPayloadIdInput (pi_parent self) (pi_timestamp self) (pi_random self)
    (pi_fee_recipient self) ws (pi_beacon_root self) (pi_version self).

(** Source: blockchain/src/payload/id.rs 55-58 [NewPayloadIdInput::with_beacon_root] *)
Definition with_beacon_root (root : B256) (self : NewPayloadIdInput) : NewPayloadIdInput :=
  MkNewPayloadIdInput (pi_parent self) (pi_timestamp self) (pi_random self)
    (pi_fee_recipient self) (pi_withdrawals self) (Some root) (pi_version self).

Section PayloadId.
Context `{PayloadLibrary}.

(** What the hasher is fed.
    Source: blockchain/src/payload/id.rs 79-90 [StatePayloadId::new_payload_id] *)
Definition id_preimage (input : NewPayloadIdInput) : bytes :=
  pi_parent input ++ be_bytes 8 (pi_timestamp input) ++ pi_random input
  ++ pi_fee_recipient input ++ rlp_withdrawals (pi_withdrawals input)
  ++ default [] (pi_beacon_root input).

(** Source: blockchain/src/payload/id.rs 77-98 [StatePayloadId::new_payload_id] *)
Definition new_payload_id (input : NewPayloadIdInput) : PayloadId :=
  let hash := sha256 (id_preimage input) in
  let hash := <[0%nat := pi_version input]> hash in
  be_val (take 8 hash).

(** The inputs the engine API builds: a version 3 input with a beacon root. *)
Definition input_wf (input : NewPayloadIdInput) : Prop :=
  bytes_len 32 (pi_parent input) ∧ uint 64 (pi_timestamp input)
  ∧ bytes_len 32 (pi_random input) ∧ bytes_len 20 (pi_fee_recipient input)
  ∧ (∃ r, pi_beacon_root input = Some r ∧ bytes_len 32 r) ∧ pi_version input = 3.

Lemma app_inj_len {A} (a b x y : list A) : length a = length b → a ++ x = b ++ y → a = b ∧ x = y.
Proof. intros. by apply app_inj_1. Qed.

Lemma app_inj_len_r {A} (a b x y : list A) : length x = length y → a ++ x = b ++ y → a = b ∧ x = y.
Proof. intros. by apply app_inj_2. Qed.

Lemma be_bytes_inj n a b : uint (8 * Z.of_nat n) a → uint (8 * Z.of_nat n) b →
  be_bytes n a = be_bytes n b → a = b.
Proof.
  intros Ha Hb He. apply (f_equal be_val) in He.
  rewrite !be_val_bytes, !wrap_small in He; done.
Qed.

Lemma preimage_inj i1 i2 :
  (∀ w1 w2, rlp_withdrawals w1 = rlp_withdrawals w2 → w1 = w2) →
  input_wf i1 → input_wf i2 → id_preimage i1 = id_preimage i2 → i1 = i2.
Proof.
  intros Hrlp H1 H2 He. destruct i1 as [p1 t1 r1 f1 w1 b1 v1], i2 as [p2 t2 r2 f2 w2 b2 v2].
  unfold input_wf in *. simpl in *.
  destruct H1 as ([Hp1 _] & Ht1 & [Hr1 _] & [Hf1 _] & (x1 & -> & [Hx1 _]) & ->).
  destruct H2 as ([Hp2 _] & Ht2 & [Hr2 _] & [Hf2 _] & (x2 & -> & [Hx2 _]) & ->).
  unfold id_preimage in He.
  cbn [pi_parent pi_timestamp pi_random pi_fee_recipient pi_withdrawals pi_beacon_root] in He.
  apply app_inj_len in He as [-> He]; [|congruence].
  apply app_inj_len in He as [Ht He]; [|by rewrite !length_be_bytes].
  apply be_bytes_inj in Ht as ->; [|done..].
  apply app_inj_len in He as [-> He]; [|congruence].
  apply app_inj_len in He as [-> He]; [|congruence].
  simpl in He. apply app_inj_len_r in He as [Hw ->]; [|congruence].
  by apply Hrlp in Hw as ->.
Qed.

(** A payload id is a 64-bit word whose top byte is the
    version, 3, whatever the digest is; and the bytes hashed into it determine
    the attributes (parent, timestamp, randomness, recipient, withdrawals and
    beacon root), so two different requests share an id only through a
    collision of the digest. *)
Lemma payload_id_spec i1 i2 :
  (∀ b, bytes_len 32 (sha256 b)) →
  (∀ w1 w2, rlp_withdrawals w1 = rlp_withdrawals w2 → w1 = w2) →
  input_wf i1 → input_wf i2 →
  uint 64 (new_payload_id i1)
  ∧ new_payload_id i1 / 2 ^ 56 = 3
  ∧ (new_payload_id i1 = new_payload_id i2 →
       i1 = i2 ∨ (id_preimage i1 ≠ id_preimage i2
         ∧ take 7 (drop 1 (sha256 (id_preimage i1))) = take 7 (drop 1 (sha256 (id_preimage i2))))).
Proof.
  intros Hsha Hrlp H1 H2.
  assert (∀ i, input_wf i → ∃ rest, bytes_len 7 rest
    ∧ rest = take 7 (drop 1 (sha256 (id_preimage i)))
    ∧ new_payload_id i = be_val (3 :: rest)) as Hform.
  { intros i (_ & _ & _ & _ & _ & Hv). unfold new_payload_id. rewrite Hv.
    destruct (Hsha (id_preimage i)) as [Hl Hb].
    destruct (sha256 (id_preimage i)) as [|x l]; [done|]. simpl in *.
    exists (take 7 l). inversion Hb; subst. split; [|by rewrite drop_0].
    split; [rewrite length_take; lia|by apply is_bytes_take]. }
  destruct (Hform i1 H1) as (r1 & Hr1 & He1 & ->).
  destruct (Hform i2 H2) as (r2 & Hr2 & He2 & ->).
  assert (∀ r, bytes_len 7 r → be_val (3 :: r) = 3 * 2 ^ 56 + be_val r) as Hval.
  { intros r [Hl Hb]. unfold be_val. simpl. unfold le_val at 1. rewrite foldr_app. simpl.
    assert (∀ l a, foldr (λ b acc, b + 256 * acc) a l = le_val l + a * 2 ^ (8 * Z.of_nat (length l)))
      as Hfold.
    { clear. intros l a. induction l as [|b l IH]; [simpl; lia|].
      cbn [foldr length le_val]. fold (le_val l). rewrite IH, pow256_succ. lia. }
    rewrite Hfold, length_rev, Hl. lia. }
  assert (∀ r, bytes_len 7 r → uint 56 (be_val r)) as Hbound.
  { intros r [Hl Hb]. replace 56 with (8 * Z.of_nat (length r)) by lia. by apply be_val_bound. }
  rewrite !Hval by done. pose proof (Hbound r1 Hr1) as B1. pose proof (Hbound r2 Hr2) as B2.
  unfold uint in *. split; [lia|]. split.
  - rewrite Z.add_comm, Z.div_add by done. rewrite Z.div_small; lia.
  - intros Heq. assert (be_val r1 = be_val r2) as Hb by lia.
    assert (r1 = r2) as Hrr by (rewrite <- (be_bytes_val 7 r1), Hb, be_bytes_val by done; done).
    destruct (decide (id_preimage i1 = id_preimage i2)); [left; by apply preimage_inj|right].
    split; [done|]. congruence.
Qed.

End PayloadId.

(** ** Execution payloads *)

(** Source: blockchain/src/payload/read.rs 39-58 [ExecutionPayload] *)
Record ExecutionPayload := MkExecutionPayload {
  ep_parent_hash : B256;
  ep_fee_recipient : Address;
  ep_state_root : B256;
  ep_receipts_root : B256;
  ep_logs_bloom : bytes;
  ep_prev_randao : B256;
  ep_block_number : Z;
  ep_gas_limit : Z;
  ep_gas_used : Z;
  ep_timestamp : Z;
  ep_extra_data : bytes;
  ep_base_fee_per_gas : Z;
  ep_block_hash : B256;
  ep_transactions : list bytes;
  ep_withdrawals : list Withdrawal;
  ep_blob_gas_used : Z;
  ep_excess_blob_gas : Z;
}.

(** Source: blockchain/src/payload/read.rs 97-102 [BlobsBundle] *)
Record BlobsBundle := MkBlobsBundle {
  commitments : list bytes; proofs : list bytes; blobs : list bytes }.

(** Source: blockchain/src/payload/read.rs 11-18 [PayloadResponse] *)
Record PayloadResponse := MkPayloadResponse {
  execution_payload : ExecutionPayload;
  block_value : Z;
  blobs_bundle : BlobsBundle;
  should_override_builder : bool;
  parent_beacon_block_root : B256;
}.

Section Payload.
Context `{EvMapLaws, EnvelopeLibrary}.

(** Source: blockchain/src/payload/read.rs 61-94 [ExecutionPayload::from_block_with_transactions] *)
Definition execution_payload_from (b : ExtendedBlock) (txs : list OpTxEnvelope)
    : ExecutionPayload :=
  let h := header (block b) in
  {| ep_block_hash := hash b;
     ep_parent_hash := h_parent_hash h;
     ep_fee_recipient := h_beneficiary h;
     ep_state_root := h_state_root h;
     ep_receipts_root := h_receipts_root h;
     ep_logs_bloom := h_logs_bloom h;
     ep_prev_randao := h_mix_hash h;
     ep_block_number := h_number h;
     ep_gas_limit := h_gas_limit h;
     ep_gas_used := h_gas_used h;
     ep_timestamp := h_timestamp h;
     ep_extra_data := h_extra_data h;
     ep_base_fee_per_gas := default 0 (h_base_fee_per_gas h);
     ep_transactions := encode_2718 <$> txs;
     ep_withdrawals := [];
     ep_blob_gas_used := default 0 (h_blob_gas_used h);
     ep_excess_blob_gas := default 0 (h_excess_blob_gas h) |}.

(** Source: blockchain/src/payload/read.rs 21-36 [PayloadResponse::from_block_with_transactions] *)
Definition payload_response_from (b : ExtendedBlock) (txs : list OpTxEnvelope) : PayloadResponse :=
  {| parent_beacon_block_root :=
       default (replicate 32 0) (h_parent_beacon_block_root (header (block b)));
     block_value := value b;
     execution_payload := execution_payload_from b txs;
     blobs_bundle := MkBlobsBundle [] [] [];
     should_override_builder := false |}.

(** Source: blockchain/src/payload/in_memory.rs 26-34 [block_into_payload] *)
Definition block_into_payload (mem : SharedMemory) (b : ExtendedBlock) : PayloadResponse :=
  let txs := et_inner <$> tx_by_hashes (transaction_memory mem) (transaction_hashes b) in
  payload_response_from b txs.

(** Source: blockchain/src/payload/in_memory.rs 41-50 [InMemoryPayloadQueries::by_hash] *)
Definition payload_by_hash (mem : SharedMemory) (h : B256) : option PayloadResponse :=
  block_into_payload mem <$> by_hash (block_memory mem) h.

(** Source: blockchain/src/payload/in_memory.rs 52-61 [InMemoryPayloadQueries::by_id] *)
Definition payload_by_id (mem : SharedMemory) (id : PayloadId) : option PayloadResponse :=
  block_into_payload mem <$> by_payload_id (block_memory mem) id.

End Payload.

(** Witness: a digest that copies the first 32 bytes of what it hashes. *)
Module PayloadWitness.

#[local] Instance lib : PayloadLibrary := {|
  sha256 := λ b, replicate 32 (Z.of_nat (length b) mod 256);
  rlp_withdrawals := λ ws, concat ((λ w, [w_index w; w_validator_index w]
    ++ [Z.of_nat (length (w_address w))] ++ w_address w ++ [w_amount w]) <$> ws) |}.

Lemma rlp_inj w1 w2 : rlp_withdrawals w1 = rlp_withdrawals w2 → w1 = w2.
Proof.
  revert w2. induction w1 as [|[a b c d] w1 IH]; intros [|[a' b' c' d'] w2] He;
    simpl in *; try done.
  injection He as -> -> Hl He. rewrite <- !app_assoc in He.
  apply app_inj_len in He as [-> He]; [|lia]. injection He as -> He. f_equal. by apply IH.
Qed.

Definition input : NewPayloadIdInput :=
  with_beacon_root (replicate 32 1) (new_v3 (replicate 32 2) 5 (replicate 32 3) (replicate 20 4)).

Lemma input_ok : input_wf input.
Proof.
  unfold input_wf, bytes_len, is_bytes, is_byte, uint. simpl.
  repeat split; try lia; [by repeat constructor..|].
  eexists. split; [done|]. split; [done|]. by repeat constructor.
Qed.

Lemma payload_id_witness :
  uint 64 (new_payload_id input) ∧ new_payload_id input / 2 ^ 56 = 3
  ∧ (new_payload_id input = new_payload_id input → input = input ∨
      (id_preimage input ≠ id_preimage input
       ∧ take 7 (drop 1 (sha256 (id_preimage input)))
         = take 7 (drop 1 (sha256 (id_preimage input))))).
Proof.
  apply payload_id_spec; [|apply rlp_inj|apply input_ok|apply input_ok].
  intros b. split; [apply length_replicate|].
  apply Forall_replicate, Z.mod_pos_bound. done.
Defined.

End PayloadWitness.
