(* ===== verification/Application.v ===== *)
(** The block builder of [app/src/command.rs] and [app/src/actor.rs]: the
    application state, the commands it handles, the execution of a block's
    transactions and the assembly of the block.

    The execution of one transaction ([Executor]), the Move state and the EVM
    storage ([WorldState]), and the callbacks ([Callbacks]) are the interfaces
    the builder is written against in the code (traits of [Dependencies]); the
    library functions it calls are in [AppLibrary]. *)
From S2P Require Import Prelude Primitives MoveTypes Errors Envelope EvMap.
From S2P Require Import Transactions Fees BaseFee Receipts Payloads Blocks.
Import Addresses Words.

Local Open Scope Z_scope.

(** Source: evm-ext/src/native_evm_context.rs 31-36 [HeaderForExecution] *)
Record HeaderForExecution := MkHeaderForExecution {
  hx_number : Z;
  hx_timestamp : Z;
  hx_prev_randao : B256;
}.

(** The state the transactions run on, and how their changes are applied
    ([moved_state::State], [StorageTrieRepository]). *)
Class WorldState := {
  MoveState : Type;
  MoveChanges : Type;
  EvmStorage : Type;
  EvmChanges : Type;
  StorageError : Type;
  state_apply : MoveState → MoveChanges → exec (result StorageError MoveState);
  state_root : MoveState → B256;
  storage_apply : EvmStorage → EvmChanges → result StorageError EvmStorage;
}.

(** Source: execution/src/transaction.rs 119-129 [Changes] *)
Record Changes `{WorldState} := MkChanges { move_vm : MoveChanges; evm : EvmChanges }.

(** Source: execution/src/transaction.rs 137-157 [TransactionExecutionOutcome] *)
Record TransactionExecutionOutcome `{ErrorTypes, WorldState} := MkOutcome {
  vm_outcome : result UserError ();
  changes : Changes;
  gas_used : Z;
  l2_price : Z;
  logs : list Log;
  deployment : option (AccountAddress * ModuleId);
}.

(** Source: execution/src/lib.rs 119-127 [DepositExecutionInput] *)
Record DepositExecutionInput `{WorldState} := MkDepositInput {
  d_tx : TxDeposit;
  d_tx_hash : B256;
  d_state : MoveState;
  d_storage_trie : EvmStorage;
  d_block_header : HeaderForExecution;
  d_block_hash_lookup : Z → option B256;
}.

(** Source: execution/src/lib.rs 139-151 [CanonicalExecutionInput] *)
Record CanonicalExecutionInput `{WorldState} := MkCanonicalInput {
  c_tx : NormalizedEthTransaction;
  c_tx_hash : B256;
  c_state : MoveState;
  c_storage_trie : EvmStorage;
  c_l1_cost : Z;
  c_l2_fee : MovedGasFee;
  c_l2_input : L2GasFeeInput;
  c_block_header : HeaderForExecution;
  c_block_hash_lookup : Z → option B256;
}.

(** Source: execution/src/lib.rs 112-116 [TransactionExecutionInput] *)
Inductive TransactionExecutionInput `{WorldState} :=
| DepositInput (i : DepositExecutionInput)
| CanonicalInput (i : CanonicalExecutionInput).

(** [execute_transaction], with the genesis configuration and the base token
    accounts fixed. *)
Class Executor `{ErrorTypes, WorldState} :=
  execute_transaction :
    TransactionExecutionInput → exec (result Error TransactionExecutionOutcome).

(** A transaction with its hash and the input of its L1 fee. *)
Abbreviation TxWithMetadata := (B256 * (OpTxEnvelope * L1GasFeeInput))%type.

Class AppLibrary := {
  keccak256 : bytes → B256;
  (** [OpTxEnvelope::decode]: the transaction and the bytes left over. *)
  decode_tx : bytes → option (OpTxEnvelope * bytes);
  eth_tx_hash : TxEnvelope → B256;
  eth_encode : TxEnvelope → bytes;
  try_from_eth_envelope : TxEnvelope → option OpTxEnvelope;
  bloom_zero : bytes;
  accrue_log : bytes → Log → bytes;
  accrue_bloom : bytes → bytes → bytes;
  transactions_trie_root : list OpTxEnvelope → B256;
  withdrawals_trie_root : list Withdrawal → B256;
  receipts_trie_root : list (OpReceiptEnvelope Log) → B256;
  (** The order in which [HashMap::drain] yields the entries. *)
  drain_order : gmap B256 (OpTxEnvelope * L1GasFeeInput) →
    list (B256 * (OpTxEnvelope * L1GasFeeInput));
}.

(** Source: app/src/input.rs 10-19 [Payload] *)
Record Payload := MkPayload {
  p_timestamp : Z;
  p_prev_randao : B256;
  p_suggested_fee_recipient : Address;
  p_withdrawals : list Withdrawal;
  p_parent_beacon_block_root : B256;
  p_transactions : list bytes;
  p_gas_limit : Z;
}.

(** Source: app/src/input.rs 23-35 [Command] *)
Inductive Command :=
| StartBlockBuild (payload_attributes : Payload) (payload_id : PayloadId)
| AddTransaction (tx : TxEnvelope)
| GenesisUpdate (block : ExtendedBlock).

(** Source: app/src/input.rs 40-47 [ExecutionOutcome] *)
Record ExecutionOutcome := MkExecutionOutcome {
  o_receipts_root : B256;
  o_state_root : B256;
  o_logs_bloom : bytes;
  o_gas_used : Z;
  o_total_tip : Z;
}.

(** Source: app/src/input.rs 53-63 [Header::with_execution_outcome] *)
Definition with_execution_outcome (outcome : ExecutionOutcome) (self : Header) : Header :=
  {| h_state_root := o_state_root outcome;
     h_receipts_root := o_receipts_root outcome;
     h_logs_bloom := o_logs_bloom outcome;
     h_gas_used := to_u64 (o_gas_used outcome);
     h_parent_hash := h_parent_hash self; h_ommers_hash := h_ommers_hash self;
     h_beneficiary := h_beneficiary self; h_transactions_root := h_transactions_root self;
     h_difficulty := h_difficulty self; h_number := h_number self;
     h_gas_limit := h_gas_limit self; h_timestamp := h_timestamp self;
     h_extra_data := h_extra_data self; h_mix_hash := h_mix_hash self; h_nonce := h_nonce self;
     h_base_fee_per_gas := h_base_fee_per_gas self;
     h_withdrawals_root := h_withdrawals_root self; h_blob_gas_used := h_blob_gas_used self;
     h_excess_blob_gas := h_excess_blob_gas self;
     h_parent_beacon_block_root := h_parent_beacon_block_root self;
     h_requests_hash := h_requests_hash self |}.

(** Source: app/src/input.rs 106-117 [Header::with_payload_attributes] *)
Definition with_payload_attributes (payload : Payload) (self : Header) : Header :=
  {| h_beneficiary := p_suggested_fee_recipient payload;
     h_gas_limit := to_u64 (p_gas_limit payload);
     h_timestamp := to_u64 (p_timestamp payload);
     h_parent_beacon_block_root := Some (p_parent_beacon_block_root payload);
     h_mix_hash := p_prev_randao payload;
     h_state_root := h_state_root self; h_receipts_root := h_receipts_root self;
     h_logs_bloom := h_logs_bloom self; h_gas_used := h_gas_used self;
     h_parent_hash := h_parent_hash self; h_ommers_hash := h_ommers_hash self;
     h_transactions_root := h_transactions_root self; h_difficulty := h_difficulty self;
     h_number := h_number self; h_extra_data := h_extra_data self; h_nonce := h_nonce self;
     h_base_fee_per_gas := h_base_fee_per_gas self;
     h_withdrawals_root := h_withdrawals_root self; h_blob_gas_used := h_blob_gas_used self;
     h_excess_blob_gas := h_excess_blob_gas self; h_requests_hash := h_requests_hash self |}.

(** Source: app/src/input.rs 91-100 [Withdrawal::to_withdrawal] *)
Definition to_withdrawal (w : Withdrawal) : Withdrawal :=
  MkWithdrawal (w_index w) (w_validator_index w) (w_address w) (w_amount w).

(** Source: app/src/input.rs 69-85 [Payload::to_payload_id_input] *)
Definition to_payload_id_input (self : Payload) (head : B256) : NewPayloadIdInput :=
  with_withdrawals (to_withdrawal <$> p_withdrawals self)
    (with_beacon_root (p_parent_beacon_block_root self)
      (new_v3 head (to_u64 (p_timestamp self)) (p_prev_randao self)
        (p_suggested_fee_recipient self))).

Section Application.
Context `{ErrorTypes, !TxLibrary, EnvelopeLibrary, HeaderLibrary, EvMapLaws}.
Context `{!WorldState, !Executor, AppLibrary}.

(** The mutable part of the application, and its fee rule.
    Source: app/src/dependency.rs 59-84 [Application] *)
Record Application := MkApplication {
  mem_pool : gmap B256 (OpTxEnvelope * L1GasFeeInput);
  gas_fee : Eip1559GasFee;
  receipt_memory : ReceiptMemory;
  storage : SharedMemory;
  state : MoveState;
  evm_storage : EvmStorage;
}.

(** Source: app/src/actor.rs 13-20 [OnTxBatch, OnTx, OnPayload] *)
Class Callbacks := {
  on_tx : Application → MoveChanges → Application;
  on_tx_batch : Application → Application;
  on_payload : Application → PayloadId → B256 → Application;
}.

(** Source: app/src/actor.rs 64-78 [on_tx_in_memory, on_tx_batch_in_memory, on_payload_in_memory] *)
Definition in_memory_callbacks : Callbacks :=
  {| on_tx := λ app _, app; on_tx_batch := λ app, app; on_payload := λ app _ _, app |}.

Context `{!Callbacks}.

(** Source: app/src/block_hash.rs 30-36 [StorageBasedProvider::hash_by_number] *)
Definition hash_by_number (mem : SharedMemory) (number : Z) : option B256 :=
  hash <$> by_height (block_memory mem) number.

(** Source: execution/src/lib.rs 184-191 [LogsBloom::logs_bloom] *)
Definition logs_bloom (l : list Log) : bytes := fold_left accrue_log l bloom_zero.

(** ** One block's transactions *)

(** The locals of [execute_transactions]. *)
Record Loop := MkLoop {
  lp_app : Application;
  lp_total_tip : Z;
  lp_receipts : list ExtendedReceipt;
  lp_cumulative_gas_used : Z;
  lp_logs_bloom : bytes;
  lp_tx_index : Z;
  lp_log_offset : Z;
}.

(** Source: app/src/command.rs 206-234 [execute_transactions] *)
Definition execution_input (app : Application) (normalized_tx : NormalizedExtendedTxEnvelope)
    (tx_hash : B256) (l1 : option EcotoneGasFee) (l1_cost_input : L1GasFeeInput)
    (l2 : MovedGasFee) (base_fee : Z) (block_header : HeaderForExecution)
    : TransactionExecutionInput :=
  let block_hash_lookup := hash_by_number (storage app) in
  match normalized_tx with
  | Canonical tx => CanonicalInput
      {| c_tx := tx; c_tx_hash := tx_hash; c_state := state app;
         c_storage_trie := evm_storage app;
         c_l1_cost := default 0 ((λ v, l1_fee v l1_cost_input) <$> l1);
         c_l2_fee := l2;
         c_l2_input := MkL2GasFeeInput (ext_gas_limit normalized_tx)
                         (ext_effective_gas_price normalized_tx base_fee);
         c_block_header := block_header; c_block_hash_lookup := block_hash_lookup |}
  | DepositedTx tx => DepositInput
      {| d_tx := tx; d_tx_hash := tx_hash; d_state := state app;
         d_storage_trie := evm_storage app; d_block_header := block_header;
         d_block_hash_lookup := block_hash_lookup |}
  end.

(** Source: app/src/command.rs 246-255 [execute_transactions] *)
Definition apply_changes (app : Application) (c : Changes) : exec Application :=
  applied ← state_apply (state app) (move_vm c);
  state' ← unwrap applied;
  storage' ← unwrap (storage_apply (evm_storage app) (evm c));
  Done (MkApplication (mem_pool app) (gas_fee app) (receipt_memory app) (storage app)
          state' storage').

(** What an executed transaction adds to the block.
    Source: app/src/command.rs 242-304 [execute_transactions] *)
Definition record_outcome (lp : Loop) (app : Application) (tx_hash : B256) (tx : OpTxEnvelope)
    (normalized_tx : NormalizedExtendedTxEnvelope) (l1 : option EcotoneGasFee)
    (l1_cost_input : L1GasFeeInput) (base_fee : Z) (block_header : HeaderForExecution)
    (outcome : TransactionExecutionOutcome) : exec Loop :=
  let l1_block_info := l1 ≫= λ x, Fees.l1_block_info x l1_cost_input in
  let cumulative_gas_used := sat_add 128 (lp_cumulative_gas_used lp) (gas_used outcome) in
  let bloom := logs_bloom (logs outcome) in
  let receipt := MkReceipt (is_ok (vm_outcome outcome))
    (if cumulative_gas_used <? umax 64 then cumulative_gas_used else umax 64) (logs outcome) in
  receipt ← wrap_receipt tx receipt bloom;
  let total_tip := sat_add 256 (lp_total_tip lp)
    (sat_mul 256 (gas_used outcome) (ext_tip_per_gas normalized_tx base_fee)) in
  let '(to, from) := match normalized_tx with
    | Canonical tx => (TxKind_to (Envelope.to tx), signer tx)
    | DepositedTx tx => (TxKind_to (dep_to tx), dep_from tx)
    end in
  Done {| lp_app := app;
          lp_total_tip := total_tip;
          lp_receipts := lp_receipts lp ++ [
            {| Receipts.transaction_hash := tx_hash;
               Receipts.to := to;
               Receipts.from := from;
               Receipts.receipt := receipt;
               Receipts.l1_block_info := l1_block_info;
               Receipts.gas_used := gas_used outcome;
               Receipts.l2_gas_price := l2_price outcome;
               Receipts.transaction_index := lp_tx_index lp;
               Receipts.contract_address :=
                 (λ '(address, _), to_eth_address address) <$> deployment outcome;
               Receipts.logs_offset := lp_log_offset lp;
               Receipts.block_hash := replicate 32 0;
               Receipts.block_number := hx_number block_header;
               Receipts.block_timestamp := hx_timestamp block_header |}];
          lp_cumulative_gas_used := cumulative_gas_used;
          lp_logs_bloom := accrue_bloom (lp_logs_bloom lp) bloom;
          lp_tx_index := wrap 64 (lp_tx_index lp + 1);
          lp_log_offset := wrap 64 (lp_log_offset lp + Z.of_nat (length (logs outcome))) |}.

(** One iteration of the loop.
    Source: app/src/command.rs 193-304 [execute_transactions] *)
Definition process_tx (l1 : option EcotoneGasFee) (l2 : MovedGasFee) (base_fee : Z)
    (block_header : HeaderForExecution) (lp : Loop) (t : TxWithMetadata) : exec Loop :=
  let '(tx_hash, (tx, l1_cost_input)) := t in
  match normalize tx with
  | Err _ => Done lp
  | Ok normalized_tx =>
    outcome ← execute_transaction (execution_input (lp_app lp) normalized_tx tx_hash l1
                l1_cost_input l2 base_fee block_header);
    match outcome with
    | Err (User _) => Panic
    | Err (InvalidTransaction _) => Done lp
    | Err (Invariant _) => Panic
    | Ok outcome =>
      let app := on_tx (lp_app lp) (move_vm (changes outcome)) in
      app ← apply_changes app (changes outcome);
      record_outcome lp app tx_hash tx normalized_tx l1 l1_cost_input base_fee block_header outcome
    end
  end.

Fixpoint process_txs (l1 : option EcotoneGasFee) (l2 : MovedGasFee) (base_fee : Z)
    (block_header : HeaderForExecution) (lp : Loop) (txs : list TxWithMetadata) : exec Loop :=
  match txs with
  | [] => Done lp
  | t :: txs =>
    lp ← process_tx l1 l2 base_fee block_header lp t;
    process_txs l1 l2 base_fee block_header lp txs
  end.

(** The fee parameters of the block: those of the deposit that opens it.
    Source: app/src/command.rs 186-189 [execute_transactions] *)
Definition block_l1_fee (txs : list TxWithMetadata) : exec (option EcotoneGasFee) :=
  match txs with
  | (_, (tx, _)) :: _ =>
    match as_deposit tx with
    | Some tx => Some <$> for_deposit (dep_input tx)
    | None => Done None
    end
  | [] => Done None
  end.

(** Source: app/src/command.rs 171-324 [execute_transactions] *)
Definition execute_transactions (app : Application) (txs : list TxWithMetadata) (base_fee : Z)
    (block_header : HeaderForExecution)
    : exec (Application * ExecutionOutcome * list ExtendedReceipt) :=
  l1 ← block_l1_fee txs;
  let l2 := with_default_gas_fee_multiplier in
  lp ← process_txs l1 l2 base_fee block_header (MkLoop app 0 [] 0 bloom_zero 0 0) txs;
  let app := on_tx_batch (lp_app lp) in
  let receipts_root := receipts_trie_root (Receipts.receipt <$> lp_receipts lp) in
  assert_or_panic (bool_decide (uint 64 (lp_cumulative_gas_used lp)));;
  let outcome :=
    {| o_state_root := state_root (state app);
       o_gas_used := lp_cumulative_gas_used lp;
       o_receipts_root := receipts_root;
       o_logs_bloom := lp_logs_bloom lp;
       o_total_tip := lp_total_tip lp |} in
  Done (app, outcome, lp_receipts lp).

(** ** Commands *)

(** Source: app/src/command.rs 45-58 [start_block_build] *)
Definition attribute_tx (tx_bytes : bytes) : option TxWithMetadata :=
  let tx_hash := keccak256 tx_bytes in
  '(tx, slice) ← decode_tx tx_bytes;
  Some (tx_hash, (tx, l1_input_from slice)).

(** Source: app/src/command.rs 44-63 [start_block_build] *)
Definition block_transactions (app : Application) (attributes : Payload) : list TxWithMetadata :=
  filter (λ '(tx_hash, _), contains (receipt_memory app) tx_hash = false)
    (omap attribute_tx (p_transactions attributes) ++ drain_order (mem_pool app)).

Definition set_mem_pool (p : gmap B256 (OpTxEnvelope * L1GasFeeInput)) (app : Application)
    : Application :=
  MkApplication p (gas_fee app) (receipt_memory app) (storage app) (state app) (evm_storage app).
Definition set_storage (s : SharedMemory) (app : Application) : Application :=
  MkApplication (mem_pool app) (gas_fee app) (receipt_memory app) s (state app) (evm_storage app).
Definition set_receipts (r : ReceiptMemory) (app : Application) : Application :=
  MkApplication (mem_pool app) (gas_fee app) r (storage app) (state app) (evm_storage app).

(** Source: app/src/command.rs 92-115 [start_block_build] *)
Definition assemble_block (parent : ExtendedBlock) (attributes : Payload) (id : PayloadId)
    (txs : list OpTxEnvelope) (base_fee : Z) (header_for_execution : HeaderForExecution)
    (outcome : ExecutionOutcome) : ExtendedBlock :=
  let d := header_default in
  let header := with_execution_outcome outcome (with_payload_attributes attributes
    {| h_parent_hash := hash parent;
       h_number := hx_number header_for_execution;
       h_transactions_root := transactions_trie_root txs;
       h_withdrawals_root := Some (withdrawals_trie_root (p_withdrawals attributes));
       h_base_fee_per_gas := Some (sat_to 64 base_fee);
       h_blob_gas_used := Some 0;
       h_excess_blob_gas := Some 0;
       h_ommers_hash := h_ommers_hash d; h_beneficiary := h_beneficiary d;
       h_state_root := h_state_root d; h_receipts_root := h_receipts_root d;
       h_logs_bloom := h_logs_bloom d; h_difficulty := h_difficulty d;
       h_gas_limit := h_gas_limit d; h_gas_used := h_gas_used d; h_timestamp := h_timestamp d;
       h_extra_data := h_extra_data d; h_mix_hash := h_mix_hash d; h_nonce := h_nonce d;
       h_parent_beacon_block_root := h_parent_beacon_block_root d;
       h_requests_hash := h_requests_hash d |}) in
  with_payload_id (with_value (with_hash (block_new header (trie_hash <$> txs))
    (Blocks.block_hash header)) (o_total_tip outcome)) id.

(** Source: app/src/command.rs 129-145 [start_block_build] *)
Definition extended_transactions (b : ExtendedBlock) (txs : list OpTxEnvelope)
    : list ExtendedTransaction :=
  imap (λ transaction_index inner,
    et_new (envelope_effective_gas_price inner (h_base_fee_per_gas (header (block b)))) inner
      (number b) (hash b) (Z.of_nat transaction_index)) txs.

(** Source: app/src/command.rs 64-79 [start_block_build] *)
Definition execution_header (parent : ExtendedBlock) (attributes : Payload) : HeaderForExecution :=
  {| hx_number := wrap 64 (number parent + 1);
     hx_timestamp := to_u64 (p_timestamp attributes);
     hx_prev_randao := p_prev_randao attributes |}.

(** Source: app/src/command.rs 69-73 [start_block_build] *)
Definition next_base_fee (app : Application) (parent : ExtendedBlock) : exec Z :=
  let h := header (block parent) in
  base_fee_per_gas (gas_fee app) (h_gas_limit h) (h_gas_used h) (default 0 (h_base_fee_per_gas h)).

(** Source: app/src/command.rs 117-147 [start_block_build] *)
Definition commit_block (app : Application) (b : ExtendedBlock) (txs : list OpTxEnvelope)
    (receipts : list ExtendedReceipt) : Application :=
  let app := set_receipts
    (extend (receipt_memory app) (Receipts.with_block_hash (hash b) <$> receipts)) app in
  let app := set_storage (transaction_extend (storage app) (extended_transactions b txs)) app in
  set_storage (repository_add (storage app) b) app.

(** Source: app/src/command.rs 34-150 [start_block_build] *)
Definition start_block_build (app : Application) (attributes : Payload) (id : PayloadId)
    : exec Application :=
  if decide (is_Some (payload_by_id (storage app) id)) then Done app else
  let transactions_with_metadata := block_transactions app attributes in
  let app := set_mem_pool ∅ app in
  parent ← expect (repository_latest (storage app));
  base_fee ← next_base_fee app parent;
  let header_for_execution := execution_header parent attributes in
  let txs := (λ t, t.2.1) <$> transactions_with_metadata in
  '(app, outcome, receipts) ←
    execute_transactions app transactions_with_metadata base_fee header_for_execution;
  let b := assemble_block parent attributes id txs base_fee header_for_execution outcome in
  let app := commit_block app b txs receipts in
  Done (on_payload app id (hash b)).

(** Source: app/src/command.rs 152-165 [add_transaction] *)
Definition add_transaction (app : Application) (tx : TxEnvelope) : exec Application :=
  let tx_hash := eth_tx_hash tx in
  let encoded := l1_input_from (eth_encode tx) in
  op_tx ← expect (try_from_eth_envelope tx);
  Done (set_mem_pool (<[tx_hash := (op_tx, encoded)]> (mem_pool app)) app).

(** Source: app/src/command.rs 167-169 [genesis_update] *)
Definition genesis_update (app : Application) (b : ExtendedBlock) : Application :=
  set_storage (repository_add (storage app) b) app.

(** Source: app/src/actor.rs 40-49 [CommandActor::handle_command] *)
Definition handle_command (app : Application) (msg : Command) : exec Application :=
  match msg with
  | StartBlockBuild payload_attributes payload_id =>
    start_block_build app payload_attributes payload_id
  | AddTransaction tx => add_transaction app tx
  | GenesisUpdate block => Done (genesis_update app block)
  end.

(** The actor's loop over the commands it receives.
    Source: app/src/actor.rs 28-32 [CommandActor::work] *)
Fixpoint work (app : Application) (msgs : list Command) : exec Application :=
  match msgs with
  | [] => Done app
  | msg :: msgs => app ← handle_command app msg; work app msgs
  end.

End Application.
