(* ===== verification/Chain.v ===== *)
(** What the block builder of [Application] guarantees: the receipts of a block
    account for its execution, transactions dropped from the execution leave no
    trace in it, and the blocks built form a chain whose transactions and
    receipts the memories hold. *)
From S2P Require Import Prelude Primitives MoveTypes Errors Envelope EvMap.
From S2P Require Import Transactions Fees BaseFee Receipts Payloads Blocks Application.
Import Words.

Local Open Scope Z_scope.

Lemma total_logs_app l1 l2 : total_logs (l1 ++ l2) = (total_logs l1 + total_logs l2)%nat.
Proof.
  induction l1 as [|r l1 IH]; [done|]. simpl app. rewrite !total_logs_cons, IH. lia.
Qed.

Lemma wrap_add_l w a b : 0 ≤ w → wrap w (wrap w a + b) = wrap w (a + b).
Proof. intros Hw. unfold wrap. rewrite Zplus_mod_idemp_l. done. Qed.

Lemma wrap_receipt_inner `{ErrorTypes, !TxLibrary} tx r bloom e :
  wrap_receipt tx r bloom = Done e → envelope_receipt e = r.
Proof. destruct tx; naive_solver. Qed.

(** The gas of a list of receipts. *)
Definition gas_total (rs : list ExtendedReceipt) : Z := zsum (Receipts.gas_used <$> rs).

Lemma gas_total_app l1 l2 : gas_total (l1 ++ l2) = gas_total l1 + gas_total l2.
Proof. unfold gas_total. by rewrite fmap_app, zsum_app. Qed.

(** What the receipts of one block say, by position: they are numbered from 0,
    their logs too, and the cumulative gas is the sum up to and including the
    receipt, capped to 64 bits. *)
Definition receipts_wf (hx : HeaderForExecution) (rs : list ExtendedReceipt) : Prop :=
  ∀ i r, rs !! i = Some r →
    transaction_index r = wrap 64 (Z.of_nat i)
    ∧ logs_offset r = wrap 64 (Z.of_nat (total_logs (take i rs)))
    ∧ cumulative_gas_used (envelope_receipt (receipt r)) =
        Z.min (gas_total (take (S i) rs)) (umax 64)
    ∧ block_number r = hx_number hx ∧ block_timestamp r = hx_timestamp hx.

Lemma receipts_wf_snoc hx rs r :
  receipts_wf hx rs →
  transaction_index r = wrap 64 (Z.of_nat (length rs)) →
  logs_offset r = wrap 64 (Z.of_nat (total_logs rs)) →
  cumulative_gas_used (envelope_receipt (receipt r)) = Z.min (gas_total (rs ++ [r])) (umax 64) →
  block_number r = hx_number hx → block_timestamp r = hx_timestamp hx →
  receipts_wf hx (rs ++ [r]).
Proof.
  intros Hwf Hi Ho Hg Hn Ht i x Hx. apply lookup_app_Some in Hx as [Hx|[Hge Hx]].
  - apply lookup_lt_Some in Hx as Hlt. rewrite !take_app_le by lia. by apply Hwf.
  - apply list_lookup_singleton_Some in Hx as [Hi' <-].
    assert (i = length rs) as -> by lia. rewrite take_app_length.
    rewrite (take_ge (rs ++ [r])) by (rewrite length_app; simpl; lia). done.
Qed.

(** Numbered logs are contiguous when there are fewer than 2^64 of them. *)
Lemma receipts_wf_contiguous_from hx rs k : receipts_wf hx rs →
  Z.of_nat (total_logs rs) < 2 ^ 64 →
  contiguous (Z.of_nat (total_logs (take k rs))) (drop k rs).
Proof.
  intros Hwf Hmax. remember (drop k rs) as tl eqn:Htl. revert k Htl.
  induction tl as [|r tl IH]; intros k Htl; [done|]. simpl.
  assert (rs !! k = Some r) as Hr.
  { rewrite <- (Nat.add_0_r k), <- lookup_drop. by rewrite <- Htl. }
  assert (total_logs rs = total_logs (take k rs) + total_logs (drop k rs))%nat as Hsum
    by by rewrite <- total_logs_app, take_drop.
  rewrite <- Htl, total_logs_cons in Hsum. split.
  - destruct (Hwf k r Hr) as (_ & -> & _). apply wrap_small. unfold uint. lia.
  - rewrite <- Nat2Z.inj_add.
    replace (_ + _)%nat with (total_logs (take (S k) rs)).
    + apply IH. rewrite (drop_S rs r k Hr) in Htl. by injection Htl.
    + rewrite (take_S_r rs k r Hr), total_logs_app. simpl. unfold total_logs at 2. simpl. lia.
Qed.

Lemma receipts_wf_contiguous hx rs : receipts_wf hx rs →
  Z.of_nat (total_logs rs) < 2 ^ 64 → contiguous 0 rs.
Proof. intros Hwf Hmax. by apply (receipts_wf_contiguous_from hx rs 0 Hwf). Qed.

Section Chain.
Context `{ErrorTypes, !TxLibrary, EnvelopeLibrary, HeaderLibrary, EvMapLaws}.
Context `{!WorldState, !Executor, AppLibrary, !Callbacks}.

(** The callbacks are told about the block being built; they leave the stores
    of the application alone. *)
Definition same_stores (a b : Application) : Prop :=
  mem_pool a = mem_pool b ∧ gas_fee a = gas_fee b
  ∧ receipt_memory a = receipt_memory b ∧ storage a = storage b.

Class CallbackLaws : Prop := {
  on_tx_stores : ∀ app c, same_stores (on_tx app c) app;
  on_tx_batch_stores : ∀ app, same_stores (on_tx_batch app) app;
  on_payload_stores : ∀ app id h, same_stores (on_payload app id h) app;
}.

(** Gas is a [u64]. *)
Definition GasTyped : Prop :=
  ∀ i o, execute_transaction i = Done (Ok o) → uint 64 (gas_used o).

#[global] Instance same_stores_preorder : PreOrder same_stores.
Proof. unfold same_stores. split; [done|]. intros ???; intuition congruence. Qed.

(** ** Executing a block's transactions *)

Section Loop.
Context (l1 : option EcotoneGasFee) (l2 : MovedGasFee) (base_fee : Z).
Context (hx : HeaderForExecution).

(** The transaction [t] was executed between the loop states [lp] and [lp']. *)
Definition executed (lp : Loop) (t : TxWithMetadata) (lp' : Loop) : Prop :=
  ∃ normalized o app,
    normalize t.2.1 = Ok normalized
    ∧ execute_transaction (execution_input (lp_app lp) normalized t.1 l1 t.2.2 l2 base_fee hx)
        = Done (Ok o)
    ∧ apply_changes (on_tx (lp_app lp) (move_vm (changes o))) (changes o) = Done app
    ∧ record_outcome lp app t.1 t.2.1 normalized l1 t.2.2 base_fee hx o = Done lp'.

(** The transaction [t] was dropped: it has no normal form, or the execution
    found it invalid. *)
Definition dropped (lp : Loop) (t : TxWithMetadata) : Prop :=
  (∃ e, normalize t.2.1 = Err e)
  ∨ ∃ normalized e, normalize t.2.1 = Ok normalized
    ∧ execute_transaction (execution_input (lp_app lp) normalized t.1 l1 t.2.2 l2 base_fee hx)
        = Done (Err (InvalidTransaction e)).

Lemma process_tx_cases lp t lp' :
  process_tx l1 l2 base_fee hx lp t = Done lp' →
  executed lp t lp' ∨ dropped lp t ∧ lp' = lp.
Proof.
  destruct t as [h [tx inp]]. unfold process_tx, executed, dropped. simpl.
  destruct (normalize tx) as [n|e]; [|naive_solver].
  intros (o & Ho & Hrest)%bind_Done. destruct o as [o|[u|v|i]]; [|done|naive_solver|done].
  apply bind_Done in Hrest as (app & Happ & Hrec). left. eauto 10.
Qed.

Lemma executed_process lp t lp' : executed lp t lp' →
  process_tx l1 l2 base_fee hx lp t = Done lp'.
Proof.
  destruct t as [h [tx inp]]. intros (n & o & app & Hn & Ho & Ha & Hr). unfold process_tx.
  simpl in *. rewrite Hn, Ho. simpl. by rewrite Ha.
Qed.

Lemma apply_changes_stores app c app' : apply_changes app c = Done app' → same_stores app' app.
Proof.
  unfold apply_changes. intros (r & _ & Hr)%bind_Done. apply bind_Done in Hr as (s & Hs & Hr).
  apply bind_Done in Hr as (e & He & Hr).
  by simplify_eq/=.
Qed.

(** What an executed transaction appends. *)
Lemma executed_spec `{!CallbackLaws} lp t lp' : executed lp t lp' →
  ∃ r, lp_receipts lp' = lp_receipts lp ++ [r]
    ∧ same_stores (lp_app lp') (lp_app lp)
    ∧ Receipts.transaction_hash r = t.1
    ∧ transaction_index r = lp_tx_index lp
    ∧ logs_offset r = lp_log_offset lp
    ∧ block_number r = hx_number hx ∧ block_timestamp r = hx_timestamp hx
    ∧ lp_cumulative_gas_used lp' = sat_add 128 (lp_cumulative_gas_used lp) (Receipts.gas_used r)
    ∧ cumulative_gas_used (envelope_receipt (receipt r)) =
        Z.min (lp_cumulative_gas_used lp') (umax 64)
    ∧ lp_tx_index lp' = wrap 64 (lp_tx_index lp + 1)
    ∧ lp_log_offset lp' = wrap 64 (lp_log_offset lp + Z.of_nat (log_count r))
    ∧ (GasTyped → uint 64 (Receipts.gas_used r)).
Proof.
  intros (n & o & app & Hn & Ho & Ha & Hr).
  apply apply_changes_stores in Ha as Hs. rewrite (on_tx_stores (lp_app lp)) in Hs.
  unfold record_outcome in Hr. apply bind_Done in Hr as (env & Henv & Hr).
  apply wrap_receipt_inner in Henv.
  assert (∀ z, (if z <? umax 64 then z else umax 64) = Z.min z (umax 64)) as Hcap.
  { intros z. destruct (Z.ltb_spec z (umax 64)); lia. }
  destruct n; simplify_eq/=;
    (eexists; split; [done|]; split; [done|]; unfold log_count; simpl; rewrite Henv; simpl;
     rewrite Hcap; split_and!; first [done | intros Hg; by apply (Hg _ _ Ho)]).
Qed.

Record LoopInv (lp : Loop) : Prop := {
  inv_receipts : receipts_wf hx (lp_receipts lp);
  inv_index : lp_tx_index lp = wrap 64 (Z.of_nat (length (lp_receipts lp)));
  inv_offset : lp_log_offset lp = wrap 64 (Z.of_nat (total_logs (lp_receipts lp)));
  inv_gas : lp_cumulative_gas_used lp = Z.min (gas_total (lp_receipts lp)) (umax 128);
  inv_nonneg : 0 ≤ gas_total (lp_receipts lp);
}.

Lemma loop_inv_init app : LoopInv (MkLoop app 0 [] 0 bloom_zero 0 0).
Proof. split; [intros i r Hr; by destruct i|done..]. Qed.

Lemma loop_inv_executed `{!CallbackLaws} lp t lp' :
  GasTyped → LoopInv lp → executed lp t lp' → LoopInv lp'.
Proof.
  intros Hg [Hwf Hi Ho Hgas Hn] Hex.
  destruct (executed_spec lp t lp' Hex)
    as (r & Hrs & _ & _ & Hri & Hro & Hrn & Hrt & Hcum & Hrc & Hi' & Ho' & Hgr).
  specialize (Hgr Hg).
  assert (gas_total (lp_receipts lp ++ [r]) = gas_total (lp_receipts lp) + Receipts.gas_used r) as Hsum.
  { rewrite gas_total_app. unfold gas_total, zsum. simpl. lia. }
  assert (lp_cumulative_gas_used lp' = Z.min (gas_total (lp_receipts lp ++ [r])) (umax 128)) as Hc.
  { rewrite Hcum, Hgas, Hsum. unfold sat_add, uint in *. lia. }
  split; rewrite Hrs.
  - apply receipts_wf_snoc; [done|congruence|congruence| |done|done].
    rewrite Hrc, Hc. unfold umax. lia.
  - rewrite Hi', Hi, wrap_add_l, length_app by done. simpl. f_equal. lia.
  - rewrite Ho', Ho, wrap_add_l, total_logs_app by done. f_equal.
    unfold total_logs at 3. simpl. lia.
  - done.
  - rewrite Hsum. unfold uint in *. lia.
Qed.

(** The transactions of a list that were executed, with the loop's effect. *)
Lemma process_txs_kept `{!CallbackLaws} lp txs lp' :
  process_txs l1 l2 base_fee hx lp txs = Done lp' →
  ∃ kept rs, kept `sublist_of` txs
    ∧ process_txs l1 l2 base_fee hx lp kept = Done lp'
    ∧ lp_receipts lp' = lp_receipts lp ++ rs
    ∧ Receipts.transaction_hash <$> rs = kept.*1
    ∧ same_stores (lp_app lp') (lp_app lp)
    ∧ (GasTyped → LoopInv lp → LoopInv lp').
Proof.
  revert lp. induction txs as [|t txs IH]; simpl; intros lp Hp.
  - simplify_eq/=. exists [], []. by rewrite app_nil_r.
  - apply bind_Done in Hp as (lp1 & Hp1 & Hp).
    destruct (IH lp1 Hp) as (kept & rs & Hsub & Hk & Hrs & Hh & Hst & Hinv).
    destruct (process_tx_cases _ _ _ Hp1) as [Hex|[_ ->]].
    + destruct (executed_spec _ _ _ Hex) as (r & Hr & Hs1 & Hrh & _).
      exists (t :: kept), (r :: rs). split; [by constructor|]. simpl. rewrite Hp1. split; [done|].
      rewrite Hrs, Hr, <- app_assoc. split; [done|].
      split; [simpl; f_equal; [done|exact Hh]|].
      split; [by etrans|]. eauto using loop_inv_executed.
    + exists kept, rs. split; [by constructor|]. done.
Qed.

(** C15 (safety): a transaction that is dropped, because it has no normal form
    or the execution finds it invalid, leaves no trace in the execution of the
    block: running only the transactions that were executed reaches the same
    state, receipts, gas, tip and bloom, and there is exactly one receipt per
    executed transaction, in order. *)
Theorem dropped_leave_no_trace lp txs lp' :
  CallbackLaws → process_txs l1 l2 base_fee hx lp txs = Done lp' →
  ∃ kept rs, kept `sublist_of` txs
    ∧ process_txs l1 l2 base_fee hx lp kept = Done lp'
    ∧ lp_receipts lp' = lp_receipts lp ++ rs
    ∧ Receipts.transaction_hash <$> rs = kept.*1.
Proof.
  intros Hcb Hp. destruct (process_txs_kept lp txs lp' Hp) as (kept & rs & ?). exists kept, rs. tauto.
Qed.

End Loop.

(** C14 (functional): the result of executing a block's transactions accounts for
    itself: the block's gas is the sum of the gas of its receipts and fits 64
    bits, every receipt carries its position, the number of logs before it, the
    cumulative gas up to it and the number and time of the block, and the
    receipts are those of transactions of the block, in block order. *)
Theorem execution_accounting app txs base_fee hx app' o rs :
  CallbackLaws → GasTyped →
  execute_transactions app txs base_fee hx = Done (app', o, rs) →
  receipts_wf hx rs
  ∧ o_gas_used o = gas_total rs ∧ uint 64 (o_gas_used o)
  ∧ (Receipts.transaction_hash <$> rs) `sublist_of` txs.*1
  ∧ o_receipts_root o = receipts_trie_root (receipt <$> rs)
  ∧ o_state_root o = state_root (state app').
Proof.
  intros Hcb Hg Hex. apply bind_Done in Hex as (l1 & Hl1 & Hex).
  apply bind_Done in Hex as (lp & Hlp & Hex).
  destruct (process_txs_kept _ _ _ _ _ _ _ Hlp) as (kept & rs' & Hsub & _ & Hrs & Hh & _ & Hinv).
  destruct (Hinv Hg (loop_inv_init _ _)) as [Hwf _ _ Hgas Hn].
  simpl in Hex. unfold assert_or_panic in Hex. case_bool_decide as Hu; simplify_eq/=.
  assert (lp_cumulative_gas_used lp = gas_total (lp_receipts lp)) as Heq.
  { rewrite Hgas in *. unfold uint, umax in *. lia. }
  split_and!; try done. by rewrite Hh, Hsub.
Qed.

Lemma execute_transactions_stores `{!CallbackLaws} app txs base_fee hx app' o rs :
  execute_transactions app txs base_fee hx = Done (app', o, rs) →
  same_stores app' app
  ∧ (Receipts.transaction_hash <$> rs) `sublist_of` txs.*1
  ∧ (GasTyped → receipts_wf hx rs).
Proof.
  intros Hex. apply bind_Done in Hex as (l1 & Hl1 & Hex).
  apply bind_Done in Hex as (lp & Hlp & Hex).
  destruct (process_txs_kept _ _ _ _ _ _ _ Hlp) as (kept & rs' & Hsub & _ & Hrs & Hh & Hst & Hinv).
  simpl in Hex. apply bind_Done in Hex as ([] & _ & Hex). simplify_eq/=.
  split; [by rewrite (on_tx_batch_stores (lp_app lp))|]. split.
  - by rewrite Hh, Hsub.
  - intros Hg. by destruct (Hinv Hg (loop_inv_init _ _)).
Qed.

(** ** The history of the chain *)

(** A block with what was stored for it. *)
Record Entry := MkEntry {
  en_block : ExtendedBlock;
  en_txs : list ExtendedTransaction;
  en_receipts : list ExtendedReceipt;
}.

(** A stored block is consistent with its transactions and its receipts. *)
Record entry_wf (e : Entry) : Prop := {
  wf_hashes : transaction_hashes (en_block e) = et_hash <$> en_txs e;
  wf_txs : ∀ i tx, en_txs e !! i = Some tx →
    et_block_number tx = number (en_block e) ∧ et_block_hash tx = hash (en_block e)
    ∧ et_transaction_index tx = Z.of_nat i;
  wf_receipts : ∃ hx, receipts_wf hx (en_receipts e) ∧ hx_number hx = number (en_block e)
    ∧ hx_timestamp hx = h_timestamp (header (block (en_block e)));
  wf_block_hash : ∀ r, r ∈ en_receipts e → Receipts.block_hash r = hash (en_block e);
}.

(** No transaction hash has receipts in two blocks. *)
Definition no_replay (log : list Entry) : Prop :=
  ∀ i j e f r s, log !! i = Some e → log !! j = Some f → r ∈ en_receipts e → s ∈ en_receipts f →
    Receipts.transaction_hash r = Receipts.transaction_hash s → i = j.

(** The stores of [app] hold exactly the blocks of [log]. *)
Record History (app : Application) (log : list Entry) : Prop := {
  hist_blocks : Represents (block_memory (storage app)) (en_block <$> log);
  hist_txs : Indexed et_hash (transaction_memory (storage app)) (log ≫= en_txs);
  hist_receipts : Indexed Receipts.transaction_hash (receipt_memory app) (log ≫= en_receipts);
  hist_linked : Linked (en_block <$> log);
  hist_wf : Forall entry_wf log;
  hist_no_replay : no_replay log;
}.

Lemma same_stores_history app app' log : same_stores app' app → History app log → History app' log.
Proof. intros (_ & _ & Hr & Hs) [????]. split; by rewrite ?Hr, ?Hs. Qed.

(** A start: a genesis block without transactions in empty stores. *)
Definition Fresh (app : Application) : Prop :=
  storage app = shared_memory_new ∧ receipt_memory app = ev_new.

Lemma history_genesis app b : Fresh app → number b = 0 → transactions (block b) = [] →
  History (genesis_update app b) [MkEntry b [] []].
Proof.
  intros [Hs Hr] Hn Ht. split; simpl.
  - rewrite Hs. apply (represents_add _ []), represents_new.
  - rewrite Hs. apply (Indexed_new et_hash).
  - rewrite Hr. apply (Indexed_new Receipts.transaction_hash).
  - split.
    + intros i x Hx. apply list_lookup_singleton_Some in Hx as [-> <-]. done.
    + intros i x y _ Hy. apply list_lookup_singleton_Some in Hy as [? _]. done.
  - constructor; [|done]. split; simpl; [done|done| |].
    + exists (MkHeaderForExecution (number b) (h_timestamp (header (block b))) []).
      split; [|done]. intros i x Hx. by destruct i.
    + intros r Hr'. set_solver.
  - intros i j e f r s Hi Hj Hr' Hs'. apply list_lookup_singleton_Some in Hi as [-> <-].
    simpl in Hr'. set_solver.
Qed.

Lemma with_block_hash_wf hx h rs :
  receipts_wf hx rs → receipts_wf hx (Receipts.with_block_hash h <$> rs).
Proof.
  intros Hwf i r Hr. rewrite list_lookup_fmap in Hr.
  destruct (rs !! i) as [r0|] eqn:Hr0; simplify_eq/=.
  destruct (Hwf i r0 Hr0) as (Hi & Ho & Hg & Hn & Ht).
  assert (∀ l, total_logs (Receipts.with_block_hash h <$> l) = total_logs l) as Hl.
  { intros l. unfold total_logs. f_equal. rewrite <- list_fmap_compose. done. }
  assert (∀ l, gas_total (Receipts.with_block_hash h <$> l) = gas_total l) as Hgt.
  { intros l. unfold gas_total. f_equal. rewrite <- list_fmap_compose. done. }
  rewrite <- !fmap_take, Hl, Hgt. done.
Qed.

(** The steps of a build whose payload id is new. *)
Lemma start_block_build_inv app attributes id app' :
  payload_by_id (storage app) id = None → start_block_build app attributes id = Done app' →
  ∃ parent base_fee appx o rs txs hx b,
    txs = (λ t, t.2.1) <$> block_transactions app attributes
    ∧ hx = execution_header parent attributes
    ∧ b = assemble_block parent attributes id txs base_fee hx o
    ∧ repository_latest (storage app) = Some parent
    ∧ next_base_fee app parent = Done base_fee
    ∧ execute_transactions (set_mem_pool ∅ app) (block_transactions app attributes) base_fee hx
        = Done (appx, o, rs)
    ∧ app' = on_payload (commit_block appx b txs rs) id (hash b).
Proof.
  intros Hid. unfold start_block_build.
  rewrite decide_False by (rewrite Hid; by intros [? ?]).
  intros (parent & Hpar & Hrest)%bind_Done. apply bind_Done in Hrest as (bf & Hbf & Hrest).
  apply bind_Done in Hrest as ([[appx o] rs] & Hex & Hrest).
  exists parent, bf, appx, o, rs. do 3 eexists. do 3 (split; [reflexivity|]).
  apply expect_Done in Hpar. simpl in Hpar, Hrest. simplify_eq. done.
Qed.

(** The history entry of a block built from [txs] with the receipts [rs]. *)
Definition block_entry (b : ExtendedBlock) (txs : list OpTxEnvelope) (rs : list ExtendedReceipt)
    : Entry :=
  MkEntry b (extended_transactions b txs) (Receipts.with_block_hash (hash b) <$> rs).

Lemma extended_transactions_lookup b txs i tx :
  extended_transactions b txs !! i = Some tx → ∃ inner, txs !! i = Some inner ∧ et_inner tx = inner
    ∧ et_block_number tx = number b ∧ et_block_hash tx = hash b
    ∧ et_transaction_index tx = Z.of_nat i.
Proof.
  unfold extended_transactions. rewrite list_lookup_imap. intros Htx.
  destruct (txs !! i) as [inner|]; simplify_eq/=. by exists inner.
Qed.

Lemma extended_transactions_inner b txs : et_inner <$> extended_transactions b txs = txs.
Proof.
  apply list_eq. intros i. unfold extended_transactions.
  rewrite list_lookup_fmap, list_lookup_imap. by destruct (txs !! i).
Qed.

Lemma extended_transactions_hashes b txs :
  et_hash <$> extended_transactions b txs = trie_hash <$> txs.
Proof. rewrite <- (extended_transactions_inner b txs) at 2. by rewrite <- list_fmap_compose. Qed.

Lemma block_entry_wf parent attributes id txs base_fee o rs :
  let hx := execution_header parent attributes in
  let b := assemble_block parent attributes id txs base_fee hx o in
  receipts_wf hx rs → entry_wf (block_entry b txs rs).
Proof.
  intros hx b Hwf. split; simpl.
  - symmetry. apply extended_transactions_hashes.
  - intros i tx Htx. apply extended_transactions_lookup in Htx. naive_solver.
  - exists hx. by split; [apply with_block_hash_wf|].
  - intros r Hr. apply list_elem_of_fmap in Hr as (r0 & -> & _). done.
Qed.

Lemma commit_block_history app log b txs rs :
  History app log → Linked ((en_block <$> log) ++ [b]) → entry_wf (block_entry b txs rs) →
  (∀ r, r ∈ rs → contains (receipt_memory app) (Receipts.transaction_hash r) = false) →
  History (commit_block app b txs rs) (log ++ [block_entry b txs rs]).
Proof.
  intros [Hb Ht Hr Hl Hw Hn] Hlink Hwf Hnew. split; simpl.
  - rewrite fmap_app. by apply represents_add.
  - rewrite bind_app. simpl. rewrite app_nil_r. by apply tx_extend_indexed.
  - rewrite bind_app. simpl. rewrite app_nil_r. by apply extend_indexed.
  - by rewrite fmap_app.
  - apply Forall_app. by split; [|constructor].
  - assert (∀ i e r s, log !! i = Some e → r ∈ en_receipts e →
      s ∈ Receipts.with_block_hash (hash b) <$> rs →
      Receipts.transaction_hash r = Receipts.transaction_hash s → False) as Hfresh.
    { intros i e r s He Hre Hs Heq. apply list_elem_of_fmap in Hs as (s0 & -> & Hs0).
      specialize (Hnew s0 Hs0). unfold contains in Hnew. apply not_true_iff_false in Hnew.
      apply Hnew, (Indexed_contains Receipts.transaction_hash _ _ _ Hr).
      exists r. split; [|done]. apply list_elem_of_bind. exists e. split; [done|].
      by eapply list_elem_of_lookup_2. }
    intros i j e f r s Hi Hj Hre Hsf Heq.
    apply lookup_app_Some in Hi as [Hi|[Hgi Hi]], Hj as [Hj|[Hgj Hj]].
    + by eapply Hn.
    + apply list_lookup_singleton_Some in Hj as [_ <-]. exfalso. by eapply Hfresh.
    + apply list_lookup_singleton_Some in Hi as [_ <-]. exfalso. by eapply Hfresh.
    + apply list_lookup_singleton_Some in Hi as [? _], Hj as [? _]. lia.
Qed.

(** The parent of a build is the last block of the history. *)
Lemma history_latest app log e : History app (log ++ [e]) →
  Z.of_nat (length (log ++ [e])) < 2 ^ 64 →
  repository_latest (storage app) = Some (en_block e).
Proof.
  intros [Hb _ _ Hl _ _] Hlen. rewrite fmap_app in Hb, Hl. simpl in *.
  eapply last_linked; [done|done|]. rewrite !length_app, length_fmap in *. done.
Qed.

Lemma block_transactions_new app attributes h :
  h ∈ (block_transactions app attributes).*1 → contains (receipt_memory app) h = false.
Proof.
  intros ([h' x] & -> & Hin)%list_elem_of_fmap. unfold block_transactions in Hin.
  by apply list_elem_of_filter in Hin as [? _].
Qed.

(** A build extends the chain by one block, or does nothing when the payload id
    is known. *)
Lemma build_step app log e attributes id app' :
  CallbackLaws → GasTyped →
  History app (log ++ [e]) → Z.of_nat (length (log ++ [e])) < 2 ^ 64 →
  start_block_build app attributes id = Done app' →
  (is_Some (payload_by_id (storage app) id) ∧ app' = app)
  ∨ (payload_by_id (storage app) id = None ∧ mem_pool app' = ∅
     ∧ ∃ base_fee appx o rs txs hx b,
       txs = (λ t, t.2.1) <$> block_transactions app attributes
       ∧ hx = execution_header (en_block e) attributes
       ∧ b = assemble_block (en_block e) attributes id txs base_fee hx o
       ∧ next_base_fee app (en_block e) = Done base_fee
       ∧ execute_transactions (set_mem_pool ∅ app) (block_transactions app attributes) base_fee hx
           = Done (appx, o, rs)
       ∧ History app' ((log ++ [e]) ++ [block_entry b txs rs])
       ∧ number b = number (en_block e) + 1
       ∧ h_parent_hash (header (block b)) = hash (en_block e)).
Proof.
  intros Hcb Hg Hh Hlen Hbuild.
  destruct (payload_by_id (storage app) id) as [p|] eqn:Hid.
  { left. unfold start_block_build in Hbuild. rewrite Hid in Hbuild.
    rewrite decide_True in Hbuild by eauto. by simplify_eq. }
  right. split; [done|].
  destruct (start_block_build_inv _ _ _ _ Hid Hbuild)
    as (parent & bf & appx & o & rs & txs & hx & b & Htxs & Hhx & Hb & Hpar & Hbf & Hex & ->).
  rewrite (history_latest _ _ _ Hh Hlen) in Hpar. injection Hpar as <-.
  destruct (execute_transactions_stores _ _ _ _ _ _ _ Hex) as (Hst & Hsub & Hrw).
  pose proof (on_payload_stores (commit_block appx b txs rs) id (hash b)) as Hpay.
  assert (number b = number (en_block e) + 1) as Hnum.
  { subst b hx. unfold number at 1. simpl. apply wrap_small.
    destruct (hist_linked _ _ Hh) as [Hn _].
    rewrite (Hn (length log) (en_block e)); [rewrite length_app in Hlen; unfold uint; simpl in Hlen; lia|].
    by rewrite list_lookup_fmap, list_lookup_middle. }
  assert (h_parent_hash (header (block b)) = hash (en_block e)) as Hph by by subst b.
  split.
  { destruct Hpay as [-> _]. by destruct Hst as [? _]. }
  exists bf, appx, o, rs, txs, hx, b. split_and!; [done..| |done|done].
  - eapply same_stores_history; [done|]. apply commit_block_history.
    + destruct Hh as [????]. destruct Hst as (_ & _ & Hr & Hs). simpl in *.
      split; by rewrite ?Hr, ?Hs.
    + rewrite fmap_app. apply linked_snoc; [|done|done].
      pose proof (hist_linked _ _ Hh) as Hl. by rewrite fmap_app in Hl.
    + subst b hx. by apply block_entry_wf, Hrw.
    + intros r Hr. destruct Hst as (_ & _ & -> & _). simpl.
      apply (block_transactions_new _ attributes).
      eapply sublist_subseteq; [exact Hsub|]. by apply list_elem_of_fmap_2.
Qed.

Lemma bind_snoc {A B} (f : A → list B) l x : (l ++ [x]) ≫= f = (l ≫= f) ++ f x.
Proof. rewrite bind_app. simpl. by rewrite app_nil_r. Qed.

(** No two transactions of a list have the same hash. *)
Definition collision_free (l : list OpTxEnvelope) : Prop :=
  ∀ a b, a ∈ l → b ∈ l → trie_hash a = trie_hash b → a = b.

Lemma tx_by_hashes_inner m l txs : Indexed et_hash m l →
  collision_free (et_inner <$> l) → txs ⊆ et_inner <$> l →
  et_inner <$> tx_by_hashes m (trie_hash <$> txs) = txs.
Proof.
  intros Hi Hinj Hsub. induction txs as [|tx txs IH]; [done|].
  assert (tx ∈ et_inner <$> l) as (et & Het & Hin)%list_elem_of_fmap by set_solver.
  simpl. unfold tx_by_hash. destruct (ev_get_one m (trie_hash tx)) as [et'|] eqn:Hget.
  - destruct (Indexed_get_one et_hash _ _ _ _ Hi Hget) as [Hin' Hh].
    simpl. f_equal; [|].
    { apply Hinj; [by apply list_elem_of_fmap_2|set_solver|done]. }
    apply IH. set_solver.
  - exfalso. eapply (Indexed_get_one_None et_hash _ _ _ Hi); [done|done|]. by rewrite Het.
Qed.

(** The block just added is the only one with its payload id. *)
Lemma history_by_payload_id app log e : History app (log ++ [e]) →
  (∀ e', e' ∈ log → payload_id (en_block e') ≠ payload_id (en_block e)) →
  by_payload_id (block_memory (storage app)) (payload_id (en_block e)) = Some (en_block e).
Proof.
  intros Hh Hne. destruct (hist_blocks _ _ Hh) as (_ & _ & Hp).
  apply (Indexed_get_one_unique payload_id _ _ _ _ Hp); [|done|].
  - apply list_elem_of_fmap_2. set_solver.
  - intros b (e' & -> & He')%list_elem_of_fmap Heq.
    apply elem_of_app in He' as [He'|He']; [by apply Hne in He'|].
    by apply list_elem_of_singleton in He' as ->.
Qed.

Lemma history_payload_None app log id : History app log →
  payload_by_id (storage app) id = None → ∀ e, e ∈ log → payload_id (en_block e) ≠ id.
Proof.
  intros Hh Hid e He. destruct (hist_blocks _ _ Hh) as (_ & _ & Hp).
  unfold payload_by_id in Hid. apply fmap_None in Hid.
  eapply (Indexed_get_one_None payload_id _ _ _ Hp); [done|]. by apply list_elem_of_fmap_2.
Qed.

(** C4 (functional): what [engine_getPayload] returns after a build with a new
    payload id is the block that was asked for: the attributes' time,
    randomness, fee recipient and gas limit, the next number on the latest
    block, the base fee derived from it, and the encodings of exactly the
    transactions selected for the block, in order; and asking for the same id
    again changes nothing, whatever the attributes. *)
Theorem payload_of_build app log e attributes id app' :
  CallbackLaws → GasTyped →
  collision_free ((et_inner <$> ((log ++ [e]) ≫= en_txs))
    ++ ((λ t, t.2.1) <$> block_transactions app attributes)) →
  History app (log ++ [e]) → Z.of_nat (length (log ++ [e])) < 2 ^ 64 →
  payload_by_id (storage app) id = None →
  start_block_build app attributes id = Done app' →
  (∃ p base_fee, payload_by_id (storage app') id = Some p
    ∧ next_base_fee app (en_block e) = Done base_fee
    ∧ let x := execution_payload p in
      ep_parent_hash x = hash (en_block e)
      ∧ ep_block_number x = number (en_block e) + 1
      ∧ ep_timestamp x = to_u64 (p_timestamp attributes)
      ∧ ep_prev_randao x = p_prev_randao attributes
      ∧ ep_fee_recipient x = p_suggested_fee_recipient attributes
      ∧ ep_gas_limit x = to_u64 (p_gas_limit attributes)
      ∧ ep_base_fee_per_gas x = sat_to 64 base_fee
      ∧ parent_beacon_block_root p = p_parent_beacon_block_root attributes
      ∧ ep_transactions x = (λ t, encode_2718 t.2.1) <$> block_transactions app attributes)
  ∧ ∀ attributes', start_block_build app' attributes' id = Done app'.
Proof.
  intros Hcb Hg Hinj Hh Hlen Hid Hb.
  destruct (build_step app log e attributes id app' Hcb Hg Hh Hlen Hb) as [[[p Hp] _]|Hstep];
    [congruence|].
  destruct Hstep as (_ & _ & bf & appx & o & rs & txs & hx & b & -> & -> & Hbl & Hbf & _ & Hh' & Hn & Hph).
  pose proof (history_payload_None _ _ _ Hh Hid) as Hne.
  set (txs := (λ t, t.2.1) <$> block_transactions app attributes) in *.
  assert (payload_id b = id) as Hbid by by subst b.
  assert (by_payload_id (block_memory (storage app')) id = Some b) as Hby.
  { rewrite <- Hbid. apply (history_by_payload_id app' (log ++ [e]) (block_entry b txs rs) Hh').
    simpl. by rewrite Hbid. }
  assert (payload_by_id (storage app') id = Some (block_into_payload (storage app') b)) as Hpay.
  { unfold payload_by_id. by rewrite Hby. }
  split.
  - exists (block_into_payload (storage app') b), bf. split; [done|]. split; [done|]. simpl.
    split_and!; [done|done|by subst b..|].
    assert (transaction_hashes b = trie_hash <$> txs) as -> by by subst b.
    rewrite (tx_by_hashes_inner _ _ txs (hist_txs _ _ Hh')).
    + unfold txs. by rewrite <- list_fmap_compose.
    + rewrite bind_snoc, fmap_app. cbn [en_txs block_entry]. by rewrite extended_transactions_inner.
    + rewrite bind_snoc, fmap_app. cbn [en_txs block_entry].
      rewrite extended_transactions_inner. set_solver.
  - intros attributes'. unfold start_block_build. by rewrite decide_True by (rewrite Hpay; eauto).
Qed.

(** A build loses no pooled transaction: each one is in the new
    block unless it already has a receipt, and the pool is empty afterwards. *)
Lemma pool_is_drained app log e attributes id app' h tx input :
  CallbackLaws → GasTyped → (∀ m, drain_order m ≡ₚ map_to_list m) →
  History app (log ++ [e]) → Z.of_nat (length (log ++ [e])) < 2 ^ 64 →
  payload_by_id (storage app) id = None →
  start_block_build app attributes id = Done app' →
  mem_pool app !! h = Some (tx, input) →
  mem_pool app' = ∅
  ∧ (contains (receipt_memory app) h = true
     ∨ ∃ e', History app' ((log ++ [e]) ++ [e']) ∧ tx ∈ et_inner <$> en_txs e').
Proof.
  intros Hcb Hg Hdrain Hh Hlen Hid Hb Htx.
  destruct (build_step app log e attributes id app' Hcb Hg Hh Hlen Hb) as [[[p Hp] _]|Hstep];
    [congruence|].
  destruct Hstep as (_ & Hmp & bf & appx & o & rs & txs & hx & b & -> & -> & _ & _ & _ & Hh' & _).
  split; [done|]. destruct (contains (receipt_memory app) h) eqn:Hc; [by left|right].
  eexists. split; [done|]. simpl. rewrite extended_transactions_inner.
  apply list_elem_of_fmap. exists (h, (tx, input)). split; [done|]. unfold block_transactions.
  apply list_elem_of_filter. split; [done|]. apply elem_of_app. right.
  rewrite Hdrain. by apply elem_of_map_to_list.
Qed.

(** ** The L1 fee of a transaction, by the way it arrived *)

(** The L1 fee input of a pooled transaction counts the bytes
    of its encoding, but that of a transaction in the payload attributes counts
    the bytes left after decoding it: when the decoder consumes the whole
    transaction the input is empty and its L1 fee is zero, whatever the fee
    parameters. *)
Lemma attribute_txs_pay_no_l1_fee b tx :
  decode_tx b = Some (tx, []) →
  (∃ input, attribute_tx b = Some (keccak256 b, (tx, input)) ∧ ∀ fee, l1_fee fee input = 0)
  ∧ ∀ app etx app', add_transaction app etx = Done app' →
      ∃ op_tx, mem_pool app' !! eth_tx_hash etx = Some (op_tx, l1_input_from (eth_encode etx)).
Proof.
  intros Hd. split.
  - unfold attribute_tx. rewrite Hd. simpl. eexists. split; [done|].
    intros fee. unfold l1_fee. reflexivity.
  - intros app etx app' (op_tx & _ & [= <-])%bind_Done. exists op_tx. simpl. apply lookup_insert_eq.
Qed.

(** ** The chain as an abstract machine *)

(** One step of the chain: nothing, or one more well-formed block on the last. *)
Inductive chain_step : list Entry → list Entry → Prop :=
| chain_stutter log : chain_step log log
| chain_extend log e e' :
    entry_wf e' → number (en_block e') = number (en_block e) + 1 →
    h_parent_hash (header (block (en_block e'))) = hash (en_block e) →
    chain_step (log ++ [e]) ((log ++ [e]) ++ [e']).

Definition is_genesis_update (msg : Command) : bool :=
  match msg with GenesisUpdate _ => true | _ => false end.

Lemma handle_command_step `{!CallbackLaws} app log e msg app' :
  GasTyped → is_genesis_update msg = false →
  History app (log ++ [e]) → Z.of_nat (length (log ++ [e])) < 2 ^ 64 →
  handle_command app msg = Done app' →
  ∃ log', History app' log' ∧ chain_step (log ++ [e]) log'.
Proof.
  intros Hg Hmsg Hh Hlen Hr. destruct msg as [attributes id|tx|b]; simpl in *; [| |done].
  - destruct (build_step app log e attributes id app')
      as [[_ ->]|(_ & _ & bf & appx & o & rs & txs & hx & b & _ & _ & _ & _ & _ & Hh' & Hn & Hp)];
      [done..| |].
    + eexists. split; [done|constructor].
    + eexists. split; [done|]. apply chain_extend; [|done|done].
      pose proof (hist_wf _ _ Hh') as Hw. apply Forall_app in Hw as [_ Hw]. by inversion Hw.
  - apply bind_Done in Hr as (op & Hop & Hr). simplify_eq/=.
    exists (log ++ [e]). split; [|constructor]. by destruct Hh.
Qed.

Lemma chain_step_snoc log e log' : chain_step (log ++ [e]) log' →
  ∃ log1 e1, log' = log1 ++ [e1] ∧ (length log' ≤ S (length (log ++ [e])))%nat
    ∧ (log ++ [e]) `prefix_of` log'.
Proof.
  inversion 1 as [|? e0 e' ??? He]; subst.
  - exists log, e. split; [done|]. split; [lia|done].
  - apply app_inj_tail in He as [-> ->]. eexists _, e'. split; [done|].
    rewrite (length_app (_ ++ _)). simpl. split; [lia|]. by apply prefix_app_r.
Qed.

(** C1 (refinement): the actor implements the abstract chain.  From a history
    that has its genesis block, handling any sequence of build and transaction
    commands amounts to a sequence of steps that only append well-formed blocks,
    each with the next number and the hash of its predecessor as parent; the
    memories hold exactly the blocks, transactions and receipts of that history,
    and no transaction has receipts in two blocks of it. *)
Theorem work_refines_chain app log e msgs app' :
  CallbackLaws → GasTyped → Forall (λ msg, is_genesis_update msg = false) msgs →
  History app (log ++ [e]) → Z.of_nat (length (log ++ [e]) + length msgs) < 2 ^ 64 →
  work app msgs = Done app' →
  ∃ log', History app' log' ∧ rtc chain_step (log ++ [e]) log' ∧ (log ++ [e]) `prefix_of` log'.
Proof.
  intros Hcb Hg Hmsgs. revert app log e. induction Hmsgs as [|msg msgs Hmsg _ IH];
    intros app log e Hh Hlen Hw; simpl in *.
  - simplify_eq. eauto using rtc_refl.
  - apply bind_Done in Hw as (app1 & Hr & Hw).
    destruct (handle_command_step app log e msg app1) as (log1 & Hh1 & Hs1); [done..|lia|done|].
    destruct (chain_step_snoc _ _ _ Hs1) as (log2 & e2 & -> & Hlen2 & Hpre).
    destruct (IH app1 log2 e2) as (log' & Hh' & Hs' & Hpre'); [done|lia|done|].
    exists log'. split; [done|]. split; [by eapply rtc_l|by etrans].
Qed.

End Chain.

(** Witnesses: a fresh in-memory application, a genesis block and a build with
    one pooled transaction and one undecodable attribute.  The executor charges
    7 gas and emits one log. *)
Module ChainWitness.
Import EvMap.Model Envelope.Witness BlockWitness.
#[local] Existing Instance unit_errors.
#[local] Existing Instance tx_library.

#[local] Instance envelopes : EnvelopeLibrary := {|
  trie_hash := λ _, [9]; envelope_effective_gas_price := λ _ _, 1; encode_2718 := λ _, [1];
  decode_relay_message_nonce := λ _, None; u256_checked_shr := λ a b, Some (a / 2 ^ b) |}.

#[local] Instance headers : HeaderLibrary := {|
  hash_slow := λ h, [h_number h]; header_default := h0 |}.

#[local] Instance world : WorldState := {|
  MoveState := nat; MoveChanges := nat; EvmStorage := unit; EvmChanges := unit;
  StorageError := unit; state_apply := λ s c, Done (Ok (s + c)%nat); state_root := λ s, [Z.of_nat s];
  storage_apply := λ s _, Ok s |}.

Definition outcome : TransactionExecutionOutcome :=
  {| vm_outcome := Ok (); changes := {| move_vm := 1%nat; evm := () |}; gas_used := 7;
     l2_price := 1; logs := [MkLog [] [] []]; deployment := None |}.

#[local] Instance executor : Executor := λ _, Done (Ok outcome).

#[local] Instance library : AppLibrary := {|
  keccak256 := id; decode_tx := λ b, match b with [1] => Some (legacy_tx, []) | _ => None end;
  eth_tx_hash := λ _, [9]; eth_encode := λ _, [1]; try_from_eth_envelope := λ _, Some legacy_tx;
  bloom_zero := []; accrue_log := λ b _, b; accrue_bloom := λ a _, a;
  transactions_trie_root := λ _, []; withdrawals_trie_root := λ _, [];
  receipts_trie_root := λ _, []; drain_order := map_to_list |}.

#[local] Instance callbacks : Callbacks := in_memory_callbacks.
#[local] Instance callback_laws : CallbackLaws.
Proof. by split. Qed.

Lemma gas_typed : GasTyped.
Proof. intros i o Ho. injection Ho as <-. done. Qed.

Definition empty_app : Application :=
  MkApplication ∅ (MkEip1559GasFee 6 50) ev_new shared_memory_new 0%nat ().
Definition genesis : ExtendedBlock :=
  MkExtendedBlock [0] 0 0 (MkBlock h0 []).
Definition input : L1GasFeeInput := MkL1GasFeeInput 0 0.
Definition start : Application :=
  set_mem_pool {[ [9] := (legacy_tx, input) ]} (genesis_update empty_app genesis).
Definition attributes : Payload := MkPayload 12 [3] [4] [] [5] [[2]] 30000000.
Definition built : Application :=
  match start_block_build start attributes 1 with Done a => a | Panic => start end.

Lemma start_history : History start ([] ++ [MkEntry genesis [] []]).
Proof.
  assert (History (genesis_update empty_app genesis) [MkEntry genesis [] []]) as [??????]
    by by apply history_genesis.
  done.
Qed.

Lemma built_ok : start_block_build start attributes 1 = Done built.
Proof. vm_compute. reflexivity. Qed.

Definition hx0 : HeaderForExecution := MkHeaderForExecution 1 12 [3].
Definition txs0 : list TxWithMetadata := [([9], (legacy_tx, input)); ([8], (legacy_tx, input))].
Definition lp0 : Loop := MkLoop start 0 [] 0 [] 0 0.
Definition lp1 : Loop :=
  match process_txs None (MkMovedGasFee 1) 1 hx0 lp0 txs0 with Done lp => lp | Panic => lp0 end.

Lemma dropped_leave_no_trace_witness :
  ∃ kept rs, kept `sublist_of` txs0
    ∧ process_txs None (MkMovedGasFee 1) 1 hx0 lp0 kept = Done lp1
    ∧ lp_receipts lp1 = [] ++ rs ∧ Receipts.transaction_hash <$> rs = kept.*1.
Proof.
  apply (dropped_leave_no_trace None (MkMovedGasFee 1) 1 hx0 lp0 txs0 lp1);
    [apply callback_laws|vm_compute; reflexivity].
Defined.

Definition executed0 :=
  match execute_transactions start txs0 1 hx0 with
  | Done r => r | Panic => (start, MkExecutionOutcome [] [] [] 0 0, []) end.

Lemma execution_accounting_witness :
  receipts_wf hx0 executed0.2 ∧ o_gas_used executed0.1.2 = gas_total executed0.2
  ∧ uint 64 (o_gas_used executed0.1.2)
  ∧ (Receipts.transaction_hash <$> executed0.2) `sublist_of` txs0.*1
  ∧ o_receipts_root executed0.1.2 = receipts_trie_root (receipt <$> executed0.2)
  ∧ o_state_root executed0.1.2 = state_root (state executed0.1.1).
Proof.
  apply (execution_accounting start txs0 1 hx0);
    [apply callback_laws|apply gas_typed|vm_compute; reflexivity].
Defined.

Lemma work_refines_chain_witness :
  ∃ log', History built log' ∧ rtc chain_step ([] ++ [MkEntry genesis [] []]) log'
    ∧ ([] ++ [MkEntry genesis [] []]) `prefix_of` log'.
Proof.
  apply (work_refines_chain start [] (MkEntry genesis [] []) [StartBlockBuild attributes 1]);
    [apply callback_laws|apply gas_typed|by constructor|apply start_history|done|].
  vm_compute. reflexivity.
Defined.

Lemma payload_of_build_witness :
  (∃ p base_fee, payload_by_id (storage built) 1 = Some p
    ∧ next_base_fee start genesis = Done base_fee
    ∧ let x := execution_payload p in
      ep_parent_hash x = [0] ∧ ep_block_number x = 0 + 1 ∧ ep_timestamp x = 12
      ∧ ep_prev_randao x = [3] ∧ ep_fee_recipient x = [4] ∧ ep_gas_limit x = 30000000
      ∧ ep_base_fee_per_gas x = sat_to 64 base_fee
      ∧ parent_beacon_block_root p = [5]
      ∧ ep_transactions x = (λ t, encode_2718 t.2.1) <$> block_transactions start attributes)
  ∧ ∀ attributes', start_block_build built attributes' 1 = Done built.
Proof.
  apply (payload_of_build start [] (MkEntry genesis [] []) attributes 1 built);
    [apply callback_laws|apply gas_typed| |apply start_history|done|vm_compute; reflexivity
    |apply built_ok].
  assert ((et_inner <$> (([] ++ [MkEntry genesis [] []]) ≫= en_txs))
    ++ ((λ t, t.2.1) <$> block_transactions start attributes) = [legacy_tx]) as ->
    by (vm_compute; reflexivity).
  intros a b ->%list_elem_of_singleton ->%list_elem_of_singleton _. done.
Defined.

Lemma pool_is_drained_witness :
  mem_pool built = ∅
  ∧ (contains (receipt_memory start) [9] = true
     ∨ ∃ e', History built (([] ++ [MkEntry genesis [] []]) ++ [e'])
         ∧ legacy_tx ∈ et_inner <$> en_txs e').
Proof.
  apply (pool_is_drained start [] (MkEntry genesis [] []) attributes 1 built [9] legacy_tx input);
    [apply callback_laws|apply gas_typed|done|apply start_history|done|vm_compute; reflexivity
    |apply built_ok|vm_compute; reflexivity].
Defined.

Lemma attribute_txs_pay_no_l1_fee_witness :
  (∃ input, attribute_tx [1] = Some (keccak256 [1], (legacy_tx, input)) ∧ ∀ fee, l1_fee fee input = 0)
  ∧ ∀ app etx app', add_transaction app etx = Done app' →
      ∃ op_tx, mem_pool app' !! eth_tx_hash etx = Some (op_tx, l1_input_from (eth_encode etx)).
Proof. apply (attribute_txs_pay_no_l1_fee [1] legacy_tx). reflexivity. Defined.

(** A block of an unsupported transaction and a supported one: both are listed
    in the block, at 0 and 1, but the receipt of the second has index 0. *)
Definition blob_tx : OpTxEnvelope := Eip7702 (MkSigned (MkTxEip7702 []) someone).
Definition two_txs : list TxWithMetadata := [([8], (blob_tx, input)); ([9], (legacy_tx, input))].

Example dropped_shifts_receipt_index :
  match execute_transactions start two_txs 1 hx0 with
  | Done (_, _, [r]) =>
    Receipts.transaction_hash r = [9] ∧ transaction_index r = 0
    ∧ (et_transaction_index <$>
         extended_transactions genesis ((λ t, t.2.1) <$> two_txs) !! 1%nat) = Some 1
  | _ => False
  end.
Proof. vm_compute. done. Qed.

End ChainWitness.
