(* ===== verification/Simulation.v ===== *)
(** The block builder of [app/src/command.rs] does not depend on how its state is
    kept: it runs on any [WorldState].  A relation between the applications of two
    worlds that execution and the application of changes keep is kept by the
    execution of a block's transactions, with the same receipts and sums. *)
From S2P Require Import Prelude Primitives MoveTypes Errors Envelope EvMap.
From S2P Require Import Transactions Fees BaseFee Receipts Payloads Blocks Application.

Local Open Scope Z_scope.

(** Whenever [m1] returns, [m2] returns something related. *)
Definition simulates {A B} (m1 : exec A) (m2 : exec B) (R : A → B → Prop) : Prop :=
  ∀ x1, m1 = Done x1 → ∃ x2, m2 = Done x2 ∧ R x1 x2.

Lemma sim_ret {A B} (x1 : A) (x2 : B) (R : A → B → Prop) : R x1 x2 → simulates (Done x1) (Done x2) R.
Proof. intros Hr y [= <-]. by exists x2. Qed.

Lemma sim_bind {A B C D} (m1 : exec A) (m2 : exec B) (f1 : A → exec C) (f2 : B → exec D)
    (R : A → B → Prop) (S : C → D → Prop) :
  simulates m1 m2 R → (∀ x1 x2, R x1 x2 → simulates (f1 x1) (f2 x2) S) →
  simulates (m1 ≫= f1) (m2 ≫= f2) S.
Proof.
  intros Hm Hf y (x1 & H1 & H2)%bind_Done. destruct (Hm x1 H1) as (x2 & -> & Hr).
  by apply (Hf x1 x2 Hr).
Qed.

Lemma sim_same {A C D} (m : exec A) (f1 : A → exec C) (f2 : A → exec D) (S : C → D → Prop) :
  (∀ x, m = Done x → simulates (f1 x) (f2 x) S) → simulates (m ≫= f1) (m ≫= f2) S.
Proof. intros Hf y (x & Hm & Hy)%bind_Done. rewrite Hm. by apply (Hf x Hm). Qed.

Section Worlds.
Context `{ErrorTypes, !TxLibrary, EvMap, AppLibrary}.
Context (W1 W2 : WorldState).
Context (E1 : @Executor _ W1) (E2 : @Executor _ W2).

Local Abbreviation App1 := (Application (H5 := W1)).
Local Abbreviation App2 := (Application (H5 := W2)).

(** The changes of an execution in the two worlds. *)
Context (same_changes : Changes (H := W1) → Changes (H := W2) → Prop).

Record same_outcome (o1 : TransactionExecutionOutcome (H0 := W1))
    (o2 : TransactionExecutionOutcome (H0 := W2)) : Prop := {
  same_vm_outcome : vm_outcome o1 = vm_outcome o2;
  same_changes_of : same_changes (changes o1) (changes o2);
  same_gas_used : gas_used o1 = gas_used o2;
  same_price : l2_price o1 = l2_price o2;
  same_logs : logs o1 = logs o2;
  same_deployment : deployment o1 = deployment o2;
}.

Definition same_result (r1 : result Error (TransactionExecutionOutcome (H0 := W1)))
    (r2 : result Error (TransactionExecutionOutcome (H0 := W2))) : Prop :=
  match r1, r2 with
  | Ok o1, Ok o2 => same_outcome o1 o2
  | Err e1, Err e2 => e1 = e2
  | _, _ => False
  end.

Context (R : App1 → App2 → Prop).
Context (same_execution : ∀ app1 app2, R app1 app2 → ∀ normalized_tx tx_hash l1 l1_input l2 base_fee hx,
  simulates
    (execute_transaction (Executor := E1)
      (execution_input app1 normalized_tx tx_hash l1 l1_input l2 base_fee hx))
    (execute_transaction (Executor := E2)
      (execution_input app2 normalized_tx tx_hash l1 l1_input l2 base_fee hx)) same_result).
Context (same_apply : ∀ app1 app2 c1 c2, R app1 app2 → same_changes c1 c2 →
  simulates (apply_changes app1 c1) (apply_changes app2 c2) R).

(** The loops over a block's transactions have the same sums and receipts. *)
Record same_loop (lp1 : Loop (H5 := W1)) (lp2 : Loop (H5 := W2)) : Prop := {
  loop_app : R (lp_app lp1) (lp_app lp2);
  loop_tip : lp_total_tip lp1 = lp_total_tip lp2;
  loop_receipts : lp_receipts lp1 = lp_receipts lp2;
  loop_gas : lp_cumulative_gas_used lp1 = lp_cumulative_gas_used lp2;
  loop_bloom : lp_logs_bloom lp1 = lp_logs_bloom lp2;
  loop_index : lp_tx_index lp1 = lp_tx_index lp2;
  loop_offset : lp_log_offset lp1 = lp_log_offset lp2;
}.

Lemma record_simulates lp1 lp2 app1 app2 tx_hash tx normalized_tx l1 l1_input base_fee hx o1 o2 :
  same_loop lp1 lp2 → R app1 app2 → same_outcome o1 o2 →
  simulates (record_outcome lp1 app1 tx_hash tx normalized_tx l1 l1_input base_fee hx o1)
    (record_outcome lp2 app2 tx_hash tx normalized_tx l1 l1_input base_fee hx o2) same_loop.
Proof.
  intros [_ K1 K2 K3 K4 K5 K6] Ha [O1 _ O3 O4 O5 O6]. unfold record_outcome.
  rewrite O1, O3, O5, K3. apply sim_same. intros receipt _. rewrite K1, K2, K4, K5, K6, O4, O6.
  destruct normalized_tx; apply sim_ret; by split.
Qed.

Lemma process_tx_simulates l1 l2 base_fee hx lp1 lp2 t : same_loop lp1 lp2 →
  simulates
    (process_tx (H6 := E1) (H8 := in_memory_callbacks (H5 := W1)) l1 l2 base_fee hx lp1 t)
    (process_tx (H6 := E2) (H8 := in_memory_callbacks (H5 := W2)) l1 l2 base_fee hx lp2 t) same_loop.
Proof.
  intros Hlp. destruct t as [tx_hash [tx l1_input]]. simpl. destruct (normalize tx) as [nt|]; [|by apply sim_ret].
  eapply sim_bind; [apply same_execution, (loop_app _ _ Hlp)|]. intros [o1|e1] [o2|e2] Hr; try done.
  - simpl in Hr. eapply sim_bind; [apply same_apply; [apply (loop_app _ _ Hlp)|apply (same_changes_of _ _ Hr)]|].
    intros app1 app2 Ha. by apply record_simulates.
  - simpl in Hr. subst e2. destruct e1; try done. by apply sim_ret.
Qed.

Lemma process_txs_simulates l1 l2 base_fee hx txs lp1 lp2 : same_loop lp1 lp2 →
  simulates
    (process_txs (H6 := E1) (H8 := in_memory_callbacks (H5 := W1)) l1 l2 base_fee hx lp1 txs)
    (process_txs (H6 := E2) (H8 := in_memory_callbacks (H5 := W2)) l1 l2 base_fee hx lp2 txs) same_loop.
Proof.
  revert lp1 lp2. induction txs as [|t txs IH]; intros lp1 lp2 Hlp; [by apply sim_ret|].
  cbn [process_txs]. eapply sim_bind; [by apply process_tx_simulates|]. intros lp1' lp2'. apply IH.
Qed.

(** The results of executing a block's transactions. *)
Definition same_executed (x1 : App1 * ExecutionOutcome * list ExtendedReceipt)
    (x2 : App2 * ExecutionOutcome * list ExtendedReceipt) : Prop :=
  R x1.1.1 x2.1.1 ∧ x1.2 = x2.2
  ∧ o_receipts_root x1.1.2 = o_receipts_root x2.1.2 ∧ o_logs_bloom x1.1.2 = o_logs_bloom x2.1.2
  ∧ o_gas_used x1.1.2 = o_gas_used x2.1.2 ∧ o_total_tip x1.1.2 = o_total_tip x2.1.2
  ∧ o_state_root x1.1.2 = state_root (state x1.1.1).

Lemma execute_transactions_simulates app1 app2 txs base_fee hx : R app1 app2 →
  simulates
    (execute_transactions (H6 := E1) (H8 := in_memory_callbacks (H5 := W1)) app1 txs base_fee hx)
    (execute_transactions (H6 := E2) (H8 := in_memory_callbacks (H5 := W2)) app2 txs base_fee hx)
    same_executed.
Proof.
  intros Ha. unfold execute_transactions. apply sim_same. intros l1 _.
  eapply sim_bind; [by apply process_txs_simulates|]. intros lp1 lp2 [K0 K1 K2 K3 K4 K5 K6].
  rewrite K3. apply sim_same. intros [] _. apply sim_ret. simpl. rewrite K2.
  unfold same_executed. simpl. by split_and!.
Qed.

End Worlds.
