(* ===== verification/MoveVm.v ===== *)
(** The Move VM as the execution layer uses it.

    The VM, its gas meter and its value encoding are third-party code: [MoveVm]
    is their interface.  What the program itself keeps next to the VM session is
    here too: the logger of EVM transfers ([evm-ext/src/events.rs]), shared by
    the session, whose EVM native writes to it, and by the code that replays
    the transfers. *)
From S2P Require Import Prelude Primitives MoveTypes Errors Envelope Application.

Local Open Scope Z_scope.

(** Source: evm-ext/src/events.rs 14-19 [EthTransfer] *)
Record EthTransfer := MkEthTransfer {
  tr_from : AccountAddress; tr_to : AccountAddress; tr_amount : Z }.

(** Source: evm-ext/src/events.rs 35-39 [EthTransfersLogger] *)
Record EthTransfersLogger := MkLogger {
  transfers : list EthTransfer;
  origins : list (AccountAddress * Z);
}.

(** Source: evm-ext/src/events.rs 42-44 [EthTransfersLogger::push_transfer] *)
Definition push_transfer (t : EthTransfer) (self : EthTransfersLogger) : EthTransfersLogger :=
  MkLogger (transfers self ++ [t]) (origins self).

(** Source: evm-ext/src/events.rs 46-48 [EthTransfersLogger::take_transfers] *)
Definition take_transfers (self : EthTransfersLogger) : list EthTransfer * EthTransfersLogger :=
  (transfers self, MkLogger [] (origins self)).

(** Source: evm-ext/src/events.rs 50-52 [EthTransfersLogger::add_tx_origin] *)
Definition add_tx_origin (address : AccountAddress) (amount : Z) (self : EthTransfersLogger)
    : EthTransfersLogger :=
  MkLogger (transfers self) (origins self ++ [(address, amount)]).

(** Source: evm-ext/src/events.rs 54-56 [EthTransfersLogger::take_origins] *)
Definition take_origins (self : EthTransfersLogger)
    : list (AccountAddress * Z) * EthTransfersLogger :=
  (origins self, MkLogger (transfers self) []).

(** [move_vm_types::loaded_data::runtime_types::Type]: the program looks at the
    two reference constructors only. *)
Inductive RuntimeType (B : Type) :=
| Reference (inner : RuntimeType B)
| MutableReference (inner : RuntimeType B)
| OtherType (b : B).
Arguments Reference {_} _.
Arguments MutableReference {_} _.
Arguments OtherType {_} _.

(** Whether a call charges the transaction's gas meter ([StandardGasMeter]) or
    none ([UnmeteredGasMeter]). *)
Inductive Metering := Metered | Unmetered.

Class VmTypes := {
  Session : Type;
  GasMeter : Type;
  BaseType : Type;
}.

(** What a transaction's execution threads through its calls. *)
Record Vm_ `{VmTypes} := MkVm {
  session : Session;
  gas_meter : GasMeter;
  eth_transfers_logger : EthTransfersLogger;
}.

Record LoadedFunction `{VmTypes} := MkLoaded { lf_id : Z; param_tys : list (RuntimeType BaseType) }.

Class MoveVm `{ErrorTypes, VmTypes} := {
  (** Values *)
  simple_serialize : MoveValue → option bytes;
  deserialize_value : bytes → MoveTypeLayout → option MoveValue;
  (** Session *)
  load_function : ModuleId → string → list TypeTag → cmd Vm_ VMError LoadedFunction;
  load_script : bytes → list TypeTag → cmd Vm_ VMError LoadedFunction;
  get_type_tag : RuntimeType BaseType → cmd Vm_ VMError TypeTag;
  get_type_layout_from_ty : RuntimeType BaseType → cmd Vm_ VMError MoveTypeLayout;
  load_type : TypeTag → cmd Vm_ VMError (RuntimeType BaseType);
  (** [load_resource] and [exists] on the value it returns. *)
  resource_exists_at : AccountAddress → RuntimeType BaseType → cmd Vm_ PartialVMError bool;
  execute_function_bypass_visibility : ModuleId → string → list TypeTag → list bytes → Metering →
    cmd Vm_ VMError (list (bytes * MoveTypeLayout));
  session_execute_entry_function : LoadedFunction → list bytes → Metering → cmd Vm_ VMError ();
  session_execute_script : bytes → list TypeTag → list bytes → Metering → cmd Vm_ VMError ();
}.

(** The question mark on a VM error. *)
Definition vm {A} `{ErrorTypes, VmTypes} (m : cmd Vm_ VMError A) : cmd Vm_ Error A :=
  cmap_err from_vm_error m.

Section Logger.
Context `{VmTypes}.

Definition set_logger (l : EthTransfersLogger) (v : Vm_) : Vm_ :=
  MkVm _ (session v) (gas_meter v) l.

Definition take_logged_origins {E} : cmd Vm_ E (list (AccountAddress * Z)) := λ v,
  let '(l, logger) := take_origins (eth_transfers_logger v) in Done (Ok l, set_logger logger v).
Definition take_logged_transfers {E} : cmd Vm_ E (list EthTransfer) := λ v,
  let '(l, logger) := take_transfers (eth_transfers_logger v) in Done (Ok l, set_logger logger v).

End Logger.
