(* ===== verification/EthToken.v ===== *)
(** The base token of [execution/src/eth_token.rs]: fees, transfers, mints and
    the replay of EVM transfers, as calls into the Move module [eth_token].

    The Move module itself runs in the VM; [EthLedger] is what the program
    relies on from it: a successful transfer or mint moves exactly the amount. *)
From S2P Require Import Prelude Primitives MoveTypes Errors Envelope Application MoveVm.
Import Words.

Local Open Scope Z_scope.

(** Source: evm-ext/src/native_evm_context.rs 28 [FRAMEWORK_ADDRESS] *)
Definition FRAMEWORK_ADDRESS : AccountAddress := address_one.
(** Source: evm-ext/src/lib.rs 35-36 [EVM_NATIVE_ADDRESS] *)
Definition EVM_NATIVE_ADDRESS : AccountAddress := address_one.
(** Source: evm-ext/src/lib.rs 38-39 [EVM_NATIVE_MODULE] *)
Definition EVM_NATIVE_MODULE : string := "evm".
(** Source: execution/src/eth_token.rs 28 [TOKEN_ADMIN] *)
Definition TOKEN_ADMIN : AccountAddress := FRAMEWORK_ADDRESS.

(** Source: execution/src/eth_token.rs 34-39 [TransferArgs] *)
Record TransferArgs := MkTransferArgs {
  ta_from : AccountAddress; ta_to : AccountAddress; ta_amount : Z }.

(** Source: execution/src/eth_token.rs 71-80 [MovedBaseTokenAccounts] *)
Record MovedBaseTokenAccounts := MkBaseToken { eth_treasury : AccountAddress }.

Section EthToken.
Context `{ErrorTypes, !VmTypes, !MoveVm}.
Local Open Scope cmd_scope.

(** Source: execution/src/eth_token.rs 29 [TOKEN_MODULE_NAME] *)
Definition token_module_id : ModuleId := MkModuleId FRAMEWORK_ADDRESS "eth_token".

(** The arguments of a call, serialized; every [expect] on them panics. *)
Fixpoint serialize_args (l : list MoveValue) : exec (list bytes) :=
  match l with
  | [] => Done []
  | v :: l => b ← expect (simple_serialize v); bs ← serialize_args l; Done (b :: bs)
  end.

(** Source: execution/src/eth_token.rs 179-219 [transfer_eth] *)
Definition transfer_eth (args : TransferArgs) (gas_meter : Metering) : cmd Vm_ Error () :=
  if decide (ta_amount args = 0) then cret () else
  let! serialized := cexec (serialize_args
    [VSigner TOKEN_ADMIN; VAddress (ta_from args); VAddress (ta_to args);
     VU256 (U256_to_move_u256 (ta_amount args))]) in
  let! function := vm (load_function token_module_id "transfer" []) in
  vm (session_execute_entry_function function serialized gas_meter).

(** Source: execution/src/eth_token.rs 139-177 [mint_eth] *)
Definition mint_eth (to : AccountAddress) (amount : Z) (gas_meter : Metering) : cmd Vm_ Error () :=
  if decide (amount = 0) then cret () else
  let! serialized := cexec (serialize_args
    [VSigner TOKEN_ADMIN; VAddress to; VU256 (U256_to_move_u256 amount)]) in
  let! function := vm (load_function token_module_id "mint" []) in
  cmap_err (λ _, eth_token_invariant_violation MintAlwaysSucceeds)
    (session_execute_entry_function function serialized gas_meter).

(** Source: execution/src/eth_token.rs 83-103 [MovedBaseTokenAccounts::charge_gas_cost] *)
Definition charge_gas_cost (self : MovedBaseTokenAccounts) (from : AccountAddress) (amount : Z)
    (gas_meter : Metering) : cmd Vm_ Error () :=
  transfer_eth (MkTransferArgs from (eth_treasury self) amount) gas_meter.

(** Source: execution/src/eth_token.rs 105-125 [MovedBaseTokenAccounts::refund_gas_cost] *)
Definition refund_gas_cost (self : MovedBaseTokenAccounts) (to : AccountAddress) (amount : Z)
    : cmd Vm_ Error () :=
  transfer_eth (MkTransferArgs (eth_treasury self) to amount) Unmetered.

(** Source: execution/src/eth_token.rs 127-136 [MovedBaseTokenAccounts::transfer] *)
Definition base_token_transfer (self : MovedBaseTokenAccounts) (args : TransferArgs)
    (gas_meter : Metering) : cmd Vm_ Error () :=
  transfer_eth args gas_meter.

(** Source: execution/src/eth_token.rs 221-268 [replicate_transfers] *)
Definition replicate_transfers (gas_meter : Metering) : cmd Vm_ Error () :=
  let! origins := take_logged_origins in
  cfor (λ '(origin, value),
    if decide (value = 0) then cret ()
    else transfer_eth (MkTransferArgs EVM_NATIVE_ADDRESS origin value) gas_meter) origins ;;!
  let! transfers := take_logged_transfers in
  cfor (λ transfer,
    transfer_eth (MkTransferArgs (tr_from transfer) (tr_to transfer) (tr_amount transfer)) gas_meter)
    transfers.

(** Source: execution/src/eth_token.rs 270-319 [get_eth_balance] *)
Definition get_eth_balance (account : AccountAddress) (gas_meter : Metering) : cmd Vm_ Error Z :=
  let! addr_arg := cexec (expect (simple_serialize (VAddress account))) in
  let! return_values := cmap_err (λ _, eth_token_invariant_violation GetBalanceAlwaysSucceeds)
    (execute_function_bypass_visibility token_module_id "get_balance" [] [addr_arg] gas_meter) in
  let! (raw_output, layout) := clift (ok_or (head return_values)
    (eth_token_invariant_violation GetBalanceReturnsAValue)) in
  let! value := clift (ok_or (deserialize_value raw_output layout)
    (eth_token_invariant_violation GetBalanceReturnDeserializes)) in
  match value with
  | VU256 balance => cret (to_u256 balance)
  | _ => cfail (eth_token_invariant_violation GetBalanceReturnsU256)
  end.

End EthToken.

(** ** The ledger *)

(** Balances after moving [amount] from [from] to [to]. *)
Definition moved (from to : AccountAddress) (amount : Z) (b : AccountAddress → Z)
    (a : AccountAddress) : Z :=
  b a - (if decide (a = from) then amount else 0) + (if decide (a = to) then amount else 0).

(** What [eth_token::transfer] and [eth_token::mint] do when they succeed:
    withdraw from one store and deposit into the other, respectively deposit
    new tokens; loading a function moves nothing, and neither reaches the EVM. *)
Class EthLedger `{ErrorTypes, VmTypes, !MoveVm} := {
  balance : Session → AccountAddress → Z;
  load_function_ledger m f tys v r v' : load_function m f tys v = Done (r, v') →
    balance (session v') = balance (session v)
    ∧ eth_transfers_logger v' = eth_transfers_logger v;
  transfer_ledger fn v0 v1 from to amount args g v v' :
    load_function token_module_id "transfer" [] v0 = Done (Ok fn, v1) →
    serialize_args [VSigner TOKEN_ADMIN; VAddress from; VAddress to; VU256 amount] = Done args →
    session_execute_entry_function fn args g v = Done (Ok (), v') →
    amount ≤ balance (session v) from
    ∧ (∀ a, balance (session v') a = moved from to amount (balance (session v)) a)
    ∧ eth_transfers_logger v' = eth_transfers_logger v;
  mint_ledger fn v0 v1 to amount args g v v' :
    load_function token_module_id "mint" [] v0 = Done (Ok fn, v1) →
    serialize_args [VSigner TOKEN_ADMIN; VAddress to; VU256 amount] = Done args →
    session_execute_entry_function fn args g v = Done (Ok (), v') →
    (∀ a, balance (session v') a =
       balance (session v) a + (if decide (a = to) then amount else 0))
    ∧ eth_transfers_logger v' = eth_transfers_logger v;
}.

Section Ledger.
Context `{ErrorTypes, !VmTypes, !MoveVm, !EthLedger}.

Lemma U256_roundtrip z : uint 256 z → U256_to_move_u256 z = z.
Proof. intros Hz. unfold U256_to_move_u256. rewrite le_val_bytes. by apply wrap_small. Qed.

(** A successful transfer of any amount, zero included. *)
Lemma transfer_eth_ledger args g v v' : uint 256 (ta_amount args) →
  transfer_eth args g v = Done (Ok (), v') →
  (∀ a, balance (session v') a =
     moved (ta_from args) (ta_to args) (ta_amount args) (balance (session v)) a)
  ∧ (ta_amount args ≠ 0 → ta_amount args ≤ balance (session v) (ta_from args))
  ∧ eth_transfers_logger v' = eth_transfers_logger v.
Proof.
  intros Hu. unfold transfer_eth. case_decide as Hz.
  { intros [= <-]. rewrite Hz. split_and!; [|done|done]. intros a. unfold moved. repeat case_decide; lia. }
  intros [(s & v1 & Hs & Hr)|(e & _ & [=])]%cbind_Done.
  unfold cexec in Hs. destruct (serialize_args _) as [s'|] eqn:Hser; [|done]. injection Hs as -> ->.
  apply cbind_Done in Hr as [(fn & v2 & Hf & Hr)|(e & _ & [=])].
  unfold vm, cmap_err in Hf, Hr.
  destruct (load_function _ _ _ _) as [[[fn'|] v2']|] eqn:Hl; [|done|done]. injection Hf as -> ->.
  destruct (session_execute_entry_function _ _ _ _) as [[[[]|] v3]|] eqn:Hx; [|done|done].
  injection Hr as ->. rewrite U256_roundtrip in Hser by done.
  destruct (load_function_ledger _ _ _ _ _ _ Hl) as [Hb Hlog].
  destruct (transfer_ledger _ _ _ _ _ _ _ _ _ _ Hl Hser Hx) as (Hle & Hmv & Hlog').
  rewrite Hb in *. split_and!; [done|done|congruence].
Qed.

(** A list of movements of tokens, and its net effect on an account. *)
Definition net (ts : list EthTransfer) (a : AccountAddress) : Z :=
  zsum ((λ t, (if decide (a = tr_to t) then tr_amount t else 0)
            - (if decide (a = tr_from t) then tr_amount t else 0)) <$> ts).

Lemma net_app l1 l2 a : net (l1 ++ l2) a = net l1 a + net l2 a.
Proof. unfold net. by rewrite fmap_app, zsum_app. Qed.

Lemma cfor_transfers_ledger {A} (f : A → cmd Vm_ Error ()) (mv : A → EthTransfer) l v v' :
  (∀ x w w', x ∈ l → f x w = Done (Ok (), w') →
     (∀ a, balance (session w') a = balance (session w) a + net [mv x] a)
     ∧ eth_transfers_logger w' = eth_transfers_logger w) →
  cfor f l v = Done (Ok (), v') →
  (∀ a, balance (session v') a = balance (session v) a + net (mv <$> l) a)
  ∧ eth_transfers_logger v' = eth_transfers_logger v.
Proof.
  revert v. induction l as [|x l IH]; intros v Hf Hr.
  { injection Hr as <-. split; [|done]. intros a. unfold net, zsum. simpl. lia. }
  simpl in Hr. apply cbind_Done in Hr as [([] & v1 & Hx & Hr)|(e & _ & [=])].
  destruct (Hf x v v1) as [Hb Hl]; [set_solver|done|].
  destruct (IH v1) as [Hb' Hl']; [intros; apply Hf; set_solver|done|].
  split; [|congruence]. intros a. rewrite Hb', Hb. pose proof (net_app [mv x] (mv <$> l) a) as Hn.
  change ([mv x] ++ (mv <$> l)) with (mv <$> x :: l) in Hn. lia.
Qed.

Lemma moved_net from to amount b a :
  moved from to amount b a = b a + net [MkEthTransfer from to amount] a.
Proof. unfold moved, net, zsum. simpl. repeat case_decide; lia. Qed.

(** The movements a replay performs: the value of each EVM call goes back from
    the EVM account to its origin, then the EVM's own transfers follow. *)
Definition replayed (l : EthTransfersLogger) : list EthTransfer :=
  ((λ '(origin, value), MkEthTransfer EVM_NATIVE_ADDRESS origin value) <$> origins l)
  ++ transfers l.

Definition logger_typed (l : EthTransfersLogger) : Prop :=
  Forall (λ t, uint 256 (tr_amount t)) (replayed l).

(** C40 (functional): a successful replay changes every balance in Move by
    exactly the net amount of the logged EVM movements (the values returned to
    the callers and the transfers between accounts), and leaves the log empty,
    so nothing is replayed twice. *)
Theorem replicate_transfers_ledger g v v' :
  logger_typed (eth_transfers_logger v) →
  replicate_transfers g v = Done (Ok (), v') →
  (∀ a, balance (session v') a = balance (session v) a + net (replayed (eth_transfers_logger v)) a)
  ∧ eth_transfers_logger v' = MkLogger [] [].
Proof.
  intros [Ho Ht]%Forall_app. unfold replicate_transfers.
  intros [(os & v1 & Hos & Hr)|(e & _ & [=])]%cbind_Done. injection Hos as <- <-.
  apply cbind_Done in Hr as [([] & v2 & Hf & Hr)|(e & _ & [=])].
  apply cbind_Done in Hr as [(ts & v3 & Hts & Hr)|(e & _ & [=])]. injection Hts as <- <-.
  apply (cfor_transfers_ledger _ (λ '(origin, value), MkEthTransfer EVM_NATIVE_ADDRESS origin value))
    in Hf as [Hb1 Hl1].
  2:{ intros [o value] w w' Hin Hw. rewrite Forall_fmap, Forall_forall in Ho.
      specialize (Ho _ Hin). simpl in Ho. case_decide as Hz.
      - injection Hw as <-. split; [|done]. intros a. unfold net, zsum. simpl. repeat case_decide; lia.
      - apply transfer_eth_ledger in Hw as (Hb & _ & Hl); [|done]. split; [|done].
        intros a. rewrite Hb. apply moved_net. }
  apply (cfor_transfers_ledger _ id) in Hr as [Hb2 Hl2].
  2:{ intros t w w' Hin Hw. simpl in Hl1. rewrite Hl1 in Hin. simpl in Hin.
      rewrite Forall_forall in Ht. specialize (Ht _ Hin).
      apply transfer_eth_ledger in Hw as (Hb & _ & Hl); [|done]. split; [|done].
      intros a. rewrite Hb. simpl. rewrite moved_net. by destruct t. }
  simpl in *. rewrite Hl1 in *. simpl in *. split; [|done].
  intros a. rewrite Hb2, Hb1, list_fmap_id. unfold replayed. rewrite net_app. lia.
Qed.

End Ledger.
