(* ===== verification/ToyVm.v ===== *)
(** A small concrete VM for the witnesses: a session is the balances of the base
    token and the sequence numbers of the accounts, the token module moves
    balances, the account module keeps the sequence numbers, and nothing else
    can be loaded. *)
From S2P Require Import Prelude Primitives MoveTypes Errors Envelope Application MoveVm EthToken.
Import Envelope.Witness.

Local Open Scope Z_scope.

#[export] Existing Instance unit_errors.

Record ToySession := MkToy { toy_balance : AccountAddress → Z; toy_nonce : AccountAddress → option Z }.

#[export] Instance toy_types : VmTypes :=
  {| Session := ToySession; GasMeter := Z; BaseType := unit |}.

Definition set_session (s : ToySession) (v : Vm_) : Vm_ :=
  MkVm _ s (gas_meter v) (eth_transfers_logger v).

Definition toy_serialize (v : MoveValue) : option bytes :=
  match v with
  | VSigner a | VAddress a => Some a
  | VU64 z | VU256 z => Some [z]
  | _ => None
  end.

Definition toy_transfer (args : list bytes) : cmd Vm_ () () := λ v,
  match args with
  | [_; from; to; [amount]] =>
    let s := session v in
    if decide (amount ≤ toy_balance s from)
    then Done (Ok (), set_session (MkToy (moved from to amount (toy_balance s)) (toy_nonce s)) v)
    else Done (Err (), v)
  | _ => Done (Err (), v)
  end.

Definition toy_mint (args : list bytes) : cmd Vm_ () () := λ v,
  match args with
  | [_; to; [amount]] =>
    let s := session v in
    Done (Ok (), set_session (MkToy (λ a, toy_balance s a + (if decide (a = to) then amount else 0))
                                    (toy_nonce s)) v)
  | _ => Done (Err (), v)
  end.

(** No account is created at this address. *)
Definition toy_reserved (a : AccountAddress) : bool := bool_decide (a = replicate 32 0).

Definition toy_set_nonce (a : AccountAddress) (n : Z) (v : Vm_) : Vm_ :=
  set_session (MkToy (toy_balance (session v))
    (λ b, if decide (b = a) then Some n else toy_nonce (session v) b)) v.

Definition toy_account (f : string) (args : list bytes)
    : cmd Vm_ () (list (bytes * MoveTypeLayout)) := λ v,
  match args with
  | [a] =>
    let number := toy_nonce (session v) a in
    if decide (f = "get_sequence_number"%string) then
      match number with Some n => Done (Ok [([n], LU64)], v) | None => Done (Err (), v) end
    else if decide (f = "increment_sequence_number"%string) then
      match number with
      | Some n => if n <? umax 64 then Done (Ok [], toy_set_nonce a (n + 1) v) else Done (Err (), v)
      | None => Done (Err (), v)
      end
    else
      match number with
      | Some _ => Done (Ok [], v)
      | None => if toy_reserved a then Done (Err (), v) else Done (Ok [], toy_set_nonce a 0 v)
      end
  | _ => Done (Err (), v)
  end.

#[export] Instance toy_vm : MoveVm := {|
  simple_serialize := toy_serialize;
  deserialize_value := λ b l, match b, l with [z], LU64 => Some (VU64 z) | _, _ => None end;
  load_function := λ m f _ v,
    if decide (m = token_module_id ∧ f = "transfer"%string) then Done (Ok (MkLoaded _ 1 []), v)
    else if decide (m = token_module_id ∧ f = "mint"%string) then Done (Ok (MkLoaded _ 2 []), v)
    else Done (Err (), v);
  load_script := λ _ _, cfail (); get_type_tag := λ _, cfail ();
  get_type_layout_from_ty := λ _, cfail (); load_type := λ _, cfail ();
  resource_exists_at := λ _ _, cret false;
  execute_function_bypass_visibility := λ m f _ args _,
    if decide (module_name m = "account"%string) then toy_account f args else cfail ();
  session_execute_entry_function := λ fn args _,
    if decide (lf_id fn = 1) then toy_transfer args else toy_mint args;
  session_execute_script := λ _ _ _ _, cfail () |}.

#[export] Instance toy_ledger : EthLedger.
Proof.
  refine {| balance := toy_balance : Session → AccountAddress → Z;
            load_function_ledger := _; transfer_ledger := _; mint_ledger := _ |}.
  - intros m f tys v r v' Hl. simpl in Hl. repeat case_decide; by simplify_eq/=.
  - intros fn v0 v1 from to amount args g v v' Hl Hs Hx. injection Hl as <- <-.
    injection Hs as <-. cbn in Hx. case_decide as H1; [|by destruct H1].
    unfold toy_transfer in Hx. case_decide; by simplify_eq/=.
  - intros fn v0 v1 to amount args g v v' Hl Hs Hx. injection Hl as <- <-.
    injection Hs as <-. cbn in Hx. case_decide as H1; [done|].
    unfold toy_mint in Hx. by simplify_eq/=.
Defined.

(** A replay: a call worth 5 from account [1], of which 2 went on to [2]. *)
Definition toy_state : Vm_ :=
  MkVm _ (MkToy (λ a, if decide (a = EVM_NATIVE_ADDRESS) then 9 else 4) (λ _, Some 7)) 100
    (MkLogger [MkEthTransfer [1] [2] 2] [([1], 5)]).

Lemma replicate_transfers_ledger_witness :
  ∃ v', replicate_transfers Unmetered toy_state = Done (Ok (), v')
    ∧ (∀ a, balance (session v') a = balance (session toy_state) a
         + net (replayed (eth_transfers_logger toy_state)) a)
    ∧ eth_transfers_logger v' = MkLogger [] [].
Proof.
  eexists. split; [reflexivity|]. eapply (replicate_transfers_ledger Unmetered toy_state).
  - repeat constructor; done.
  - reflexivity.
Defined.

(** The toy VM with another value decoder. *)
Definition with_decoder (decode : bytes → MoveTypeLayout → option MoveValue) : MoveVm := {|
  simple_serialize := toy_serialize; deserialize_value := decode;
  load_function := load_function; load_script := load_script; get_type_tag := get_type_tag;
  get_type_layout_from_ty := get_type_layout_from_ty; load_type := load_type;
  resource_exists_at := resource_exists_at;
  execute_function_bypass_visibility := execute_function_bypass_visibility;
  session_execute_entry_function := session_execute_entry_function;
  session_execute_script := session_execute_script |}.
