(* ===== verification/Nonces.v ===== *)
(** Account nonces ([execution/src/nonces.rs]): the sequence numbers of the Move
    module [account], checked and incremented by every transaction.
    [AccountModule] is what the program relies on from the Move module. *)
From S2P Require Import Prelude Primitives MoveTypes Errors Envelope Application MoveVm EthToken ToyVm.

Local Open Scope Z_scope.

Section Nonces.
Context `{ErrorTypes, !VmTypes, !MoveVm}.
Local Open Scope cmd_scope.

(** Source: execution/src/nonces.rs 24 [ACCOUNT_MODULE_NAME] *)
Definition account_module_id : ModuleId := MkModuleId FRAMEWORK_ADDRESS "account".
(** Source: execution/src/nonces.rs 25 [CREATE_ACCOUNT_FUNCTION_NAME] *)
Definition CREATE_ACCOUNT_FUNCTION_NAME : string := "create_account_if_does_not_exist".
(** Source: execution/src/nonces.rs 26 [GET_NONCE_FUNCTION_NAME] *)
Definition GET_NONCE_FUNCTION_NAME : string := "get_sequence_number".
(** Source: execution/src/nonces.rs 27 [INCREMENT_NONCE_FUNCTION_NAME] *)
Definition INCREMENT_NONCE_FUNCTION_NAME : string := "increment_sequence_number".

(** Source: execution/src/nonces.rs 129-166 [get_account_nonce] *)
Definition get_account_nonce (addr_arg : bytes) (gas_meter : Metering) : cmd Vm_ Error Z :=
  let! return_values := cmap_err (λ _, nonce_invariant_violation GetNonceAlwaysSucceeds)
    (execute_function_bypass_visibility account_module_id GET_NONCE_FUNCTION_NAME [] [addr_arg]
       gas_meter) in
  let! (raw_output, layout) := clift (ok_or (head return_values)
    (nonce_invariant_violation GetNonceReturnsAValue)) in
  let! value := clift (ok_or (deserialize_value raw_output layout)
    (nonce_invariant_violation GetNoneReturnDeserializes)) in
  match value with
  | VU64 nonce => cret nonce
  | _ => cfail (nonce_invariant_violation GetNonceReturnsU64)
  end.

(** Source: execution/src/nonces.rs 81-87 [check_nonce] *)
Definition account_error (otherwise : NonceChecking) (e : VMError) : Error :=
  if is_out_of_gas e then InvalidTransaction InsufficientIntrinsicGas
  else nonce_invariant_violation otherwise.

(** Source: execution/src/nonces.rs 60-127 [check_nonce] *)
Definition check_nonce (tx_nonce : Z) (signer : AccountAddress) (gas_meter : Metering)
    : cmd Vm_ Error () :=
  let! addr_arg := cexec (expect (simple_serialize (VAddress signer))) in
  cmap_err (account_error AnyAccountCanBeCreated)
    (execute_function_bypass_visibility account_module_id CREATE_ACCOUNT_FUNCTION_NAME [] [addr_arg]
       gas_meter) ;;!
  let! account_nonce := get_account_nonce addr_arg gas_meter in
  if negb (tx_nonce =? account_nonce)
  then cfail (from_cause (IncorrectNonce account_nonce tx_nonce)) else
  if account_nonce =? umax 64 then cfail (from_cause ExhaustedAccount) else
  cmap_err (account_error IncrementNonceAlwaysSucceeds)
    (execute_function_bypass_visibility account_module_id INCREMENT_NONCE_FUNCTION_NAME []
       [addr_arg] gas_meter) ;;!
  cret ().

End Nonces.

(** What the account module does without a gas limit, in a session in which the
    framework is published.  Creating an account where there is one changes
    nothing; elsewhere the new account starts at zero, but at the addresses the
    framework reserves the module aborts.  The number of an account is read, and
    incremented unless it is the last one; numbers of other accounts stay. *)
Class AccountModule `{ErrorTypes, VmTypes, !MoveVm} := {
  has_framework : Session → Prop;
  sequence_number : Session → AccountAddress → option Z;
  reserved : AccountAddress → bool;
  address_arg a : ∃ arg, simple_serialize (VAddress a) = Some arg;
  create_account a arg v : has_framework (session v) → simple_serialize (VAddress a) = Some arg →
    ∃ r v', execute_function_bypass_visibility account_module_id CREATE_ACCOUNT_FUNCTION_NAME []
              [arg] Unmetered v = Done (r, v')
      ∧ has_framework (session v')
      ∧ match sequence_number (session v) a, reserved a with
        | None, true => (∃ e, r = Err e ∧ is_out_of_gas e = false)
            ∧ ∀ b, sequence_number (session v') b = sequence_number (session v) b
        | None, false => is_ok r = true
            ∧ ∀ b, sequence_number (session v') b =
                if decide (b = a) then Some 0 else sequence_number (session v) b
        | Some _, _ => is_ok r = true
            ∧ ∀ b, sequence_number (session v') b = sequence_number (session v) b
        end;
  get_sequence_number a arg n v : has_framework (session v) → simple_serialize (VAddress a) = Some arg →
    sequence_number (session v) a = Some n →
    ∃ raw layout v', execute_function_bypass_visibility account_module_id GET_NONCE_FUNCTION_NAME []
              [arg] Unmetered v = Done (Ok [(raw, layout)], v')
      ∧ has_framework (session v') ∧ deserialize_value raw layout = Some (VU64 n)
      ∧ ∀ b, sequence_number (session v') b = sequence_number (session v) b;
  increment_sequence_number a arg n v :
    has_framework (session v) → simple_serialize (VAddress a) = Some arg →
    sequence_number (session v) a = Some n → n < umax 64 →
    ∃ r v', execute_function_bypass_visibility account_module_id INCREMENT_NONCE_FUNCTION_NAME []
              [arg] Unmetered v = Done (Ok r, v')
      ∧ has_framework (session v')
      ∧ ∀ b, sequence_number (session v') b =
          if decide (b = a) then Some (n + 1) else sequence_number (session v) b;
}.

Section NonceSpec.
Context `{ErrorTypes, !VmTypes, !MoveVm, !AccountModule}.

(** The nonce an account is expected to use next. *)
Definition expected_nonce (s : Session) (a : AccountAddress) : Z := default 0 (sequence_number s a).

(** What the check of a nonce answers. *)
Definition nonce_answer (s : Session) (signer : AccountAddress) (tx_nonce : Z) : result Error () :=
  let n := expected_nonce s signer in
  if decide (sequence_number s signer = None ∧ reserved signer = true)
  then Err (nonce_invariant_violation AnyAccountCanBeCreated)
  else if decide (tx_nonce ≠ n) then Err (from_cause (IncorrectNonce n tx_nonce))
  else if decide (n = umax 64) then Err (from_cause ExhaustedAccount)
  else Ok ().

(** The checks in order. *)
Lemma check_nonce_spec tx_nonce signer v : has_framework (session v) → uint 64 tx_nonce →
  let r := nonce_answer (session v) signer tx_nonce in
  ∃ v', check_nonce tx_nonce signer Unmetered v = Done (r, v') ∧ has_framework (session v')
    ∧ (∀ b, b ≠ signer → sequence_number (session v') b = sequence_number (session v) b)
    ∧ (r = Ok () → sequence_number (session v') signer = Some (tx_nonce + 1))
    ∧ (r ≠ Ok () → expected_nonce (session v') signer = expected_nonce (session v) signer).
Proof.
  intros Hf Hu r. destruct (address_arg signer) as [arg Harg].
  destruct (create_account signer arg v Hf Harg) as (r1 & v1 & E1 & F1 & S1).
  subst r. unfold nonce_answer, expected_nonce.
  unfold check_nonce, get_account_nonce, cbind, cexec, cmap_err, clift, cret. rewrite Harg. simpl. rewrite E1.
  destruct (decide (sequence_number (session v) signer = None ∧ reserved signer = true)) as [[Hn Hr]|Hc].
  { rewrite Hn, Hr in S1. destruct S1 as [(e & -> & He) S1]. simpl. unfold account_error. rewrite He.
    exists v1. split_and!; try done. by rewrite S1. }
  assert (∃ n, n = default 0 (sequence_number (session v) signer) ∧ sequence_number (session v1) signer = Some n
    ∧ (∀ b, b ≠ signer → sequence_number (session v1) b = sequence_number (session v) b)
    ∧ is_ok r1 = true) as (n & <- & Hs & Ho & Hr1).
  { destruct (sequence_number (session v) signer) as [n|] eqn:Hn.
    - destruct S1 as [K1 S1]. exists n. split_and!; [done|by rewrite S1, Hn|by intros b _|done].
    - destruct (reserved signer) eqn:Hr; [by destruct Hc|]. destruct S1 as [K1 S1]. exists 0.
      split_and!; [done|by rewrite S1, decide_True|intros b Hb; by rewrite S1, decide_False|done]. }
  destruct r1 as [r1|]; [|done]. simpl.
  destruct (get_sequence_number signer arg n v1 F1 Harg Hs) as (raw & layout & v2 & E2 & F2 & Hd & S2).
  rewrite E2. simpl. rewrite Hd. simpl.
  destruct (Z.eqb_spec tx_nonce n) as [->|Hne]; simpl.
  2:{ rewrite decide_True by done. exists v2. split_and!; try done; [intros b Hb; by rewrite S2, Ho|by rewrite S2, Hs]. }
  rewrite decide_False by (intros Hx; by apply Hx). destruct (Z.eqb_spec n (umax 64)) as [Hm|Hm].
  { rewrite decide_True by done. exists v2. split_and!; try done; [intros b Hb; by rewrite S2, Ho|by rewrite S2, Hs]. }
  rewrite decide_False by done.
  destruct (increment_sequence_number signer arg n v2 F2 Harg) as (r3 & v3 & E3 & F3 & S3);
    [by rewrite S2|unfold uint, umax in *; lia|].
  rewrite E3. simpl. exists v3. split_and!; try done.
  - intros b Hb. by rewrite S3, decide_False, S2, Ho.
  - by rewrite S3, decide_True.
Qed.

(** C8 (safety): the nonce check of a transaction answers, without a gas limit and
    in any session with the framework: it accepts exactly when the nonce is the
    one expected of the sender (zero where there is no account yet) and is not the
    last one; it refuses another nonce with the one expected, and the last one as
    exhausted; the one invariant it can fail is that an account can be created,
    and only for a sender at an address the framework reserves that has no
    account.  Accepting a transaction adds one to the sender's nonce, refusing it
    changes none, and no other sender's nonce changes in either case; so a
    transaction that was accepted is refused when it is replayed. *)
Theorem check_nonce_no_replay tx_nonce signer v : has_framework (session v) → uint 64 tx_nonce →
  let n := expected_nonce (session v) signer in
  let creatable := ¬ (sequence_number (session v) signer = None ∧ reserved signer = true) in
  ∃ r v', check_nonce tx_nonce signer Unmetered v = Done (r, v')
    ∧ (r = Ok () ↔ creatable ∧ tx_nonce = n ∧ tx_nonce ≠ umax 64)
    ∧ (creatable → tx_nonce ≠ n → r = Err (from_cause (IncorrectNonce n tx_nonce)))
    ∧ (creatable → tx_nonce = n → tx_nonce = umax 64 → r = Err (from_cause ExhaustedAccount))
    ∧ (¬ creatable → r = Err (nonce_invariant_violation AnyAccountCanBeCreated))
    ∧ (∀ b, b ≠ signer → sequence_number (session v') b = sequence_number (session v) b)
    ∧ (r ≠ Ok () → expected_nonce (session v') signer = n)
    ∧ (r = Ok () → sequence_number (session v') signer = Some (tx_nonce + 1)
        ∧ ∃ v'', check_nonce tx_nonce signer Unmetered v' =
            Done (Err (from_cause (IncorrectNonce (tx_nonce + 1) tx_nonce)), v'')).
Proof.
  intros Hf Hu n creatable.
  destruct (check_nonce_spec tx_nonce signer v Hf Hu) as (v1 & Hc & F1 & Ho & Hok & Herr).
  exists (nonce_answer (session v) signer tx_nonce), v1. split; [done|].
  assert (nonce_answer (session v) signer tx_nonce = Ok () → sequence_number (session v1) signer = Some (tx_nonce + 1)
    ∧ ∃ v'', check_nonce tx_nonce signer Unmetered v1 =
        Done (Err (from_cause (IncorrectNonce (tx_nonce + 1) tx_nonce)), v'')) as Hre.
  { intros Hr. specialize (Hok Hr). split; [done|].
    destruct (check_nonce_spec tx_nonce signer v1 F1 Hu) as (v2 & Hc' & _). exists v2. rewrite Hc'.
    unfold nonce_answer, expected_nonce. rewrite Hok, decide_False by (by intros [[=] _]). simpl.
    by rewrite decide_True by lia. }
  fold n in Herr. clear Hc. unfold nonce_answer in *. fold n in Hok, Herr, Hre |- *.
  subst creatable. repeat case_decide; split_and!; try done; naive_solver.
Qed.

End NonceSpec.

(** The toy VM's account module, and checks that pass, are refused, meet a new
    account and a reserved address. *)
#[export] Instance toy_accounts : AccountModule.
Proof.
  refine {| has_framework := λ _, True; sequence_number := toy_nonce : Session → AccountAddress → option Z;
            reserved := toy_reserved; address_arg := _;
            create_account := _; get_sequence_number := _; increment_sequence_number := _ |}.
  - intros a. by exists a.
  - intros a arg v _ [= <-]. cbn. unfold toy_account. simpl.
    destruct (toy_nonce (session v) a) as [n|] eqn:Hn; [by do 2 eexists|].
    destruct (toy_reserved a); do 2 eexists; (split; [done|]); split_and!; eauto.
  - intros a arg n v _ [= <-] Hn. cbn. unfold toy_account. simpl. cbn in Hn. rewrite Hn. by do 3 eexists.
  - intros a arg n v _ [= <-] Hn Hl. cbn. unfold toy_account. simpl. cbn in Hn. rewrite Hn.
    rewrite (proj2 (Z.ltb_lt n (umax 64))) by done. by do 2 eexists.
Defined.

Lemma check_nonce_no_replay_witness :
  ∃ r v', check_nonce 7 [1] Unmetered toy_state = Done (r, v') ∧ r = Ok ()
    ∧ sequence_number (session v') [1] = Some (7 + 1)
    ∧ ∃ v'', check_nonce 7 [1] Unmetered v' = Done (Err (from_cause (IncorrectNonce (7 + 1) 7)), v'').
Proof.
  destruct (check_nonce_no_replay 7 [1] toy_state) as (r & v' & Hc & [_ Hr] & _ & _ & _ & _ & _ & Hok);
    [done|done|].
  assert (r = Ok ()) as -> by (apply Hr; split; [by intros [[=] _]|done]).
  exists (Ok ()), v'. split; [exact Hc|]. split; [done|]. by apply Hok.
Defined.

Example nonces_answered :
  let fresh := MkVm _ (MkToy (λ _, 0) (λ _, None)) 0 (MkLogger [] []) in
  (check_nonce 3 [1] Unmetered toy_state ≫= λ x, Done x.1) = Done (Err (from_cause (IncorrectNonce 7 3)))
  ∧ (check_nonce 0 [1] Unmetered fresh ≫= λ x, Done x.1) = Done (Ok ())
  ∧ (check_nonce 0 (replicate 32 0) Unmetered fresh ≫= λ x, Done x.1)
    = Done (Err (nonce_invariant_violation AnyAccountCanBeCreated)).
Proof. vm_compute. done. Qed.
