(* ===== verification/TagValidation.v ===== *)
(** The arguments of entry functions ([execution/src/tag_validation.rs] and
    [execution/src/layout.rs]): which types may be passed, and which values of
    those types. *)
From S2P Require Import Prelude Primitives MoveTypes Errors Envelope Application MoveVm.

Local Open Scope Z_scope.

(** Source: execution/src/tag_validation.rs 301-306 [MoveStructInfo] *)
Record MoveStructInfo := MkStructInfo {
  info_address : AccountAddress; info_module : string; info_name : string }.

#[export] Instance MoveStructInfo_eqdec : EqDecision MoveStructInfo.
Proof. solve_decision. Defined.

(** Source: execution/src/tag_validation.rs 308-316 [MoveStructInfo::from_tag] *)
Definition info_from_tag (tag : StructTag) : MoveStructInfo :=
  MkStructInfo (tag_address tag) (tag_module tag) (tag_name tag).

(** Source: execution/src/tag_validation.rs 15-41 [ALLOWED_STRUCTS] *)
Definition ALLOWED_STRUCTS : list MoveStructInfo :=
  [MkStructInfo address_one "string" "String";
   MkStructInfo address_one "object" "Object";
   MkStructInfo address_one "option" "Option";
   MkStructInfo address_one "fixed_point32" "FixedPoint32";
   MkStructInfo address_one "fixed_point64" "FixedPoint64"].

(** [ALLOWED_STRUCTS[i].name] *)
Definition allowed_name (i : nat) : string :=
  match ALLOWED_STRUCTS !! i with Some info => info_name info | None => "" end.

(** [String::from_utf8]: well-formed UTF-8. *)
Definition in_range (lo hi b : Z) : bool := (lo <=? b) && (b <=? hi).
Fixpoint utf8_valid (l : bytes) : bool :=
  match l with
  | [] => true
  | a :: l1 =>
    if in_range 0 0x7f a then utf8_valid l1 else
    match l1 with
    | [] => false
    | b :: l2 =>
      if in_range 0xc2 0xdf a then in_range 0x80 0xbf b && utf8_valid l2 else
      match l2 with
      | [] => false
      | c :: l3 =>
        let second3 :=
          if a =? 0xe0 then in_range 0xa0 0xbf b
          else if a =? 0xed then in_range 0x80 0x9f b
          else in_range 0x80 0xbf b in
        if in_range 0xe0 0xef a then second3 && in_range 0x80 0xbf c && utf8_valid l3 else
        match l3 with
        | [] => false
        | d :: l4 =>
          let second4 :=
            if a =? 0xf0 then in_range 0x90 0xbf b
            else if a =? 0xf4 then in_range 0x80 0x8f b
            else in_range 0x80 0xbf b in
          if in_range 0xf0 0xf4 a
          then second4 && in_range 0x80 0xbf c && in_range 0x80 0xbf d && utf8_valid l4
          else false
        end
      end
    end
  end.

(** Source: execution/src/layout.rs 11-25 [has_value_invariants] *)
Fixpoint has_value_invariants (layout : MoveTypeLayout) : bool :=
  match layout with
  | LSigner => true
  | LVector layout => has_value_invariants layout
  | LStruct _ => true
  | LNative layout => has_value_invariants layout
  | _ => false
  end.

Section Validation.
Context `{ErrorTypes}.

(** The loop of [validate_entry_type_tag], [tag] being the argument's own tag.
    Source: execution/src/tag_validation.rs 49-100 [validate_entry_type_tag] *)
Fixpoint validate_tag_loop (tag current_tag : TypeTag) : exec (result Error ()) :=
  match current_tag with
  | TVector inner => validate_tag_loop tag inner
  | TStruct (MkStructTag a m n type_args) =>
    let info := MkStructInfo a m n in
    if decide (info ∈ ALLOWED_STRUCTS) then
      match type_args with
      | [] => Done (Ok ())
      | [inner_type] =>
        if decide (info_name info = allowed_name 2) then validate_tag_loop tag inner_type
        else Done (Ok ())
      | _ => Panic
      end
    else Done (Err (InvalidTransaction (DisallowedEntryFunctionType tag)))
  | _ => Done (Ok ())
  end.

(** Source: execution/src/tag_validation.rs 48-101 [validate_entry_type_tag] *)
Definition validate_entry_type_tag (tag : TypeTag) : exec (result Error ()) :=
  validate_tag_loop tag tag.

(** Source: execution/src/tag_validation.rs 181-213 [validate_string] *)
Definition validate_string (fields : list MoveValue) : result Error () :=
  inner ← ok_or (head fields) (entry_fn_invariant_violation StringStructHasField);
  match inner with
  | VVector array =>
    let fix collect (l : list MoveValue) : result Error bytes :=
      match l with
      | [] => Ok []
      | VU8 b :: l => bs ← collect l; Ok (b :: bs)
      | _ :: _ => Err (entry_fn_invariant_violation StringElementsAreU8)
      end in
    bytes ← collect array;
    if utf8_valid bytes then Ok () else Err (from_cause InvalidString)
  | _ => Err (entry_fn_invariant_violation StringStructFieldIsVector)
  end.

(** Source: execution/src/tag_validation.rs 216-236 [validate_option] *)
Definition validate_option (fields : list MoveValue) : result Error (option MoveValue) :=
  inner ← ok_or (head fields) (entry_fn_invariant_violation OptionStructHasField);
  match inner with
  | VVector [] => Ok None
  | VVector [inner] => Ok (Some inner)
  | VVector _ => Err (from_cause InvalidOption)
  | _ => Err (entry_fn_invariant_violation OptionStructFieldIsVector)
  end.

Context `{!VmTypes, !MoveVm}.
Local Open Scope cmd_scope.

(** Source: execution/src/tag_validation.rs 272-283 [resource_exists] *)
Definition resource_exists (addr : AccountAddress) (ty : RuntimeType BaseType) : cmd Vm_ Error bool :=
  let! r := ctry (resource_exists_at addr ty) in
  cret (match r with Ok b => b | Err _ => false end).

(** Source: execution/src/tag_validation.rs 285-299 [get_object_core_type] *)
Definition get_object_core_type : cmd Vm_ Error (RuntimeType BaseType) :=
  let type_tag := TStruct (MkStructTag address_one "object" "ObjectCore" []) in
  cmap_err (λ _, entry_fn_invariant_violation ObjectCoreTypeExists) (load_type type_tag).

(** Source: execution/src/tag_validation.rs 240-270 [validate_object] *)
Definition validate_object (fields : list MoveValue) (inner_type : TypeTag) : cmd Vm_ Error () :=
  let! inner := clift (ok_or (head fields) (entry_fn_invariant_violation ObjectStructHasField)) in
  match inner with
  | VAddress addr =>
    let! object_core := get_object_core_type in
    let! core_exists := resource_exists addr object_core in
    if negb core_exists then cfail (from_cause InvalidObject) else
    let! inner_type := cmap_err (λ _, entry_fn_invariant_violation ObjectInnerTypeExists)
                         (load_type inner_type) in
    let! inner_exists := resource_exists addr inner_type in
    if negb inner_exists then cfail (from_cause InvalidObject) else
    cret ()
  | _ => cfail (entry_fn_invariant_violation ObjectStructFieldIsAddress)
  end.

Context (expected_signer : AccountAddress).

(** One turn of the loop: check a tagged value, and the tagged values it pushes
    on the stack, in the order they are pushed.
    Source: execution/src/tag_validation.rs 117-174 [validate_entry_value] *)
Definition entry_value_step (tag : TypeTag) (value : MoveValue)
    : cmd Vm_ Error (list (TypeTag * MoveValue)) :=
  match tag, value with
  | TSigner, VSigner given_signer =>
    if decide (given_signer = expected_signer) then cret []
    else cfail (from_cause InvalidSigner)
  | TVector inner_tag, VVector array => cret ((λ elem, (inner_tag, elem)) <$> array)
  | TStruct struct_tag, VStruct _ fields =>
    let name := info_name (info_from_tag struct_tag) in
    if decide (name = allowed_name 0) then clift (validate_string fields) ;;! cret []
    else if decide (name = allowed_name 1) then
      let! inner_type := clift (ok_or (head (tag_type_args struct_tag))
                           (entry_fn_invariant_violation ObjectStructHasTypeParameter)) in
      validate_object fields inner_type ;;! cret []
    else if decide (name = allowed_name 2) then
      let! inner := clift (validate_option fields) in
      match inner with
      | Some inner_value =>
        let! inner_tag := clift (ok_or (head (tag_type_args struct_tag))
                            (entry_fn_invariant_violation OptionHasInnerType)) in
        cret [(inner_tag, inner_value)]
      | None => cret []
      end
    else if decide (name = allowed_name 3 ∨ name = allowed_name 4) then cret []
    else cfail (entry_fn_invariant_violation OnlyAllowedStructs)
  | _, _ => cret []
  end.

(** The loop over the stack, its top first.
    Source: execution/src/tag_validation.rs 113-177 [validate_entry_value] *)
Fixpoint validate_stack (fuel : nat) (stack : list (TypeTag * MoveValue)) : cmd Vm_ Error () :=
  match fuel, stack with
  | _, [] => cret ()
  | O, _ => cpanic
  | S fuel, (tag, value) :: stack =>
    let! pushed := entry_value_step tag value in
    validate_stack fuel (rev pushed ++ stack)
  end.

(** The number of values in a value: the fuel the loop needs. *)
Fixpoint value_size (v : MoveValue) : nat :=
  match v with
  | VVector l => S (sum_list_with value_size l)
  | VStruct _ l => S (sum_list_with value_size l)
  | _ => 1
  end.

(** Source: execution/src/tag_validation.rs 106-178 [validate_entry_value] *)
Definition validate_entry_value (tag : TypeTag) (value : MoveValue) : cmd Vm_ Error () :=
  validate_stack (value_size value) [(tag, value)].

(** ** The loop is the recursive check *)

(** The same check by recursion on the value, without stack or fuel; the
    elements of a vector are visited from the last to the first. *)
Fixpoint check (value : MoveValue) (tag : TypeTag) : cmd Vm_ Error () :=
  match tag, value with
  | TVector inner_tag, VVector array =>
    (fix go l := match l with
     | [] => cret ()
     | x :: l => go l ;;! check x inner_tag
     end) array
  | TStruct struct_tag, VStruct _ (VVector [inner] :: _) =>
    if decide (tag_name struct_tag = allowed_name 2) then
      let! inner_tag := clift (ok_or (head (tag_type_args struct_tag))
                          (entry_fn_invariant_violation OptionHasInnerType)) in
      check inner inner_tag
    else entry_value_step tag value ;;! cret ()
  | _, _ => entry_value_step tag value ;;! cret ()
  end.

Fixpoint check_stack (stack : list (TypeTag * MoveValue)) : cmd Vm_ Error () :=
  match stack with
  | [] => cret ()
  | (tag, value) :: stack => check value tag ;;! check_stack stack
  end.

Lemma check_stack_app st1 st2 s :
  check_stack (st1 ++ st2) s = (check_stack st1 ;;! check_stack st2) s.
Proof.
  revert s. induction st1 as [|[t v] st1 IH]; intros s; [done|]. simpl. unfold cbind.
  destruct (check v t s) as [[[[]|e] s']|]; [apply IH|done|done].
Qed.

Lemma check_vector t array s :
  check (VVector array) (TVector t) s = check_stack (rev ((λ x, (t, x)) <$> array)) s.
Proof.
  revert s. induction array as [|x array IH]; intros s; [done|].
  rewrite fmap_cons. simpl rev. rewrite check_stack_app. simpl.
  simpl in IH. unfold cbind, cret in *. rewrite IH.
  destruct (check_stack _ s) as [[[[]|e] s']|]; [|done|done]. by destruct (check x t s') as [[[[]|e] s'']|].
Qed.

Lemma validate_option_Some fields inner :
  validate_option fields = Ok (Some inner) → ∃ rest, fields = VVector [inner] :: rest.
Proof.
  unfold validate_option. destruct fields as [|[| | | | | | | | |[|x [|]]|] rest];
    simpl; try done. intros [= ->]. eauto.
Qed.

(** Only vectors and non-empty options push anything. *)
Lemma step_pushes tag value s l s' :
  entry_value_step tag value s = Done (Ok l, s') →
  l = [] ∨ (∃ t array, tag = TVector t ∧ value = VVector array)
  ∨ (∃ st variant inner rest, tag = TStruct st ∧ value = VStruct variant (VVector [inner] :: rest)
      ∧ tag_name st = allowed_name 2).
Proof.
  destruct tag as [| | | | | | | | |t|st]; try (intros Hs; destruct value; injection Hs as <- <-; by left).
  - destruct value; try (intros [= <- <-]; by left). simpl.
    case_decide; intros Hs; unfold cret, cfail in Hs; simplify_eq; by left.
  - destruct value; intros Hs; unfold entry_value_step, cret in Hs; simplify_eq; eauto 10.
  - destruct value as [| | | | | | | | | |variant fields]; try (intros [= <- <-]; by left).
    cbn [entry_value_step info_from_tag info_name].
    repeat case_decide; intros Hs; try (injection Hs as <- <-; by left);
      try (unfold cfail in Hs; discriminate Hs);
      apply cbind_Done in Hs as [(a & s1 & Ha & Hs)|(e & _ & [=])].
    + injection Hs as <- <-. by left.
    + apply cbind_Done in Hs as [(b & s2 & _ & [= <- <-])|(e & _ & [=])]. by left.
    + injection Ha as Ho _. destruct a as [inner|]; [|injection Hs as <- <-; by left].
      apply validate_option_Some in Ho as (rest & ->). right. right. eauto 10.
Qed.

Lemma check_other tag value s :
  (∀ l s', entry_value_step tag value s = Done (Ok l, s') → l = []) →
  (entry_value_step tag value ;;! cret ()) s =
  (let! pushed := entry_value_step tag value in check_stack (rev pushed)) s.
Proof.
  intros Hl. unfold cbind. destruct (entry_value_step tag value s) as [[[l|e] s']|]; [|done|done].
  by rewrite (Hl l s').
Qed.

Lemma check_unfold tag value s :
  check value tag s =
  (let! pushed := entry_value_step tag value in check_stack (rev pushed)) s.
Proof.
  assert (∀ t v, check v t s = (entry_value_step t v ;;! cret ()) s →
    (∀ t' array, t = TVector t' → v = VVector array → False) →
    (∀ st variant inner rest, t = TStruct st → v = VStruct variant (VVector [inner] :: rest) →
       tag_name st = allowed_name 2 → False) →
    check v t s = (let! pushed := entry_value_step t v in check_stack (rev pushed)) s) as Hother.
  { intros t v Heq Hv Ho. rewrite Heq. apply check_other. intros l s' Hs.
    destruct (step_pushes _ _ _ _ _ Hs) as [?|[(?&?&?&?)|(?&?&?&?&?&?&?)]];
      [done|exfalso; by eapply Hv|exfalso; by eapply Ho]. }
  destruct tag as [| | | | | | | | |t|st]; try (apply Hother; [by destruct value|done|done]).
  - destruct value; try (by apply Hother). apply check_vector.
  - destruct value as [| | | | | | | | | |variant [|[| | | | | | | | |[|x [|y l]]|] rest]];
      try (by apply Hother).
    destruct (decide (tag_name st = allowed_name 2)) as [Hn|Hn].
    + cbn [check entry_value_step info_from_tag info_name]. rewrite Hn, decide_True by done.
      rewrite !decide_False by done. rewrite decide_True by done. simpl.
      unfold cbind, clift. simpl. destruct (ok_or _ _); [|done]. simpl.
      unfold cbind, cret. by destruct (check x a s) as [[[[]|] ?]|].
    + apply Hother; [|done|]; [|naive_solver].
      cbn [check]. by rewrite decide_False by done.
Qed.

Lemma value_size_pos v : (1 ≤ value_size v)%nat.
Proof. destruct v; simpl; lia. Qed.

Definition stack_size (stack : list (TypeTag * MoveValue)) : nat :=
  sum_list_with (λ t, value_size t.2) stack.

Lemma stack_size_app st1 st2 : stack_size (st1 ++ st2) = (stack_size st1 + stack_size st2)%nat.
Proof. apply sum_list_with_app. Qed.

Lemma stack_size_rev st : stack_size (rev st) = stack_size st.
Proof.
  induction st as [|x st IH]; [done|]. simpl rev. rewrite stack_size_app, IH.
  unfold stack_size. simpl. lia.
Qed.

Lemma stack_size_vector t array :
  stack_size ((λ x, (t, x)) <$> array) = sum_list_with value_size array.
Proof.
  unfold stack_size. induction array as [|x array IH]; [done|].
  rewrite fmap_cons. cbn [sum_list_with snd]. by rewrite IH.
Qed.

(** A turn replaces a value by smaller ones. *)
Lemma step_size tag value s l s' :
  entry_value_step tag value s = Done (Ok l, s') → (stack_size l < value_size value)%nat.
Proof.
  intros Hs. destruct (step_pushes _ _ _ _ _ Hs) as [->|[(t & array & -> & ->)|Ho]].
  - apply value_size_pos.
  - injection Hs as <- _. rewrite stack_size_vector. simpl. lia.
  - destruct Ho as (st & variant & inner & rest & -> & -> & Hn).
    cbn [entry_value_step info_from_tag info_name] in Hs. rewrite Hn in Hs.
    rewrite !decide_False in Hs by done. rewrite decide_True in Hs by done.
    apply cbind_Done in Hs as [(a & s1 & Ha & Hs)|(e & _ & [=])].
    injection Ha as <- ->. apply cbind_Done in Hs as [(t & s2 & _ & Hs)|(e & _ & [=])].
    injection Hs as <- _. unfold stack_size. simpl. lia.
Qed.

Lemma validate_stack_check fuel stack s :
  (stack_size stack ≤ fuel)%nat → validate_stack fuel stack s = check_stack stack s.
Proof.
  revert stack s. induction fuel as [|fuel IH]; intros [|[t v] stack] s Hf; try done.
  - unfold stack_size in Hf. simpl in Hf. pose proof (value_size_pos v). lia.
  - simpl. unfold cbind at 2. rewrite check_unfold. unfold cbind.
    destruct (entry_value_step t v s) as [[[l|e] s']|] eqn:Hs; [|done|done].
    apply step_size in Hs. rewrite IH, check_stack_app; [done|].
    rewrite stack_size_app, stack_size_rev. unfold stack_size in *. simpl in Hf. lia.
Qed.

(** The loop as the code has it, without fuel: a turn takes the top of the stack
    and pushes what is to be checked of it. *)
Inductive loop_step : list (TypeTag * MoveValue) * Vm_ → list (TypeTag * MoveValue) * Vm_ → Prop :=
| loop_turn tag value stack s pushed s' : entry_value_step tag value s = Done (Ok pushed, s') →
    loop_step ((tag, value) :: stack, s) (rev pushed ++ stack, s').

Lemma loop_step_size x y : loop_step x y → (stack_size y.1 < stack_size x.1)%nat.
Proof.
  intros [tag value stack s pushed s' Hs]. apply step_size in Hs. cbn [fst].
  rewrite stack_size_app, stack_size_rev. unfold stack_size in *. simpl. lia.
Qed.

Lemma loop_turns n x y : nsteps loop_step n x y → (n + stack_size y.1 ≤ stack_size x.1)%nat.
Proof. induction 1 as [|n x y z Hs _ IH]; [lia|]. apply loop_step_size in Hs. lia. Qed.

(** The loop with enough fuel succeeds exactly when the turns empty the stack. *)
Lemma validate_stack_run fuel : ∀ stack s s', (stack_size stack ≤ fuel)%nat →
  validate_stack fuel stack s = Done (Ok (), s') ↔ rtc loop_step (stack, s) ([], s').
Proof.
  induction fuel as [|fuel IH]; intros [|[t v] stack] s s' Hf.
  1,3: split; [by intros [= ->]|]; intros Hr; apply rtc_inv in Hr as [[= ->]|(y & Hy & _)]; [done|inversion Hy].
  { unfold stack_size in Hf. simpl in Hf. pose proof (value_size_pos v). lia. }
  simpl. unfold cbind. split.
  - destruct (entry_value_step t v s) as [[[l|e] s1]|] eqn:Hs; try done. intros Hv.
    pose proof (loop_turn t v stack s l s1 Hs) as Hturn. econstructor; [exact Hturn|].
    apply loop_step_size in Hturn. simpl in Hturn. apply IH; [|done]. unfold stack_size in *. simpl in *. lia.
  - intros Hr. apply rtc_inv in Hr as [[=]|(y & Hy & Hr)].
    pose proof (loop_step_size _ _ Hy) as Hsz. inversion Hy as [? ? ? ? pushed s1 Hs]; subst. rewrite Hs.
    apply IH; [|done]. unfold stack_size in *. simpl in *. lia.
Qed.

(** C26 (termination): the loop that validates an argument terminates.  From any
    stack and session no run of its turns is infinite, and none takes more turns
    than there are values on the stack; the fuel of the model is enough, more
    changes nothing, and the loop succeeds exactly when the turns of the code,
    which have no fuel, empty the stack. *)
Theorem validation_terminates stack s :
  Acc (λ y x, loop_step x y) (stack, s)
  ∧ (∀ n y, nsteps loop_step n (stack, s) y → (n ≤ stack_size stack)%nat)
  ∧ (∀ fuel, (stack_size stack ≤ fuel)%nat →
      validate_stack fuel stack s = validate_stack (stack_size stack) stack s)
  ∧ ∀ s', validate_stack (stack_size stack) stack s = Done (Ok (), s') ↔ rtc loop_step (stack, s) ([], s').
Proof.
  split; [|split; [|split]].
  - remember (stack_size stack) as n eqn:Hn. revert stack s Hn.
    induction n as [n IH] using lt_wf_ind. intros stack s ->. constructor. intros [stack' s'] Hs.
    apply loop_step_size in Hs. by eapply IH.
  - intros n y Hs. apply loop_turns in Hs. simpl in Hs. lia.
  - intros fuel Hf. by rewrite !validate_stack_check.
  - intros s'. by apply validate_stack_run.
Qed.

(** C25 (equivalence): the explicit-stack loop that validates an argument never
    runs out of the fuel it starts with and is the structural recursion over
    the value: the same result, the same error on failure and the same effect
    on the VM session. *)
Theorem validate_entry_value_check tag value s :
  validate_entry_value tag value s = check value tag s.
Proof.
  unfold validate_entry_value. rewrite validate_stack_check by (unfold stack_size; simpl; lia).
  simpl. unfold cbind, cret. by destruct (check value tag s) as [[[[]|e] s']|].
Qed.

(** ** What is accepted *)

(** The tags and values that meet in a case of the loop with something to check. *)
Definition checked_pair (tag : TypeTag) (value : MoveValue) : bool :=
  match tag, value with
  | TSigner, VSigner _ | TVector _, VVector _ | TStruct _, VStruct _ _ => true
  | _, _ => false
  end.

(** The promise about a value of a type: signers are the sender, strings are
    UTF-8, options have at most one element, and so for what they contain. *)
Inductive value_ok : TypeTag → MoveValue → Prop :=
| ok_signer : value_ok TSigner (VSigner expected_signer)
| ok_vector t l : Forall (value_ok t) l → value_ok (TVector t) (VVector l)
| ok_string st variant bs rest :
    tag_name st = "String"%string → utf8_valid bs = true →
    value_ok (TStruct st) (VStruct variant (VVector (VU8 <$> bs) :: rest))
| ok_object st variant a rest :
    tag_name st = "Object"%string → value_ok (TStruct st) (VStruct variant (VAddress a :: rest))
| ok_none st variant rest :
    tag_name st = "Option"%string → value_ok (TStruct st) (VStruct variant (VVector [] :: rest))
| ok_some st variant t ts x rest :
    tag_name st = "Option"%string → tag_type_args st = t :: ts → value_ok t x →
    value_ok (TStruct st) (VStruct variant (VVector [x] :: rest))
| ok_fixed_point st variant fields :
    tag_name st = "FixedPoint32"%string ∨ tag_name st = "FixedPoint64"%string →
    value_ok (TStruct st) (VStruct variant fields)
| ok_other t v : checked_pair t v = false → value_ok t v.

Lemma validate_string_ok fields : validate_string fields = Ok () →
  ∃ bs rest, fields = VVector (VU8 <$> bs) :: rest ∧ utf8_valid bs = true.
Proof.
  unfold validate_string. destruct fields as [|[| | | | | | | | |l|] rest]; simpl; try done.
  intros (bs & Hbs & Hu)%bind_Ok. exists bs, rest. split; [|by destruct (utf8_valid bs)].
  f_equal. f_equal. clear Hu. revert bs Hbs. induction l as [|x l IH]; intros bs Hbs; simplify_eq/=; [done|].
  destruct x; try done. apply bind_Ok in Hbs as (bs' & Hbs' & [= <-]). simpl. f_equal. by apply IH.
Qed.

Lemma validate_object_ok fields t s s' : validate_object fields t s = Done (Ok (), s') →
  ∃ a rest, fields = VAddress a :: rest.
Proof.
  unfold validate_object. intros [(inner & s1 & Hi & Ho)|(e & _ & [=])]%cbind_Done.
  destruct fields as [|x rest]; [done|]. injection Hi as -> _. destruct inner; try done. eauto.
Qed.

Lemma check_value_ok_size n tag value s s' : (value_size value ≤ n)%nat →
  check value tag s = Done (Ok (), s') → value_ok tag value.
Proof.
  revert tag value s s'. induction n as [|n IH]; intros tag value s s' Hn Hc.
  { pose proof (value_size_pos value). lia. }
  destruct (checked_pair tag value) eqn:Hp; [|by apply ok_other].
  destruct tag as [| | | | | | | | |t|st]; try done; destruct value as [| | | | | | | |a|l|variant fields];
    try done.
  - simpl in *. unfold cbind in Hc. case_decide; [subst; constructor|done].
  - constructor. clear Hp. revert s s' Hc. induction l as [|x l IHl]; intros s s' Hc; [done|].
    simpl in Hn, Hc. apply cbind_Done in Hc as [([] & s1 & Hgo & Hx)|(e & _ & [=])].
    constructor; [eapply IH; [|done]; lia|]. eapply IHl; [simpl; lia|done].
  - rewrite check_unfold in Hc. cbn [entry_value_step info_from_tag info_name] in Hc.
    apply cbind_Done in Hc as [(pushed & s1 & Hs & Hc)|(e & _ & [=])].
    repeat case_decide; try discriminate Hs; try (apply cbind_Done in Hs as [(a & s2 & Ha & Hs)|(e & _ & [=])]).
    + destruct a. injection Ha as Ha _. apply validate_string_ok in Ha as (bs & rest & -> & Hu).
      by apply ok_string.
    + apply cbind_Done in Hs as [([] & s3 & Ho & Hs)|(e & _ & [=])].
      apply validate_object_ok in Ho as (addr & rest & ->). by apply ok_object.
    + injection Ha as Ha _. destruct a as [inner|].
      * apply validate_option_Some in Ha as (rest & ->).
        apply cbind_Done in Hs as [(t & s3 & Ht & Hs)|(e & _ & [=])]. injection Hs as <- ->.
        simpl in Hc. apply cbind_Done in Hc as [([] & s4 & Hx & _)|(e & _ & [=])].
        injection Ht as Ht _. destruct (tag_type_args st) as [|t' ts] eqn:Hargs; [done|].
        injection Ht as ->. eapply ok_some; [done|done|]. eapply IH; [|done]. simpl in Hn. lia.
      * unfold validate_option in Ha. destruct fields as [|[| | | | | | | | |[|x [|]]|] rest];
          simplify_eq/=. by apply ok_none.
    + by apply ok_fixed_point.
Qed.

Lemma checked_value_ok tag value s s' :
  validate_entry_value tag value s = Done (Ok (), s') → value_ok tag value.
Proof.
  unfold validate_entry_value. rewrite validate_stack_check by (unfold stack_size; simpl; lia).
  simpl. intros [([] & s1 & Hc & _)|(e & _ & [=])]%cbind_Done. by eapply check_value_ok_size.
Qed.

(** C24 (safety): an argument that passes validation keeps the promises of its
    type however deeply it is nested: every signer in it is the sender of the
    transaction, so no signature is forged, every string is UTF-8 and every
    option has at most one element. *)
Theorem accepted_values_ok tag value s s' :
  validate_entry_value tag value s = Done (Ok (), s') → value_ok tag value.
Proof. apply checked_value_ok. Qed.

(** ** The values that need no check *)

(** The values the decoder produces for a layout. *)
Fixpoint has_shape (layout : MoveTypeLayout) (v : MoveValue) : Prop :=
  match layout, v with
  | LBool, VBool _ | LU8, VU8 _ | LU16, VU16 _ | LU32, VU32 _ | LU64, VU64 _ | LU128, VU128 _
  | LU256, VU256 _ | LAddress, VAddress _ | LSigner, VSigner _ | LStruct _, VStruct _ _ => True
  | LVector l, VVector vs => Forall (has_shape l) vs
  | LNative l, _ => has_shape l v
  | _, _ => False
  end.

Lemma shape_no_invariants_check n layout tag v s : (value_size v ≤ n)%nat →
  has_value_invariants layout = false → has_shape layout v → check v tag s = Done (Ok (), s).
Proof.
  revert layout tag v s. induction n as [|n IH]; intros layout tag v s Hn Hl Hs.
  { pose proof (value_size_pos v). lia. }
  induction layout; try done; try (destruct v, tag; done); [|by apply IHlayout].
  destruct v as [| | | | | | | | |vs|]; try done. simpl in Hl, Hs.
  destruct tag; try done. rewrite check_vector. clear IHlayout.
  induction vs as [|x vs IHvs]; [done|]. simpl in Hn. apply Forall_cons in Hs as [Hx Hs].
  rewrite fmap_cons. simpl rev. rewrite check_stack_app. unfold cbind.
  rewrite IHvs by (done || simpl; lia). simpl. unfold cbind. by rewrite (IH layout) by (done || lia).
Qed.

(** The layout analysis that skips validation is sound: when
    it finds no value invariants, validating any value of that layout would
    have succeeded without touching the session, whatever the type tag and the
    sender. *)
Lemma skipping_is_sound layout tag v s :
  has_value_invariants layout = false → has_shape layout v →
  validate_entry_value tag v s = Done (Ok (), s).
Proof.
  intros Hl Hs. unfold validate_entry_value.
  rewrite validate_stack_check by (unfold stack_size; simpl; lia). simpl. unfold cbind.
  by rewrite (shape_no_invariants_check (value_size v) layout).
Qed.

(** ** The types that may be passed *)

Inductive allowed : TypeTag → Prop :=
| allowed_primitive t :
    match t with TVector _ | TStruct _ => false | _ => true end = true → allowed t
| allowed_vector t : allowed t → allowed (TVector t)
| allowed_plain a m n :
    MkStructInfo a m n ∈ ALLOWED_STRUCTS → allowed (TStruct (MkStructTag a m n []))
| allowed_phantom a m n t :
    MkStructInfo a m n ∈ ALLOWED_STRUCTS → n ≠ "Option"%string →
    allowed (TStruct (MkStructTag a m n [t]))
| allowed_option a m t :
    MkStructInfo a m "Option" ∈ ALLOWED_STRUCTS → allowed t →
    allowed (TStruct (MkStructTag a m "Option" [t])).

(** No struct of the list has more than one type parameter. *)
Fixpoint arity_ok (tag : TypeTag) : bool :=
  match tag with
  | TVector t => arity_ok t
  | TStruct (MkStructTag a m n args) =>
    if decide (MkStructInfo a m n ∈ ALLOWED_STRUCTS) then
      match args with [] => true | [t] => arity_ok t | _ => false end
    else true
  | _ => true
  end.

Lemma validate_tag_loop_spec tag0 tag : arity_ok tag = true →
  (validate_tag_loop tag0 tag = Done (Ok ()) ∧ allowed tag)
  ∨ (validate_tag_loop tag0 tag = Done (Err (InvalidTransaction (DisallowedEntryFunctionType tag0)))
     ∧ ¬ allowed tag).
Proof.
  revert tag. fix IH 1. intros tag Ha.
  destruct tag as [| | | | | | | | |t|[a m n args]];
    try (left; split; [reflexivity|by apply allowed_primitive]).
  - destruct (IH t Ha) as [[Hv Hal]|[Hv Hal]]; [left|right]; simpl.
    + split; [done|by apply allowed_vector].
    + split; [done|]. inversion 1; [done|auto].
  - simpl in *. destruct (decide (MkStructInfo a m n ∈ ALLOWED_STRUCTS)) as [Hin|Hin].
    + destruct args as [|t [|u args]]; [left; split; [done|by apply allowed_plain]| |done].
      destruct (decide (n = allowed_name 2)) as [->|Hn].
      * destruct (IH t Ha) as [[Hv Hal]|[Hv Hal]]; [left|right].
        -- split; [done|by apply allowed_option].
        -- split; [done|]. by inversion 1.
      * left. split; [done|by apply allowed_phantom].
    + right. split; [done|]. inversion 1; subst; first [done | by apply Hin].
Qed.

(** The type check accepts exactly the types built from the
    primitives, vectors and options over them, and the listed framework structs
    (identified by address, module and name); any other type is rejected as
    disallowed, naming the whole argument type, and the check panics only for a
    listed struct with more than one type parameter, which the framework does
    not have. *)
Lemma validate_entry_type_tag_spec tag : arity_ok tag = true →
  (validate_entry_type_tag tag = Done (Ok ()) ↔ allowed tag)
  ∧ (¬ allowed tag →
     validate_entry_type_tag tag = Done (Err (InvalidTransaction (DisallowedEntryFunctionType tag)))).
Proof.
  intros Ha. unfold validate_entry_type_tag.
  destruct (validate_tag_loop_spec tag tag Ha) as [[-> Hal]|[-> Hal]]; naive_solver.
Qed.

End Validation.

(** Witnesses, with a VM that answers nothing. *)
Module TagWitness.
Import Envelope.Witness.
#[local] Existing Instance unit_errors.

#[local] Instance types : VmTypes := {| Session := unit; GasMeter := unit; BaseType := unit |}.
#[local] Instance no_vm : MoveVm := {|
  simple_serialize := λ _, None; deserialize_value := λ _ _, None;
  load_function := λ _ _ _, cpanic; load_script := λ _ _, cpanic; get_type_tag := λ _, cpanic;
  get_type_layout_from_ty := λ _, cpanic; load_type := λ _, cpanic;
  resource_exists_at := λ _ _, cpanic;
  execute_function_bypass_visibility := λ _ _ _ _ _, cpanic;
  session_execute_entry_function := λ _ _ _, cpanic; session_execute_script := λ _ _ _ _, cpanic |}.

Definition st : Vm_ := MkVm _ () () (MkLogger [] []).

Lemma accepted_values_ok_witness : value_ok someone (TVector TSigner) (VVector [VSigner someone]).
Proof. apply (accepted_values_ok someone _ _ st st). vm_compute. reflexivity. Defined.

Lemma skipping_is_sound_witness :
  validate_entry_value someone (TVector TU8) (VVector [VU8 1; VU8 2]) st = Done (Ok (), st).
Proof. apply (skipping_is_sound someone (LVector LU8)); [done|]. simpl. by repeat constructor. Defined.

Definition option_string : TypeTag := TStruct (MkStructTag address_one "option" "Option"
  [TStruct (MkStructTag address_one "string" "String" [])]).

Lemma validate_entry_type_tag_spec_witness :
  (validate_entry_type_tag option_string = Done (Ok ()) ↔ allowed option_string)
  ∧ (¬ allowed option_string → validate_entry_type_tag option_string
       = Done (Err (InvalidTransaction (DisallowedEntryFunctionType option_string)))).
Proof. apply validate_entry_type_tag_spec. vm_compute. reflexivity. Defined.

End TagWitness.
