(* ===== verification/Events.v ===== *)
(** Data that crosses between the EVM, the Move VM and the block: EVM logs and
    results as Move values ([evm-ext/src/type_utils.rs], [events.rs]), the logs of
    a session ([execution/src/lib.rs]), the gas units of both machines
    ([evm-ext/src/native_impl.rs]), the identity of a session
    ([execution/src/session_id.rs]) and the block hashes the EVM may read
    ([evm-ext/src/native_evm_context.rs]). *)
From S2P Require Import Prelude Primitives MoveTypes Errors Envelope Application MoveVm EthToken ToyVm.
Import Addresses Words.

Local Open Scope Z_scope.

(** What is read of the EVM's [ExecutionResult]. *)
Record ExecutionResult := MkExecutionResult {
  er_is_success : bool;
  er_created_address : option Address;
  er_output : option bytes;
  er_gas_used : Z;
  er_logs : list Log;
}.

(** Source: evm-ext/src/lib.rs 53-58 [EvmNativeOutcome] *)
Record EvmNativeOutcome := MkEvmNativeOutcome {
  eo_is_success : bool; eo_output : bytes; eo_logs : list Log }.

(** Source: evm-ext/src/lib.rs 41-43 [CODE_LAYOUT] *)
Definition CODE_LAYOUT : MoveTypeLayout := LVector LU8.

(** Source: evm-ext/src/events.rs 74-79 [EVM_LOGS_EVENT_TAG] *)
Definition EVM_LOGS_EVENT_TAG : StructTag :=
  MkStructTag EVM_NATIVE_ADDRESS EVM_NATIVE_MODULE "EvmLogsEvent" [].

(** Source: evm-ext/src/events.rs 81-87 [EVM_LOG_LAYOUT] *)
Definition EVM_LOG_LAYOUT : MoveTypeLayout :=
  LStruct (LRuntime [LAddress; LVector LU256; LVector LU8]).

(** Source: evm-ext/src/events.rs 89-93 [EVM_LOGS_EVENT_LAYOUT] *)
Definition EVM_LOGS_EVENT_LAYOUT : MoveTypeLayout :=
  LStruct (LRuntime [LVector EVM_LOG_LAYOUT]).

(** Source: evm-ext/src/lib.rs 45-51 [EVM_NATIVE_OUTCOME_LAYOUT] *)
Definition EVM_NATIVE_OUTCOME_LAYOUT : MoveTypeLayout :=
  LStruct (LRuntime [LBool; CODE_LAYOUT; LVector EVM_LOG_LAYOUT]).

Definition vector_u8 (bs : bytes) : MoveValue := VVector (VU8 <$> bs).

(** Source: evm-ext/src/type_utils.rs 58-65 [evm_log_to_move_value] *)
Definition evm_log_to_move_value (log : Log) : MoveValue :=
  VStruct None [VAddress (to_move_address (log_address log));
                VVector ((λ x, VU256 (B256_to_move_u256 x)) <$> log_topics log);
                vector_u8 (log_data log)].

(** Source: evm-ext/src/type_utils.rs 67-87 [evm_result_to_move_value] *)
Definition evm_result_to_move_value (result : ExecutionResult) : MoveValue :=
  let output := match er_created_address result with
    | Some address => address
    | None => default [] (er_output result)
    end in
  VStruct None [VBool (er_is_success result); vector_u8 output;
                VVector (evm_log_to_move_value <$> er_logs result)].

(** [LogData::new], [Log::new]: at most four topics. *)
Definition log_new (address : Address) (topics : list B256) (data : bytes) : option Log :=
  if decide (length topics ≤ 4)%nat then Some (MkLog address topics data) else None.

(** Source: evm-ext/src/events.rs 147-153 [as_u8] *)
Definition as_u8 (value : MoveValue) : option Z :=
  match value with VU8 x => Some x | _ => None end.

(** Source: evm-ext/src/events.rs 155-161 [as_b256] *)
Definition as_b256 (value : MoveValue) : option B256 :=
  match value with VU256 value => Some (le_bytes 32 value) | _ => None end.

(** One element of the event's vector.
    Source: evm-ext/src/events.rs 111-143 [evm_logs_event_to_log] *)
Definition event_log (value : MoveValue) : option Log :=
  match value with
  | VStruct _ [VAddress address; VVector topics; VVector data] =>
    data ← mapM as_u8 data;
    topics ← mapM as_b256 topics;
    log_new (to_eth_address address) topics data
  | _ => None
  end.

(** The loop pushes what it converted before it fails, if it does. *)
Fixpoint event_logs (logs : list MoveValue) (dest : list Log) : option () * list Log :=
  match logs with
  | [] => (Some (), dest)
  | value :: logs =>
    match event_log value with
    | Some log => event_logs logs (dest ++ [log])
    | None => (None, dest)
    end
  end.

(** Source: evm-ext/src/events.rs 95-145 [evm_logs_event_to_log] *)
Definition evm_logs_event_to_log (value : MoveValue) (dest : list Log) : option () * list Log :=
  match value with
  | VStruct _ [VVector logs] => event_logs logs dest
  | _ => (None, dest)
  end.

(** [value_as] on a byte vector. *)
Definition value_as_bytes (v : MoveValue) : option bytes :=
  match v with VVector l => mapM as_u8 l | _ => None end.

(** Source: evm-ext/src/type_utils.rs 114-145 [extract_evm_result] *)
Definition extract_log (value : MoveValue) : option Log :=
  match value with
  | VStruct _ (VAddress address :: VVector topics :: data :: _) =>
    data ← value_as_bytes data;
    topics ← mapM as_b256 topics;
    log_new (to_eth_address address) topics data
  | _ => None
  end.

Section Extract.
Context `{ErrorTypes, !VmTypes, !MoveVm}.

(** Every failed conversion is an [unwrap] that panics.
    Source: evm-ext/src/type_utils.rs 91-157 [extract_evm_result] *)
Definition extract_evm_result (return_values : list (bytes * MoveTypeLayout))
    : exec EvmNativeOutcome :=
  match return_values with
  | [(raw, layout)] =>
    value ← expect (deserialize_value raw layout);
    match value with
    | VStruct _ [VBool is_success; output; VVector logs] =>
      output ← expect (value_as_bytes output);
      logs ← expect (mapM extract_log logs);
      Done (MkEvmNativeOutcome is_success output logs)
    | _ => Panic
    end
  | _ => Panic
  end.

(** The typed events of a session, as [NativeEventContext] returns them. *)
Record ContractEvent := MkEvent { ev_type_tag : TypeTag; ev_data : bytes }.

Context (keccak256 : bytes → B256) (to_canonical_string : TypeTag → bytes).

(** Source: execution/src/lib.rs 202-235 [push_logs] *)
Definition push_logs (event : ContractEvent) (dest : list Log) : exec (list Log) :=
  match ev_type_tag event with
  | TStruct struct_tag =>
    if decide (struct_tag = EVM_LOGS_EVENT_TAG) then
      value ← expect (deserialize_value (ev_data event) EVM_LOGS_EVENT_LAYOUT);
      let '(r, dest) := evm_logs_event_to_log value dest in
      _ ← expect r;
      Done dest
    else
      let address := to_eth_address (tag_address struct_tag) in
      let type_hash := keccak256 (to_canonical_string (ev_type_tag event)) in
      Done (dest ++ [MkLog address [type_hash] (ev_data event)])
  | _ => Panic
  end.

(** Source: execution/src/lib.rs 191-200 [Logs::logs] *)
Fixpoint session_logs (events : list ContractEvent) (result : list Log) : exec (list Log) :=
  match events with
  | [] => Done result
  | event :: events => result ← push_logs event result; session_logs events result
  end.

(** A log of the EVM: a 20-byte address, up to four 32-byte topics. *)
Definition log_wf (l : Log) : Prop :=
  bytes_len 20 (log_address l) ∧ (length (log_topics l) ≤ 4)%nat
  ∧ Forall (bytes_len 32) (log_topics l).

Lemma mapM_as_u8 bs : mapM as_u8 (VU8 <$> bs) = Some bs.
Proof. apply mapM_fmap_Some. done. Qed.

Lemma mapM_as_b256 topics : Forall (bytes_len 32) topics →
  mapM as_b256 ((λ x, VU256 (B256_to_move_u256 x)) <$> topics) = Some topics.
Proof.
  intros Ht. apply mapM_fmap_Forall_Some. eapply Forall_impl; [exact Ht|].
  intros t [Hlen Hb]. unfold as_b256, B256_to_move_u256. rewrite <- Hlen. by rewrite le_bytes_val.
Qed.

Lemma move_address_roundtrip a : to_eth_address (to_move_address a) = a.
Proof. reflexivity. Qed.

Lemma event_log_roundtrip l : log_wf l → event_log (evm_log_to_move_value l) = Some l.
Proof.
  intros (Ha & Hn & Ht). unfold event_log, evm_log_to_move_value, vector_u8. cbn.
  rewrite mapM_as_u8. simpl. rewrite mapM_as_b256 by done. simpl.
  unfold log_new. rewrite decide_True by done. by destruct l.
Qed.

Lemma extract_log_roundtrip l : log_wf l → extract_log (evm_log_to_move_value l) = Some l.
Proof.
  intros (Ha & Hn & Ht). unfold extract_log, evm_log_to_move_value, vector_u8. cbn.
  rewrite mapM_as_u8. simpl. rewrite mapM_as_b256 by done. simpl.
  unfold log_new. rewrite decide_True by done. by destruct l.
Qed.

Lemma event_logs_roundtrip logs dest : Forall log_wf logs →
  event_logs (evm_log_to_move_value <$> logs) dest = (Some (), dest ++ logs).
Proof.
  intros Hwf. revert dest. induction Hwf as [|l logs Hl _ IH]; intros dest; [by rewrite app_nil_r|].
  rewrite fmap_cons. cbn [event_logs]. rewrite event_log_roundtrip by done. rewrite IH, <- app_assoc. done.
Qed.

(** EVM results and logs cross Move unchanged: the outcome
    extracted from the value an EVM call returned has the call's status, output
    (the created address for a deployment) and logs, and an event of EVM logs
    adds exactly those logs, in order, with addresses and topics byte for byte,
    to the logs of the block. *)
Lemma evm_results_cross_move result raw layout data dest :
  Forall log_wf (er_logs result) →
  deserialize_value raw layout = Some (evm_result_to_move_value result) →
  deserialize_value data EVM_LOGS_EVENT_LAYOUT =
    Some (VStruct None [VVector (evm_log_to_move_value <$> er_logs result)]) →
  extract_evm_result [(raw, layout)] = Done (MkEvmNativeOutcome (er_is_success result)
    (match er_created_address result with Some a => a | None => default [] (er_output result) end)
    (er_logs result))
  ∧ push_logs (MkEvent (TStruct EVM_LOGS_EVENT_TAG) data) dest = Done (dest ++ er_logs result).
Proof.
  intros Hwf Hr Hd. split.
  - unfold extract_evm_result. rewrite Hr. cbn. rewrite mapM_as_u8. cbn.
    assert (mapM extract_log (evm_log_to_move_value <$> er_logs result) = Some (er_logs result)) as ->.
    { apply mapM_fmap_Forall_Some. eapply Forall_impl; [exact Hwf|]. apply extract_log_roundtrip. }
    done.
  - unfold push_logs. cbn [ev_type_tag ev_data].
    destruct (decide (EVM_LOGS_EVENT_TAG = EVM_LOGS_EVENT_TAG)) as [_|[]]; [|done].
    rewrite Hd. cbn [expect mbind exec_bind]. cbn [evm_logs_event_to_log].
    by rewrite event_logs_roundtrip.
Qed.

End Extract.

(** ** Gas units *)

(** Source: evm-ext/src/native_impl.rs 53 [EVM_SCALE_FACTOR] *)
Definition EVM_SCALE_FACTOR : Z := 600.
(** Source: evm-ext/src/native_impl.rs 54-58 [EVM_BASE_GAS] *)
Definition EVM_BASE_GAS : Z := 21000.

(** Source: evm-ext/src/native_impl.rs 249-254 [get_gas_limit] *)
Definition get_gas_limit (internal_units : Z) : Z :=
  sat_add 64 (internal_units / EVM_SCALE_FACTOR) EVM_BASE_GAS.

(** Source: evm-ext/src/native_impl.rs 382-391 [EvmGasUsed::evaluate] *)
Definition evm_gas_evaluate (amount : Z) : Z :=
  sat_mul 64 (sat_sub amount EVM_BASE_GAS) EVM_SCALE_FACTOR.

(** An execution within the gas limit derived from the balance costs at most the
    balance; the conversions do not saturate on it, and the base gas is free. *)
Lemma evm_gas_within_balance internal_units amount :
  uint 64 internal_units → 0 ≤ amount ≤ get_gas_limit internal_units →
  0 ≤ evm_gas_evaluate amount ≤ internal_units
  ∧ evm_gas_evaluate amount = Z.max (amount - EVM_BASE_GAS) 0 * EVM_SCALE_FACTOR
  ∧ evm_gas_evaluate EVM_BASE_GAS = 0.
Proof.
  unfold uint, get_gas_limit, evm_gas_evaluate, sat_add, sat_mul, sat_sub, umax,
    EVM_SCALE_FACTOR, EVM_BASE_GAS. intros Hu Ha.
  pose proof (Z.mul_div_le internal_units 600 ltac:(lia)). lia.
Qed.

(** ** Session identity *)

(** Source: genesis/src/config.rs 11 [CHAIN_ID] *)
Definition CHAIN_ID : Z := 404.

(** The arguments of [UserTransactionContext::new] that vary. *)
Record UserTransactionContext := MkUserContext {
  uc_sender : AccountAddress; uc_gas_payer : AccountAddress; uc_max_gas : Z; uc_gas_price : Z;
  uc_chain_id : Z; uc_entry_function : option EntryFunction }.

(** Source: execution/src/session_id.rs 17-24 [SessionId] *)
Record SessionId := MkSessionId {
  txn_hash : bytes;
  script_hash : option bytes;
  si_chain_id : Z;
  user_txn_context : option UserTransactionContext;
  block_header : HeaderForExecution;
}.

(** Source: execution/src/session_id.rs 85-90 [u64_gas_price] *)
Definition u64_gas_price (u256_gas_price : Z) : Z :=
  match limbs 4 u256_gas_price with
  | [value; 0; 0; 0] => value
  | _ => umax 64
  end.

(** Source: execution/src/session_id.rs 97-103 [u8_chain_id] *)
Definition u8_chain_id (chain_id : Z) : Z :=
  if chain_id =? CHAIN_ID then 1 else nth 0 (le_bytes 8 chain_id) 0.

(** Source: execution/src/session_id.rs 27-54 [SessionId::new_from_canonical] *)
Definition new_from_canonical (tx : NormalizedEthTransaction) (maybe_entry_fn : option EntryFunction)
    (tx_hash : B256) (genesis_chain_id : Z) (header : HeaderForExecution)
    (script_hash : option B256) : SessionId :=
  let chain_id := u8_chain_id genesis_chain_id in
  let sender := to_move_address (signer tx) in
  let user_context := MkUserContext sender sender (gas_limit tx)
    (u64_gas_price (max_fee_per_gas tx)) chain_id maybe_entry_fn in
  MkSessionId tx_hash script_hash chain_id (Some user_context) header.

(** Source: execution/src/session_id.rs 56-81 [SessionId::new_from_deposited] *)
Definition new_from_deposited (tx : TxDeposit) (tx_hash : B256) (genesis_chain_id : Z)
    (header : HeaderForExecution) : SessionId :=
  let chain_id := u8_chain_id genesis_chain_id in
  let sender := to_move_address (dep_from tx) in
  let user_context := MkUserContext sender sender (dep_gas_limit tx) 0 chain_id None in
  MkSessionId tx_hash None chain_id (Some user_context) header.

(** What a Move session sees of a transaction fits the VM's
    widths: the gas price is the transaction's capped to 64 bits, and the chain
    id is one byte, 1 exactly for the production chain or a chain whose low byte
    is 1. *)
Lemma session_fits tx entry h chain hdr script :
  uint 256 (max_fee_per_gas tx) → uint 64 chain →
  ∃ uc, user_txn_context (new_from_canonical tx entry h chain hdr script) = Some uc
    ∧ uc_gas_price uc = Z.min (max_fee_per_gas tx) (umax 64)
    ∧ uc_chain_id uc = si_chain_id (new_from_canonical tx entry h chain hdr script)
    ∧ uint 8 (uc_chain_id uc)
    ∧ (uc_chain_id uc = 1 ↔ chain = CHAIN_ID ∨ chain mod 256 = 1)
    ∧ uc_sender uc = to_move_address (signer tx).
Proof.
  intros Hfee Hchain. eexists. split; [reflexivity|]. simpl. split_and!; try done.
  - unfold u64_gas_price. destruct (decide (max_fee_per_gas tx < 2 ^ 64)).
    + rewrite limbs_le by (unfold uint in Hfee; lia). unfold umax. lia.
    + destruct (limbs_gt (max_fee_per_gas tx)) as (a & b & c & d & -> & Hne); [done|lia|].
      unfold umax. rewrite Z.min_r by lia.
      destruct b; [|done|done]. destruct c; [|done|done]. destruct d; naive_solver.
  - unfold u8_chain_id. case_match; [done|]. simpl. apply Z.mod_pos_bound. done.
  - unfold u8_chain_id. simpl. destruct (Z.eqb_spec chain CHAIN_ID); naive_solver.
Qed.

(** ** Block hashes *)

(** The lookup of what runs outside of a chain.
    Source: evm-ext/src/state/block_hash.rs 9-13 [() as BlockHashLookup] *)
Definition no_block_hash (number : Z) : option B256 := None.

(** Source: evm-ext/src/native_evm_context.rs 206-219 [ResolverBackedDB::block_hash_ref] *)
Definition block_hash_ref (hash_by_number : Z → option B256) (current_block_number number : Z)
    : B256 :=
  let lower_bound := sat_sub current_block_number 256 in
  let upper_bound := current_block_number in
  if (lower_bound <=? number) && (number <? upper_bound)
  then default (replicate 32 0) (hash_by_number number)
  else replicate 32 0.

(** Source: evm-ext/src/type_utils.rs 44-56 [get_account_code_hash] *)
Definition get_account_code_hash (hash_slow : bytes → B256) (keccak_empty : B256)
    (code : option bytes) (code_hash : B256) : B256 :=
  match code with
  | Some code => if decide (code = []) then keccak_empty else hash_slow code
  | None => if decide (code_hash = replicate 32 0) then keccak_empty else code_hash
  end.

(** Witnesses: a decoder that knows two encodings. *)
Module EventsWitness.

Definition some_log : Log := MkLog (replicate 20 7) [replicate 32 1] [5].
Definition some_result : ExecutionResult := MkExecutionResult true None (Some [9]) 21000 [some_log].
Definition logs_event : MoveValue := VStruct None [VVector (evm_log_to_move_value <$> [some_log])].
#[local] Instance event_vm : MoveVm :=
  with_decoder (λ b _, match b with
    | [1] => Some (evm_result_to_move_value some_result)
    | [2] => Some logs_event
    | _ => None end).

Lemma evm_results_cross_move_witness :
  extract_evm_result [([1], EVM_NATIVE_OUTCOME_LAYOUT)] = Done (MkEvmNativeOutcome true [9] [some_log])
  ∧ push_logs id (λ _, []) (MkEvent (TStruct EVM_LOGS_EVENT_TAG) [2]) [] = Done ([] ++ [some_log]).
Proof.
  apply (evm_results_cross_move id (λ _, []) some_result); [|done|done].
  apply Forall_cons. split; [|done]. split.
  - split; [done|]. by apply Forall_replicate.
  - split; [simpl; lia|]. apply Forall_cons. split; [|done]. split; [done|]. by apply Forall_replicate.
Defined.

Lemma session_fits_witness :
  let tx := Envelope.Witness.plain_tx in
  let s := new_from_canonical tx None [] 404 (MkHeaderForExecution 0 0 []) None in
  ∃ uc, user_txn_context s = Some uc
    ∧ uc_gas_price uc = Z.min 2 (umax 64) ∧ uc_chain_id uc = si_chain_id s
    ∧ uint 8 (uc_chain_id uc) ∧ (uc_chain_id uc = 1 ↔ 404 = CHAIN_ID ∨ 404 mod 256 = 1)
    ∧ uc_sender uc = to_move_address (signer tx).
Proof. apply (session_fits Envelope.Witness.plain_tx); done. Defined.

End EventsWitness.
