(* ===== verification/Execution.v ===== *)
(** The execution of one transaction ([execution/src/execute.rs],
    [canonical.rs], [deposited.rs], [simulate.rs], [lib.rs]): the calls into the
    VM a payload makes, the checks and fees around them, and the outcome.

    The library functions of the Move VM around a session (its creation, its end,
    the gas meter, module staging) are in [ExecutionLibrary]. *)
From S2P Require Import Prelude Primitives MoveTypes Errors Envelope EvMap.
From S2P Require Import Transactions Fees Application MoveVm EthToken ToyVm Nonces Events TagValidation.
Import Addresses Words.

Local Open Scope Z_scope.

Inductive Op := OpNew (b : bytes) | OpModify (b : bytes).

Class ExecutionLibrary `{ErrorTypes, VmTypes, WorldState} := {
  create_move_vm : result VMError ();
  create_vm_session : SessionId → MoveState → EvmStorage → (Z → option B256) → Session;
  session_id_default : SessionId;
  (** Gas meter *)
  new_gas_meter : Z → GasMeter;
  charge_intrinsic_gas_for_transaction : Z → GasMeter → result PartialVMError () * GasMeter;
  charge_io_gas_for_transaction : Z → GasMeter → result PartialVMError () * GasMeter;
  charge_publish_request : Z → GasMeter → result PartialVMError () * GasMeter;
  charge_dependency : AccountAddress → Z → GasMeter → result PartialVMError () * GasMeter;
  execution_gas_used : GasMeter → Z;
  io_gas_used : GasMeter → Z;
  storage_fee_used_in_gas_units : GasMeter → Z;
  scaling_factor : Z;
  (** Modules *)
  compiled_module_self_id : bytes → result PartialVMError ModuleId;
  staged_module_bundle : MoveState → AccountAddress → bytes → result VMError (list (ModuleId * bytes));
  check_module_exists : MoveState → ModuleId → result VMError bool;
  (** Change sets *)
  empty_changes : MoveChanges;
  add_module_op : ModuleId → Op → MoveChanges → option MoveChanges;
  squash : MoveChanges → MoveChanges → option MoveChanges;
  (** The end of a session: its changes, its events, and the EVM's changes. *)
  finish_with_extensions : Session → result VMError (MoveChanges * list ContractEvent);
  extract_evm_accounts : Session → MoveChanges;
  extract_evm_storage : Session → EvmChanges;
  (** Hashing and encodings *)
  vm_keccak256 : bytes → B256;
  canonical_string : TypeTag → bytes;
  script_bcs : Script → bytes;
  return_values_bcs : list bytes → result BcsError bytes;
}.

Section Calls.
Context `{ErrorTypes, !VmTypes, !MoveVm}.
Local Open Scope cmd_scope.

(** Source: execution/src/execute.rs 228-242 [strip_reference] *)
Definition strip_reference (t : RuntimeType BaseType) : result Error (RuntimeType BaseType) :=
  match t with
  | Reference inner | MutableReference inner =>
    match inner with
    | Reference _ | MutableReference _ => Err (from_cause UnsupportedNestedReference)
    | other => Ok other
    end
  | other => Ok other
  end.

(** One parameter of an entry function and its argument.
    Source: execution/src/execute.rs 49-72 [execute_entry_function] *)
Definition validate_argument (signer : AccountAddress) (ty : RuntimeType BaseType) (arg : bytes)
    : cmd Vm_ Error () :=
  let! ty := clift (strip_reference ty) in
  let! tag := vm (get_type_tag ty) in
  let! valid := cexec (validate_entry_type_tag tag) in
  clift valid ;;!
  let! layout := vm (get_type_layout_from_ty ty) in
  if has_value_invariants layout then
    let! arg := clift (ok_or (deserialize_value arg layout)
      (from_cause FailedArgumentDeserialization)) in
    validate_entry_value signer tag arg
  else cret ().

(** Source: execution/src/execute.rs 34-77 [execute_entry_function] *)
Definition execute_entry_function (entry_fn : EntryFunction) (signer : AccountAddress)
    (gas_meter : Metering) : cmd Vm_ Error () :=
  let! function := vm (load_function (ef_module entry_fn) (ef_function entry_fn) (ef_ty_args entry_fn)) in
  if negb (length (param_tys function) =? length (ef_args entry_fn))%nat
  then cfail (from_cause MismatchedArgumentCount) else
  cfor (λ '(ty, arg), validate_argument signer ty arg)
    (zip (param_tys function) (ef_args entry_fn)) ;;!
  let! function := vm (load_function (ef_module entry_fn) (ef_function entry_fn) (ef_ty_args entry_fn)) in
  vm (session_execute_entry_function function (ef_args entry_fn) gas_meter).

(** The arguments of a script: its own, with the signer at every parameter of
    type signer.
    Source: execution/src/execute.rs 91-121 [execute_script] *)
Fixpoint script_arguments (serialized_signer : bytes) (params : list (RuntimeType BaseType))
    (given_args : list MoveValue) : cmd Vm_ Error (list bytes) :=
  match params with
  | [] =>
    match given_args with
    | [] => cret []
    | _ :: _ => cfail (from_cause MismatchedArgumentCount)
    end
  | ty :: params =>
    let! ty := clift (strip_reference ty) in
    let! tag := vm (get_type_tag ty) in
    if decide (tag = TSigner) then
      let! rest := script_arguments serialized_signer params given_args in
      cret (serialized_signer :: rest)
    else
      match given_args with
      | [] => cfail (from_cause MismatchedArgumentCount)
      | arg :: given_args =>
        let! serialized_value := clift (ok_or (simple_serialize arg)
          (script_tx_invariant_violation ArgsMustSerialize)) in
        let! rest := script_arguments serialized_signer params given_args in
        cret (serialized_value :: rest)
      end
  end.

(** Source: execution/src/execute.rs 79-131 [execute_script] *)
Definition execute_script (script : Script) (signer : AccountAddress) (gas_meter : Metering)
    : cmd Vm_ Error () :=
  let! function := vm (load_script (script_code script) (script_ty_args script)) in
  let! serialized_signer := clift (ok_or (simple_serialize (VSigner signer))
    (script_tx_invariant_violation ArgsMustSerialize)) in
  let! args := script_arguments serialized_signer (param_tys function) (script_args script) in
  vm (session_execute_script (script_code script) (script_ty_args script) args gas_meter).

Definition evm_module_id : ModuleId := MkModuleId EVM_NATIVE_ADDRESS EVM_NATIVE_MODULE.
(** Source: evm-ext/src/native_impl.rs 37 [EVM_DEPOSIT_FN_NAME] *)
Definition EVM_DEPOSIT_FN_NAME : string := "system_deposit_evm_call".
(** Source: evm-ext/src/native_impl.rs 38 [EVM_CALL_FN_NAME] *)
Definition EVM_CALL_FN_NAME : string := "system_evm_call".
(** Source: evm-ext/src/native_impl.rs 39 [EVM_CREATE_FN_NAME] *)
Definition EVM_CREATE_FN_NAME : string := "system_evm_create".

(** Source: execution/src/execute.rs 133-177 [deploy_evm_contract] *)
Definition deploy_evm_contract (bytecode : bytes) (value : Z) (signer : AccountAddress)
    (gas_meter : Metering) : cmd Vm_ Error Address :=
  let args := [default [] (simple_serialize (VSigner signer));
               default [] (simple_serialize (VU256 (U256_to_move_u256 value)));
               default [] (simple_serialize (vector_u8 bytecode))] in
  let! outcome := vm (execute_function_bypass_visibility evm_module_id EVM_CREATE_FN_NAME [] args
    gas_meter) in
  let! evm_outcome := cexec (extract_evm_result outcome) in
  if negb (eo_is_success evm_outcome) then cfail (User EvmContractCreationFailure) else
  cexec (assert_or_panic (bool_decide (length (eo_output evm_outcome) = 20%nat))) ;;!
  cret (eo_output evm_outcome).

(** Source: execution/src/execute.rs 182-224 [execute_evm_contract] *)
Definition execute_evm_contract (signer contract : AccountAddress) (value : Z) (data : bytes)
    (gas_meter : Metering) : cmd Vm_ Error EvmNativeOutcome :=
  let! args := cexec (serialize_args [VSigner signer; VAddress contract;
    VU256 (U256_to_move_u256 value); vector_u8 data]) in
  let! outcome := vm (execute_function_bypass_visibility evm_module_id EVM_CALL_FN_NAME [] args
    gas_meter) in
  cexec (extract_evm_result outcome).

(** ** The arguments of an executed entry function *)

Lemma validate_tag_Ok tag0 tag : validate_tag_loop tag0 tag = Done (Ok ()) → allowed tag.
Proof.
  revert tag. fix IH 1. intros tag Hv.
  destruct tag as [| | | | | | | | |t|[a m n args]]; try (by apply allowed_primitive).
  - apply allowed_vector, IH, Hv.
  - simpl in Hv. case_decide as Hin; [|done].
    destruct args as [|t [|u args]]; [by apply allowed_plain| |done].
    case_decide as Hn.
    + simpl in Hn. subst n. apply allowed_option; [done|]. apply IH, Hv.
    + by apply allowed_phantom.
Qed.

Lemma vm_Ok {A} (m : cmd Vm_ VMError A) v x v' : vm m v = Done (Ok x, v') → m v = Done (Ok x, v').
Proof. unfold vm, cmap_err. destruct (m v) as [[[?|?] ?]|]; naive_solver. Qed.

(** The arguments of a call pass their checks one after the other, each in the
    session the previous one left, from [v] to [v']: the parameter's type, stripped
    of references, is allowed, and an argument whose layout carries invariants
    decodes to a value that keeps them and passes [validate_entry_value]. *)
Inductive arguments_checked (sender : AccountAddress)
    : list (RuntimeType BaseType * bytes) → Vm_ → Vm_ → Prop :=
| checked_nil v : arguments_checked sender [] v v
| checked_cons ty arg rest base tag layout v v1 v2 v3 v' :
  strip_reference ty = Ok base →
  get_type_tag base v = Done (Ok tag, v1) → allowed tag →
  get_type_layout_from_ty base v1 = Done (Ok layout, v2) →
  (if has_value_invariants layout then
     ∃ value, deserialize_value arg layout = Some value ∧ value_ok sender tag value
       ∧ validate_entry_value sender tag value v2 = Done (Ok (), v3)
   else v3 = v2) →
  arguments_checked sender rest v3 v' →
  arguments_checked sender ((ty, arg) :: rest) v v'.

Lemma validate_arguments_checked sender l : ∀ v v',
  cfor (λ '(ty, arg), validate_argument sender ty arg) l v = Done (Ok (), v') →
  arguments_checked sender l v v'.
Proof.
  induction l as [|[ty arg] l IH]; intros v v' Hv; [injection Hv as <-; constructor|].
  simpl in Hv. apply cbind_Done in Hv as [([] & v3 & Ha & Hv)|(e & _ & [=])]. apply IH in Hv.
  unfold validate_argument in Ha.
  apply cbind_Done in Ha as [(base & w1 & Hb & Ha)|(e & _ & [=])]. injection Hb as Hb <-.
  apply cbind_Done in Ha as [(tag & w2 & Ht & Ha)|(e & _ & [=])].
  apply cbind_Done in Ha as [(valid & w3 & Hva & Ha)|(e & _ & [=])].
  apply cbind_Done in Ha as [([] & w4 & Hok & Ha)|(e & _ & [=])]. injection Hok as -> <-.
  apply cbind_Done in Ha as [(layout & w5 & Hla & Ha)|(e & _ & [=])].
  assert (validate_tag_loop tag tag = Done (Ok ()) ∧ w3 = w2) as [Hal ->].
  { unfold cexec, validate_entry_type_tag in Hva.
    destruct (validate_tag_loop tag tag); [|done]. by injection Hva as -> ->. }
  apply (checked_cons sender ty arg l base tag layout v w2 w5 v3 v'); try done;
    [by apply vm_Ok|by eapply validate_tag_Ok|by apply vm_Ok|].
  destruct (has_value_invariants layout); [|by injection Ha as <-].
  apply cbind_Done in Ha as [(value & w6 & Hval & Ha)|(e & _ & [=])]. injection Hval as Hval <-.
  exists value. split; [by destruct (deserialize_value arg layout); simplify_eq/=|].
  split; [by eapply checked_value_ok|done].
Qed.

(** C9 (safety): an entry function runs only with arguments that passed their
    checks.  When executing one succeeds, the function that was loaded has exactly
    as many parameters as there are arguments; then, one after the other in the
    sessions they leave, each parameter's type (references stripped) is an allowed
    one and each argument whose layout carries invariants decodes to a value that
    keeps them, so that in particular every signer passed is the sender; and only
    then, in the session the checks left, the function runs with these arguments. *)
Theorem executed_arguments_ok entry_fn sender g v v' :
  execute_entry_function entry_fn sender g v = Done (Ok (), v') →
  ∃ fn fn' v1 v2 v3,
    load_function (ef_module entry_fn) (ef_function entry_fn) (ef_ty_args entry_fn) v
      = Done (Ok fn, v1)
    ∧ length (param_tys fn) = length (ef_args entry_fn)
    ∧ arguments_checked sender (zip (param_tys fn) (ef_args entry_fn)) v1 v2
    ∧ load_function (ef_module entry_fn) (ef_function entry_fn) (ef_ty_args entry_fn) v2
      = Done (Ok fn', v3)
    ∧ session_execute_entry_function fn' (ef_args entry_fn) g v3 = Done (Ok (), v').
Proof.
  intros Hx. unfold execute_entry_function in Hx.
  apply cbind_Done in Hx as [(fn & v1 & Hl & Hx)|(e & _ & [=])].
  destruct (Nat.eqb_spec (length (param_tys fn)) (length (ef_args entry_fn))) as [Hlen|]; [|done].
  simpl in Hx. apply cbind_Done in Hx as [([] & v2 & Hargs & Hx)|(e & _ & [=])].
  apply cbind_Done in Hx as [(fn' & v3 & Hl' & Hx)|(e & _ & [=])].
  exists fn, fn', v1, v2, v3. split_and!; try by apply vm_Ok.
  - done.
  - by apply validate_arguments_checked.
Qed.

End Calls.

Section Execution.
Context `{ErrorTypes, !TxLibrary, !VmTypes, !MoveVm, !WorldState, !ExecutionLibrary}.
Context `{!Bcs SerializableTransactionData, !Bcs ScriptOrDeployment}.
Local Open Scope cmd_scope.

(** The part of [GenesisConfig] that is read here. *)
Record GenesisConfig := MkGenesisConfig { g_chain_id : Z }.

(** ** Gas *)

(** Run a charge of the gas meter. *)
Definition charge {E} (f : GasMeter → result E () * GasMeter) : cmd Vm_ E () := λ v,
  let '(r, g) := f (gas_meter v) in Done (r, MkVm _ (session v) g (eth_transfers_logger v)).

(** Source: execution/src/gas.rs 27-39 [total_gas_used] *)
Definition total_gas_used (g : GasMeter) : exec Z :=
  let total := sat_add 64 (sat_add 64 (execution_gas_used g) (io_gas_used g))
                 (storage_fee_used_in_gas_units g) in
  div_exec total scaling_factor.

(** Source: execution/src/gas.rs 41-69 [charge_new_module_processing] *)
Definition charge_new_module_processing (address : AccountAddress) (module_size : Z)
    : cmd Vm_ Error () :=
  cmap_err from_partial_vm_error (charge (charge_publish_request module_size)) ;;!
  cmap_err from_partial_vm_error (charge (charge_dependency address module_size)).

(** ** Modules *)

(** Source: execution/src/execute.rs 256-267 [deploy_module] *)
Fixpoint module_writes (state : MoveState) (bundle : list (ModuleId * bytes)) (writes : MoveChanges)
    : exec (result Error MoveChanges) :=
  match bundle with
  | [] => Done (Ok writes)
  | (module_id, bytes) :: bundle =>
    match check_module_exists state module_id with
    | Err e => Done (Err (from_vm_error e))
    | Ok module_exists =>
      let op := if module_exists then OpModify bytes else OpNew bytes in
      writes ← expect (add_module_op module_id op writes);
      module_writes state bundle writes
    end
  end.

(** Source: execution/src/execute.rs 244-270 [deploy_module] *)
Definition deploy_module (state : MoveState) (code : Module_) (address : AccountAddress)
    : exec (result Error (ModuleId * MoveChanges)) :=
  match compiled_module_self_id (module_code code) with
  | Err e => Done (Err (from_partial_vm_error e))
  | Ok self_id =>
    match staged_module_bundle state address (module_code code) with
    | Err e => Done (Err (from_vm_error e))
    | Ok bundle =>
      writes ← module_writes state bundle empty_changes;
      match writes with
      | Ok writes => Done (Ok (self_id, writes))
      | Err e => Done (Err e)
      end
    end
  end.

(** ** Canonical transactions *)

(** Source: execution/src/canonical.rs 56-118 [verify_transaction] *)
Definition verify_transaction (tx : NormalizedEthTransaction) (genesis_config : GenesisConfig)
    (l1_cost l2_cost : Z) (base_token : MovedBaseTokenAccounts) : cmd Vm_ Error () :=
  if match Envelope.chain_id tx with
     | Some chain_id => negb (chain_id =? g_chain_id genesis_config)
     | None => false
     end
  then cfail (from_cause IncorrectChainId) else
  let sender_move_address := to_move_address (signer tx) in
  let txn_size := Z.of_nat (length (data tx)) in
  cmap_err (λ _, InvalidTransaction InsufficientIntrinsicGas)
    (charge (charge_intrinsic_gas_for_transaction txn_size) ;;!
     charge (charge_io_gas_for_transaction txn_size)) ;;!
  cmap_err (λ _, InvalidTransaction FailedToPayL1Fee)
    (charge_gas_cost base_token sender_move_address l1_cost Unmetered) ;;!
  cmap_err (λ _, InvalidTransaction FailedToPayL2Fee)
    (charge_gas_cost base_token sender_move_address l2_cost Unmetered) ;;!
  check_nonce (nonce tx) sender_move_address Unmetered.

(** What a payload's execution yields besides its effect on the session: the
    deployed module, and the changes of a module deployment. *)
Definition PayloadOutcome : Type := option (AccountAddress * ModuleId) * MoveChanges.

(** Source: execution/src/canonical.rs 179-268 [execute_canonical_transaction] *)
Definition execute_payload (state : MoveState) (tx : NormalizedEthTransaction)
    (base_token : MovedBaseTokenAccounts) (tx_data : TransactionData)
    : cmd Vm_ Error PayloadOutcome :=
  let sender_move_address := to_move_address (signer tx) in
  let none : PayloadOutcome := (None, empty_changes) in
  match tx_data with
  | DEntryFunction entry_fn =>
    execute_entry_function entry_fn sender_move_address Metered ;;! cret none
  | DScriptOrDeployment (SScript script) =>
    execute_script script sender_move_address Metered ;;! cret none
  | DScriptOrDeployment (SModule module) =>
    charge_new_module_processing sender_move_address (Z.of_nat (length (module_code module))) ;;!
    let! deployed := cexec (deploy_module state module sender_move_address) in
    let! (id, writes) := clift deployed in
    let! deploy_changes := cexec (expect (squash empty_changes writes)) in
    cret (Some (sender_move_address, id), deploy_changes)
  | DScriptOrDeployment (SEvmContract bytecode) =>
    let! a := deploy_evm_contract bytecode (Envelope.value tx) sender_move_address Metered in
    cret (Some (to_move_address a, evm_module_id), empty_changes)
  | EoaBaseTokenTransfer to =>
    base_token_transfer base_token
      (MkTransferArgs sender_move_address (to_move_address to) (Envelope.value tx)) Metered ;;!
    cret none
  | L2Contract contract =>
    execute_evm_contract sender_move_address (to_move_address contract) (Envelope.value tx)
      (data tx) Metered ;;! cret none
  | EvmContract address data =>
    execute_evm_contract sender_move_address (to_move_address address) (Envelope.value tx)
      data Metered ;;! cret none
  end.

(** Source: execution/src/transaction.rs 357-365 [TransactionData::script_hash] *)
Definition tx_script_hash (self : TransactionData) : option B256 :=
  match self with
  | DScriptOrDeployment (SScript script) => Some (vm_keccak256 (script_bcs script))
  | _ => None
  end.

Definition session_start (s : Session) (gas_limit : Z) : Vm_ :=
  MkVm _ s (new_gas_meter gas_limit) (MkLogger [] []).

(** The changes and the logs of a session that ends, [deploy_changes] included.
    Source: execution/src/canonical.rs 301-310 [execute_canonical_transaction] *)
Definition finish_session (v : Vm_) (deploy_changes : option MoveChanges)
    : exec (result Error (Changes * list Log)) :=
  match finish_with_extensions (session v) with
  | Err e => Done (Err (from_vm_error e))
  | Ok (move_changes, events) =>
    logs ← session_logs vm_keccak256 canonical_string events [];
    move_changes ← expect (squash move_changes (extract_evm_accounts (session v)));
    move_changes ← match deploy_changes with
      | Some deploy_changes => expect (squash move_changes deploy_changes)
      | None => Done move_changes
      end;
    Done (Ok ({| move_vm := move_changes; evm := extract_evm_storage (session v) |}, logs))
  end.

(** The VM part of the execution: the payload, then the replay of the transfers
    its EVM calls made.
    Source: execution/src/canonical.rs 270-279 [execute_canonical_transaction] *)
Definition run_payload (state : MoveState) (tx : NormalizedEthTransaction)
    (base_token : MovedBaseTokenAccounts) (tx_data : TransactionData) (v : Vm_)
    : exec (result Error () * PayloadOutcome * Vm_) :=
  '(r, v) ← execute_payload state tx base_token tx_data v;
  match r with
  | Ok payload => '(vm_outcome, v) ← replicate_transfers Metered v; Done (vm_outcome, payload, v)
  | Err e => Done (Err e, (None, empty_changes), v)
  end.

(** Source: execution/src/canonical.rs 120-332 [execute_canonical_transaction] *)
Definition execute_canonical_transaction (genesis_config : GenesisConfig)
    (base_token : MovedBaseTokenAccounts) (input : CanonicalExecutionInput)
    : exec (result Error TransactionExecutionOutcome) :=
  let tx := c_tx input in
  let sender_move_address := to_move_address (signer tx) in
  match parse_from tx with
  | Err e => Done (Err e)
  | Ok tx_data =>
  match create_move_vm with
  | Err e => Done (Err (from_vm_error e))
  | Ok _ =>
    let session_id := new_from_canonical tx (maybe_entry_fn tx_data) (c_tx_hash input)
      (g_chain_id genesis_config) (c_block_header input) (tx_script_hash tx_data) in
    let v := session_start (create_vm_session session_id (c_state input) (c_storage_trie input)
      (c_block_hash_lookup input)) (l2_gas_limit (c_l2_input input)) in
    let l2_cost := sat_to 256 (l2_fee (c_l2_fee input) (c_l2_input input)) in
    '(verified, v) ← verify_transaction tx genesis_config (c_l1_cost input) l2_cost base_token v;
    match verified with
    | Err e => Done (Err e)
    | Ok _ =>
      '(vm_outcome, payload, v) ← run_payload (c_state input) tx base_token tx_data v;
      gas_used ← total_gas_used (gas_meter v);
      let price := l2_effective_gas_price (c_l2_input input) in
      let used_l2_cost := l2_fee (c_l2_fee input) (MkL2GasFeeInput gas_used price) in
      '(refunded, v) ← cmap_err (λ _, eth_token_invariant_violation RefundAlwaysSucceeds)
        (refund_gas_cost base_token sender_move_address (sat_sub l2_cost used_l2_cost)) v;
      match refunded with
      | Err e => Done (Err e)
      | Ok _ =>
        finished ← finish_session v (Some payload.2);
        match finished with
        | Err e => Done (Err e)
        | Ok (changes, logs) =>
          match vm_outcome with
          | Ok _ => Done (Ok {| vm_outcome := Ok (); changes := changes; gas_used := gas_used;
                                l2_price := price; logs := logs; deployment := payload.1 |})
          | Err (User e) => Done (Ok {| vm_outcome := Err e; changes := changes;
                                        gas_used := gas_used; l2_price := price; logs := logs;
                                        deployment := None |})
          | Err e => Done (Err e)
          end
        end
      end
    end
  end
  end.

(** ** Deposited transactions *)

(** The call of a deposit, up to its logs.
    Source: execution/src/deposited.rs 89-131 [execute_deposited_transaction] *)
Definition run_deposit (tx : TxDeposit) (args : list bytes) : cmd Vm_ Error (list Log) :=
  let! values := vm (execute_function_bypass_visibility evm_module_id EVM_DEPOSIT_FN_NAME [] args
    Metered) in
  let! evm_outcome := cexec (extract_evm_result values) in
  if negb (eo_is_success evm_outcome) then cfail (User (DepositFailure (eo_output evm_outcome))) else
  (if decide (default 0 (dep_mint tx) = 0) then cret ()
   else mint_eth EVM_NATIVE_ADDRESS (default 0 (dep_mint tx)) Metered) ;;!
  replicate_transfers Metered ;;!
  cret (eo_logs evm_outcome).

(** Source: execution/src/deposited.rs 30-160 [execute_deposited_transaction] *)
Definition execute_deposited_transaction (genesis_config : GenesisConfig)
    (input : DepositExecutionInput) : exec (result Error TransactionExecutionOutcome) :=
  let tx := d_tx input in
  match create_move_vm with
  | Err e => Done (Err (from_vm_error e))
  | Ok _ =>
    let session_id := new_from_deposited tx (d_tx_hash input) (g_chain_id genesis_config)
      (d_block_header input) in
    let v := session_start (create_vm_session session_id (d_state input) (d_storage_trie input)
      (d_block_hash_lookup input)) (dep_gas_limit tx) in
    to_address ← match dep_to tx with Call addr => Done (to_move_address addr) | Create => Panic end;
    args ← serialize_args [VAddress (to_move_address (dep_from tx)); VAddress to_address;
      VU256 (U256_to_move_u256 (dep_value tx)); vector_u8 (dep_input tx)];
    '(outcome, v) ← run_deposit tx args v;
    match outcome with
    | Err (InvalidTransaction e) => Done (Err (InvalidTransaction e))
    | Err (Invariant e) => Done (Err (Invariant e))
    | _ =>
      let '(evm_logs, vm_outcome) := match outcome with
        | Ok logs => (logs, Ok ())
        | Err (User e) => ([], Err e)
        | Err _ => ([], Ok ())
        end in
      finished ← finish_session v None;
      match finished with
      | Err e => Done (Err e)
      | Ok (changes, logs) =>
        gas_used ← total_gas_used (gas_meter v);
        Done (Ok {| vm_outcome := vm_outcome; changes := changes; gas_used := gas_used;
                    l2_price := 0; logs := logs ++ evm_logs; deployment := None |})
      end
    end
  end.

(** Source: execution/src/lib.rs 159-172 [execute_transaction] *)
Definition execute_one (genesis_config : GenesisConfig) (base_token : MovedBaseTokenAccounts)
    (input : TransactionExecutionInput) : exec (result Error TransactionExecutionOutcome) :=
  match input with
  | DepositInput input => execute_deposited_transaction genesis_config input
  | CanonicalInput input => execute_canonical_transaction genesis_config base_token input
  end.

(** The block builder's executor. *)
Definition moved_executor (genesis_config : GenesisConfig) (base_token : MovedBaseTokenAccounts)
    : Executor :=
  execute_one genesis_config base_token.

(** ** Queries outside of blocks *)

Definition quick_session (state : MoveState) (storage_trie : EvmStorage) : Vm_ :=
  session_start (create_vm_session session_id_default state storage_trie no_block_hash) 0.

(** Source: execution/src/nonces.rs 31-58 [quick_get_nonce] *)
Definition quick_get_nonce (address : AccountAddress) (state : MoveState) (storage_trie : EvmStorage)
    : exec Z :=
  match create_move_vm with
  | Err _ => Panic
  | Ok _ =>
    addr_arg ← expect (simple_serialize (VAddress address));
    '(r, _) ← get_account_nonce addr_arg Unmetered (quick_session state storage_trie);
    Done (match r with Ok nonce => nonce | Err _ => 0 end)
  end.

(** Source: execution/src/eth_token.rs 323-347 [quick_get_eth_balance] *)
Definition quick_get_eth_balance (account : AccountAddress) (state : MoveState)
    (storage_trie : EvmStorage) : exec Z :=
  match create_move_vm with
  | Err _ => Panic
  | Ok _ =>
    '(r, _) ← get_eth_balance account Unmetered (quick_session state storage_trie);
    unwrap r
  end.

(** The transaction of a request, with the sender's nonce when it has none.
    Source: execution/src/simulate.rs 87-90 [call_transaction] *)
Definition request_tx (request : TransactionRequest) (state : MoveState) (storage_trie : EvmStorage)
    : exec NormalizedEthTransaction :=
  let tx := from_request request in
  match req_from request, req_nonce request with
  | Some _, None =>
    nonce ← quick_get_nonce (to_move_address (signer tx)) state storage_trie;
    Done (MkNormalized (signer tx) (Envelope.to tx) nonce (Envelope.value tx) (data tx)
            (Envelope.chain_id tx) (gas_limit_u256 tx) (max_priority_fee_per_gas tx)
            (max_fee_per_gas tx) (access_list tx))
  | _, _ => Done tx
  end.

(** [now] and [random_hash] are the clock and the random source.
    Source: execution/src/simulate.rs 37-77 [simulate_transaction] *)
Definition simulate_transaction (request : TransactionRequest) (state : MoveState)
    (storage_trie : EvmStorage) (genesis_config : GenesisConfig)
    (base_token : MovedBaseTokenAccounts) (block_height : Z) (block_hash_lookup : Z → option B256)
    (now : Z) (random_randao random_hash : B256)
    : exec (result Error TransactionExecutionOutcome) :=
  tx ← request_tx request state storage_trie;
  execute_one genesis_config base_token (CanonicalInput
    {| c_tx := tx; c_tx_hash := random_hash; c_state := state; c_storage_trie := storage_trie;
       c_l1_cost := 1; c_l2_fee := with_default_gas_fee_multiplier;
       c_l2_input := MkL2GasFeeInput (umax 64) 0;
       c_block_header := MkHeaderForExecution block_height now random_randao;
       c_block_hash_lookup := block_hash_lookup |}).

(** Source: execution/src/simulate.rs 117-176 [call_transaction] *)
Definition call_payload_output (tx : NormalizedEthTransaction) (tx_data : TransactionData)
    : cmd Vm_ Error bytes :=
  let sender := to_move_address (signer tx) in
  match tx_data with
  | DEntryFunction entry_fn =>
    let! outcome := vm (execute_function_bypass_visibility (ef_module entry_fn)
      (ef_function entry_fn) (ef_ty_args entry_fn) (ef_args entry_fn) Metered) in
    clift (map_err from_bcs_error (return_values_bcs outcome.*1))
  | DScriptOrDeployment (SScript script) => execute_script script sender Metered ;;! cret []
  | L2Contract contract =>
    let! outcome := execute_evm_contract sender (to_move_address contract) (Envelope.value tx)
      (data tx) Metered in cret (eo_output outcome)
  | EvmContract address data =>
    let! outcome := execute_evm_contract sender (to_move_address address) (Envelope.value tx)
      data Metered in cret (eo_output outcome)
  | _ => cfail (InvalidTransaction UnsupportedType)
  end.

(** Source: execution/src/simulate.rs 79-177 [call_transaction] *)
Definition call_transaction (request : TransactionRequest) (state : MoveState)
    (storage_trie : EvmStorage) (genesis_config : GenesisConfig)
    (base_token : MovedBaseTokenAccounts) (block_hash_lookup : Z → option B256)
    : exec (result Error bytes) :=
  tx ← request_tx request state storage_trie;
  match parse_from tx with
  | Err e => Done (Err e)
  | Ok tx_data =>
  match create_move_vm with
  | Err e => Done (Err (from_vm_error e))
  | Ok _ =>
    let v := session_start (create_vm_session session_id_default state storage_trie
      block_hash_lookup) (gas_limit tx) in
    '(r, _) ← (verify_transaction tx genesis_config 0 0 base_token ;;!
               call_payload_output tx tx_data) v;
    Done r
  end
  end.

(** ** Errors *)

(** A computation that never ends in a user error. *)
Definition no_user {A} (m : cmd Vm_ Error A) : Prop := ∀ v e v', m v ≠ Done (Err (User e), v').

Lemma no_user_bind {A B} (m : cmd Vm_ Error A) (f : A → cmd Vm_ Error B) :
  no_user m → (∀ a, no_user (f a)) → no_user (cbind m f).
Proof.
  intros Hm Hf v e v' [(a & w & _ & Hb)|(e' & Ha & [= <-])]%cbind_Done; [by eapply Hf|by eapply Hm].
Qed.

Lemma no_user_map_err {E A} (g : E → Error) (m : cmd Vm_ E A) :
  (∀ e u, g e ≠ User u) → no_user (cmap_err g m).
Proof.
  intros Hg v e v' Hm. unfold cmap_err in Hm. destruct (m v) as [[[a|e'] w]|]; try done.
  injection Hm as He _. by eapply Hg.
Qed.

Lemma no_user_clift {A} (r : result Error A) : (∀ e, r ≠ Err (User e)) → no_user (clift r).
Proof. intros Hr v e v' [= ->]. by eapply Hr. Qed.

Lemma no_user_ret {A} (a : A) : no_user (cret a).
Proof. done. Qed.

Lemma no_user_cexec {A} (m : exec A) : no_user (cexec m).
Proof. intros v e v'. unfold cexec. by destruct m. Qed.

Lemma ok_or_no_user {A} (o : option A) e0 e : (∀ u, e0 ≠ User u) → ok_or o e0 ≠ Err (User e).
Proof. intros He. destruct o; simpl; naive_solver. Qed.

Lemma account_error_no_user o e u : account_error o e ≠ User u.
Proof. unfold account_error. by case_match. Qed.

Lemma get_account_nonce_no_user arg g : no_user (get_account_nonce arg g).
Proof.
  unfold get_account_nonce. apply no_user_bind; [by apply no_user_map_err|intros rv].
  apply no_user_bind; [by apply no_user_clift; intros; apply ok_or_no_user|intros [raw l]].
  apply no_user_bind; [by apply no_user_clift; intros; apply ok_or_no_user|intros v].
  by destruct v.
Qed.

Lemma check_nonce_no_user n a g : no_user (check_nonce n a g).
Proof.
  unfold check_nonce. apply no_user_bind; [apply no_user_cexec|intros arg].
  apply no_user_bind; [apply no_user_map_err, account_error_no_user|intros _].
  apply no_user_bind; [apply get_account_nonce_no_user|intros m].
  case_match; [done|]. case_match; [done|].
  apply no_user_bind; [apply no_user_map_err, account_error_no_user|intros _]. done.
Qed.

Lemma verify_no_user tx gc l1 l2 bt : no_user (verify_transaction tx gc l1 l2 bt).
Proof.
  unfold verify_transaction. case_match; [done|].
  repeat (apply no_user_bind; [by apply no_user_map_err|intros]). apply check_nonce_no_user.
Qed.

Lemma parse_from_no_user tx e : parse_from tx ≠ Err (User e).
Proof.
  unfold parse_from. destruct (Envelope.to tx) as [t|].
  - case_match; [done|]. case_decide; [done|].
    destruct (bcs_from_bytes (data tx)) as [s|]; [|done]. simpl.
    destruct s; try done. by case_decide.
  - by destruct (bcs_from_bytes (data tx)).
Qed.

Lemma finish_session_no_user v c e :
  (∀ s, is_ok (finish_with_extensions s) = true) → finish_session v c ≠ Done (Err (User e)).
Proof.
  intros Hf Hr. unfold finish_session in Hr. specialize (Hf (session v)).
  destruct (finish_with_extensions (session v)) as [[mc evs]|]; [|done].
  apply bind_Done in Hr as (logs & _ & Hr). apply bind_Done in Hr as (mc1 & _ & Hr).
  by apply bind_Done in Hr as (mc2 & _ & [=]).
Qed.

(** C7 (error): user errors never leave the execution of a transaction: whatever
    the user's code does, the result is an outcome that records the error, an
    invalid transaction, or an invariant violation, so the block builder's claim
    that user errors are handled in the execution holds as long as the VM can be
    created and sessions can be closed. *)
Theorem user_errors_are_outcomes genesis_config base_token input e :
  is_ok create_move_vm = true → (∀ s, is_ok (finish_with_extensions s) = true) →
  execute_one genesis_config base_token input ≠ Done (Err (User e)).
Proof.
  intros Hvm Hfin Hr. destruct input as [input|input]; simpl in Hr.
  - unfold execute_deposited_transaction in Hr.
    destruct create_move_vm as [?|?]; [|done].
    apply bind_Done in Hr as (to & _ & Hr). apply bind_Done in Hr as (args & _ & Hr).
    apply bind_Done in Hr as ([outcome v] & _ & Hr).
    destruct outcome as [logs|[u|c|i]]; try done;
      apply bind_Done in Hr as (fin & Hfs & Hr); destruct fin as [[ch lg]|ef];
      try (apply bind_Done in Hr as (g & _ & [=])); injection Hr as ->;
      by eapply finish_session_no_user.
  - unfold execute_canonical_transaction in Hr.
    destruct (parse_from (c_tx input)) as [d|pe] eqn:Hp.
    2:{ injection Hr as ->. by eapply parse_from_no_user. }
    destruct create_move_vm as [?|?]; [|done].
    apply bind_Done in Hr as ([ver v1] & Hv & Hr). destruct ver as [[]|ve].
    2:{ injection Hr as ->. by eapply verify_no_user. }
    apply bind_Done in Hr as ([[out pl] v2] & _ & Hr). apply bind_Done in Hr as (g & _ & Hr).
    apply bind_Done in Hr as ([ref v3] & Href & Hr). destruct ref as [[]|re].
    2:{ injection Hr as ->. eapply no_user_map_err; [|exact Href]. done. }
    apply bind_Done in Hr as (fin & Hfs & Hr). destruct fin as [[ch lg]|ef].
    2:{ injection Hr as ->. by eapply finish_session_no_user. }
    by destruct out as [[]|[u|c|i]].
Qed.

(** ** Fees *)

Section Ledger.
Context `{!EthLedger, !AccountModule}.

(** Reading and incrementing nonces moves no tokens. *)
Definition AccountsKeepBalances : Prop := ∀ f args v r v',
  execute_function_bypass_visibility account_module_id f [] args Unmetered v = Done (r, v') →
  balance (session v') = balance (session v).

Lemma charge_session {E} f v r v' :
  charge (E:=E) f v = Done (r, v') → session v' = session v.
Proof. unfold charge. destruct (f (gas_meter v)). by intros [= _ <-]. Qed.

Lemma cmap_err_Done {A E F} (g : E → F) (m : cmd Vm_ E A) v r v' :
  cmap_err g m v = Done (r, v') → ∃ r0, m v = Done (r0, v') ∧ r = map_err g r0.
Proof. unfold cmap_err. destruct (m v) as [[r0 w]|]; [|done]. intros [= <- <-]. eauto. Qed.

Lemma check_nonce_balance n a v v' : AccountsKeepBalances →
  check_nonce n a Unmetered v = Done (Ok (), v') → balance (session v') = balance (session v).
Proof.
  intros Hk Hc. unfold check_nonce, get_account_nonce in Hc.
  apply cbind_Done in Hc as [(arg & v1 & E1 & Hc)|(e & _ & [=])].
  apply cbind_Done in Hc as [(r1 & v2 & E2 & Hc)|(e & _ & [=])].
  apply cbind_Done in Hc as [(m & v3 & E3 & Hc)|(e & _ & [=])].
  assert (session v1 = session v) as S1.
  { unfold cexec in E1. destruct (expect _); [|done]. by injection E1 as _ <-. }
  apply cmap_err_Done in E2 as (r2 & E2 & _). apply Hk in E2.
  apply cbind_Done in E3 as [(rv & v4 & E4 & E3)|(e & _ & [=])].
  apply cmap_err_Done in E4 as (r4 & E4 & _). apply Hk in E4.
  apply cbind_Done in E3 as [([raw l] & v5 & E5 & E3)|(e & _ & [=])]. injection E5 as _ <-.
  apply cbind_Done in E3 as [(val & v6 & E6 & E3)|(e & _ & [=])]. injection E6 as _ <-.
  assert (v3 = v4) as -> by by destruct val; try done; injection E3.
  destruct (negb _); [done|]. destruct (m =? umax 64); [done|].
  apply cbind_Done in Hc as [(r7 & v7 & E7 & Hc)|(e & _ & [=])]. injection Hc as <-.
  apply cmap_err_Done in E7 as (r8 & E7 & _). apply Hk in E7. congruence.
Qed.

Lemma charge_gas_cost_ledger bt a amount (f : Error → Error) v v' : uint 256 amount →
  cmap_err f (charge_gas_cost bt a amount Unmetered) v = Done (Ok (), v') →
  ∀ b, balance (session v') b =
    balance (session v) b + net [MkEthTransfer a (eth_treasury bt) amount] b.
Proof.
  intros Hu (r0 & Hc & Hr)%cmap_err_Done. destruct r0 as [[]|]; [|done].
  apply transfer_eth_ledger in Hc as (Hb & _); [|done]. intros b. rewrite Hb. apply moved_net.
Qed.

(** What a verified transaction has paid. *)
Lemma verify_ledger tx gc l1 l2 bt v v' : AccountsKeepBalances → uint 256 l1 → uint 256 l2 →
  verify_transaction tx gc l1 l2 bt v = Done (Ok (), v') →
  ∀ b, balance (session v') b = balance (session v) b
    + net [MkEthTransfer (to_move_address (signer tx)) (eth_treasury bt) l1;
           MkEthTransfer (to_move_address (signer tx)) (eth_treasury bt) l2] b.
Proof.
  intros Hk Hu1 Hu2 Hv b. unfold verify_transaction in Hv.
  destruct (match Envelope.chain_id tx with Some _ => _ | None => _ end); [done|].
  apply cbind_Done in Hv as [([] & v1 & E1 & Hv)|(e & _ & [=])].
  apply cbind_Done in Hv as [([] & v2 & E2 & Hv)|(e & _ & [=])].
  apply cbind_Done in Hv as [([] & v3 & E3 & Hv)|(e & _ & [=])].
  apply check_nonce_balance in Hv; [|done].
  apply cmap_err_Done in E1 as (r1 & E1 & _).
  assert (session v1 = session v) as S1.
  { apply cbind_Done in E1 as [([] & w & Ha & Hb)|(e & Ha & _)].
    - apply charge_session in Ha, Hb. congruence.
    - by apply charge_session in Ha. }
  pose proof (charge_gas_cost_ledger _ _ _ _ _ _ Hu1 E2 b) as B2.
  pose proof (charge_gas_cost_ledger _ _ _ _ _ _ Hu2 E3 b) as B3.
  pose proof (net_app [MkEthTransfer (to_move_address (signer tx)) (eth_treasury bt) l1]
    [MkEthTransfer (to_move_address (signer tx)) (eth_treasury bt) l2] b) as Hn. simpl in Hn.
  rewrite Hv, B3, B2, S1. lia.
Qed.

(** C6 (functional): the fees of a canonical transaction that produces an
    outcome, successful or not, are exact.  Before the payload runs the sender
    pays the L1 cost and the whole L2 cost of its gas limit to the treasury; when
    it has run the treasury returns what the gas not used would have cost.  So
    outside of the payload the treasury gains, and the sender pays, the L1 cost
    and the L2 fee of the gas used (never more than that of the limit), and no
    other account is touched. *)
Theorem canonical_fees genesis_config bt input o :
  AccountsKeepBalances → uint 256 (c_l1_cost input) →
  0 ≤ gas_fee_multiplier (c_l2_fee input) → 0 ≤ l2_effective_gas_price (c_l2_input input) →
  0 ≤ l2_gas_limit (c_l2_input input) → 0 ≤ gas_used o →
  execute_canonical_transaction genesis_config bt input = Done (Ok o) →
  let sender := to_move_address (signer (c_tx input)) in
  let limit_cost := l2_fee (c_l2_fee input) (c_l2_input input) in
  let used_cost := l2_fee (c_l2_fee input)
    (MkL2GasFeeInput (gas_used o) (l2_effective_gas_price (c_l2_input input))) in
  ∃ tx_data v0 v1 v2 v3 r payload,
    parse_from (c_tx input) = Ok tx_data
    ∧ session v0 = create_vm_session (new_from_canonical (c_tx input) (maybe_entry_fn tx_data)
        (c_tx_hash input) (g_chain_id genesis_config) (c_block_header input)
        (tx_script_hash tx_data)) (c_state input) (c_storage_trie input) (c_block_hash_lookup input)
    ∧ verify_transaction (c_tx input) genesis_config (c_l1_cost input) limit_cost bt v0
        = Done (Ok (), v1)
    ∧ run_payload (c_state input) (c_tx input) bt tx_data v1 = Done (r, payload, v2)
    ∧ total_gas_used (gas_meter v2) = Done (gas_used o)
    ∧ refund_gas_cost bt sender (limit_cost - Z.min limit_cost used_cost) v2 = Done (Ok (), v3)
    ∧ finish_session v3 (Some payload.2) = Done (Ok (changes o, logs o))
    ∧ (∀ a, (balance (session v1) a - balance (session v0) a)
          + (balance (session v3) a - balance (session v2) a)
        = net [MkEthTransfer sender (eth_treasury bt)
                 (c_l1_cost input + Z.min limit_cost used_cost)] a)
    ∧ (r = Ok () ∧ vm_outcome o = Ok () ∨ ∃ u, r = Err (User u) ∧ vm_outcome o = Err u).
Proof.
  intros Hk Hl1 Hmul Hprice Hlim Hused Hr sender limit_cost used_cost. unfold execute_canonical_transaction in Hr.
  destruct (parse_from (c_tx input)) as [d|] eqn:Hp; [|done].
  destruct create_move_vm as [u0|]; [|done].
  set (v0 := session_start _ _) in Hr. fold limit_cost in Hr. fold sender in Hr.
  apply bind_Done in Hr as ([ver v1] & Hv & Hr). destruct ver as [[]|]; [|done].
  apply bind_Done in Hr as ([[out pl] v2] & Hrun & Hr). apply bind_Done in Hr as (g & Hg & Hr).
  apply bind_Done in Hr as ([ref v3] & Href & Hr). destruct ref as [[]|]; [|done].
  apply bind_Done in Hr as (fin & Hfs & Hr). destruct fin as [[ch lg]|]; [|done].
  assert (gas_used o = g ∧ changes o = ch ∧ logs o = lg
    ∧ (out = Ok () ∧ vm_outcome o = Ok () ∨ ∃ u, out = Err (User u) ∧ vm_outcome o = Err u))
    as (Hgo & Hch & Hlg & Hout).
  { destruct out as [[]|[u|c|i]]; try done; injection Hr as <-; simpl; eauto 10. }
  assert (∀ g, 0 ≤ g → 0 ≤ l2_fee (c_l2_fee input)
    (MkL2GasFeeInput g (l2_effective_gas_price (c_l2_input input)))) as Hpos.
  { intros g' Hg'. by apply (l2_fee_mono (c_l2_fee input) _ g' g'). }
  assert (0 ≤ used_cost) as HU by (unfold used_cost; apply Hpos; lia).
  assert (0 ≤ limit_cost) as HL by (specialize (Hpos (l2_gas_limit (c_l2_input input)) Hlim);
    unfold limit_cost; by destruct (c_l2_input input)).
  assert (limit_cost ≤ umax 256) as HLmax by (unfold limit_cost, l2_fee, sat_mul at 1; lia).
  rewrite (sat_to_exact 256 limit_cost) in * by (unfold umax in *; lia).
  assert (uint 256 limit_cost) as HuL by (unfold uint, umax in *; lia).
  apply cmap_err_Done in Href as (r3 & Href & Hr3). destruct r3 as [[]|]; [|done].
  replace (l2_fee _ _) with used_cost in Href by (unfold used_cost; by rewrite Hgo).
  replace (sat_sub limit_cost used_cost) with (limit_cost - Z.min limit_cost used_cost) in Href
    by (unfold sat_sub; lia).
  exists d, v0, v1, v2, v3, out, pl. rewrite Hgo, Hch, Hlg. split_and!; try done.
  intros a. pose proof (verify_ledger _ _ _ _ _ _ _ Hk Hl1 HuL Hv a) as B1.
  apply transfer_eth_ledger in Href as (B3 & _); [|unfold uint, umax in *; simpl; lia].
  specialize (B3 a). simpl in B3. rewrite B1, B3. unfold moved, net, zsum. simpl. fold sender.
  repeat case_decide; lia.
Qed.

End Ledger.
End Execution.

(** Witnesses: a plain transfer of 5 in the toy VM, whose gas meter counts what
    it charged, and a VM whose entry functions take one signer. *)
Module ExecutionWitness.
Import Envelope.Witness.
#[local] Existing Instance tx_library.
#[local] Existing Instance std_bcs.
#[local] Existing Instance sod_bcs.

#[local] Instance world : WorldState := {|
  MoveState := ToySession; MoveChanges := unit; EvmStorage := unit; EvmChanges := unit;
  StorageError := unit; state_apply := λ s _, Done (Ok s); state_root := λ _, [];
  storage_apply := λ s _, Ok s |}.

#[local] Instance library : ExecutionLibrary := {|
  create_move_vm := Ok (); create_vm_session := λ _ s _ _, s;
  session_id_default := MkSessionId [] None 0 None (MkHeaderForExecution 0 0 []);
  new_gas_meter := λ _, 0;
  charge_intrinsic_gas_for_transaction := λ _ g, (Ok (), g + 100);
  charge_io_gas_for_transaction := λ _ g, (Ok (), g + 10);
  charge_publish_request := λ _ g, (Ok (), g); charge_dependency := λ _ _ g, (Ok (), g);
  execution_gas_used := id; io_gas_used := λ _, 0; storage_fee_used_in_gas_units := λ _, 0;
  scaling_factor := 1;
  compiled_module_self_id := λ _, Err (); staged_module_bundle := λ _ _ _, Err ();
  check_module_exists := λ _ _, Ok false;
  empty_changes := (); add_module_op := λ _ _ _, Some (); squash := λ _ _, Some ();
  finish_with_extensions := λ _, Ok ((), []); extract_evm_accounts := λ _, ();
  extract_evm_storage := λ _, (); vm_keccak256 := id; canonical_string := λ _, [];
  script_bcs := λ _, []; return_values_bcs := λ _, Ok [] |}.

Definition treasury : MovedBaseTokenAccounts := MkBaseToken [200].
Definition transfer_tx : NormalizedEthTransaction :=
  MkNormalized someone (Call someone) 7 5 [] None 21000 2 100 [].
Definition toy_world : ToySession :=
  MkToy (λ a, if decide (a = to_move_address someone) then 1000000 else 0) (λ _, Some 7).
Definition transfer_input : CanonicalExecutionInput :=
  {| c_tx := transfer_tx; c_tx_hash := []; c_state := toy_world; c_storage_trie := ();
     c_l1_cost := 3; c_l2_fee := with_default_gas_fee_multiplier;
     c_l2_input := MkL2GasFeeInput 21000 2;
     c_block_header := MkHeaderForExecution 1 12 []; c_block_hash_lookup := λ _, None |}.
Definition config : GenesisConfig := MkGenesisConfig 404.
Definition transferred : TransactionExecutionOutcome :=
  {| vm_outcome := Ok (); changes := {| move_vm := (); evm := () |}; gas_used := 110;
     l2_price := 2; logs := []; deployment := None |}.

Lemma user_errors_are_outcomes_witness :
  execute_one config treasury (CanonicalInput transfer_input) ≠ Done (Err (User (PartialVm ()))).
Proof. apply user_errors_are_outcomes; done. Defined.

Lemma accounts_keep_balances : AccountsKeepBalances.
Proof.
  intros f args v r v' Hx. change (toy_account f args v = Done (r, v')) in Hx.
  unfold toy_account in Hx. destruct args as [|a [|]]; try by simplify_eq.
  repeat case_decide; repeat case_match; by simplify_eq/=.
Qed.

Lemma canonical_fees_witness :
  let input := transfer_input in let o := transferred in
  let sender := to_move_address (signer (c_tx input)) in
  let limit_cost := l2_fee (c_l2_fee input) (c_l2_input input) in
  let used_cost := l2_fee (c_l2_fee input)
    (MkL2GasFeeInput (gas_used o) (l2_effective_gas_price (c_l2_input input))) in
  limit_cost = 42000 ∧ used_cost = 220 ∧
  ∃ tx_data v0 v1 v2 v3 r payload,
    parse_from (c_tx input) = Ok tx_data
    ∧ session v0 = create_vm_session (new_from_canonical (c_tx input) (maybe_entry_fn tx_data)
        (c_tx_hash input) (g_chain_id config) (c_block_header input)
        (tx_script_hash tx_data)) (c_state input) (c_storage_trie input) (c_block_hash_lookup input)
    ∧ verify_transaction (c_tx input) config (c_l1_cost input) limit_cost treasury v0
        = Done (Ok (), v1)
    ∧ run_payload (c_state input) (c_tx input) treasury tx_data v1 = Done (r, payload, v2)
    ∧ total_gas_used (gas_meter v2) = Done (gas_used o)
    ∧ refund_gas_cost treasury sender (limit_cost - Z.min limit_cost used_cost) v2 = Done (Ok (), v3)
    ∧ finish_session v3 (Some payload.2) = Done (Ok (changes o, logs o))
    ∧ (∀ a, (balance (session v1) a - balance (session v0) a)
          + (balance (session v3) a - balance (session v2) a)
        = net [MkEthTransfer sender (eth_treasury treasury)
                 (c_l1_cost input + Z.min limit_cost used_cost)] a)
    ∧ (r = Ok () ∧ vm_outcome o = Ok () ∨ ∃ u, r = Err (User u) ∧ vm_outcome o = Err u).
Proof.
  split; [reflexivity|]. split; [reflexivity|].
  apply (canonical_fees config treasury transfer_input transferred); try done.
  apply accounts_keep_balances.
Defined.

#[local] Instance entry_vm : MoveVm := {|
  simple_serialize := toy_serialize;
  deserialize_value := λ b l, match l with LSigner => Some (VSigner b) | _ => None end;
  load_function := λ _ _ _, cret (MkLoaded _ 1 [Reference (OtherType ())]);
  load_script := λ _ _, cfail (); get_type_tag := λ _, cret TSigner;
  get_type_layout_from_ty := λ _, cret LSigner; load_type := λ _, cfail ();
  resource_exists_at := λ _ _, cret false;
  execute_function_bypass_visibility := λ _ _ _ _ _, cfail ();
  session_execute_entry_function := λ _ _ _, cret (); session_execute_script := λ _ _ _ _, cfail () |}.

Definition entry : EntryFunction := MkEntryFunction account_module_id "f" [] [someone].

Lemma executed_arguments_ok_witness :
  ∃ fn fn' v1 v2 v3,
    load_function account_module_id "f" [] toy_state = Done (Ok fn, v1)
    ∧ length (param_tys fn) = length [someone]
    ∧ arguments_checked someone (zip (param_tys fn) [someone]) v1 v2
    ∧ load_function account_module_id "f" [] v2 = Done (Ok fn', v3)
    ∧ session_execute_entry_function fn' [someone] Metered v3 = Done (Ok (), toy_state).
Proof.
  apply (executed_arguments_ok entry someone Metered toy_state toy_state).
  vm_compute. reflexivity.
Defined.

(** A signer that is not the sender is refused, and so is a missing argument. *)
Example arguments_refused :
  (∃ e v, execute_entry_function (MkEntryFunction account_module_id "f" [] [[1]]) someone Metered toy_state
     = Done (Err e, v))
  ∧ ∃ v, execute_entry_function (MkEntryFunction account_module_id "f" [] []) someone Metered toy_state
     = Done (Err (from_cause MismatchedArgumentCount), v).
Proof. split; repeat eexists. Qed.

End ExecutionWitness.
