(* ===== verification/Storage.v ===== *)
(** EVM storage: the staging database of [trie/src/staging.rs] and the storage
    tries of [evm-ext/src/state/storage.rs], one per EVM account.

    Merkle tries are third-party code: [EthTrie] is the interface of a trie
    opened on a database and [EthTrieLaws] what it documents: a trie maps keys to
    values, and the nodes a commit reports are enough to open the new root over
    the old nodes. *)
From S2P Require Import Prelude Primitives Envelope.

Local Open Scope Z_scope.

(** ** Databases *)

Abbreviation Nodes := (gmap bytes bytes).

(** A database for reading and the buffer that takes every write; the database
    also keeps the root of the trie it holds ([InMemoryDb]).
    Source: trie/src/staging.rs 10-13 [StagingEthTrieDb] *)
Record StagingEthTrieDb := MkStagingDb {
  memory : Nodes;
  inner : Nodes;
  inner_root : option B256;
}.

(** Source: evm-ext/src/state/storage.rs 254-260 [InMemoryDb::empty] *)
Definition staging_new : StagingEthTrieDb := MkStagingDb ∅ ∅ None.

(** Source: trie/src/staging.rs 27-33 [StagingEthTrieDb::get] *)
Definition staging_get (self : StagingEthTrieDb) (key : bytes) : option bytes :=
  match memory self !! key with
  | Some value => Some value
  | None => inner self !! key
  end.

(** Source: trie/src/staging.rs 35-38 [StagingEthTrieDb::insert] *)
Definition staging_insert (self : StagingEthTrieDb) (key value : bytes) : StagingEthTrieDb :=
  MkStagingDb (<[key := value]> (memory self)) (inner self) (inner_root self).

(** Source: trie/src/staging.rs 40-43 [StagingEthTrieDb::insert_batch] *)
Definition staging_insert_batch (self : StagingEthTrieDb) (entries : Nodes) : StagingEthTrieDb :=
  MkStagingDb (entries ∪ memory self) (inner self) (inner_root self).

(** Source: trie/src/staging.rs 45-48 [StagingEthTrieDb::remove] *)
Definition staging_remove (self : StagingEthTrieDb) (key : bytes) : StagingEthTrieDb :=
  MkStagingDb (delete key (memory self)) (inner self) (inner_root self).

(** What a reader of the staging database sees. *)
Definition staged (self : StagingEthTrieDb) : Nodes := memory self ∪ inner self.

Lemma staging_get_staged self key : staging_get self key = staged self !! key.
Proof.
  unfold staging_get, staged. rewrite lookup_union.
  destruct (memory self !! key), (inner self !! key); done.
Qed.

(** ** Changes *)

(** Source: evm-ext/src/state/storage.rs 158-162 [StorageTrieChanges] *)
Record StorageTrieChanges := MkTrieChanges { root : B256; trie_diff : Nodes }.

(** Source: evm-ext/src/state/storage.rs 164-172 [StorageTrieChanges::add] *)
Definition add (self rhs : StorageTrieChanges) : StorageTrieChanges :=
  MkTrieChanges (root rhs) (trie_diff rhs ∪ trie_diff self).

(** Source: evm-ext/src/state/storage.rs 127-130 [StorageTriesChanges] *)
Record StorageTriesChanges := MkTriesChanges { tries : gmap Address StorageTrieChanges }.

(** Source: evm-ext/src/state/storage.rs 142-146 [StorageTriesChanges::empty] *)
Definition tries_empty : StorageTriesChanges := MkTriesChanges ∅.

(** Source: evm-ext/src/state/storage.rs 148-155 [StorageTriesChanges::with_trie_changes] *)
Definition with_trie_changes (self : StorageTriesChanges) (address : Address)
    (changes : StorageTrieChanges) : StorageTriesChanges :=
  let changes := match tries self !! address with
    | Some old => add old changes
    | None => changes
    end in
  MkTriesChanges (<[address := changes]> (tries self)).

(** ** Tries *)

Class EthTrie := {
  Trie : Type;
  trie_new : Nodes → Trie;
  trie_from : Nodes → B256 → option Trie;
  trie_get : Trie → bytes → option bytes;
  trie_insert : bytes → bytes → Trie → Trie;
  trie_remove : bytes → Trie → Trie;
  (** [root_hash_with_changed_nodes]: the root and the nodes that changed. *)
  trie_commit : Trie → B256 * Nodes;
  (** The nodes the trie was opened on, and the hash a node is stored under. *)
  trie_nodes : Trie → Nodes;
  node_hash : bytes → bytes;
  (** [keccak256] of a storage index, and RLP of a word. *)
  index_hash : Z → bytes;
  rlp_word : Z → bytes;
  rlp_decode_word : bytes → option Z;
}.

Class EthTrieLaws `{EthTrie} : Prop := {
  trie_new_get db k : trie_get (trie_new db) k = None;
  trie_new_nodes db : trie_nodes (trie_new db) = db;
  trie_from_nodes db r t : trie_from db r = Some t → trie_nodes t = db;
  trie_insert_get k v t k' :
    trie_get (trie_insert k v t) k' = if decide (k' = k) then Some v else trie_get t k';
  trie_insert_nodes k v t : trie_nodes (trie_insert k v t) = trie_nodes t;
  trie_remove_get k t k' :
    trie_get (trie_remove k t) k' = if decide (k' = k) then None else trie_get t k';
  trie_remove_nodes k t : trie_nodes (trie_remove k t) = trie_nodes t;
  trie_commit_open t db : (trie_commit t).2 ∪ trie_nodes t ⊆ db →
    ∃ t', trie_from db (trie_commit t).1 = Some t' ∧ ∀ k, trie_get t' k = trie_get t k;
  trie_commit_hashed t k v : (trie_commit t).2 !! k = Some v → k = node_hash v;
  (** Nodes are content-addressed: a root that opens keeps its content when
      nodes are added. *)
  trie_from_mono db db' r t : db ⊆ db' → trie_from db r = Some t →
    ∃ t', trie_from db' r = Some t' ∧ ∀ k, trie_get t' k = trie_get t k;
  rlp_word_roundtrip z : uint 256 z → z ≠ 0 → rlp_decode_word (rlp_word z) = Some z;
}.

Section Storage.
Context `{EthTrie}.

(** Source: evm-ext/src/state/storage.rs 203-210 [StorageTrie::get] *)
Definition storage_get (self : Trie) (index : Z) : option (option Z) :=
  match trie_get self (index_hash index) with
  | None => Some None
  | Some bytes => value ← rlp_decode_word bytes; Some (Some value)
  end.

(** Source: evm-ext/src/state/storage.rs 212-223 [StorageTrie::insert] *)
Definition storage_insert (self : Trie) (index value : Z) : Trie :=
  if decide (value = 0) then trie_remove (index_hash index) self
  else trie_insert (index_hash index) (rlp_word value) self.

(** Source: evm-ext/src/state/storage.rs 225-227 [StorageTrie::commit] *)
Definition storage_commit (self : Trie) : StorageTrieChanges :=
  MkTrieChanges (trie_commit self).1 (trie_commit self).2.

(** The writes of an execution, in order.
    Source: evm-ext/src/state_changes.rs 175-179 [add_account_changes] *)
Definition write_slots (self : Trie) (slots : list (Z * Z)) : Trie :=
  fold_left (λ t '(index, value), storage_insert t index value) slots self.

(** Source: evm-ext/src/native_evm_context.rs 200-204 [ResolverBackedDB::storage_ref] *)
Definition storage_ref (self : Trie) (index : Z) : option Z := default 0 <$> storage_get self index.

(** ** The repository *)

(** Source: evm-ext/src/state/storage.rs 294-297 [InMemoryStorageTrieRepository] *)
Record InMemoryStorageTrieRepository := MkRepository { accounts : gmap Address StagingEthTrieDb }.

(** Source: evm-ext/src/state/storage.rs 311-320 [InMemoryStorageTrieRepository::db] *)
Definition repository_db (self : InMemoryStorageTrieRepository) (account : Address)
    : StagingEthTrieDb :=
  default staging_new (accounts self !! account).

(** Source: evm-ext/src/state/storage.rs 51-59 [StorageTrieRepository::for_account] *)
Definition for_account (self : InMemoryStorageTrieRepository) (account : Address) : option Trie :=
  let db := repository_db self account in
  match inner_root db with
  | Some root => trie_from (staged db) root
  | None => Some (trie_new (staged db))
  end.

(** Source: evm-ext/src/state/storage.rs 61-65 [StorageTrieRepository::for_account_with_root] *)
Definition for_account_with_root (self : InMemoryStorageTrieRepository) (account : Address)
    (storage_root : B256) : option Trie :=
  trie_from (staged (repository_db self account)) storage_root.

(** Source: evm-ext/src/state/storage.rs 229-246 [StorageTrie::apply] *)
Definition db_apply (db : StagingEthTrieDb) (changes : StorageTrieChanges) : StagingEthTrieDb :=
  MkStagingDb (memory db) (trie_diff changes ∪ inner db) (Some (root changes)).

(** One account's part of [apply]: it opens the account's trie first, and fails
    if it cannot.
    Source: evm-ext/src/state/storage.rs 68-70 [StorageTrieRepository::apply] *)
Definition apply_account (self : InMemoryStorageTrieRepository) (account : Address)
    (changes : StorageTrieChanges) : option InMemoryStorageTrieRepository :=
  _ ← for_account self account;
  Some (MkRepository (<[account := db_apply (repository_db self account) changes]> (accounts self))).

(** Source: evm-ext/src/state/storage.rs 67-72 [StorageTrieRepository::apply] *)
Fixpoint repository_apply (self : InMemoryStorageTrieRepository)
    (changes : list (Address * StorageTrieChanges)) : option InMemoryStorageTrieRepository :=
  match changes with
  | [] => Some self
  | (account, c) :: changes => self ← apply_account self account c; repository_apply self changes
  end.

Context `{!EthTrieLaws}.

(** The memory of an account's database only holds nodes of the same content as
    the nodes of the trie, as nodes are stored under their hash. *)
Definition agrees (db : StagingEthTrieDb) (nodes : Nodes) : Prop :=
  ∀ k v w, memory db !! k = Some v → nodes !! k = Some w → v = w.

Lemma write_slots_nodes t slots : trie_nodes (write_slots t slots) = trie_nodes t.
Proof.
  revert t. induction slots as [|[i v] slots IH]; intros t; [done|]. simpl. unfold write_slots in *.
  simpl. rewrite IH. unfold storage_insert. case_decide; by rewrite ?trie_remove_nodes, ?trie_insert_nodes.
Qed.

Lemma for_account_nodes self account t :
  for_account self account = Some t → trie_nodes t = staged (repository_db self account).
Proof.
  unfold for_account. destruct (inner_root _).
  - apply trie_from_nodes.
  - intros [= <-]. apply trie_new_nodes.
Qed.

Lemma staged_db_apply db changes : agrees db (trie_diff changes) →
  trie_diff changes ∪ staged db ⊆ staged (db_apply db changes).
Proof.
  intros Ha. unfold staged, db_apply. simpl. apply map_subseteq_spec. intros k v Hk.
  rewrite !lookup_union in *.
  destruct (trie_diff changes !! k) as [x|] eqn:Hd, (memory db !! k) as [y|] eqn:Hm,
    (inner db !! k) as [z|] eqn:Hi; simpl in *; simplify_eq; try done;
    by rewrite (Ha _ _ _ Hm Hd).
Qed.

Lemma repository_db_insert self account db account' :
  repository_db (MkRepository (<[account := db]> (accounts self))) account' =
    if decide (account' = account) then db else repository_db self account'.
Proof.
  unfold repository_db. simpl. case_decide as Ha; [subst; by rewrite lookup_insert_eq|].
  by rewrite lookup_insert_ne.
Qed.

(** Committing a trie of an account and applying the changes makes its content
    the account's stored content. *)
Lemma apply_commit self account t0 t :
  for_account self account = Some t0 → trie_nodes t = trie_nodes t0 →
  agrees (repository_db self account) (trie_commit t).2 →
  ∃ self' t', apply_account self account (storage_commit t) = Some self'
    ∧ for_account self' account = Some t' ∧ (∀ k, trie_get t' k = trie_get t k)
    ∧ ∀ account', account' ≠ account → for_account self' account' = for_account self account'.
Proof.
  intros E0 Hn Ha. unfold apply_account. rewrite E0. simpl.
  eexists. destruct (trie_commit_open t (staged (db_apply (repository_db self account) (storage_commit t))))
    as (t' & Hfrom & Hget).
  { rewrite Hn, (for_account_nodes _ _ _ E0). by apply (staged_db_apply _ (storage_commit t)). }
  exists t'. split; [done|]. split; [|split; [done|]].
  - unfold for_account. rewrite repository_db_insert, decide_True by done. done.
  - intros account' Hne. unfold for_account. by rewrite repository_db_insert, decide_False by done.
Qed.

(** The value of a slot after a list of writes: the last one wins. *)
Definition slot_after (slots : list (Z * Z)) (old : Z) (index : Z) : Z :=
  fold_left (λ acc '(i, v), if decide (index = i) then v else acc) slots old.

Lemma storage_ref_insert t index value index' :
  (∀ i j, index_hash i = index_hash j → i = j) → uint 256 value →
  storage_ref (storage_insert t index value) index' =
    if decide (index' = index) then Some value else storage_ref t index'.
Proof.
  intros Hinj Hv. unfold storage_ref, storage_get, storage_insert. case_decide as Hz.
  - rewrite trie_remove_get. destruct (decide (index' = index)) as [->|Hne].
    + rewrite decide_True by done. simpl. by rewrite Hz.
    + rewrite decide_False; [done|]. intros ?. by apply Hne, Hinj.
  - rewrite trie_insert_get. destruct (decide (index' = index)) as [->|Hne].
    + rewrite decide_True by done. by rewrite rlp_word_roundtrip.
    + rewrite decide_False; [done|]. intros ?. by apply Hne, Hinj.
Qed.

Lemma storage_ref_write t slots index old :
  (∀ i j, index_hash i = index_hash j → i = j) → Forall (λ s, uint 256 s.2) slots →
  storage_ref t index = Some old →
  storage_ref (write_slots t slots) index = Some (slot_after slots old index).
Proof.
  intros Hinj Hs. revert t old. induction Hs as [|[i v] slots Hv _ IH]; intros t old Ht; [done|].
  unfold write_slots, slot_after in *. simpl. apply IH. rewrite storage_ref_insert by done.
  by case_decide.
Qed.

(** EVM storage is durable: committing an execution's writes
    and applying the changes to the repository succeeds, and from then on the
    account's slots read as the last value written (zero deletes the slot, and a
    deleted or unknown slot reads zero), unwritten slots and other accounts read
    as before. *)
Lemma storage_writes_persist self account t0 slots index old :
  (∀ i j, index_hash i = index_hash j → i = j) → Forall (λ s, uint 256 s.2) slots →
  for_account self account = Some t0 → storage_ref t0 index = Some old →
  let t := write_slots t0 slots in
  agrees (repository_db self account) (trie_commit t).2 →
  ∃ self' t', apply_account self account (storage_commit t) = Some self'
    ∧ for_account self' account = Some t'
    ∧ storage_ref t' index = Some (slot_after slots old index)
    ∧ ∀ account', account' ≠ account → for_account self' account' = for_account self account'.
Proof.
  intros Hinj Hs E0 Hold t Ha.
  destruct (apply_commit self account t0 t E0 (write_slots_nodes _ _) Ha)
    as (self' & t' & Happ & Hfor & Hget & Hother).
  exists self', t'. split_and!; try done.
  rewrite <- (storage_ref_write t0 slots index old) by done. fold t.
  unfold storage_ref, storage_get. by rewrite Hget.
Qed.

(** The storage changes of two EVM calls in one session are
    merged by adding up their nodes under the root of the second; but both
    tries were opened on the root stored before the session, so after applying
    the merged changes a slot the second call did not write reads as before the
    session even if the first call wrote it. *)
Lemma second_call_hides_first self account t0 slots1 slots2 index old :
  (∀ i j, index_hash i = index_hash j → i = j) → Forall (λ s, uint 256 s.2) slots2 →
  for_account self account = Some t0 → storage_ref t0 index = Some old →
  index ∉ slots2.*1 →
  let t1 := write_slots t0 slots1 in let t2 := write_slots t0 slots2 in
  (∀ k v w, (trie_commit t1).2 !! k = Some v → staged (repository_db self account) !! k = Some w → v = w) →
  agrees (repository_db self account) ((trie_commit t2).2 ∪ (trie_commit t1).2) →
  ∃ changes self' t',
    tries (with_trie_changes (with_trie_changes tries_empty account (storage_commit t1)) account
      (storage_commit t2)) !! account = Some changes
    ∧ apply_account self account changes = Some self'
    ∧ for_account self' account = Some t'
    ∧ storage_ref t' index = Some old.
Proof.
  intros Hinj Hs E0 Hold Hni t1 t2 Hc Ha.
  set (changes := add (storage_commit t1) (storage_commit t2)).
  exists changes. unfold apply_account. rewrite E0. simpl.
  assert (∃ t', trie_from (staged (db_apply (repository_db self account) changes)) (trie_commit t2).1 = Some t'
    ∧ ∀ k, trie_get t' k = trie_get t2 k) as (t' & Hfrom & Hget).
  { apply trie_commit_open. unfold t2. rewrite write_slots_nodes, (for_account_nodes _ _ _ E0). fold t2.
    etrans; [|apply staged_db_apply; done]. simpl. apply map_subseteq_spec. intros k v Hk.
    rewrite !lookup_union in *. destruct ((trie_commit t2).2 !! k) as [x|] eqn:E2; simpl in *;
      [by destruct ((trie_commit t1).2 !! k), (staged (repository_db self account) !! k)|].
    destruct ((trie_commit t1).2 !! k) as [y|] eqn:E1,
      (staged (repository_db self account) !! k) as [z|] eqn:E3; simpl in *; simplify_eq; try done.
    injection Hk as <-. change (Some y = Some z). f_equal. by eapply Hc. }
  do 2 eexists. split; [|split; [done|split]].
  - unfold with_trie_changes, tries_empty. cbn [tries]. rewrite lookup_empty.
    cbn [tries]. by rewrite !lookup_insert_eq.
  - unfold for_account. rewrite repository_db_insert, decide_True by done. exact Hfrom.
  - assert (storage_ref t2 index = Some old) as <-.
    { unfold t2. rewrite (storage_ref_write t0 slots2 index old) by done. f_equal.
      clear -Hni. unfold slot_after. revert old.
      induction slots2 as [|[i v] l IH]; intros old; [done|]. simpl in *.
      rewrite decide_False by set_solver. apply IH. set_solver. }
    unfold storage_ref, storage_get. by rewrite Hget.
Qed.

End Storage.

(** Witnesses: a trie of one node, which holds the whole content, stored under
    a root of 32 bytes. *)
Module StorageWitness.

Definition toy_node (m : gmap bytes bytes) : bytes := [Z.pos (encode m)].

Definition trie_with (hash : bytes → bytes) : EthTrie := {|
  Trie := gmap bytes bytes * Nodes;
  trie_new := λ db, (∅, db);
  trie_from := λ db r, match db !! r with
    | Some [Z.pos p] => (λ m, (m, db)) <$> decode p
    | _ => None end;
  trie_get := λ t k, t.1 !! k;
  trie_insert := λ k v t, (<[k := v]> t.1, t.2);
  trie_remove := λ k t, (delete k t.1, t.2);
  trie_commit := λ t, (hash (toy_node t.1), {[ hash (toy_node t.1) := toy_node t.1 ]});
  trie_nodes := snd; node_hash := hash;
  index_hash := λ i, [i]; rlp_word := λ z, [z];
  rlp_decode_word := λ b, match b with [z] => Some z | _ => None end |}.

Lemma trie_with_laws hash : @EthTrieLaws (trie_with hash).
Proof.
  split; simpl; try done.
  - intros db r t. destruct (db !! r) as [[|[|p|p] [|]]|]; try done.
    intros Hf. apply fmap_Some in Hf as (m & _ & ->). done.
  - intros k v t k'. case_decide as Hk; [subst; by rewrite lookup_insert_eq|by rewrite lookup_insert_ne].
  - intros k t k'. case_decide as Hk; [subst; by rewrite lookup_delete_eq|by rewrite lookup_delete_ne].
  - intros t db Hsub. exists (t.1, db).
    rewrite (lookup_weaken _ _ _ (toy_node t.1) (lookup_union_Some_l _ _ _ _ (lookup_singleton_eq _ _)) Hsub).
    simpl. by rewrite decode_encode.
  - intros t k v. rewrite lookup_singleton_Some. by intros [<- <-].
  - intros db db' r t Hsub Hf. destruct (db !! r) as [b|] eqn:Hr; [|done].
    rewrite (lookup_weaken _ _ _ _ Hr Hsub). destruct b as [|[|p|p] [|]]; try done.
    apply fmap_Some in Hf as (m & -> & ->). by exists (m, db').
Qed.

(** Hashes of 32 bytes. *)
Definition toy_hash (v : bytes) : B256 := be_bytes 32 (default 0 (head v)).
#[local] Instance toy_trie : EthTrie := trie_with toy_hash.
#[local] Instance toy_trie_laws : EthTrieLaws := trie_with_laws toy_hash.

Definition contract : Address := [7].
Definition repo : InMemoryStorageTrieRepository := MkRepository ∅.

Lemma storage_writes_persist_witness :
  let t := write_slots (trie_new ∅) [(1, 5); (2, 6); (1, 0)] in
  ∃ self' t', apply_account repo contract (storage_commit t) = Some self'
    ∧ for_account self' contract = Some t'
    ∧ storage_ref t' 2 = Some (slot_after [(1, 5); (2, 6); (1, 0)] 0 2)
    ∧ ∀ account', account' ≠ contract → for_account self' account' = for_account repo account'.
Proof.
  apply (storage_writes_persist repo contract (trie_new ∅) _ 2 0); try done.
  - by intros i j [= ->].
  - by repeat constructor.
Defined.

Lemma second_call_hides_first_witness :
  let t1 := write_slots (trie_new ∅) [(1, 5)] in let t2 := write_slots (trie_new ∅) [(2, 6)] in
  ∃ changes self' t',
    tries (with_trie_changes (with_trie_changes tries_empty contract (storage_commit t1)) contract
      (storage_commit t2)) !! contract = Some changes
    ∧ apply_account repo contract changes = Some self'
    ∧ for_account self' contract = Some t'
    ∧ storage_ref t' 1 = Some 0.
Proof.
  apply (second_call_hides_first repo contract (trie_new ∅) [(1, 5)] [(2, 6)] 1 0); try done.
  - by intros i j [= ->].
  - by repeat constructor.
  - intros Hin. apply list_elem_of_singleton in Hin. done.
Defined.

End StorageWitness.
