(* ===== verification/StateTree.v ===== *)
(** The Move state and its Merkle trie ([state/src/lib.rs],
    [state/src/nodes.rs]): how a change set becomes trie updates, with EVM
    accounts keyed the way Ethereum keys them. *)
From S2P Require Import Prelude Primitives MoveTypes Envelope EthToken Storage.

Local Open Scope Z_scope.

(** A change of one module or resource. *)
Inductive ChangeOp := ChNew (b : bytes) | ChModify (b : bytes) | ChDelete.
Definition op_ok (op : ChangeOp) : option bytes :=
  match op with ChNew b | ChModify b => Some b | ChDelete => None end.

(** [ChangeSet]: per account the changed modules and resources, in the order of
    iteration. *)
Record AccountChangeSet := MkAccountChanges {
  ac_modules : list (string * ChangeOp); ac_resources : list (StructTag * ChangeOp) }.
Abbreviation ChangeSet := (list (AccountAddress * AccountChangeSet)).

Class StateKeys := {
  StateKey : Type;
  StateKey_eqdec :: EqDecision StateKey;
  StateKey_countable :: Countable StateKey;
  state_key_module : AccountAddress → string → StateKey;
  state_key_resource : AccountAddress → StructTag → option StateKey;
  encoded : StateKey → bytes;
  (** BCS of [StateValue::new_legacy]. *)
  state_value_bcs : bytes → bytes;
  key_keccak256 : bytes → bytes;
  encode_hex : Address → string;
  address_from_hex : string → option Address;
}.

Section StateTree.
Context `{StateKeys}.

(** Source: state/src/nodes.rs 21-25 [TreeKey] *)
Inductive TreeKey := KStateKey (k : StateKey) | KEvm (a : Address).

#[global] Instance TreeKey_eqdec : EqDecision TreeKey.
Proof. solve_decision. Defined.
#[global] Instance TreeKey_countable : Countable TreeKey.
Proof.
  refine (inj_countable'
    (λ k, match k with KStateKey k => inl k | KEvm a => inr a end)
    (λ s, match s with inl k => KStateKey k | inr a => KEvm a end) _).
  by intros [].
Defined.

(** Source: state/src/nodes.rs 27-37 [TreeKey::key_hash] *)
Definition key_hash (self : TreeKey) : bytes :=
  match self with
  | KStateKey key => key_keccak256 (encoded key)
  | KEvm address => key_keccak256 address
  end.

(** Source: state/src/nodes.rs 42-47 [TreeValue] *)
Inductive TreeValue := VDeleted | VStateValue (v : bytes) | VEvm (v : bytes).

(** Source: state/src/nodes.rs 49-59 [TreeValue::serialize] *)
Definition tree_value_serialize (self : TreeValue) : bytes :=
  match self with
  | VDeleted => []
  | VEvm bytes => bytes
  | VStateValue value => state_value_bcs value
  end.

(** Source: evm-ext/src/type_utils.rs 20 [ACCOUNT_INFO_PREFIX] *)
Definition ACCOUNT_INFO_PREFIX : string := "Account_".

(** Source: evm-ext/src/type_utils.rs 22-31 [account_info_struct_tag] *)
Definition account_info_struct_tag (address : Address) : StructTag :=
  MkStructTag EVM_NATIVE_ADDRESS EVM_NATIVE_MODULE (ACCOUNT_INFO_PREFIX +:+ encode_hex address) [].

(** [str::strip_prefix] *)
Fixpoint strip_prefix (prefix s : string) : option string :=
  match prefix, s with
  | EmptyString, _ => Some s
  | String a prefix, String b s => if Ascii.eqb a b then strip_prefix prefix s else None
  | _, EmptyString => None
  end.

Definition evm_module_tag (k : StructTag) : bool :=
  bool_decide (tag_address k = EVM_NATIVE_ADDRESS ∧ tag_module k = EVM_NATIVE_MODULE).

(** Source: state/src/lib.rs 258-267 [evm_key_address] *)
Definition evm_key_address (k : StructTag) : option Address :=
  if evm_module_tag k then strip_prefix ACCOUNT_INFO_PREFIX (tag_name k) ≫= address_from_hex
  else None.

(** Source: state/src/lib.rs 269-273 [is_evm_storage_or_account_key] *)
Definition is_evm_storage_or_account_key (k : StructTag) : bool :=
  evm_module_tag k && bool_decide (is_Some (strip_prefix ACCOUNT_INFO_PREFIX (tag_name k))).

(** Source: state/src/lib.rs 221-231 [ChangeSet::to_tree_values] *)
Definition module_value (address : AccountAddress) (m : string * ChangeOp) : TreeKey * TreeValue :=
  (KStateKey (state_key_module address m.1),
   match op_ok m.2 with Some v => VStateValue v | None => VDeleted end).

(** Source: state/src/lib.rs 232-252 [ChangeSet::to_tree_values] *)
Definition resource_value (address : AccountAddress) (r : StructTag * ChangeOp)
    : exec (TreeKey * TreeValue) :=
  let value := match op_ok r.2 with
    | Some v => if is_evm_storage_or_account_key r.1 then VEvm v else VStateValue v
    | None => VDeleted
    end in
  key ← match evm_key_address r.1 with
    | Some address => Done (KEvm address)
    | None => KStateKey <$> expect (state_key_resource address r.1)
    end;
  Done (key, value).

(** Source: state/src/lib.rs 215-253 [ChangeSet::to_tree_values] *)
Definition tree_value_list (self : ChangeSet) : exec (list (TreeKey * TreeValue)) :=
  (λ l, concat l) <$> exec_map (λ '(address, changes),
    (λ resources, (module_value address <$> ac_modules changes) ++ resources)
      <$> exec_map (resource_value address) (ac_resources changes)) self.

Definition collect_values (l : list (TreeKey * TreeValue)) : gmap TreeKey TreeValue :=
  fold_left (λ m '(k, v), <[k := v]> m) l ∅.

(** [collect] into a [HashMap]: the last value of a key stays.
    Source: state/src/lib.rs 213-256 [ChangeSet::to_tree_values] *)
Definition to_tree_values (self : ChangeSet) : exec (gmap TreeKey TreeValue) :=
  collect_values <$> tree_value_list self.

Context `{EthTrie, !EthTrieLaws}.

(** The trie library's [insert] takes an empty value for a removal. *)
Definition insert_or_remove (k v : bytes) (t : Trie) : Trie :=
  match v with [] => trie_remove k t | _ => trie_insert k v t end.

Context (iteration_order : gmap TreeKey TreeValue → list (TreeKey * TreeValue)).

Definition insert_values (self : Trie) (values : list (TreeKey * TreeValue)) : Trie :=
  fold_left (λ t '(k, v), insert_or_remove (key_hash k) (tree_value_serialize v) t) values self.

(** Source: state/src/lib.rs 159-172 [insert_change_set_into_merkle_trie] *)
Definition insert_change_set_into_merkle_trie (self : Trie) (change_set : ChangeSet) : exec Trie :=
  values ← to_tree_values change_set;
  Done (insert_values self (iteration_order values)).

(** Source: state/src/lib.rs 67-71 [InMemoryState] *)
Record InMemoryState (R : Type) := MkState {
  resolver : R; db : Nodes; current_state_root : option B256 }.
Arguments MkState {_} _ _ _.
Arguments resolver {_} _.
Arguments db {_} _.
Arguments current_state_root {_} _.

(** Source: state/src/lib.rs 98-104 [InMemoryState::tree] *)
Definition tree {R} (self : InMemoryState R) : exec Trie :=
  match current_state_root self with
  | None => Done (trie_new (db self))
  | Some root => expect (trie_from (db self) root)
  end.

(** [resolver_apply] is the in-memory resolver of the Move VM; the trie writes
    the nodes it changed to its database.
    Source: state/src/lib.rs 110-118 [InMemoryState::apply] *)
Definition state_apply {R E} (resolver_apply : R → ChangeSet → result E R)
    (self : InMemoryState R) (changes : ChangeSet) : exec (result E (InMemoryState R)) :=
  t ← tree self;
  t ← insert_change_set_into_merkle_trie t changes;
  let '(root, diff) := trie_commit t in
  let self := MkState (resolver self) (diff ∪ db self) (Some root) in
  match resolver_apply (resolver self) changes with
  | Ok resolver => Done (Ok (MkState resolver (db self) (current_state_root self)))
  | Err e => Done (Err e)
  end.

(** Source: state/src/lib.rs 142-144 [InMemoryState::state_root] *)
Definition state_root {R} (self : InMemoryState R) : B256 :=
  default (replicate 32 0) (current_state_root self).

(** ** What the trie holds *)

Definition stored (v : TreeValue) : option bytes :=
  match tree_value_serialize v with [] => None | b => Some b end.

Lemma insert_or_remove_get k v t k' :
  trie_get (insert_or_remove k v t) k' =
    if decide (k' = k) then match v with [] => None | _ => Some v end else trie_get t k'.
Proof. destruct v; simpl; by rewrite ?trie_remove_get, ?trie_insert_get. Qed.

Lemma insert_or_remove_nodes k v t : trie_nodes (insert_or_remove k v t) = trie_nodes t.
Proof. destruct v; simpl; by rewrite ?trie_remove_nodes, ?trie_insert_nodes. Qed.

Lemma insert_values_nodes l t : trie_nodes (insert_values t l) = trie_nodes t.
Proof.
  revert t. induction l as [|[k v] l IH]; intros t; [done|]. unfold insert_values in *. simpl.
  by rewrite IH, insert_or_remove_nodes.
Qed.

Lemma insert_values_get l t h :
  NoDup (key_hash <$> l.*1) →
  (∀ k v, (k, v) ∈ l → key_hash k = h → trie_get (insert_values t l) h = stored v)
  ∧ (h ∉ key_hash <$> l.*1 → trie_get (insert_values t l) h = trie_get t h).
Proof.
  revert t. unfold insert_values.
  induction l as [|[k v] l IH]; intros t Hnd; [split; [set_solver|done]|].
  rewrite !fmap_cons in Hnd. apply NoDup_cons in Hnd as [Hk Hnd].
  destruct (IH (insert_or_remove (key_hash k) (tree_value_serialize v) t) Hnd) as [IH1 IH2].
  simpl in *. split.
  - intros k' v' [[= -> ->]|Hin]%elem_of_cons Hh.
    + subst h. rewrite IH2 by done. rewrite insert_or_remove_get, decide_True by done.
      unfold stored. by destruct (tree_value_serialize v).
    + by apply (IH1 k' v').
  - intros [Hne Hni]%not_elem_of_cons. rewrite IH2 by done.
    by rewrite insert_or_remove_get, decide_False.
Qed.

(** The same for the values of a map, in any order. *)
Lemma insert_map_get (values : gmap TreeKey TreeValue) t h :
  (∀ m, iteration_order m ≡ₚ map_to_list m) →
  (∀ k1 k2, is_Some (values !! k1) → is_Some (values !! k2) → key_hash k1 = key_hash k2 → k1 = k2) →
  let t' := insert_values t (iteration_order values) in
  (∀ k v, values !! k = Some v → key_hash k = h → trie_get t' h = stored v)
  ∧ ((∀ k, is_Some (values !! k) → key_hash k ≠ h) → trie_get t' h = trie_get t h).
Proof.
  intros Hord Hinj t'.
  assert (NoDup (key_hash <$> (iteration_order values).*1)) as Hnd.
  { rewrite Hord. apply NoDup_fmap_2_strong; [|apply NoDup_fst_map_to_list].
    intros k1 k2 (p1 & -> & Hp1)%list_elem_of_fmap (p2 & -> & Hp2)%list_elem_of_fmap.
    destruct p1 as [k1 v1], p2 as [k2 v2]. apply elem_of_map_to_list in Hp1, Hp2.
    apply Hinj; eauto. }
  destruct (insert_values_get _ t h Hnd) as [Hin Hout]. split.
  - intros k v Hk Hh. apply (Hin k v); [|done]. rewrite Hord. by apply elem_of_map_to_list.
  - intros Hh. apply Hout. intros (k & -> & Hk)%list_elem_of_fmap.
    apply list_elem_of_fmap in Hk as ([k' v] & -> & Hp).
    rewrite Hord in Hp. apply elem_of_map_to_list in Hp. apply (Hh k'); eauto.
Qed.

(** The state trie of an open state. *)
Definition trie_of {R} (self : InMemoryState R) (t : Trie) : Prop := tree self = Done t.

Lemma trie_of_nodes {R} (self : InMemoryState R) t : trie_of self t → trie_nodes t = db self.
Proof.
  unfold trie_of, tree. destruct (current_state_root self).
  - intros Ht%expect_Done. by apply trie_from_nodes in Ht.
  - intros [= <-]. apply trie_new_nodes.
Qed.

(** The nodes of a commit and those of a database agree: nodes are stored under
    their hash. *)
Definition nodes_agree (diff nodes : Nodes) : Prop :=
  ∀ k v w, diff !! k = Some v → nodes !! k = Some w → v = w.

Lemma nodes_agree_subseteq diff nodes : nodes_agree diff nodes → nodes ⊆ diff ∪ nodes.
Proof.
  intros Ha. apply map_subseteq_spec. intros k w Hk. rewrite lookup_union, Hk.
  destruct (diff !! k) as [v|] eqn:Hd; [|done]. simpl. by rewrite (Ha k v w).
Qed.

(** Applying a change set commits exactly its updates to the state trie,
    whatever the order in which the hash map is iterated. *)
Lemma apply_changes_trie {R E} (resolver_apply : R → ChangeSet → result E R)
    (self : InMemoryState R) changes values t r :
  (∀ m, iteration_order m ≡ₚ map_to_list m) →
  to_tree_values changes = Done values →
  (∀ k1 k2, is_Some (values !! k1) → is_Some (values !! k2) → key_hash k1 = key_hash k2 → k1 = k2) →
  let t1 := insert_values t (iteration_order values) in
  nodes_agree (trie_commit t1).2 (db self) →
  trie_of self t → resolver_apply (resolver self) changes = Ok r →
  ∃ self' t', state_apply resolver_apply self changes = Done (Ok self')
    ∧ resolver self' = r ∧ db self ⊆ db self' ∧ trie_of self' t'
    ∧ current_state_root self' = Some (trie_commit t1).1
    ∧ (∀ k v, values !! k = Some v → trie_get t' (key_hash k) = stored v)
    ∧ (∀ h, (∀ k, is_Some (values !! k) → key_hash k ≠ h) → trie_get t' h = trie_get t h).
Proof.
  intros Hord Hv Hinj t1 Hagree Ht Hr. unfold state_apply. rewrite Ht. simpl.
  unfold insert_change_set_into_merkle_trie. rewrite Hv. simpl. fold t1.
  destruct (trie_commit_open t1 ((trie_commit t1).2 ∪ db self)) as (t' & Hfrom & Hget).
  { unfold t1. by rewrite insert_values_nodes, (trie_of_nodes _ _ Ht). }
  destruct (trie_commit t1) as [root diff] eqn:Hc. simpl in *. rewrite Hr.
  eexists _, t'. split; [done|]. split; [done|]. simpl.
  split; [by apply nodes_agree_subseteq|]. split; [unfold trie_of, tree; simpl; by rewrite Hfrom|].
  split; [done|]. split.
  - intros k v Hk. rewrite Hget. by apply (insert_map_get values t (key_hash k) Hord Hinj) with k.
  - intros h Hh. rewrite Hget. by apply (insert_map_get values t h Hord Hinj).
Qed.

Lemma strip_prefix_app p s : strip_prefix p (p +:+ s) = Some s.
Proof. induction p as [|c p IH]; [done|]. simpl. by rewrite Ascii.eqb_refl. Qed.

(** An EVM account is found in the state trie where Ethereum
    clients look for it: the resource that holds it is keyed by the account's
    address, so its Merkle path is the hash of the address alone, and its value
    is the account's RLP as it is, without the encoding of other Move values. *)
Lemma evm_account_key holder a op :
  address_from_hex (encode_hex a) = Some a →
  ∃ k v, resource_value holder (account_info_struct_tag a, op) = Done (k, v)
    ∧ k = KEvm a ∧ key_hash k = key_keccak256 a
    ∧ v = match op_ok op with Some account => VEvm account | None => VDeleted end
    ∧ ∀ account, op_ok op = Some account → tree_value_serialize v = account.
Proof.
  intros Hhex. unfold resource_value, evm_key_address, is_evm_storage_or_account_key, evm_module_tag.
  cbn [fst snd]. unfold account_info_struct_tag. cbn [tag_address tag_module tag_name].
  rewrite strip_prefix_app. rewrite !bool_decide_eq_true_2 by eauto. simpl. rewrite Hhex. simpl.
  do 2 eexists. split_and!; [done..|]. by intros account ->.
Qed.

End StateTree.
Arguments MkState {_} _ _ _.
Arguments resolver {_} _.
Arguments db {_} _.
Arguments current_state_root {_} _.
Arguments trie_of {_ _} _ _ : assert.

(** Witness: an EVM account. *)
Module StateTreeWitness.
#[local] Instance keys : StateKeys := {|
  StateKey := bytes; state_key_module := λ a _, a; state_key_resource := λ a _, Some (1 :: a);
  encoded := λ k, 0 :: k; state_value_bcs := λ v, 0 :: v; key_keccak256 := id;
  encode_hex := λ _, "07"; address_from_hex := λ _, Some [7] |}.

Lemma evm_account_key_witness :
  ∃ k v, resource_value address_one (account_info_struct_tag [7], ChModify [9]) = Done (k, v)
    ∧ k = KEvm [7] ∧ key_hash k = key_keccak256 [7]
    ∧ v = match op_ok (ChModify [9]) with Some account => VEvm account | None => VDeleted end
    ∧ ∀ account, op_ok (ChModify [9]) = Some account → tree_value_serialize v = account.
Proof. apply (evm_account_key address_one [7] (ChModify [9])). reflexivity. Defined.

End StateTreeWitness.
