(* ===== verification/GenesisImage.v ===== *)
(** The image of the genesis state ([genesis/src/serde.rs],
    [genesis-image/src/lib.rs], [genesis-image/build.rs]): the changes of the
    genesis state are computed once, written to a file with the build, and loaded
    from it when a node starts.

    The change sets of the Move library are maps: here their entries in the order
    of their keys.  Adding an operation to one is the library's ([EffectsOps]). *)
From stdpp Require Import sorting.
From S2P Require Import Prelude Primitives MoveTypes Envelope EthToken Storage StateTree.

Local Open Scope Z_scope.

(** ** Ordered maps *)

Section Ordered.
Context {K : Type} `{EqDecision K} (lt : relation K) `{!StrictOrder lt}.

Definition ordered {A} (l : list (K * A)) : Prop := StronglySorted (λ x y, lt x.1 y.1) l.

Lemma ordered_keys {A} (l : list (K * A)) : ordered l → NoDup l.*1.
Proof.
  induction 1 as [|x l _ IH Hx]; [constructor|]. rewrite fmap_cons. constructor; [|done].
  intros (y & Hxy & Hy)%list_elem_of_fmap. rewrite Forall_forall in Hx.
  specialize (Hx y Hy). simpl in Hx. rewrite Hxy in Hx. by apply (irreflexivity lt y.1).
Qed.

Lemma assoc_elem {A} (l : list (K * A)) k a : NoDup l.*1 → assoc k l = Some a ↔ (k, a) ∈ l.
Proof. intros Hnd. split; [apply assoc_in|by apply assoc_nodup]. Qed.

(** Ordered maps with the same entries are the same. *)
Lemma ordered_ext {A} (l1 l2 : list (K * A)) :
  ordered l1 → ordered l2 → (∀ k, assoc k l1 = assoc k l2) → l1 = l2.
Proof.
  intros H1' H2' Heq. pose proof (ordered_keys _ H1') as N1. pose proof (ordered_keys _ H2') as N2.
  eapply StronglySorted_unique_strong; [|exact H1'|exact H2'|].
  - intros x y _ _ Hxy Hyx. exfalso. apply (irreflexivity lt x.1). by transitivity y.1.
  - apply NoDup_Permutation; [by eapply NoDup_fmap_1|by eapply NoDup_fmap_1|].
    intros [k a]. rewrite <- !assoc_elem by done. by rewrite Heq.
Qed.

Lemma ordered_filter {A} (P : K * A → Prop) `{!∀ x, Decision (P x)} l : ordered l → ordered (filter P l).
Proof.
  induction 1 as [|x l _ IH Hx]; [constructor|]. rewrite filter_cons. case_decide; [|done].
  constructor; [done|]. rewrite Forall_forall in *. intros y [_ Hy]%list_elem_of_filter. by apply Hx.
Qed.

End Ordered.

(** ** Change sets of the Move library *)

(** The operation of a module or resource of an account. *)
Definition key_op (cs : ChangeSet) (a : AccountAddress) (k : string + StructTag) : option ChangeOp :=
  ac ← assoc a cs;
  match k with
  | inl name => assoc name (ac_modules ac)
  | inr tag => assoc tag (ac_resources ac)
  end.

Class EffectsOps := {
  address_lt : relation AccountAddress;
  identifier_lt : relation string;
  struct_tag_lt : relation StructTag;
  cs_add_module_op : AccountAddress → string → ChangeOp → ChangeSet → option ChangeSet;
  cs_add_resource_op : AccountAddress → StructTag → ChangeOp → ChangeSet → option ChangeSet;
  cs_squash : ChangeSet → ChangeSet → option ChangeSet;
}.

(** The maps are in the order of their keys. *)
Definition changes_ordered `{EffectsOps} (cs : ChangeSet) : Prop :=
  ordered address_lt cs
  ∧ Forall (λ p, ordered identifier_lt (ac_modules p.2) ∧ ordered struct_tag_lt (ac_resources p.2)) cs.

Definition cs_add `{EffectsOps} (a : AccountAddress) (k : string + StructTag) (op : ChangeOp)
    (cs : ChangeSet) : option ChangeSet :=
  match k with
  | inl name => cs_add_module_op a name op cs
  | inr tag => cs_add_resource_op a tag op cs
  end.

Class EffectsOrder `{EffectsOps} : Prop := {
  address_lt_strict :: StrictOrder address_lt;
  identifier_lt_strict :: StrictOrder identifier_lt;
  struct_tag_lt_strict :: StrictOrder struct_tag_lt;
}.

(** What is added is new: it is kept with what there was, in an account that is
    created when needed. *)
Class EffectsOpsLaws `{EffectsOps} : Prop := {
  effects_order :: EffectsOrder;
  cs_add_fresh a k op cs : changes_ordered cs → key_op cs a k = None →
    ∃ cs', cs_add a k op cs = Some cs' ∧ changes_ordered cs'
      ∧ (∀ a' k', key_op cs' a' k' = if decide ((a', k') = (a, k)) then Some op else key_op cs a' k')
      ∧ ∀ a', is_Some (assoc a' cs') ↔ a' = a ∨ is_Some (assoc a' cs);
  (** An operation that is there cannot be added again; a squash has operations
      where one of its parts has. *)
  cs_add_taken a k op cs : is_Some (key_op cs a k) → cs_add a k op cs = None;
  cs_squash_ops cs1 cs2 cs : changes_ordered cs1 → changes_ordered cs2 → cs_squash cs1 cs2 = Some cs →
    changes_ordered cs
    ∧ ∀ a k, is_Some (key_op cs a k) → is_Some (key_op cs1 a k) ∨ is_Some (key_op cs2 a k);
}.

(** ** The serialised changes *)

(** Source: genesis/src/serde.rs 14-22 [SerdeOp] *)
Inductive SerdeOp (T : Type) := SNew (v : T) | SModify (v : T) | SDelete.
Arguments SNew {_} _.
Arguments SModify {_} _.
Arguments SDelete {_}.

(** Source: genesis/src/serde.rs 24-28 [SerdeAccountChanges] *)
Record SerdeAccountChanges (Module Resource : Type) := MkSerdeAccount {
  sa_modules : list (string * SerdeOp Module);
  sa_resources : list (StructTag * SerdeOp Resource);
}.
Arguments MkSerdeAccount {_ _} _ _.
Arguments sa_modules {_ _} _.
Arguments sa_resources {_ _} _.

(** Source: genesis/src/serde.rs 30-33 [SerdeChanges] *)
Record SerdeChanges (Module Resource : Type) := MkSerdeChanges {
  se_accounts : list (AccountAddress * SerdeAccountChanges Module Resource) }.
Arguments MkSerdeChanges {_ _} _.
Arguments se_accounts {_ _} _.

(** Source: genesis/src/serde.rs 76-84 [SerdeOp::from] *)
Definition op_to_serde (value : ChangeOp) : SerdeOp bytes :=
  match value with
  | ChNew v => SNew v
  | ChModify v => SModify v
  | ChDelete => SDelete
  end.

(** Source: genesis/src/serde.rs 86-94 [Op::from] *)
Definition op_from_serde (value : SerdeOp bytes) : ChangeOp :=
  match value with
  | SNew v => ChNew v
  | SModify v => ChModify v
  | SDelete => ChDelete
  end.

(** Source: genesis/src/serde.rs 65-74 [SerdeAccountChanges::from] *)
Definition account_to_serde (value : AccountChangeSet) : SerdeAccountChanges bytes bytes :=
  MkSerdeAccount ((λ '(k, v), (k, op_to_serde v)) <$> ac_modules value)
    ((λ '(k, v), (k, op_to_serde v)) <$> ac_resources value).

(** Source: genesis/src/serde.rs 35-45 [SerdeChanges::from] *)
Definition changes_to_serde (value : ChangeSet) : SerdeChanges bytes bytes :=
  MkSerdeChanges ((λ '(k, v), (k, account_to_serde v)) <$> value).

Section FromSerde.
Context `{EffectsOps}.

(** Source: genesis/src/serde.rs 52-55 [ChangeSet::from] *)
Fixpoint add_modules (acc : AccountAddress) (modules : list (string * SerdeOp bytes)) (set : ChangeSet)
    : exec ChangeSet :=
  match modules with
  | [] => Done set
  | (id, op) :: modules =>
    set ← expect (cs_add_module_op acc id (op_from_serde op) set); add_modules acc modules set
  end.

(** Source: genesis/src/serde.rs 56-58 [ChangeSet::from] *)
Fixpoint add_resources (acc : AccountAddress) (resources : list (StructTag * SerdeOp bytes))
    (set : ChangeSet) : exec ChangeSet :=
  match resources with
  | [] => Done set
  | (id, op) :: resources =>
    set ← expect (cs_add_resource_op acc id (op_from_serde op) set); add_resources acc resources set
  end.

Fixpoint add_accounts (accounts : list (AccountAddress * SerdeAccountChanges bytes bytes))
    (set : ChangeSet) : exec ChangeSet :=
  match accounts with
  | [] => Done set
  | (acc, changes) :: accounts =>
    set ← add_modules acc (sa_modules changes) set;
    set ← add_resources acc (sa_resources changes) set;
    add_accounts accounts set
  end.

(** Source: genesis/src/serde.rs 47-63 [ChangeSet::from] *)
Definition changes_from_serde (value : SerdeChanges bytes bytes) : exec ChangeSet :=
  add_accounts (se_accounts value) [].

End FromSerde.

(** ** Tables *)

(** The table changes of the Move table extension; a handle is an address. *)
Record TableInfo := MkTableInfo { key_type : TypeTag; value_type : TypeTag }.
Record TableChange := MkTableChange { entries : list (bytes * ChangeOp) }.
Record TableHandle := MkHandle { handle_address : AccountAddress }.
Record TableChangeSet := MkTableChangeSet {
  new_tables : list (TableHandle * TableInfo);
  removed_tables : list TableHandle;
  table_changes : list (TableHandle * TableChange);
}.

(** Source: genesis/src/serde.rs 96-99 [SerdeTableChange] *)
Record SerdeTableChange := MkSerdeTableChange { st_entries : list (bytes * SerdeOp bytes) }.

(** Source: genesis/src/serde.rs 101-111 [SerdeTableChange::from] *)
Definition table_change_to_serde (value : TableChange) : SerdeTableChange :=
  MkSerdeTableChange ((λ '(k, v), (k, op_to_serde v)) <$> entries value).

(** Source: genesis/src/serde.rs 113-123 [TableChange::from] *)
Definition table_change_from_serde (value : SerdeTableChange) : TableChange :=
  MkTableChange ((λ '(k, v), (k, op_from_serde v)) <$> st_entries value).

(** Source: genesis/src/serde.rs 125-129 [SerdeTableInfo] *)
Record SerdeTableInfo := MkSerdeTableInfo { si_key_type : TypeTag; si_value_type : TypeTag }.

(** Source: genesis/src/serde.rs 131-138 [SerdeTableInfo::from] *)
Definition table_info_to_serde (value : TableInfo) : SerdeTableInfo :=
  MkSerdeTableInfo (key_type value) (value_type value).

(** Source: genesis/src/serde.rs 140-147 [TableInfo::from] *)
Definition table_info_from_serde (value : SerdeTableInfo) : TableInfo :=
  MkTableInfo (si_key_type value) (si_value_type value).

(** Source: genesis/src/serde.rs 149-154 [SerdeTableChangeSet] *)
Record SerdeTableChangeSet := MkSerdeTables {
  st_new_tables : list (AccountAddress * SerdeTableInfo);
  st_removed_tables : list AccountAddress;
  st_changes : list (AccountAddress * SerdeTableChange);
}.

(** Source: genesis/src/serde.rs 156-172 [SerdeTableChangeSet::from] *)
Definition tables_to_serde (value : TableChangeSet) : SerdeTableChangeSet :=
  MkSerdeTables ((λ '(k, v), (handle_address k, table_info_to_serde v)) <$> new_tables value)
    (handle_address <$> removed_tables value)
    ((λ '(k, v), (handle_address k, table_change_to_serde v)) <$> table_changes value).

(** Source: genesis/src/serde.rs 195-211 [TableChangeSet::from] *)
Definition tables_from_serde (value : SerdeTableChangeSet) : TableChangeSet :=
  MkTableChangeSet ((λ '(k, v), (MkHandle k, table_info_from_serde v)) <$> st_new_tables value)
    (MkHandle <$> st_removed_tables value)
    ((λ '(k, v), (MkHandle k, table_change_from_serde v)) <$> st_changes value).

(** ** Storage tries *)

(** Source: genesis/src/serde.rs 241-245 [SerdeEvmStorageTrieChanges] *)
Record SerdeEvmStorageTrieChanges := MkSerdeTrie { se_root : B256; se_trie_diff : gmap B256 bytes }.

(** Source: genesis/src/serde.rs 247-254 [SerdeEvmStorageTrieChanges::from] *)
Definition trie_to_serde (value : StorageTrieChanges) : SerdeEvmStorageTrieChanges :=
  MkSerdeTrie (root value) (trie_diff value).

(** Source: genesis/src/serde.rs 256-263 [StorageTrieChanges::from] *)
Definition trie_from_serde (value : SerdeEvmStorageTrieChanges) : StorageTrieChanges :=
  MkTrieChanges (se_root value) (se_trie_diff value).

(** Source: genesis/src/serde.rs 213-216 [SerdeEvmStorageTriesChanges] *)
Record SerdeEvmStorageTriesChanges := MkSerdeTries { se_tries : gmap Address SerdeEvmStorageTrieChanges }.

(** Source: genesis/src/serde.rs 218-228 [SerdeEvmStorageTriesChanges::from] *)
Definition tries_to_serde (value : StorageTriesChanges) : SerdeEvmStorageTriesChanges :=
  MkSerdeTries (trie_to_serde <$> tries value).

(** Source: genesis/src/serde.rs 230-240 [StorageTriesChanges::from] *)
Definition tries_from_serde (value : SerdeEvmStorageTriesChanges) : StorageTriesChanges :=
  MkTriesChanges (trie_from_serde <$> se_tries value).

(** Source: genesis/src/serde.rs 174-193 [SerdeAllChanges] *)
Record SerdeAllChanges := MkAllChanges {
  all_changes : SerdeChanges bytes bytes;
  all_tables : SerdeTableChangeSet;
  all_evm_storage : SerdeEvmStorageTriesChanges;
}.

(** ** The image *)

(** BCS of the serialised changes. *)
Class ImageCodec := {
  image_to_bytes : SerdeAllChanges → option bytes;
  image_from_bytes : bytes → option SerdeAllChanges;
}.
Class ImageCodecLaws `{ImageCodec} : Prop :=
  image_roundtrip c b : image_to_bytes c = Some b → image_from_bytes b = Some c.

Section Image.
Context `{EffectsOps, ImageCodec}.

(** The contents of the file, and what the build returns.
    Source: genesis-image/build.rs 22-38 [save] *)
Definition save (built : ChangeSet * TableChangeSet * StorageTriesChanges)
    : exec (bytes * (ChangeSet * TableChangeSet)) :=
  let '(changes, table_changes, evm_storage) := built in
  let changes := changes_to_serde changes in
  let tables := tables_to_serde table_changes in
  let image := MkAllChanges changes tables (tries_to_serde evm_storage) in
  contents ← expect (image_to_bytes image);
  changes ← changes_from_serde (all_changes image);
  Done (contents, (changes, tables_from_serde (all_tables image))).

(** Source: genesis-image/src/lib.rs 6-15 [load] *)
Definition load (contents : bytes) : exec (ChangeSet * TableChangeSet * StorageTriesChanges) :=
  contents ← expect (image_from_bytes contents);
  changes ← changes_from_serde (all_changes contents);
  Done (changes, tables_from_serde (all_tables contents), tries_from_serde (all_evm_storage contents)).

End Image.

(** ** Loading what was saved *)

Section Roundtrip.
Context `{EffectsOps, !EffectsOrder}.

Abbreviation Key := (string + StructTag)%type.

(** The operations of an account and of a change set, in the order of their
    iteration. *)
Definition account_entries (a : AccountAddress) (ac : AccountChangeSet)
    : list ((AccountAddress * Key) * ChangeOp) :=
  ((λ '(n, op), ((a, inl n), op)) <$> ac_modules ac) ++ ((λ '(t, op), ((a, inr t), op)) <$> ac_resources ac).
Definition flatten (cs : ChangeSet) : list ((AccountAddress * Key) * ChangeOp) :=
  cs ≫= λ '(a, ac), account_entries a ac.

Fixpoint add_entries (l : list ((AccountAddress * Key) * ChangeOp)) (set : ChangeSet) : exec ChangeSet :=
  match l with
  | [] => Done set
  | ((a, k), op) :: l => set ← expect (cs_add a k op set); add_entries l set
  end.

Lemma op_serde op : op_from_serde (op_to_serde op) = op.
Proof. by destruct op. Qed.

Lemma add_entries_app l1 l2 set :
  add_entries (l1 ++ l2) set = set ← add_entries l1 set; add_entries l2 set.
Proof.
  revert set. induction l1 as [|[[a k] op] l1 IH]; intros set; [done|]. simpl.
  destruct (cs_add a k op set); simpl; [apply IH|done].
Qed.

Lemma add_modules_entries a l set :
  add_modules a ((λ '(k, v), (k, op_to_serde v)) <$> l) set
  = add_entries ((λ '(n, op), ((a, inl n), op)) <$> l) set.
Proof.
  revert set. induction l as [|[n op] l IH]; intros set; [done|]. rewrite !fmap_cons. simpl.
  rewrite op_serde. by destruct (cs_add_module_op a n op set); simpl.
Qed.

Lemma add_resources_entries a l set :
  add_resources a ((λ '(k, v), (k, op_to_serde v)) <$> l) set
  = add_entries ((λ '(t, op), ((a, inr t), op)) <$> l) set.
Proof.
  revert set. induction l as [|[n op] l IH]; intros set; [done|]. rewrite !fmap_cons. simpl.
  rewrite op_serde. by destruct (cs_add_resource_op a n op set); simpl.
Qed.

(** The nested loops of [changes_from_serde] add the operations one by one. *)
Lemma from_serde_entries cs set :
  add_accounts (se_accounts (changes_to_serde cs)) set = add_entries (flatten cs) set.
Proof.
  revert set. induction cs as [|[a ac] cs IH]; intros set; [done|]. unfold changes_to_serde in *.
  cbn [se_accounts] in *. rewrite fmap_cons. cbn [add_accounts]. unfold flatten. rewrite bind_cons.
  rewrite add_entries_app. unfold account_entries. rewrite add_entries_app. unfold account_to_serde.
  cbn [sa_modules sa_resources]. rewrite add_modules_entries.
  destruct (add_entries _ set) as [set1|]; [|done]. cbn [mbind exec_bind]. rewrite add_resources_entries.
  destruct (add_entries _ set1) as [set2|]; [|done]. apply IH.
Qed.

Lemma add_entries_spec `{!EffectsOpsLaws} l : ∀ set, changes_ordered set → NoDup l.*1 →
  (∀ a k, (a, k) ∈ l.*1 → key_op set a k = None) →
  ∃ set', add_entries l set = Done set' ∧ changes_ordered set'
    ∧ (∀ a k, key_op set' a k = match assoc (a, k) l with Some op => Some op | None => key_op set a k end)
    ∧ ∀ a, is_Some (assoc a set') ↔ (∃ k, (a, k) ∈ l.*1) ∨ is_Some (assoc a set).
Proof.
  induction l as [|[[a k] op] l IH]; intros set Ho Hnd Hnew.
  - exists set. split; [done|]. split; [done|]. split; [done|]. set_solver.
  - apply NoDup_cons in Hnd as [Hni Hnd].
    destruct (cs_add_fresh a k op set Ho) as (set1 & Ha & Ho1 & Hk1 & Hs1); [apply Hnew; by left|].
    destruct (IH set1 Ho1 Hnd) as (set' & Ha' & Ho' & Hk' & Hs').
    { intros a' k' Hin. rewrite Hk1, decide_False; [apply Hnew; by right|]. by intros [= -> ->]. }
    exists set'. simpl. rewrite Ha. simpl. split; [done|]. split; [done|]. split.
    + intros a' k'. rewrite Hk', Hk1. destruct (decide ((a', k') = (a, k))) as [[= -> ->]|]; [|done].
      apply assoc_None in Hni. simpl in Hni. by rewrite Hni.
    + intros a'. rewrite Hs', Hs1. setoid_rewrite elem_of_cons. split.
      * intros [[k' ?]|[->|?]]; [left; exists k'; by right|left; exists k; by left|by right].
      * intros [[k' [[= -> ->]|?]]|?]; [right; by left|left; by exists k'|right; by right].
Qed.

Lemma account_entries_keys a ac : (account_entries a ac).*1
  = ((λ n, (a, inl n)) <$> (ac_modules ac).*1) ++ ((λ t, (a, inr t)) <$> (ac_resources ac).*1).
Proof.
  unfold account_entries. rewrite fmap_app, <- !list_fmap_compose.
  f_equal; apply list_fmap_ext; by intros _ [] _.
Qed.

Lemma flatten_keys cs a k : (a, k) ∈ (flatten cs).*1 → a ∈ cs.*1.
Proof.
  intros ([[a' k'] op] & [= -> ->] & Hin)%list_elem_of_fmap. unfold flatten in Hin.
  apply list_elem_of_bind in Hin as ([a ac] & Hin & Hcs).
  assert ((a', k') ∈ (account_entries a ac).*1) as Hk by (apply list_elem_of_fmap; by exists ((a', k'), op)).
  rewrite account_entries_keys in Hk. apply list_elem_of_fmap. exists (a, ac). split; [|done].
  set_solver.
Qed.

Lemma flatten_nodup cs : changes_ordered cs → NoDup (flatten cs).*1.
Proof.
  intros [Ho Hac]. apply (ordered_keys address_lt) in Ho. induction Hac as [|[a ac] cs [Hm Hr] _ IH]; [constructor|].
  apply NoDup_cons in Ho as [Hni Ho]. unfold flatten. rewrite bind_cons, fmap_app.
  apply NoDup_app. split; [|split; [|by apply IH]].
  - rewrite account_entries_keys. apply NoDup_app. split; [|split].
    + apply (NoDup_fmap_2 _). by apply (ordered_keys identifier_lt).
    + set_solver.
    + apply (NoDup_fmap_2 _). by apply (ordered_keys struct_tag_lt).
  - intros [a' k] Hin Hcs. apply flatten_keys in Hcs. rewrite account_entries_keys in Hin. set_solver.
Qed.

(** The entries are the operations. *)
Lemma flatten_key_op cs a k : changes_ordered cs → assoc (a, k) (flatten cs) = key_op cs a k.
Proof.
  intros Ho. apply option_eq. intros op. rewrite assoc_elem by by apply flatten_nodup.
  unfold flatten, key_op. destruct Ho as [Ho Hac]. rewrite list_elem_of_bind. split.
  - intros ([a' ac] & Hin & Hcs). pose proof Hcs as Hcs'. rewrite Forall_forall in Hac. destruct (Hac _ Hcs) as [Hm Hr].
    simpl in Hm, Hr.
    apply elem_of_app in Hin as [([n x] & [= -> -> ->] & Hx)%list_elem_of_fmap|([n x] & [= -> -> ->] & Hx)%list_elem_of_fmap];
      rewrite (proj2 (assoc_elem cs a' ac (ordered_keys _ _ Ho)) Hcs'); simpl;
      apply assoc_elem; by first [apply (ordered_keys identifier_lt)|apply (ordered_keys struct_tag_lt)|idtac].
  - destruct (assoc a cs) as [ac|] eqn:Ha; [|done]. apply assoc_in in Ha. simpl. intros Hk.
    exists (a, ac). split; [|done]. unfold account_entries. apply elem_of_app.
    destruct k as [n|t]; apply assoc_in in Hk; [left|right]; apply list_elem_of_fmap; by eexists (_, _).
Qed.

(** Accounts without operations are not written. *)
Definition has_changes (p : AccountAddress * AccountChangeSet) : Prop :=
  ac_modules p.2 ≠ [] ∨ ac_resources p.2 ≠ [].
#[local] Instance has_changes_dec p : Decision (has_changes p).
Proof. unfold has_changes. destruct (ac_modules p.2), (ac_resources p.2); first [by left; auto|right; naive_solver]. Defined.

Lemma assoc_filter_changes cs a : NoDup cs.*1 →
  assoc a (filter has_changes cs) = ac ← assoc a cs; if decide (has_changes (a, ac)) then Some ac else None.
Proof.
  induction cs as [|[a' ac] cs IH]; [done|]. intros [Hni Hnd]%NoDup_cons. rewrite filter_cons. simpl.
  destruct (decide (a = a')) as [->|Hne].
  - simpl. case_decide as Hc; simpl; [by rewrite decide_True|]. rewrite IH by done.
    apply assoc_None in Hni. simpl in Hni. by rewrite Hni.
  - case_decide; simpl; [|by apply IH]. rewrite decide_False by done. by apply IH.
Qed.

Lemma key_op_account cs a ac : assoc a cs = Some ac →
  ac_modules ac ≠ [] ∨ ac_resources ac ≠ [] ↔ ∃ k, is_Some (key_op cs a k).
Proof.
  unfold key_op. intros ->. simpl. split.
  - intros [H'|H']; [destruct (ac_modules ac) as [|[n op] l] eqn:E|destruct (ac_resources ac) as [|[n op] l] eqn:E]; try done.
    + exists (inl n). simpl. by rewrite decide_True.
    + exists (inr n). simpl. by rewrite decide_True.
  - intros [[n|t] [op Hk]]; [left|right]; intros E; by rewrite E in Hk.
Qed.

(** Change sets with the same operations and accounts are the same. *)
Lemma changes_ext cs1 cs2 : changes_ordered cs1 → changes_ordered cs2 →
  (∀ a k, key_op cs1 a k = key_op cs2 a k) → (∀ a, is_Some (assoc a cs1) ↔ is_Some (assoc a cs2)) →
  cs1 = cs2.
Proof.
  intros [Ho1 Hac1] [Ho2 Hac2] Hk Ha. apply (ordered_ext address_lt); [done..|]. intros a.
  pose proof (Ha a) as Ha'. destruct (assoc a cs1) as [[m1 r1]|] eqn:E1, (assoc a cs2) as [[m2 r2]|] eqn:E2;
    [|by destruct (proj1 Ha' ltac:(by eexists))|by destruct (proj2 Ha' ltac:(by eexists))|done].
  rewrite Forall_forall in Hac1, Hac2.
  destruct (Hac1 _ (assoc_in _ _ _ E1)) as [M1 R1], (Hac2 _ (assoc_in _ _ _ E2)) as [M2 R2]. simpl in *.
  unfold key_op in Hk. specialize (Hk a). rewrite E1, E2 in Hk. simpl in Hk. do 2 f_equal.
  - apply (ordered_ext identifier_lt); [done..|]. intros n. exact (Hk (inl n)).
  - apply (ordered_ext struct_tag_lt); [done..|]. intros t. exact (Hk (inr t)).
Qed.

Lemma filter_ordered cs : changes_ordered cs → changes_ordered (filter has_changes cs).
Proof.
  intros [Ho Hac]. split; [by apply ordered_filter|]. rewrite Forall_forall in *.
  intros p [_ Hp]%list_elem_of_filter. by apply Hac.
Qed.

Lemma key_op_filter cs a k : changes_ordered cs → key_op (filter has_changes cs) a k = key_op cs a k.
Proof.
  intros [Ho _]. apply (ordered_keys address_lt) in Ho. pose proof (key_op_account cs a) as Hka.
  unfold key_op at 1. rewrite assoc_filter_changes by done. unfold key_op at 1 in Hka. unfold key_op.
  destruct (assoc a cs) as [ac|] eqn:Ha; [|done]. simpl. specialize (Hka ac eq_refl).
  case_decide as Hc; [done|]. simpl. unfold has_changes in Hc. simpl in *.
  destruct k as [n|t]; [destruct (ac_modules ac) eqn:E|destruct (ac_resources ac) eqn:E]; try done; naive_solver.
Qed.

Context `{!EffectsOpsLaws, ImageCodecLaws}.

(** The change set read back. *)
Lemma changes_serde cs : changes_ordered cs →
  changes_from_serde (changes_to_serde cs) = Done (filter has_changes cs).
Proof.
  intros Ho. unfold changes_from_serde. rewrite from_serde_entries.
  destruct (add_entries_spec (flatten cs) []) as (cs' & -> & Ho' & Hk & Hs).
  { split; constructor. } { by apply flatten_nodup. } { done. }
  f_equal. apply changes_ext; [done|by apply filter_ordered| |].
  - intros a k. rewrite Hk, flatten_key_op, key_op_filter by done. by destruct (key_op cs a k).
  - intros a. rewrite Hs, assoc_filter_changes by by apply (ordered_keys address_lt), Ho.
    assert ((∃ k, (a, k) ∈ (flatten cs).*1) ↔ ∃ k, is_Some (key_op cs a k)) as ->.
    { f_equiv. intros k. rewrite <- flatten_key_op by done. rewrite <- not_eq_None_Some, assoc_None.
      split; [by intros ? ?|]. intros Hn. by apply dec_stable. }
    split.
    + intros [[k [op Hop]]|[? [=]]]. unfold key_op in Hop.
      destruct (assoc a cs) as [ac|] eqn:Ha; [|done]. simpl.
      rewrite decide_True; [done|]. apply (key_op_account cs a ac Ha). exists k. unfold key_op.
      by rewrite Ha, Hop.
    + intros Hsome. left. destruct (assoc a cs) as [ac|] eqn:Ha; simpl in *; [|by destruct Hsome].
      apply (key_op_account cs a ac Ha). by case_decide; [|destruct Hsome].
Qed.

Lemma tables_serde t : tables_from_serde (tables_to_serde t) = t.
Proof.
  destruct t as [n r c]. unfold tables_from_serde, tables_to_serde. simpl. rewrite <- !list_fmap_compose.
  f_equal; (etrans; [apply (list_fmap_ext _ id)|apply list_fmap_id]).
  - by intros _ [[a] [k v]] _.
  - by intros _ [a] _.
  - intros _ [[a] [l]] _. unfold compose, table_change_to_serde, table_change_from_serde. simpl.
    do 2 f_equal. rewrite <- list_fmap_compose. etrans; [apply (list_fmap_ext _ id)|apply list_fmap_id].
    intros _ [k op] _. simpl. by rewrite op_serde.
Qed.

Lemma tries_serde s : tries_from_serde (tries_to_serde s) = s.
Proof.
  destruct s as [m]. unfold tries_from_serde, tries_to_serde. simpl. f_equal.
  rewrite <- map_fmap_compose. etrans; [apply (map_fmap_ext _ id)|apply map_fmap_id].
  by intros a [r d] _.
Qed.

(** Accounts without changes make no update of the state trie. *)
Context `{StateKeys, EthTrie}.

Lemma filter_tree_values cs : to_tree_values (filter has_changes cs) = to_tree_values cs.
Proof.
  unfold to_tree_values. f_equal. induction cs as [|[a ac] cs IH]; [done|]. rewrite filter_cons.
  unfold tree_value_list in *. case_decide as Hc.
  - cbn [exec_map]. destruct (_ <$> exec_map (resource_value a) _); simpl; [|done].
    destruct (exec_map _ (filter _ cs)), (exec_map _ cs); simpl in *; congruence.
  - unfold has_changes in Hc. simpl in Hc. destruct ac as [[|m ms] [|r rs]]; try (exfalso; naive_solver).
    cbn [exec_map]. simpl. destruct (exec_map _ (filter _ cs)), (exec_map _ cs); simpl in *; congruence.
Qed.

(** C33 (roundtrip): a node that starts from the image starts from the state that
    was built.  Whatever change set, table changes and storage tries the build
    made, once they are written the file loads without a panic, to the same
    operations of the same modules and resources, the same tables and the same
    storage tries; and applied to any state trie the loaded changes give the trie
    the built ones give. *)
Theorem image_keeps_genesis changes tables storage file iteration_order :
  changes_ordered changes →
  image_to_bytes (MkAllChanges (changes_to_serde changes) (tables_to_serde tables) (tries_to_serde storage))
    = Some file →
  ∃ changes', save (changes, tables, storage) = Done (file, (changes', tables))
    ∧ load file = Done (changes', tables, storage)
    ∧ (∀ a k, key_op changes' a k = key_op changes a k)
    ∧ ∀ t, insert_change_set_into_merkle_trie iteration_order t changes'
        = insert_change_set_into_merkle_trie iteration_order t changes.
Proof.
  intros Ho Hb. exists (filter has_changes changes). unfold save, load.
  rewrite (image_roundtrip _ _ Hb). simpl. unfold expect. rewrite Hb. simpl.
  rewrite changes_serde, tables_serde, tries_serde by done. simpl. split_and!; [done|done| |].
  - intros a k. by apply key_op_filter.
  - intros t. unfold insert_change_set_into_merkle_trie. by rewrite filter_tree_values.
Qed.

End Roundtrip.

(** Witnesses: maps ordered by the codes of their keys, and an image kept as it
    is. *)
Module GenesisImageWitness.

(** An injective code of type tags. *)
Fixpoint type_code (t : TypeTag) : gen_tree (bytes + string) :=
  match t with
  | TBool => GenNode 0 [] | TU8 => GenNode 1 [] | TU64 => GenNode 2 [] | TU128 => GenNode 3 []
  | TAddress => GenNode 4 [] | TSigner => GenNode 5 [] | TU16 => GenNode 6 [] | TU32 => GenNode 7 []
  | TU256 => GenNode 8 []
  | TVector t => GenNode 9 [type_code t]
  | TStruct s => GenNode 10 [struct_code s]
  end
with struct_code (s : StructTag) : gen_tree (bytes + string) :=
  match s with
  | MkStructTag a m n args =>
    GenNode 11 (GenLeaf (inl a) :: GenLeaf (inr m) :: GenLeaf (inr n) :: map type_code args)
  end.

Fixpoint type_code_inj (t1 t2 : TypeTag) {struct t1} : type_code t1 = type_code t2 → t1 = t2
with struct_code_inj (s1 s2 : StructTag) {struct s1} : struct_code s1 = struct_code s2 → s1 = s2.
Proof.
  - destruct t1, t2; simpl; try done; intros [= E]; f_equal; [by apply type_code_inj|by apply struct_code_inj].
  - destruct s1 as [a1 m1 n1 args1], s2 as [a2 m2 n2 args2]. simpl. intros [= -> -> -> E]. f_equal.
    revert args2 E. induction args1 as [|t1 args1 IH]; intros [|t2 args2] E; try done.
    injection E as E1 E2. f_equal; [by apply type_code_inj|by apply IH].
Qed.

Definition by_code {K} (code : K → positive) : relation K := λ x y, (code x < code y)%positive.

#[local] Instance by_code_strict {K} (code : K → positive) : StrictOrder (by_code code).
Proof. split; [intros x; unfold complement, by_code; lia|intros x y z; unfold by_code; lia]. Qed.

Definition tag_code (s : StructTag) : positive := encode (struct_code s).
Lemma tag_code_inj s1 s2 : tag_code s1 = tag_code s2 → s1 = s2.
Proof. intros E. by apply struct_code_inj, (inj encode). Qed.

(** Insertion into an ordered map. *)
Section Insertion.
Context {K A : Type} `{EqDecision K} (code : K → positive) (code_inj : ∀ x y, code x = code y → x = y).

Fixpoint insert_at (k : K) (a : A) (l : list (K * A)) : list (K * A) :=
  match l with
  | [] => [(k, a)]
  | (k', a') :: l =>
    if decide (k = k') then (k, a) :: l
    else if (code k <? code k')%positive then (k, a) :: (k', a') :: l
    else (k', a') :: insert_at k a l
  end.

Lemma insert_at_assoc k a l k' : NoDup l.*1 →
  assoc k' (insert_at k a l) = if decide (k' = k) then Some a else assoc k' l.
Proof.
  induction l as [|[k0 a0] l IH]; simpl; [done|]. intros [Hni Hnd]%NoDup_cons.
  destruct (decide (k = k0)) as [->|Hk]; simpl; [by repeat case_decide|].
  destruct (code k <? code k0)%positive; simpl; [done|]. rewrite IH by done.
  repeat case_decide; congruence.
Qed.

Lemma insert_at_ordered k a l : ordered (by_code code) l → ordered (by_code code) (insert_at k a l).
Proof.
  induction 1 as [|[k0 a0] l Ho IH Hf]; simpl; [by repeat constructor|].
  destruct (decide (k = k0)) as [->|Hk]; [by constructor|].
  destruct (Pos.ltb_spec (code k) (code k0)) as [Hlt|Hge].
  - constructor; [by constructor|]. constructor; [done|]. eapply Forall_impl; [exact Hf|].
    intros y Hy. unfold by_code in *. simpl in *. lia.
  - constructor; [done|]. assert (code k ≠ code k0) as Hne by (intros E; by apply Hk, code_inj).
    clear -Hf Hge Hne. induction l as [|[k1 a1] l IH]; simpl.
    + repeat constructor. unfold by_code. simpl. lia.
    + apply Forall_cons in Hf as [H1' Hf]. case_decide; [subst; by constructor|].
      destruct (code k <? code k1)%positive; [|constructor; [done|by apply IH]].
      constructor; [unfold by_code; simpl; lia|by constructor].
Qed.
End Insertion.

Definition account_at (a : AccountAddress) (cs : ChangeSet) : AccountChangeSet :=
  default (MkAccountChanges [] []) (assoc a cs).
Definition add_module_at (a : AccountAddress) (n : string) (op : ChangeOp) (cs : ChangeSet) : option ChangeSet :=
  match key_op cs a (inl n) with
  | Some _ => None
  | None => Some (insert_at encode a (MkAccountChanges (insert_at encode n op (ac_modules (account_at a cs)))
      (ac_resources (account_at a cs))) cs)
  end.
Definition add_resource_at (a : AccountAddress) (t : StructTag) (op : ChangeOp) (cs : ChangeSet) : option ChangeSet :=
  match key_op cs a (inr t) with
  | Some _ => None
  | None => Some (insert_at encode a (MkAccountChanges (ac_modules (account_at a cs))
      (insert_at tag_code t op (ac_resources (account_at a cs)))) cs)
  end.

(** The operations of the second are added to the first, which fails where both
    have one. *)
Definition add_at (x : (AccountAddress * (string + StructTag)) * ChangeOp) (cs : ChangeSet) : option ChangeSet :=
  match x with
  | ((a, inl n), op) => add_module_at a n op cs
  | ((a, inr t), op) => add_resource_at a t op cs
  end.
Definition squash_at (cs1 cs2 : ChangeSet) : option ChangeSet :=
  foldl (λ cs x, cs ≫= add_at x) (Some cs1) (flatten cs2).

#[local] Instance list_effects : EffectsOps := {|
  address_lt := by_code encode; identifier_lt := by_code encode; struct_tag_lt := by_code tag_code;
  cs_add_module_op := add_module_at; cs_add_resource_op := add_resource_at; cs_squash := squash_at |}.

Lemma account_at_ordered a cs : changes_ordered cs →
  ordered (by_code encode) (ac_modules (account_at a cs))
  ∧ ordered (by_code tag_code) (ac_resources (account_at a cs)).
Proof.
  intros [_ Hac]. unfold account_at. destruct (assoc a cs) as [ac|] eqn:Ha; simpl; [|by repeat constructor].
  rewrite Forall_forall in Hac. apply (Hac (a, ac)). by apply assoc_in.
Qed.

(** An account replaced by one with an operation more. *)
Lemma insert_account_spec a ac cs : changes_ordered cs →
  ordered (by_code encode) (ac_modules ac) → ordered (by_code tag_code) (ac_resources ac) →
  changes_ordered (insert_at encode a ac cs)
  ∧ (∀ a' k, key_op (insert_at encode a ac cs) a' k =
      if decide (a' = a) then match k with inl n => assoc n (ac_modules ac) | inr t => assoc t (ac_resources ac) end
      else key_op cs a' k)
  ∧ ∀ a', is_Some (assoc a' (insert_at encode a ac cs)) ↔ a' = a ∨ is_Some (assoc a' cs).
Proof.
  intros [Ho Hac] Hm Hr. pose proof (ordered_keys _ _ Ho) as Hnd. split; [split|split].
  - apply insert_at_ordered; [|done]. intros x y. apply (inj encode).
  - clear Ho Hnd. induction Hac as [|[a0 ac0] cs H0' Hac IH]; simpl; [by repeat constructor|].
    case_decide; [by constructor|]. destruct (_ <? _)%positive; [constructor; [done|]|]; by constructor.
  - intros a' k. unfold key_op. rewrite insert_at_assoc by done. by case_decide.
  - intros a'. rewrite insert_at_assoc by done. case_decide; [split; [by left|by eexists]|naive_solver].
Qed.

Lemma key_op_at cs a k : key_op cs a k =
  match k with inl n => assoc n (ac_modules (account_at a cs)) | inr t => assoc t (ac_resources (account_at a cs)) end.
Proof. unfold key_op, account_at. by destruct (assoc a cs), k. Qed.

Lemma add_at_fresh a k op cs : changes_ordered cs → key_op cs a k = None →
  ∃ cs', add_at ((a, k), op) cs = Some cs' ∧ changes_ordered cs'
    ∧ (∀ a' k', key_op cs' a' k' = if decide ((a', k') = (a, k)) then Some op else key_op cs a' k')
    ∧ ∀ a', is_Some (assoc a' cs') ↔ a' = a ∨ is_Some (assoc a' cs).
Proof.
  intros Ho Hk. destruct (account_at_ordered a cs Ho) as [Hm Hr].
  destruct k as [n|t]; simpl; unfold add_module_at, add_resource_at; rewrite Hk; eexists; (split; [reflexivity|]).
  - destruct (insert_account_spec a (MkAccountChanges (insert_at encode n op (ac_modules (account_at a cs)))
      (ac_resources (account_at a cs))) cs Ho) as (Ho' & Hk' & Hs');
      [apply insert_at_ordered; [intros ? ?; apply (inj encode)|done]|done|].
    split; [done|]. split; [|done]. intros a' k'. rewrite Hk'. destruct (decide (a' = a)) as [->|Hne];
      [|rewrite (decide_False (P := (a', k') = _)) by congruence; done].
    rewrite (key_op_at cs a k'). destruct k' as [n'|t']; simpl.
    + rewrite insert_at_assoc by by eapply (ordered_keys (by_code encode)). repeat case_decide; congruence.
    + by rewrite decide_False.
  - destruct (insert_account_spec a (MkAccountChanges (ac_modules (account_at a cs))
      (insert_at tag_code t op (ac_resources (account_at a cs)))) cs Ho) as (Ho' & Hk' & Hs');
      [done|apply insert_at_ordered; [apply tag_code_inj|done]|].
    split; [done|]. split; [|done]. intros a' k'. rewrite Hk'. destruct (decide (a' = a)) as [->|Hne];
      [|rewrite (decide_False (P := (a', k') = _)) by congruence; done].
    rewrite (key_op_at cs a k'). destruct k' as [n'|t']; simpl.
    + by rewrite decide_False.
    + rewrite insert_at_assoc by by eapply (ordered_keys (by_code tag_code)). repeat case_decide; congruence.
Qed.

Lemma add_at_taken a k op cs : is_Some (key_op cs a k) → add_at ((a, k), op) cs = None.
Proof.
  intros [op' Hk]. destruct k as [n|t]; simpl; unfold add_module_at, add_resource_at; by rewrite Hk.
Qed.

Lemma foldl_None l : foldl (λ cs x, cs ≫= add_at x) None l = None.
Proof. induction l; [done|]. by simpl. Qed.

Lemma squash_entries l : ∀ cs1 cs, changes_ordered cs1 → foldl (λ cs x, cs ≫= add_at x) (Some cs1) l = Some cs →
  changes_ordered cs ∧ ∀ a k, is_Some (key_op cs a k) → is_Some (key_op cs1 a k) ∨ (a, k) ∈ l.*1.
Proof.
  induction l as [|[[a k] op] l IH]; intros cs1 cs Ho Hf.
  - injection Hf as <-. split; [done|]. by left.
  - cbn [foldl mbind option_bind] in Hf. destruct (key_op cs1 a k) as [op'|] eqn:Hk.
    + rewrite add_at_taken in Hf by (rewrite Hk; by eexists). by rewrite foldl_None in Hf.
    + destruct (add_at_fresh a k op cs1 Ho Hk) as (cs' & Ha & Ho' & Hk' & _). rewrite Ha in Hf.
      destruct (IH cs' cs Ho' Hf) as [Hoc Hin]. split; [done|]. intros a' k' Hs.
      rewrite fmap_cons, elem_of_cons. destruct (Hin a' k' Hs) as [Hs'|]; [|by right; right].
      rewrite Hk' in Hs'. case_decide as Heq; [right; by left|by left].
Qed.

#[local] Instance list_effects_order : EffectsOrder.
Proof. split; apply _. Qed.

#[local] Instance list_effects_laws : EffectsOpsLaws.
Proof.
  split; [apply _|..].
  - intros a k op cs. replace (cs_add a k op cs) with (add_at ((a, k), op) cs) by by destruct k.
    apply add_at_fresh.
  - intros a k op cs. replace (cs_add a k op cs) with (add_at ((a, k), op) cs) by by destruct k.
    apply add_at_taken.
  - intros cs1 cs2 cs Ho1 Ho2 Hs. destruct (squash_entries _ _ _ Ho1 Hs) as [Ho Hin]. split; [done|].
    intros a k Hk. destruct (Hin a k Hk) as [|Hf]; [by left|]. right.
    rewrite <- flatten_key_op by done. rewrite <- not_eq_None_Some, assoc_None. intros Hn. by apply Hn.
Qed.

(** The codec of images of two accounts, the first with one module. *)
Definition module_image (a1 a2 : AccountAddress) (v : bytes) : SerdeAllChanges :=
  MkAllChanges (MkSerdeChanges [(a1, MkSerdeAccount [("coin"%string, SNew v)] []); (a2, MkSerdeAccount [] [])])
    (MkSerdeTables [] [] []) (MkSerdeTries ∅).

#[local] Instance module_codec : ImageCodec := {|
  image_to_bytes := λ c, match c with
    | MkAllChanges (MkSerdeChanges [(a1, MkSerdeAccount [(n, SNew v)] []); (a2, MkSerdeAccount [] [])])
        (MkSerdeTables [] [] []) (MkSerdeTries t) =>
      if decide (n = "coin"%string ∧ size t = 0%nat)
      then Some (Z.of_nat (length a1) :: Z.of_nat (length a2) :: a1 ++ a2 ++ v) else None
    | _ => None end;
  image_from_bytes := λ b, match b with
    | n1 :: n2 :: b => Some (module_image (take (Z.to_nat n1) b) (take (Z.to_nat n2) (drop (Z.to_nat n1) b))
                               (drop (Z.to_nat n2) (drop (Z.to_nat n1) b)))
    | _ => None end |}.

#[local] Instance module_codec_laws : ImageCodecLaws.
Proof.
  intros [[accounts] [[|] [|] [|]] [t]] b Hb; simpl in Hb;
    repeat (case_match; simplify_eq; try done).
  cbn [image_from_bytes module_codec]. rewrite !Nat2Z.id, take_app_length, !drop_app_length, take_app_length.
  destruct_and!. subst. unfold module_image. do 3 f_equal. symmetry. by apply map_size_empty_inv.
Qed.

Definition empty_account : AccountAddress := replicate 32 2.
Definition built : ChangeSet :=
  [(address_one, MkAccountChanges [("coin"%string, ChNew [1; 2; 3])] []);
   (empty_account, MkAccountChanges [] [])].
Definition image_file : bytes := 32 :: 32 :: address_one ++ empty_account ++ [1; 2; 3].

Lemma built_ordered : changes_ordered built.
Proof.
  split.
  - repeat constructor.
  - repeat constructor.
Qed.

#[local] Existing Instance StateTreeWitness.keys.
#[local] Existing Instance StorageWitness.toy_trie.

Lemma image_keeps_genesis_witness :
  ∃ changes', save (built, MkTableChangeSet [] [] [], tries_empty) = Done (image_file, (changes', MkTableChangeSet [] [] []))
    ∧ load image_file = Done (changes', MkTableChangeSet [] [] [], tries_empty)
    ∧ (∀ a k, key_op changes' a k = key_op built a k)
    ∧ ∀ t, insert_change_set_into_merkle_trie map_to_list t changes'
        = insert_change_set_into_merkle_trie map_to_list t built.
Proof.
  apply (image_keeps_genesis built (MkTableChangeSet [] [] []) tries_empty image_file map_to_list);
    [apply built_ordered|reflexivity].
Defined.

(** The account without changes is not in the image. *)
Example empty_account_dropped : match load image_file with
  | Done (changes, _, _) => changes = [(address_one, MkAccountChanges [("coin"%string, ChNew [1; 2; 3])] [])]
  | Panic => False end.
Proof. vm_compute. done. Qed.

End GenesisImageWitness.
