(* ===== verification/EvmState.v ===== *)
(** EVM accounts and code as Move resources: the EVM's database over a Move
    resolver ([evm-ext/src/native_evm_context.rs], [state/account.rs]) and the Move
    changes of a session made from what its EVM calls changed
    ([evm-ext/src/state_changes.rs]).

    The change sets of the Move library and the RLP of accounts are third-party
    code: [ChangeSetLibrary] and [EvmStateLibrary], with what is relied on of
    them. *)
From S2P Require Import Prelude Primitives MoveTypes Errors Envelope EthToken Application Events.
From S2P Require Import Storage StateTree.

Local Open Scope Z_scope.

(** ** Accounts *)

(** [alloy::consensus::Account]
    Source: evm-ext/src/state/account.rs 10-13 [Account] *)
Record Account := MkAccount {
  acc_nonce : Z; acc_balance : Z; acc_storage_root : B256; acc_code_hash : B256 }.

(** Source: evm-ext/src/state/account.rs 16-25 [Account::new] *)
Definition account_new (nonce balance : Z) (code_hash storage_root : B256) : Account :=
  MkAccount nonce balance storage_root code_hash.

(** [revm::state::AccountInfo]; a [Bytecode] is its original bytes. *)
Record AccountInfo := MkInfo {
  ai_balance : Z; ai_nonce : Z; ai_code_hash : B256; ai_code : option bytes }.

(** Source: evm-ext/src/state/account.rs 37-46 [From<Account> for AccountInfo] *)
Definition account_info_from (value : Account) : AccountInfo :=
  MkInfo (acc_balance value) (acc_nonce value) (acc_code_hash value) None.

Class EvmStateLibrary `{ErrorTypes} := {
  rlp_encode_account : Account → bytes;
  rlp_decode_account : bytes → option Account;
  bytecode_hash_slow : bytes → B256;
  keccak_empty : B256;
  (** A byte vector under [CODE_LAYOUT], and back. *)
  code_serialize : bytes → option bytes;
  code_deserialize : bytes → option bytes;
  hash_encode_hex : B256 → string;
  (** [StatusCode::MISSING_DATA] *)
  missing_data : string → PartialVMError;
}.

(** The ranges of the fields, for which the encoding is invertible. *)
Definition account_typed (a : Account) : Prop :=
  uint 64 (acc_nonce a) ∧ uint 256 (acc_balance a)
  ∧ bytes_len 32 (acc_storage_root a) ∧ bytes_len 32 (acc_code_hash a).

Class EvmStateLaws `{EvmStateLibrary} : Prop := {
  rlp_account_roundtrip a : account_typed a → rlp_decode_account (rlp_encode_account a) = Some a;
  rlp_account_nonempty a : rlp_encode_account a ≠ [];
  code_roundtrip c b : code_serialize c = Some b → code_deserialize b = Some c;
}.

(** A [MoveResolver]: the bytes of a resource and their length. *)
Record Resolver `{ErrorTypes} := MkResolver {
  get_module : AccountAddress → string → exec (result PartialVMError (option bytes));
  get_resource : AccountAddress → StructTag → exec (result PartialVMError (option bytes * Z));
}.

(** The change sets of the Move library.  [add_resource_op] refuses a resource
    that has an operation; [squash] merges the operations of the second into the
    first, when every one in both is a modification of the second. *)
Definition op_of (cs : AccountChangeSet) (tag : StructTag) : option ChangeOp :=
  assoc tag (ac_resources cs).

Definition modified (first second : ChangeOp) : option ChangeOp :=
  match first, second with
  | ChNew _, ChModify b => Some (ChNew b)
  | ChModify _, ChModify b => Some (ChModify b)
  | _, _ => None
  end.
Definition merged (first second : option ChangeOp) : option ChangeOp :=
  match first, second with
  | Some x, Some y => modified x y
  | Some x, None => Some x
  | None, y => y
  end.

(** Changes of resources only, one for each. *)
Definition resources_only (cs : AccountChangeSet) : Prop :=
  ac_modules cs = [] ∧ NoDup (ac_resources cs).*1.

Class ChangeSetLibrary := {
  changes_empty : AccountChangeSet;
  add_resource_op : StructTag → ChangeOp → AccountChangeSet → option AccountChangeSet;
  squash_changes : AccountChangeSet → AccountChangeSet → option AccountChangeSet;
  add_account_changeset : AccountAddress → AccountChangeSet → ChangeSet → option ChangeSet;
}.

Class ChangeSetLaws `{ChangeSetLibrary} : Prop := {
  changes_empty_resources : ac_resources changes_empty = [];
  changes_empty_modules : ac_modules changes_empty = [];
  add_resource_op_old tag op cs : is_Some (op_of cs tag) → add_resource_op tag op cs = None;
  add_resource_op_new tag op cs : op_of cs tag = None → resources_only cs →
    ∃ cs', add_resource_op tag op cs = Some cs' ∧ resources_only cs'
      ∧ ∀ t, op_of cs' t = if decide (t = tag) then Some op else op_of cs t;
  squash_modified cs1 cs2 : resources_only cs1 → resources_only cs2 →
    (∀ t x y, op_of cs1 t = Some x → op_of cs2 t = Some y → is_Some (modified x y)) →
    ∃ cs, squash_changes cs1 cs2 = Some cs ∧ resources_only cs
      ∧ ∀ t, op_of cs t = merged (op_of cs1 t) (op_of cs2 t);
  add_account_changeset_new a cs : add_account_changeset a cs [] = Some [(a, cs)];
}.

(** ** The EVM's database *)

Section EvmDb.
Context `{StateKeys, ErrorTypes, !EvmStateLibrary}.

(** Source: evm-ext/src/state/account.rs 27-29 [Account::serialize] *)
Definition account_serialize (self : Account) : bytes := rlp_encode_account self.

(** Source: evm-ext/src/state/account.rs 31-34 [Account::try_deserialize] *)
Definition account_try_deserialize (b : bytes) : option Account := rlp_decode_account b.

(** Source: evm-ext/src/type_utils.rs 33-42 [code_hash_struct_tag] *)
Definition code_hash_struct_tag (code_hash : B256) : StructTag :=
  MkStructTag EVM_NATIVE_ADDRESS EVM_NATIVE_MODULE ("CodeHash_" +:+ hash_encode_hex code_hash) [].

(** Source: evm-ext/src/native_evm_context.rs 114-131 [ResolverBackedDB::get_account] *)
Definition get_account (resolver : Resolver) (address : Address)
    : exec (result PartialVMError (option Account)) :=
  let struct_tag := account_info_struct_tag address in
  resource ← get_resource resolver EVM_NATIVE_ADDRESS struct_tag;
  match resource with
  | Err e => Done (Err e)
  | Ok (None, _) => Done (Ok None)
  | Ok (Some bytes, _) =>
    value ← expect (account_try_deserialize bytes);
    Done (Ok (Some value))
  end.

(** Source: evm-ext/src/native_evm_context.rs 165-169 [ResolverBackedDB::basic_ref] *)
Definition basic_ref (resolver : Resolver) (address : Address)
    : exec (result PartialVMError (option AccountInfo)) :=
  value ← get_account resolver address;
  match value with
  | Ok (Some value) => Done (Ok (Some (account_info_from value)))
  | Ok None => Done (Ok None)
  | Err e => Done (Err e)
  end.

(** Source: evm-ext/src/native_evm_context.rs 171-198 [ResolverBackedDB::code_by_hash_ref] *)
Definition code_by_hash_ref (resolver : Resolver) (code_hash : B256)
    : exec (result PartialVMError bytes) :=
  if decide (code_hash = keccak_empty) then Done (Ok []) else
  let struct_tag := code_hash_struct_tag code_hash in
  resource ← get_resource resolver EVM_NATIVE_ADDRESS struct_tag;
  match resource with
  | Err e => Done (Err e)
  | Ok (None, _) => Done (Err (missing_data (tag_name struct_tag)))
  | Ok (Some resource, _) =>
    value ← expect (code_deserialize resource);
    Done (Ok value)
  end.

End EvmDb.

(** The block an EVM call runs in. *)
Record BlockEnv := MkBlockEnv {
  be_number : Z; be_beneficiary : Address; be_timestamp : Z; be_gas_limit : Z; be_basefee : Z;
  be_difficulty : Z; be_prevrandao : option B256; be_excess_blob_gas : Z; be_blob_gasprice : Z }.

(** Source: evm-ext/src/native_evm_context.rs 74-88 [NativeEVMContext::block_env] *)
Definition block_env (block_header : HeaderForExecution) : BlockEnv :=
  {| be_number := hx_number block_header; be_beneficiary := replicate 20 0;
     be_timestamp := hx_timestamp block_header; be_gas_limit := umax 64; be_basefee := 0;
     be_difficulty := 0; be_prevrandao := Some (hx_prev_randao block_header);
     be_excess_blob_gas := 0; be_blob_gasprice := 0 |}.

(** ** The changes of a session *)

(** [revm::state::Account]: the account after an EVM call, with the slots
    [changed_storage_slots] yields and the two flags read here. *)
Record EvmAccount := MkEvmAccount {
  ea_info : AccountInfo;
  ea_changed_storage_slots : list (Z * Z);
  ea_is_touched : bool;
  ea_is_selfdestructed : bool;
}.

(** Source: evm-ext/src/state_changes.rs 21-25 [Changes] *)
Record SessionChanges := MkSessionChanges {
  sc_accounts : ChangeSet;
  sc_storage : StorageTriesChanges;
}.

(** [alloy::genesis::GenesisAccount] *)
Record GenesisAccount := MkGenesisAccount {
  ga_nonce : option Z; ga_balance : Z; ga_code : option bytes;
  ga_storage : option (list (bytes * bytes)) }.

Section Changes.
Context `{StateKeys, ErrorTypes, !EvmStateLibrary, ChangeSetLibrary, EthTrie}.
Context (resolver : Resolver) (storage_trie : InMemoryStorageTrieRepository).

(** Source: evm-ext/src/state_changes.rs 156-173 [add_account_changes] *)
Definition resource_exists (prior_changes : AccountChangeSet) (struct_tag : StructTag) : exec bool :=
  if decide (is_Some (op_of prior_changes struct_tag)) then Done true else
  r ← get_resource resolver EVM_NATIVE_ADDRESS struct_tag;
  Done (match r with Ok (x, _) => bool_decide (is_Some x) | Err _ => false end).

(** The stored account after its storage was committed.
    Source: evm-ext/src/state_changes.rs 182-190 [add_account_changes] *)
Definition account_bytes (info : AccountInfo) (storage_root : B256) : bytes :=
  account_serialize (account_new (ai_nonce info) (ai_balance info) (ai_code_hash info) storage_root).

Definition account_code_hash (info : AccountInfo) : B256 :=
  get_account_code_hash bytecode_hash_slow keccak_empty (ai_code info) (ai_code_hash info).

(** Source: evm-ext/src/state_changes.rs 201-220 [add_account_changes] *)
Definition add_code (info : AccountInfo) (prior_changes result : AccountChangeSet)
    : exec AccountChangeSet :=
  let struct_tag := code_hash_struct_tag (account_code_hash info) in
  code_resource_exists ← resource_exists prior_changes struct_tag;
  match code_resource_exists, ai_code info with
  | false, Some (b :: code) =>
    code ← expect (code_serialize (b :: code));
    Done (default result (add_resource_op struct_tag (ChNew code) result))
  | _, _ => Done result
  end.

(** Source: evm-ext/src/state_changes.rs 136-223 [add_account_changes] *)
Definition add_account_changes (address : Address) (account : EvmAccount)
    (prior_changes result : AccountChangeSet) : exec (AccountChangeSet * StorageTrieChanges) :=
  storage ← expect (for_account storage_trie address);
  let storage_changes := storage_commit (write_slots storage (ea_changed_storage_slots account)) in
  let struct_tag := account_info_struct_tag address in
  let account_bytes := account_bytes (ea_info account) (root storage_changes) in
  exists_ ← resource_exists prior_changes struct_tag;
  let op := if exists_ : bool then ChModify account_bytes else ChNew account_bytes in
  result ← expect (add_resource_op struct_tag op result);
  result ← add_code (ea_info account) prior_changes result;
  Done (result, storage_changes).

(** Source: evm-ext/src/state_changes.rs 105-113 [extract_evm_changes_from_native] *)
Definition is_skipped (account : EvmAccount) : bool :=
  negb (ea_is_touched account) || ea_is_selfdestructed account.

(** The accounts of one EVM call.
    Source: evm-ext/src/state_changes.rs 103-124 [extract_evm_changes_from_native] *)
Fixpoint add_call (state : list (Address * EvmAccount)) (account_changes single : AccountChangeSet)
    (storage_tries : StorageTriesChanges) : exec (AccountChangeSet * StorageTriesChanges) :=
  match state with
  | [] => Done (single, storage_tries)
  | (address, account) :: state =>
    if is_skipped account then add_call state account_changes single storage_tries else
    '(single, storage_changes) ← add_account_changes address account account_changes single;
    add_call state account_changes single (with_trie_changes storage_tries address storage_changes)
  end.

(** Source: evm-ext/src/state_changes.rs 102-128 [extract_evm_changes_from_native] *)
Fixpoint add_calls (state_changes : list (list (Address * EvmAccount)))
    (account_changes : AccountChangeSet) (storage_tries : StorageTriesChanges)
    : exec (AccountChangeSet * StorageTriesChanges) :=
  match state_changes with
  | [] => Done (account_changes, storage_tries)
  | state :: state_changes =>
    '(single, storage_tries) ← add_call state account_changes changes_empty storage_tries;
    account_changes ← expect (squash_changes account_changes single);
    add_calls state_changes account_changes storage_tries
  end.

(** Source: evm-ext/src/state_changes.rs 98-134 [extract_evm_changes_from_native] *)
Definition extract_evm_changes_from_native (state_changes : list (list (Address * EvmAccount)))
    : exec SessionChanges :=
  '(account_changes, storage_tries) ← add_calls state_changes changes_empty tries_empty;
  changes ← expect (add_account_changeset EVM_NATIVE_ADDRESS account_changes []);
  Done (MkSessionChanges changes storage_tries).

(** Source: evm-ext/src/state_changes.rs 43-77 [genesis_state_changes] *)
Definition genesis_account (g : GenesisAccount) : EvmAccount :=
  let '(code_hash, code) := match ga_code g with
    | Some raw => (bytecode_hash_slow raw, Some raw)
    | None => (keccak_empty, None)
    end in
  {| ea_info := MkInfo (ga_balance g) (default 0 (ga_nonce g)) code_hash code;
     ea_changed_storage_slots :=
       filter (λ s, s.2 ≠ 0)
         ((λ '(index, data), (be_val index, be_val data)) <$> default [] (ga_storage g));
     ea_is_touched := true; ea_is_selfdestructed := false |}.

Fixpoint add_genesis_accounts (alloc : list (Address * GenesisAccount))
    (account_changes : AccountChangeSet) (storage_tries : StorageTriesChanges)
    : exec (AccountChangeSet * StorageTriesChanges) :=
  match alloc with
  | [] => Done (account_changes, storage_tries)
  | (address, g) :: alloc =>
    '(account_changes, storage_changes) ←
      add_account_changes address (genesis_account g) changes_empty account_changes;
    add_genesis_accounts alloc account_changes
      (with_trie_changes storage_tries address storage_changes)
  end.

(** Source: evm-ext/src/state_changes.rs 33-91 [genesis_state_changes] *)
Definition genesis_state_changes (alloc : list (Address * GenesisAccount)) : exec SessionChanges :=
  '(account_changes, storage_tries) ← add_genesis_accounts alloc changes_empty tries_empty;
  changes ← expect (add_account_changeset EVM_NATIVE_ADDRESS account_changes []);
  Done (MkSessionChanges changes storage_tries).

End Changes.

(** ** What the extracted changes are *)

Section ChangesSpec.
Context `{StateKeys, ErrorTypes, !EvmStateLibrary, ChangeSetLaws, EthTrie}.
Context (resolver : Resolver) (storage_trie : InMemoryStorageTrieRepository).

(** The resolver does not panic, code serializes, and the hexadecimal encoding
    of addresses and hashes is injective. *)
Record DbTyped : Prop := {
  resolver_total tag : ∃ r, get_resource resolver EVM_NATIVE_ADDRESS tag = Done r;
  code_serializes c : is_Some (code_serialize c);
  encode_hex_inj a b : encode_hex a = encode_hex b → a = b;
  hash_encode_hex_inj a b : hash_encode_hex a = hash_encode_hex b → a = b;
}.
Context (Hdb : DbTyped).

(** The resolver has the resource. *)
Definition present (tag : StructTag) : bool :=
  match get_resource resolver EVM_NATIVE_ADDRESS tag with
  | Done (Ok (Some _, _)) => true
  | _ => false
  end.

Definition persisted (state : list (Address * EvmAccount)) : list (Address * EvmAccount) :=
  filter (λ p, is_skipped p.2 = false) state.

(** The storage changes of an account. *)
Definition storage_changes_of (a : Address) (acc : EvmAccount) : StorageTrieChanges :=
  match for_account storage_trie a with
  | Some t => storage_commit (write_slots t (ea_changed_storage_slots acc))
  | None => MkTrieChanges [] ∅
  end.
Definition stored_account (a : Address) (acc : EvmAccount) : bytes :=
  account_bytes (ea_info acc) (root (storage_changes_of a acc)).

Definition opens (a : Address) : Prop := is_Some (for_account storage_trie a).

(** The resources a call writes, with the tag each goes to. *)
Inductive entry := EAccount (b : bytes) | ECode (b : bytes).
Definition code_entry (info : AccountInfo) : list (B256 * bytes) :=
  match ai_code info with Some (b :: c) => [(account_code_hash info, b :: c)] | _ => [] end.
Definition entries_of (p : Address * EvmAccount) : list (StructTag * entry) :=
  (account_info_struct_tag p.1, EAccount (stored_account p.1 p.2))
  :: ((λ c, (code_hash_struct_tag c.1, ECode (default [] (code_serialize c.2))))
        <$> code_entry (ea_info p.2)).
Definition entries (l : list (Address * EvmAccount)) : list (StructTag * entry) := l ≫= entries_of.

Definition entry_op (exists_ : bool) (x : entry) : option ChangeOp :=
  match x with
  | EAccount b => Some (if exists_ then ChModify b else ChNew b)
  | ECode b => if exists_ then None else Some (ChNew b)
  end.
Definition exists_in (o : option ChangeOp) (tag : StructTag) : bool :=
  bool_decide (is_Some o) || present tag.

Lemma resource_exists_spec prior tag :
  resource_exists resolver prior tag = Done (exists_in (op_of prior tag) tag).
Proof.
  unfold resource_exists, exists_in, present. case_decide as Hd; [by rewrite bool_decide_eq_true_2|].
  rewrite bool_decide_eq_false_2 by done.
  destruct (resolver_total Hdb tag) as [r ->]. simpl. by destruct r as [[[x|] n]|e].
Qed.

(** Account and code resources have different names. *)
Lemma tags_disjoint a h : account_info_struct_tag a ≠ code_hash_struct_tag h.
Proof. unfold account_info_struct_tag, code_hash_struct_tag. by intros [=]. Qed.

Lemma string_app_inj p s t : p +:+ s = p +:+ t → s = t.
Proof. induction p; simpl; [done|]. intros [=]. auto. Qed.

Lemma account_tag_inj a b : account_info_struct_tag a = account_info_struct_tag b → a = b.
Proof. intros [= E]. by apply (encode_hex_inj Hdb). Qed.

Lemma code_tag_inj a b : code_hash_struct_tag a = code_hash_struct_tag b → a = b.
Proof. intros [= E]. by apply (hash_encode_hex_inj Hdb). Qed.

Lemma assoc_app {K V} `{EqDecision K} (k : K) (l1 l2 : list (K * V)) :
  assoc k (l1 ++ l2) = match assoc k l1 with Some v => Some v | None => assoc k l2 end.
Proof. induction l1 as [|[k' v] l1 IH]; simpl; [done|]. by case_decide. Qed.

(** The entry of an account tag, and of a code tag. *)
Lemma entries_account l a :
  assoc (account_info_struct_tag a) (entries l) = (λ acc, EAccount (stored_account a acc)) <$> assoc a l.
Proof.
  induction l as [|[b acc] l IH]; [done|]. unfold entries in *. rewrite bind_cons, assoc_app, IH.
  cbn [assoc fst snd entries_of]. case_decide as Hd.
  - apply account_tag_inj in Hd as ->. by rewrite decide_True.
  - rewrite decide_False by congruence. unfold code_entry. destruct (ai_code _) as [[|x c]|]; try done.
Qed.

Definition codes (l : list (Address * EvmAccount)) : list (B256 * bytes) :=
  l ≫= λ p, code_entry (ea_info p.2).

Lemma entries_code l h :
  assoc (code_hash_struct_tag h) (entries l) =
    (λ c, ECode (default [] (code_serialize c))) <$> assoc h (codes l).
Proof.
  induction l as [|[b acc] l IH]; [done|]. unfold entries, codes in *.
  rewrite !bind_cons, !assoc_app, IH. cbn [assoc fst snd entries_of].
  rewrite decide_False by (intros E; by eapply tags_disjoint).
  unfold code_entry. destruct (ai_code _) as [[|x c]|]; try done. simpl.
  destruct (decide (h = account_code_hash (ea_info acc))) as [->|Hne]; [by rewrite decide_True|].
  rewrite decide_False; [done|]. by intros ?%code_tag_inj.
Qed.

(** Only account and code tags have entries; an account's is never a code's. *)
Lemma entries_cases l t x : assoc t (entries l) = Some x →
  (∃ a b, t = account_info_struct_tag a ∧ x = EAccount b)
  ∨ (∃ h b, t = code_hash_struct_tag h ∧ x = ECode b).
Proof.
  intros Hin%assoc_in. apply list_elem_of_bind in Hin as ([a acc] & Hin & _).
  apply elem_of_cons in Hin as [[= -> ->]|Hin]; [left; eauto|].
  apply list_elem_of_fmap in Hin as (c & [= -> ->] & _). right. eauto.
Qed.

(** *** One account *)

Lemma add_code_spec info prior result : resources_only result →
  ∃ result', add_code resolver info prior result = Done result' ∧ resources_only result'
    ∧ ∀ t, op_of result' t = match op_of result t with
        | Some x => Some x
        | None => assoc t ((λ c, (code_hash_struct_tag c.1, ECode (default [] (code_serialize c.2))))
                     <$> code_entry info) ≫= entry_op (exists_in (op_of prior t) t)
        end.
Proof.
  intros Hr. unfold add_code. rewrite resource_exists_spec. simpl. unfold code_entry.
  assert (∀ r : AccountChangeSet, ∀ t, op_of r t = match op_of r t with Some x => Some x | None => None end)
    as Hid by by intros r t; destruct (op_of r t).
  destruct (exists_in _ _) eqn:He, (ai_code info) as [[|b code]|]; simpl;
    try (exists result; split_and!; [done..|apply Hid]).
  - exists result. split_and!; [done..|]. intros t.
    destruct (decide (t = _)) as [->|]; [rewrite He|]; apply Hid.
  - destruct (code_serializes Hdb (b :: code)) as [ser Hser]. rewrite Hser. simpl.
    set (tag := code_hash_struct_tag (account_code_hash info)) in *.
    destruct (op_of result tag) as [x|] eqn:Ho.
    + rewrite add_resource_op_old by (by rewrite Ho). exists result. split_and!; [done..|]. intros t.
      destruct (decide (t = tag)) as [->|]; [by rewrite Ho|apply Hid].
    + destruct (add_resource_op_new tag (ChNew ser) result Ho Hr) as (r' & -> & Hr' & Hops).
      exists r'. split_and!; [done..|]. intros t. rewrite Hops.
      destruct (decide (t = tag)) as [->|]; [by rewrite Ho, He|apply Hid].
Qed.

Lemma add_account_changes_spec a acc prior result :
  resources_only result → op_of result (account_info_struct_tag a) = None → opens a →
  ∃ result', add_account_changes resolver storage_trie a acc prior result
      = Done (result', storage_changes_of a acc)
    ∧ resources_only result'
    ∧ ∀ t, op_of result' t = match op_of result t with
        | Some x => Some x
        | None => assoc t (entries_of (a, acc)) ≫= entry_op (exists_in (op_of prior t) t)
        end.
Proof.
  intros Hr Hnone [t0 Ht0]. unfold add_account_changes, entries_of, stored_account, storage_changes_of.
  rewrite Ht0. cbn [mbind exec_bind expect]. rewrite resource_exists_spec. cbn [mbind exec_bind].
  set (tag := account_info_struct_tag a) in *. set (b := account_bytes _ _).
  set (op := if exists_in (op_of prior tag) tag then ChModify b else ChNew b).
  destruct (add_resource_op_new tag op result Hnone Hr) as (r1 & -> & Hr1 & Hops1).
  cbn [mbind exec_bind expect].
  destruct (add_code_spec (ea_info acc) prior r1 Hr1) as (r2 & -> & Hr2 & Hops2).
  cbn [mbind exec_bind]. exists r2. split_and!; [done..|]. intros t. rewrite Hops2, Hops1.
  cbn [assoc fst snd]. fold tag. destruct (decide (t = tag)) as [->|]; [by rewrite Hnone, Ht0|done].
Qed.

Lemma root_with_trie_changes tr a c b :
  root <$> tries (with_trie_changes tr a c) !! b =
    if decide (b = a) then Some (root c) else root <$> tries tr !! b.
Proof.
  unfold with_trie_changes. cbn [tries]. case_decide as Hb.
  - subst. rewrite lookup_insert_eq. by destruct (tries tr !! a).
  - by rewrite lookup_insert_ne.
Qed.

(** *** One call *)

Lemma persisted_cons a acc state :
  persisted ((a, acc) :: state) =
    if is_skipped acc then persisted state else (a, acc) :: persisted state.
Proof. unfold persisted. rewrite filter_cons. simpl. by destruct (is_skipped acc). Qed.

Lemma persisted_sub state p : p ∈ persisted state → p ∈ state.
Proof. unfold persisted. rewrite list_elem_of_filter. naive_solver. Qed.

(** An entry that writes nothing hides no later one. *)
Lemma entry_op_app t p l e :
  assoc t (entries (p :: l)) ≫= entry_op e =
    match assoc t (entries_of p) ≫= entry_op e with
    | Some x => Some x
    | None => assoc t (entries l) ≫= entry_op e
    end.
Proof.
  unfold entries at 1. rewrite bind_cons, assoc_app. fold (entries l).
  destruct (assoc t (entries_of p)) as [x|] eqn:E1; [|done]. simpl.
  destruct (entry_op e x) eqn:E2; [done|].
  destruct (assoc t (entries l)) as [y|] eqn:E3; [|done]. simpl.
  assert (assoc t (entries [p]) = Some x) as E1'.
  { unfold entries. rewrite bind_cons, assoc_app. by rewrite E1. }
  apply entries_cases in E1' as [(a & b & -> & ->)|(h & b & -> & ->)]; [done|].
  apply entries_cases in E3 as [(a & b' & E & ->)|(h' & b' & E & ->)].
  - symmetry in E. by apply tags_disjoint in E.
  - simpl in *. by destruct e.
Qed.

Lemma add_call_spec state prior single tr :
  NoDup state.*1 → resources_only single → (∀ p, p ∈ persisted state → opens p.1) →
  (∀ a, a ∈ state.*1 → op_of single (account_info_struct_tag a) = None) →
  ∃ single' tr', add_call resolver storage_trie state prior single tr = Done (single', tr')
    ∧ resources_only single'
    ∧ (∀ t, op_of single' t = match op_of single t with
        | Some x => Some x
        | None => assoc t (entries (persisted state)) ≫= entry_op (exists_in (op_of prior t) t)
        end)
    ∧ ∀ a, root <$> tries tr' !! a = match assoc a (persisted state) with
        | Some acc => Some (root (storage_changes_of a acc))
        | None => root <$> tries tr !! a
        end.
Proof.
  revert single tr. induction state as [|[a acc] state IH]; intros single tr Hnd Hr Hop Hnone.
  { exists single, tr. split_and!; [done..| |done]. intros t. by destruct (op_of single t). }
  cbn [fmap list_fmap] in Hnd. apply NoDup_cons in Hnd as [Hni Hnd].
  rewrite persisted_cons in *. cbn [add_call]. destruct (is_skipped acc).
  { apply IH; [done..|]. intros b Hb. apply Hnone. by right. }
  destruct (add_account_changes_spec a acc prior single) as (r1 & -> & Hr1 & Hops1); [done| | |].
  { apply Hnone. by left. }
  { apply (Hop (a, acc)). by left. }
  cbn [mbind exec_bind].
  destruct (IH r1 (with_trie_changes tr a (storage_changes_of a acc))) as (s' & tr' & -> & Hs' & Hops & Htr);
    [done..| | |].
  { intros p Hp. apply Hop. by right. }
  { intros b Hb. rewrite Hops1, Hnone by (by right). change (entries_of (a, acc)) with ([] ++ entries_of (a, acc)).
    pose proof (entries_account [(a, acc)] b) as E. unfold entries in E. rewrite bind_cons, app_nil_r in E.
    simpl app. rewrite E. cbn [assoc]. rewrite decide_False; [done|]. by intros ->. }
  exists s', tr'. split_and!; [done..| |].
  - intros t. rewrite Hops, Hops1, entry_op_app. destruct (op_of single t); [done|].
    by destruct (assoc t (entries_of (a, acc)) ≫= _).
  - intros b. rewrite Htr, root_with_trie_changes. cbn [assoc].
    destruct (decide (b = a)) as [->|]; [|done].
    destruct (assoc a (persisted state)) as [acc'|] eqn:E; [|done]. exfalso. apply Hni.
    apply assoc_in, persisted_sub in E. apply list_elem_of_fmap. by exists (a, acc').
Qed.

(** *** All calls *)

Abbreviation Call := (list (Address * EvmAccount)).

(** What a call makes of the operation on a resource. *)
Definition step (t : StructTag) (o : option ChangeOp) (l : Call) : option ChangeOp :=
  merged o (assoc t (entries l) ≫= entry_op (exists_in o t)).

Definition no_delete (cs : AccountChangeSet) : Prop := ∀ t, op_of cs t ≠ Some ChDelete.

(** The last call that writes an account. *)
Definition last_account (a : Address) (calls : list Call) : option EvmAccount :=
  fold_left (λ o l, match assoc a l with Some acc => Some acc | None => o end) calls None.

Lemma last_account_snoc a l c :
  last_account a (l ++ [c]) =
    match assoc a c with Some acc => Some acc | None => last_account a l end.
Proof. unfold last_account. by rewrite fold_left_app. Qed.

Lemma last_account_cons a c l :
  last_account a (c :: l) =
    match last_account a l with Some acc => Some acc | None => assoc a c end.
Proof.
  induction l as [|c' l IH] using rev_ind; [unfold last_account; simpl; by destruct (assoc a c)|].
  rewrite app_comm_cons, !last_account_snoc, IH. by destruct (assoc a c').
Qed.

Definition calls_wf (calls : list Call) : Prop :=
  Forall (λ state, NoDup state.*1 ∧ ∀ p, p ∈ persisted state → opens p.1) calls.

Lemma step_ok t o l : o ≠ Some ChDelete →
  (∀ x y, o = Some x → assoc t (entries l) ≫= entry_op (exists_in o t) = Some y →
     is_Some (modified x y))
  ∧ step t o l ≠ Some ChDelete.
Proof.
  intros Ho. unfold step, exists_in.
  destruct (assoc t (entries l)) as [[b|b]|], o as [[x|x|]|], (present t); naive_solver.
Qed.

Lemma add_calls_spec calls cs tr :
  calls_wf calls → resources_only cs → no_delete cs →
  ∃ cs' tr', add_calls resolver storage_trie calls cs tr = Done (cs', tr')
    ∧ resources_only cs'
    ∧ (∀ t, op_of cs' t = fold_left (step t) (persisted <$> calls) (op_of cs t))
    ∧ ∀ a, root <$> tries tr' !! a =
        match last_account a (persisted <$> calls) with
        | Some acc => Some (root (storage_changes_of a acc))
        | None => root <$> tries tr !! a
        end.
Proof.
  revert cs tr. induction calls as [|state calls IH]; intros cs tr Hwf Hr Hd.
  { exists cs, tr. by split_and!. }
  apply Forall_cons in Hwf as [[Hnd Hop] Hwf]. cbn [add_calls].
  assert (op_of changes_empty = λ _, None) as Hempty.
  { unfold op_of. by rewrite changes_empty_resources. }
  assert (resources_only changes_empty) as Hre.
  { split; [apply changes_empty_modules|rewrite changes_empty_resources; constructor]. }
  destruct (add_call_spec state cs changes_empty tr Hnd Hre Hop) as (s & tr1 & -> & Hrs & Hops & Htr).
  { intros a _. by rewrite Hempty. }
  cbn [mbind exec_bind]. rewrite Hempty in Hops. simpl in Hops.
  destruct (squash_modified cs s Hr Hrs) as (cs1 & -> & Hr1 & Hops1).
  { intros t x y Hx Hy. rewrite Hops in Hy. by apply (step_ok t (op_of cs t) (persisted state) (Hd t)). }
  cbn [mbind exec_bind expect].
  assert (∀ t, op_of cs1 t = step t (op_of cs t) (persisted state)) as Hs
    by by intros t; rewrite Hops1, Hops.
  destruct (IH cs1 tr1 Hwf Hr1) as (cs' & tr' & -> & Hr' & Hops' & Htr').
  { intros t. rewrite Hs. apply step_ok, Hd. }
  exists cs', tr'. split_and!; [done..| |].
  - intros t. by rewrite Hops', Hs.
  - intros a. rewrite Htr', Htr. cbn [fmap list_fmap]. rewrite last_account_cons.
    destruct (last_account a (persisted <$> calls)); [done|]. by destruct (assoc a (persisted state)).
Qed.

(** The fold on an account tag: the last write, as a new resource or a modified
    one; on a code tag: the first write, if the resource is new. *)
Lemma fold_account a l :
  fold_left (step (account_info_struct_tag a)) l None =
    (λ acc, (if present (account_info_struct_tag a) then ChModify else ChNew) (stored_account a acc))
      <$> last_account a l.
Proof.
  induction l as [|c l IH] using rev_ind; [done|]. rewrite last_account_snoc, fold_left_app.
  cbn [fold_left]. rewrite IH. unfold step. rewrite entries_account.
  destruct (assoc a c) as [acc|], (last_account a l) as [acc'|]; simpl; try done;
    unfold exists_in; simpl; by destruct (present _).
Qed.

Lemma fold_code h l :
  fold_left (step (code_hash_struct_tag h)) l None =
    if present (code_hash_struct_tag h) then None
    else (λ c, ChNew (default [] (code_serialize c))) <$> assoc h (codes (concat l)).
Proof.
  induction l as [|c l IH] using rev_ind; [by destruct (present _)|].
  rewrite fold_left_app. cbn [fold_left]. rewrite IH. unfold step. rewrite entries_code.
  rewrite concat_app. simpl concat. rewrite app_nil_r. unfold codes. rewrite bind_app, assoc_app.
  fold (codes (concat l)) (codes c). unfold exists_in.
  destruct (present (code_hash_struct_tag h)); simpl.
  - by destruct (assoc h (codes c)).
  - destruct (assoc h (codes (concat l))); simpl; by destruct (assoc h (codes c)).
Qed.

Lemma fold_other t l : is_Some (fold_left (step t) l None) →
  (∃ a, t = account_info_struct_tag a) ∨ (∃ h, t = code_hash_struct_tag h).
Proof.
  induction l as [|c l IH] using rev_ind; [by intros []|].
  rewrite fold_left_app. cbn [fold_left]. unfold step at 1.
  destruct (fold_left (step t) l None) eqn:E; [intros _; apply IH; eauto|].
  destruct (assoc t (entries c)) as [x|] eqn:Ha; [|by intros []]. intros _.
  apply entries_cases in Ha as [(a & b & -> & _)|(h & b & -> & _)]; eauto.
Qed.

(** The extracted changes, tag by tag. *)
Lemma extract_ops calls : calls_wf calls →
  ∃ cs tr, extract_evm_changes_from_native resolver storage_trie calls
      = Done (MkSessionChanges [(EVM_NATIVE_ADDRESS, cs)] tr)
    ∧ resources_only cs
    ∧ (∀ t, op_of cs t = fold_left (step t) (persisted <$> calls) None)
    ∧ (∀ a, root <$> tries tr !! a =
        (λ acc, root (storage_changes_of a acc)) <$> last_account a (persisted <$> calls)).
Proof.
  intros Hwf. unfold extract_evm_changes_from_native.
  assert (op_of changes_empty = λ _, None) as Hempty.
  { unfold op_of. by rewrite changes_empty_resources. }
  destruct (add_calls_spec calls changes_empty tries_empty Hwf) as (cs & tr & -> & Hr & Hops & Htr).
  { split; [apply changes_empty_modules|rewrite changes_empty_resources; constructor]. }
  { intros t. by rewrite Hempty. }
  cbn [mbind exec_bind]. rewrite add_account_changeset_new. rewrite Hempty in Hops.
  exists cs, tr. split_and!; [done..|]. intros a. rewrite Htr. by destruct (last_account _ _).
Qed.

(** C13 (functional): the Move changes of a session whose EVM calls changed
    accounts never panic, whatever the calls do to the same account or code, and
    are exact: each account that a call touched (and did not self-destruct) is
    written once, as the last such call left it with the root of its committed
    storage, new exactly when the state has no such account; the code of each
    hash the state lacks is written once; and nothing else changes. *)
Theorem extract_evm_changes_spec calls : calls_wf calls →
  ∃ cs tr, extract_evm_changes_from_native resolver storage_trie calls
      = Done (MkSessionChanges [(EVM_NATIVE_ADDRESS, cs)] tr)
    ∧ resources_only cs
    ∧ (∀ a, op_of cs (account_info_struct_tag a) =
        (λ acc, (if present (account_info_struct_tag a) then ChModify else ChNew)
                  (stored_account a acc)) <$> last_account a (persisted <$> calls))
    ∧ (∀ h, op_of cs (code_hash_struct_tag h) =
        if present (code_hash_struct_tag h) then None
        else (λ c, ChNew (default [] (code_serialize c)))
               <$> assoc h (codes (concat (persisted <$> calls))))
    ∧ (∀ t, is_Some (op_of cs t) →
        (∃ a, t = account_info_struct_tag a) ∨ (∃ h, t = code_hash_struct_tag h))
    ∧ (∀ a, root <$> tries tr !! a =
        (λ acc, root (storage_changes_of a acc)) <$> last_account a (persisted <$> calls)).
Proof.
  intros Hwf. destruct (extract_ops calls Hwf) as (cs & tr & Hex & Hr & Hops & Htr).
  exists cs, tr. split_and!; [done..| | | |done].
  - intros a. by rewrite Hops, fold_account.
  - intros h. by rewrite Hops, fold_code.
  - intros t. rewrite Hops. apply fold_other.
Qed.

(** *** Reading the changes back *)

(** [resolver'] is [resolver] after the changes [cs] of the EVM's account. *)
Definition resolves (cs : AccountChangeSet) (resolver' : Resolver) : Prop :=
  ∀ tag, match op_of cs tag with
    | Some op => ∃ n, get_resource resolver' EVM_NATIVE_ADDRESS tag = Done (Ok (op_ok op, n))
    | None => get_resource resolver' EVM_NATIVE_ADDRESS tag = get_resource resolver EVM_NATIVE_ADDRESS tag
    end.

(** The code stored under a hash has that hash. *)
Definition codes_ok (r : Resolver) : Prop := ∀ h b n,
  get_resource r EVM_NATIVE_ADDRESS (code_hash_struct_tag h) = Done (Ok (Some b, n)) →
  ∃ c, code_deserialize b = Some c ∧ bytecode_hash_slow c = h.

(** The codes of the calls collide with no other code, nor with the empty one. *)
Definition no_collision (calls : list Call) : Prop := ∀ h c, (h, c) ∈ codes (concat calls) →
  h ≠ keccak_empty ∧ ∀ c', bytecode_hash_slow c' = bytecode_hash_slow c → c' = c.

Lemma codes_hash l h c : (h, c) ∈ codes l → h = bytecode_hash_slow c ∧ c ≠ [].
Proof.
  unfold codes. intros ([a acc] & Hin & _)%list_elem_of_bind. unfold code_entry, account_code_hash in Hin.
  destruct (ai_code (ea_info (a, acc).2)) as [[|b code]|]; [by apply not_elem_of_nil in Hin| |by apply not_elem_of_nil in Hin].
  apply list_elem_of_singleton in Hin as [= -> ->]. done.
Qed.

Lemma present_resource r tag : get_resource resolver EVM_NATIVE_ADDRESS tag = Done r →
  present tag = match r with Ok (Some _, _) => true | _ => false end.
Proof. unfold present. by intros ->. Qed.

(** C17 (roundtrip): what a session's EVM calls wrote, the EVM of the next
    transaction reads: once the extracted changes are applied every written
    account reads with the nonce, balance, code hash and storage root it was left
    with, every other account as before, and the code of every account that
    carries some is found under its hash; the code store stays
    content-addressed. *)
Theorem evm_reads_own_writes `{!EvmStateLaws} calls cs tr resolver' :
  calls_wf calls → codes_ok resolver → no_collision (persisted <$> calls) →
  (∀ a acc, last_account a (persisted <$> calls) = Some acc →
     account_typed (account_new (ai_nonce (ea_info acc)) (ai_balance (ea_info acc))
       (ai_code_hash (ea_info acc)) (root (storage_changes_of a acc)))) →
  extract_evm_changes_from_native resolver storage_trie calls
    = Done (MkSessionChanges [(EVM_NATIVE_ADDRESS, cs)] tr) →
  resolves cs resolver' →
  (∀ a, match last_account a (persisted <$> calls) with
   | Some acc => basic_ref resolver' a = Done (Ok (Some (MkInfo (ai_balance (ea_info acc))
         (ai_nonce (ea_info acc)) (ai_code_hash (ea_info acc)) None)))
       ∧ ∃ v, get_account resolver' a = Done (Ok (Some v))
           ∧ acc_storage_root v = root (storage_changes_of a acc)
   | None => get_account resolver' a = get_account resolver a
   end)
  ∧ (∀ h c, (h, c) ∈ codes (concat (persisted <$> calls)) → code_by_hash_ref resolver' h = Done (Ok c))
  ∧ codes_ok resolver'.
Proof.
  intros Hwf Hcodes Hnc Htyped Hex Hres.
  destruct (extract_ops calls Hwf) as (cs1 & tr1 & E & _ & Hops & _).
  rewrite Hex in E. injection E as <- <-.
  assert (Hacc := λ a, eq_trans (Hops (account_info_struct_tag a)) (fold_account a (persisted <$> calls))).
  assert (Hcode := λ h, eq_trans (Hops (code_hash_struct_tag h)) (fold_code h (persisted <$> calls))).
  cbv beta in Hacc, Hcode. split_and!.
  - intros a. specialize (Hacc a). specialize (Hres (account_info_struct_tag a)).
    specialize (Htyped a). unfold basic_ref, get_account. rewrite Hacc in Hres.
    destruct (last_account _ _) as [acc|]; simpl in Hres; [|by rewrite Hres].
    destruct Hres as [n Hn]. specialize (Htyped acc eq_refl). rewrite Hn. simpl.
    assert (op_ok ((if present (account_info_struct_tag a) then ChModify else ChNew)
      (stored_account a acc)) = Some (stored_account a acc)) as -> by by destruct (present _).
    unfold stored_account, account_bytes, account_try_deserialize, account_serialize. simpl.
    rewrite rlp_account_roundtrip by done. simpl. split; [done|]. eauto.
  - intros h c Hin. apply codes_hash in Hin as Hh. destruct Hh as [Hh Hne].
    destruct (Hnc h c Hin) as [Hempty Hcol]. unfold code_by_hash_ref. rewrite decide_False by done.
    specialize (Hcode h). specialize (Hres (code_hash_struct_tag h)). rewrite Hcode in Hres.
    destruct (present (code_hash_struct_tag h)) eqn:Hp.
    + rewrite Hres. unfold present in Hp.
      destruct (get_resource resolver _ _) as [[[[b|] n]|e]|] eqn:Hg; try done. simpl.
      destruct (Hcodes h b n Hg) as (c' & -> & Hc'). simpl. rewrite (Hcol c'); [done|]. by rewrite Hc'.
    + destruct (assoc h (codes (concat (persisted <$> calls)))) as [c'|] eqn:Ha.
      * simpl in Hres. destruct Hres as [n ->]. simpl.
        destruct (code_serializes Hdb c') as [b Hb]. rewrite Hb. simpl.
        rewrite (code_roundtrip c' b) by done. simpl.
        apply assoc_in, codes_hash in Ha as [Ha _]. rewrite (Hcol c'); [done|]. congruence.
      * exfalso. apply assoc_None in Ha. apply Ha. apply list_elem_of_fmap. by exists (h, c).
  - intros h b n Hg. specialize (Hcode h). specialize (Hres (code_hash_struct_tag h)).
    rewrite Hcode in Hres. destruct (present (code_hash_struct_tag h)); [rewrite Hres in Hg; eauto|].
    destruct (assoc h _) as [c|] eqn:Ha; simpl in Hres; [|rewrite Hres in Hg; eauto].
    destruct Hres as [m Hm]. rewrite Hm in Hg. simpl in Hg. injection Hg as <- _. exists c.
    destruct (code_serializes Hdb c) as [b Hb]. rewrite Hb. split; [by apply code_roundtrip|].
    apply assoc_in, codes_hash in Ha as [? _]. done.
Qed.

End ChangesSpec.

(** Witnesses: two calls in one session, the first deploying the contract's
    code, the second changing its balance. *)
Module EvmStateWitness.
#[local] Existing Instance StorageWitness.toy_trie.
#[local] Existing Instance Envelope.Witness.unit_errors.

(** Binary numerals, for the encodings of bytes as strings. *)
Fixpoint pos_string (p : positive) : string :=
  match p with
  | xH => ""
  | xO p => String Ascii.zero (pos_string p)
  | xI p => String Ascii.one (pos_string p)
  end.
Fixpoint string_pos (s : string) : positive :=
  match s with
  | EmptyString => xH
  | String c s => if Ascii.eqb c Ascii.zero then xO (string_pos s) else xI (string_pos s)
  end.
Lemma string_pos_string p : string_pos (pos_string p) = p.
Proof. induction p; simpl; congruence. Qed.

Definition hex (a : bytes) : string := pos_string (encode a).
Lemma hex_inj a b : hex a = hex b → a = b.
Proof.
  unfold hex. intros E%(f_equal string_pos). rewrite !string_pos_string in E.
  by apply (inj encode).
Qed.

#[export] Instance keys : StateKeys := {|
  StateKey := bytes + AccountAddress * string; state_key_module := λ a m, inr (a, m);
  state_key_resource := λ a t, Some (inr (a, tag_name t));
  encoded := λ k, [Z.pos (encode k)]; state_value_bcs := λ v, 0 :: v; key_keccak256 := id;
  encode_hex := hex; address_from_hex := λ s, decode (string_pos s) |}.

#[export] Instance evm_state : EvmStateLibrary := {|
  rlp_encode_account := λ a, acc_nonce a :: acc_balance a :: acc_storage_root a ++ acc_code_hash a;
  rlp_decode_account := λ b, match b with
    | n :: v :: l => Some (MkAccount n v (take 32 l) (drop 32 l)) | _ => None end;
  bytecode_hash_slow := λ c, replicate 32 (if decide (c = [1; 1]) then 1 else 2);
  keccak_empty := replicate 32 2;
  code_serialize := Some; code_deserialize := Some; hash_encode_hex := hex;
  missing_data := λ _, () |}.

#[export] Instance evm_state_laws : EvmStateLaws.
Proof.
  split; [|done|by intros c b [= ->]].
  intros [n v r h] (_ & _ & [Hr _] & _). simpl in *. by rewrite take_app_length', drop_app_length'.
Qed.

Definition squash_op (r : StructTag * ChangeOp) (cs : list (StructTag * ChangeOp))
    : StructTag * ChangeOp :=
  (r.1, default r.2 (merged (Some r.2) (assoc r.1 cs))).
#[export] Instance change_sets : ChangeSetLibrary := {|
  changes_empty := MkAccountChanges [] [];
  add_resource_op := λ tag op cs,
    if decide (is_Some (op_of cs tag)) then None
    else Some (MkAccountChanges (ac_modules cs) ((tag, op) :: ac_resources cs));
  squash_changes := λ a b, Some (MkAccountChanges (ac_modules a)
    (((λ r, squash_op r (ac_resources b)) <$> ac_resources a)
     ++ filter (λ r, op_of a r.1 = None) (ac_resources b)));
  add_account_changeset := λ a cs l, Some ((a, cs) :: l) |}.

Lemma assoc_squash a b t :
  assoc t ((λ r, squash_op r b) <$> a) =
    (λ x, default x (merged (Some x) (assoc t b))) <$> assoc t a.
Proof. induction a as [|[k x] a IH]; [done|]. simpl. case_decide; [by subst|done]. Qed.

Lemma assoc_filter (f : StructTag → Prop) `{∀ k, Decision (f k)} (b : list (StructTag * ChangeOp)) t :
  f t → assoc t (filter (λ r, f r.1) b) = assoc t b.
Proof.
  intros Hf. induction b as [|[k x] b IH]; [done|]. rewrite filter_cons. simpl.
  destruct (decide (f k)); simpl; case_decide; naive_solver.
Qed.

#[export] Instance change_set_laws : ChangeSetLaws.
Proof.
  split; simpl; try done.
  - intros tag op cs Hs. by rewrite decide_True.
  - intros tag op cs Hn [Hm Hnd]. rewrite decide_False by (by rewrite Hn; intros []).
    eexists. split; [done|]. split; [split; [done|]|done].
    simpl. constructor; [by apply assoc_None|done].
  - intros a b [Ha Na] [Hb Nb] Hmod. eexists. split; [done|]. split.
    + split; [done|]. cbn [ac_resources]. rewrite fmap_app, <- list_fmap_compose. apply NoDup_app.
      split; [done|]. split.
      * intros t Ht (p & -> & Hp)%list_elem_of_fmap. apply list_elem_of_filter in Hp as [Hp _].
        unfold op_of in Hp. by apply assoc_None in Hp.
      * eapply sublist_NoDup; [exact Nb|apply fmap_sublist, sublist_filter].
    + intros t. change (op_of a t) with (assoc t (ac_resources a)).
      change (op_of b t) with (assoc t (ac_resources b)).
      unfold op_of at 1. cbn [ac_resources]. rewrite assoc_app, assoc_squash.
      destruct (assoc t (ac_resources a)) as [x|] eqn:Ea; simpl.
      * destruct (assoc t (ac_resources b)) as [y|] eqn:Eb; [|done].
        by destruct (Hmod t x y Ea Eb) as [z ->].
      * rewrite <- (assoc_filter (λ k, op_of a k = None) (ac_resources b) t Ea).
        by destruct (assoc t (filter _ _)).
Qed.

Definition empty_resolver : Resolver :=
  {| get_module := λ _ _, Done (Ok None); get_resource := λ _ _, Done (Ok (None, 0)) |}.
Definition repository : InMemoryStorageTrieRepository := MkRepository ∅.

Lemma empty_db : DbTyped empty_resolver.
Proof. split; [by eexists|by eexists|apply hex_inj|apply hex_inj]. Qed.

Definition code_hash : B256 := replicate 32 1.
Definition contract : Address := [7].
Definition calls : list (list (Address * EvmAccount)) :=
  [[(contract, MkEvmAccount (MkInfo 0 1 code_hash (Some [1; 1])) [(3, 4)] true false)];
   [(contract, MkEvmAccount (MkInfo 5 1 code_hash None) [] true false);
    ([8], MkEvmAccount (MkInfo 9 9 code_hash None) [] false false)]].

Lemma calls_ok : calls_wf repository calls.
Proof.
  repeat (constructor; [split; [vm_compute; repeat constructor; set_solver|]|]); [| |constructor].
  all: intros p Hp; vm_compute in Hp; apply list_elem_of_singleton in Hp as ->; by eexists.
Qed.

Lemma extract_evm_changes_spec_witness :
  ∃ cs tr, extract_evm_changes_from_native empty_resolver repository calls
      = Done (MkSessionChanges [(EVM_NATIVE_ADDRESS, cs)] tr)
    ∧ resources_only cs
    ∧ (∀ a, op_of cs (account_info_struct_tag a) =
        (λ acc, (if present empty_resolver (account_info_struct_tag a) then ChModify else ChNew)
                  (stored_account repository a acc)) <$> last_account a (persisted <$> calls))
    ∧ (∀ h, op_of cs (code_hash_struct_tag h) =
        if present empty_resolver (code_hash_struct_tag h) then None
        else (λ c, ChNew (default [] (code_serialize c)))
               <$> assoc h (codes (concat (persisted <$> calls))))
    ∧ (∀ t, is_Some (op_of cs t) →
        (∃ a, t = account_info_struct_tag a) ∨ (∃ h, t = code_hash_struct_tag h))
    ∧ (∀ a, root <$> tries tr !! a =
        (λ acc, root (storage_changes_of repository a acc)) <$> last_account a (persisted <$> calls)).
Proof. apply (extract_evm_changes_spec empty_resolver repository empty_db calls calls_ok). Defined.

Definition extracted : AccountChangeSet :=
  match extract_evm_changes_from_native empty_resolver repository calls with
  | Done (MkSessionChanges [(_, cs)] _) => cs
  | _ => changes_empty
  end.
Definition extracted_storage : StorageTriesChanges :=
  match extract_evm_changes_from_native empty_resolver repository calls with
  | Done c => sc_storage c
  | Panic => tries_empty
  end.
Definition resolver_after : Resolver :=
  {| get_module := λ _ _, Done (Ok None);
     get_resource := λ _ t, match op_of extracted t with
       | Some op => Done (Ok (op_ok op, 0)) | None => Done (Ok (None, 0)) end |}.

Lemma resolver_after_resolves : resolves empty_resolver extracted resolver_after.
Proof. intros tag. unfold resolver_after. simpl. destruct (op_of extracted tag); eauto. Qed.

Lemma extracted_eq : extract_evm_changes_from_native empty_resolver repository calls
  = Done (MkSessionChanges [(EVM_NATIVE_ADDRESS, extracted)] extracted_storage).
Proof. vm_compute. reflexivity. Qed.

Lemma accounts_typed a acc : last_account a (persisted <$> calls) = Some acc →
  account_typed (account_new (ai_nonce (ea_info acc)) (ai_balance (ea_info acc))
    (ai_code_hash (ea_info acc)) (root (storage_changes_of repository a acc))).
Proof.
  unfold last_account. simpl. repeat case_decide; intros [= <-]; subst.
  split; [done|]. split; [done|]. split; [|split; [done|by apply Forall_replicate]].
  split; [apply length_be_bytes|apply be_bytes_is_bytes].
Qed.

Lemma no_code_collision : no_collision (persisted <$> calls).
Proof.
  intros h c Hin. vm_compute in Hin. apply list_elem_of_singleton in Hin as [= -> ->].
  split; [done|]. intros c'.
  change (replicate 32 (if decide (c' = [1; 1]) then 1 else 2) = replicate 32 1 → c' = [1; 1]).
  case_decide; [done|]. by intros [=].
Qed.

Lemma evm_reads_own_writes_witness :
  (∀ a, match last_account a (persisted <$> calls) with
   | Some acc => basic_ref resolver_after a = Done (Ok (Some (MkInfo (ai_balance (ea_info acc))
         (ai_nonce (ea_info acc)) (ai_code_hash (ea_info acc)) None)))
       ∧ ∃ v, get_account resolver_after a = Done (Ok (Some v))
           ∧ acc_storage_root v = root (storage_changes_of repository a acc)
   | None => get_account resolver_after a = get_account empty_resolver a
   end)
  ∧ (∀ h c, (h, c) ∈ codes (concat (persisted <$> calls)) →
       code_by_hash_ref resolver_after h = Done (Ok c))
  ∧ codes_ok resolver_after.
Proof.
  apply (evm_reads_own_writes empty_resolver repository empty_db calls extracted extracted_storage);
    [apply calls_ok|done|apply no_code_collision|apply accounts_typed|apply extracted_eq
    |apply resolver_after_resolves].
Defined.

End EvmStateWitness.
