(* ===== verification/EvmCalls.v ===== *)
(** The natives with which Move code calls the EVM
    ([evm-ext/src/native_impl.rs]): their arguments, the environment the EVM runs
    in, its gas, the transfers it logs and the changes a session collects.

    [revm] is third-party code: [Revm] is its interface, one function up to the
    end of the execution of a transaction and one for what follows it, since
    the program runs code of its own in between. *)
From S2P Require Import Prelude Primitives MoveTypes Errors Envelope EthToken Application MoveVm Events.
From S2P Require Import Storage StateTree EvmState.
Import Addresses Words.

Local Open Scope Z_scope.

(** [revm::context::TxEnv], with the fields that vary; the others are the
    constants of [build_evm]. *)
Record TxEnv := MkTxEnv {
  te_caller : Address; te_gas_limit : Z; te_gas_price : Z; te_kind : TxKind; te_value : Z;
  te_data : bytes; te_nonce : Z; te_chain_id : option Z;
  te_disable_balance_check : bool; te_disable_nonce_check : bool }.

Record ResultAndState := MkResultAndState {
  rs_result : ExecutionResult; rs_state : list (Address * EvmAccount) }.

(** The entries of revm's journal; the program looks at one kind. *)
Inductive JournalEntry :=
| BalanceTransfer (from to : Address) (balance : Z)
| OtherEntry.

Inductive EVMError (E : Type) := EvmDatabase (e : E) | EvmOther (message : string).
Arguments EvmDatabase {_} _.
Arguments EvmOther {_} _.

Class Revm `{ErrorTypes} := {
  CacheDB : Type;
  Frame : Type;
  revm_execute : CacheDB → BlockEnv → TxEnv → result (EVMError PartialVMError) Frame * CacheDB;
  journal : Frame → list (list JournalEntry);
  revm_post_execution : Frame → result (EVMError PartialVMError) ResultAndState;
  (** [replay] on a cache over the database: the whole execution. *)
  revm_replay : CacheDB → BlockEnv → TxEnv → result (EVMError PartialVMError) ResultAndState;
  (** The native interface of the Move VM: charging the gas balance, and taking
      arguments by their type. *)
  SafeNativeError : Type;
  invariant_violation : PartialVMError → SafeNativeError;
  aborted : string → PartialVMError;
  native_charge : Z → Z → result SafeNativeError Z;
  value_as_bytes : MoveValue → result SafeNativeError bytes;
  value_as_u256 : MoveValue → result SafeNativeError Z;
  value_as_address : MoveValue → result SafeNativeError AccountAddress;
}.

Section EvmCalls.
Context `{Revm}.

(** Source: evm-ext/src/native_evm_context.rs 39-50 [NativeEVMContext] *)
Record NativeEVMContext := MkNativeContext {
  nc_transfer_logs : EthTransfersLogger;
  nc_db : CacheDB;
  nc_state_changes : list (list (Address * EvmAccount));
  nc_block_header : HeaderForExecution;
}.

(** What a native sees: the gas left and the extension above. *)
Record SafeNativeContext := MkNative { gas_balance : Z; extension : NativeEVMContext }.

(** Source: evm-ext/src/native_impl.rs 310-315 [EvmCallArgs] *)
Record EvmCallArgs := MkEvmCallArgs {
  ca_caller : AccountAddress; ca_to : AccountAddress; ca_value : Z; ca_data : bytes }.

(** Taking the last argument. *)
Definition pop_back (args : list MoveValue) : exec (MoveValue * list MoveValue) :=
  match rev args with
  | [] => Panic
  | x :: rest => Done (x, rev rest)
  end.

(** Source: evm-ext/src/native_impl.rs 226-247 [pop_evm_args] *)
Definition pop_evm_args (args : list MoveValue) : exec (result SafeNativeError EvmCallArgs) :=
  '(data, args) ← pop_back args;
  match value_as_bytes data with Err e => Done (Err e) | Ok data =>
  '(value, args) ← pop_back args;
  match value_as_u256 value with Err e => Done (Err e) | Ok value =>
  '(to, args) ← pop_back args;
  match value_as_address to with Err e => Done (Err e) | Ok to =>
  '(caller, _) ← pop_back args;
  match value_as_address caller with Err e => Done (Err e) | Ok caller =>
  Done (Ok (MkEvmCallArgs caller to value data))
  end end end end.

(** Source: evm-ext/src/native_impl.rs 256-263 [evm_error] *)
Definition evm_error (e : EVMError PartialVMError) : SafeNativeError :=
  match e with
  | EvmDatabase e => invariant_violation e
  | EvmOther message => invariant_violation (aborted message)
  end.

(** Source: evm-ext/src/native_impl.rs 265-308 [build_evm] *)
Definition build_evm (caller : Address) (transact_to : TxKind) (value : Z) (data : bytes)
    (gas_limit : Z) : TxEnv :=
  {| te_caller := caller; te_gas_limit := gas_limit; te_gas_price := 0; te_kind := transact_to;
     te_value := value; te_data := data; te_nonce := 0; te_chain_id := None;
     te_disable_balance_check := true; te_disable_nonce_check := true |}.

(** Source: evm-ext/src/native_impl.rs 351-363 [WrappedMainnetHandler::post_execution] *)
Definition journal_transfers (entries : list (list JournalEntry)) : list EthTransfer :=
  entries ≫= λ entries, omap (λ entry, match entry with
    | BalanceTransfer from to balance =>
      Some (MkEthTransfer (to_move_address from) (to_move_address to) balance)
    | OtherEntry => None
    end) entries.

(** Source: evm-ext/src/native_impl.rs 344-369 [WrappedMainnetHandler::post_execution] *)
Definition post_execution (transfer_logs : EthTransfersLogger) (frame : Frame)
    : result (EVMError PartialVMError) ResultAndState * EthTransfersLogger :=
  let transfer_logs :=
    fold_left (λ l t, push_transfer t l) (journal_transfers (journal frame)) transfer_logs in
  (revm_post_execution frame, transfer_logs).

(** Source: evm-ext/src/native_impl.rs 198-224 [evm_transact_with_native] *)
Definition evm_transact_with_native (ctx : NativeEVMContext) (caller : Address)
    (transact_to : TxKind) (value : Z) (data : bytes) (gas_limit : Z)
    : result SafeNativeError ResultAndState * NativeEVMContext :=
  let logs := add_tx_origin (to_move_address caller) value (nc_transfer_logs ctx) in
  let block_env := block_env (nc_block_header ctx) in
  let tx := build_evm caller transact_to value data gas_limit in
  let '(frame, db) := revm_execute (nc_db ctx) block_env tx in
  match frame with
  | Err e => (Err (evm_error e), MkNativeContext logs db (nc_state_changes ctx) (nc_block_header ctx))
  | Ok frame =>
    let '(outcome, logs) := post_execution logs frame in
    match outcome with
    | Err e => (Err (evm_error e), MkNativeContext logs db (nc_state_changes ctx) (nc_block_header ctx))
    | Ok outcome =>
      (Ok outcome, MkNativeContext logs db (nc_state_changes ctx ++ [rs_state outcome])
                     (nc_block_header ctx))
    end
  end.

(** Source: evm-ext/src/native_impl.rs 183-196 [evm_view_with_native] *)
Definition evm_view_with_native (ctx : NativeEVMContext) (caller to : Address) (value : Z)
    (data : bytes) (gas_limit : Z) : result SafeNativeError ResultAndState :=
  let block_env := block_env (nc_block_header ctx) in
  map_err evm_error
    (revm_replay (nc_db ctx) block_env (build_evm caller (Call to) value data gas_limit)).

(** The charge for the gas an execution used, and its result as a value.
    Source: evm-ext/src/native_impl.rs 176-180 [evm_transact_inner] *)
Definition charge_result (context : SafeNativeContext) (outcome : ResultAndState)
    : result SafeNativeError MoveValue * SafeNativeContext :=
  match native_charge (gas_balance context) (evm_gas_evaluate (er_gas_used (rs_result outcome))) with
  | Err e => (Err e, context)
  | Ok balance =>
    (Ok (evm_result_to_move_value (rs_result outcome)), MkNative balance (extension context))
  end.

(** Source: evm-ext/src/native_impl.rs 163-181 [evm_transact_inner] *)
Definition evm_transact_inner (context : SafeNativeContext) (caller : Address)
    (transact_to : TxKind) (value : Z) (data : bytes)
    : result SafeNativeError MoveValue * SafeNativeContext :=
  let gas_limit := get_gas_limit (gas_balance context) in
  let '(outcome, ctx) :=
    evm_transact_with_native (extension context) caller transact_to value data gas_limit in
  let context := MkNative (gas_balance context) ctx in
  match outcome with
  | Err e => (Err e, context)
  | Ok outcome => charge_result context outcome
  end.

(** Source: evm-ext/src/native_impl.rs 111-132 [evm_call] *)
Definition evm_call (context : SafeNativeContext) (args : list MoveValue)
    : exec (result SafeNativeError MoveValue * SafeNativeContext) :=
  args ← pop_evm_args args;
  match args with
  | Err e => Done (Err e, context)
  | Ok a => Done (evm_transact_inner context (to_eth_address (ca_caller a))
              (Call (to_eth_address (ca_to a))) (to_u256 (ca_value a)) (ca_data a))
  end.

(** Source: evm-ext/src/native_impl.rs 134-156 [evm_create] *)
Definition evm_create (context : SafeNativeContext) (args : list MoveValue)
    : exec (result SafeNativeError MoveValue * SafeNativeContext) :=
  '(data, args) ← pop_back args;
  match value_as_bytes data with Err e => Done (Err e, context) | Ok data =>
  '(value, args) ← pop_back args;
  match value_as_u256 value with Err e => Done (Err e, context) | Ok value =>
  '(caller, _) ← pop_back args;
  match value_as_address caller with Err e => Done (Err e, context) | Ok caller =>
  Done (evm_transact_inner context (to_eth_address caller) Create (to_u256 value) data)
  end end end.

(** Source: evm-ext/src/native_impl.rs 78-109 [evm_view] *)
Definition evm_view (context : SafeNativeContext) (args : list MoveValue)
    : exec (result SafeNativeError MoveValue * SafeNativeContext) :=
  args ← pop_evm_args args;
  match args with
  | Err e => Done (Err e, context)
  | Ok a =>
    let gas_limit := get_gas_limit (gas_balance context) in
    match evm_view_with_native (extension context) (to_eth_address (ca_caller a))
            (to_eth_address (ca_to a)) (to_u256 (ca_value a)) (ca_data a) gas_limit with
    | Err e => Done (Err e, context)
    | Ok outcome => Done (charge_result context outcome)
    end
  end.

(** ** Effects *)

(** An execution stays within its gas limit, and a charge within the balance
    succeeds. *)
Class RevmLaws : Prop := {
  revm_gas db env tx frame db' outcome :
    revm_execute db env tx = (Ok frame, db') → revm_post_execution frame = Ok outcome →
    0 ≤ er_gas_used (rs_result outcome) ≤ te_gas_limit tx;
  replay_gas db env tx outcome : revm_replay db env tx = Ok outcome →
    0 ≤ er_gas_used (rs_result outcome) ≤ te_gas_limit tx;
  native_charge_ok balance amount : 0 ≤ amount ≤ balance →
    native_charge balance amount = Ok (balance - amount);
}.

Lemma push_transfers ts l :
  fold_left (λ l t, push_transfer t l) ts l = MkLogger (transfers l ++ ts) (origins l).
Proof.
  revert l. induction ts as [|t ts IH]; intros l; simpl; [by destruct l; rewrite app_nil_r|].
  rewrite IH. simpl. by rewrite <- app_assoc.
Qed.

Lemma charge_result_ok `{!RevmLaws} context outcome :
  uint 64 (gas_balance context) →
  0 ≤ er_gas_used (rs_result outcome) ≤ get_gas_limit (gas_balance context) →
  let cost := Z.max (er_gas_used (rs_result outcome) - EVM_BASE_GAS) 0 * EVM_SCALE_FACTOR in
  0 ≤ cost ≤ gas_balance context
  ∧ charge_result context outcome =
      (Ok (evm_result_to_move_value (rs_result outcome)),
       MkNative (gas_balance context - cost) (extension context)).
Proof.
  intros Hb Hg cost. destruct (evm_gas_within_balance _ _ Hb Hg) as (Hr & Hc & _).
  fold cost in Hc. rewrite <- Hc. split; [done|]. unfold charge_result. by rewrite native_charge_ok.
Qed.

(** C16 (functional): an EVM call or deployment that the EVM completes,
    successful or reverted, never runs the Move transaction out of gas: its cost
    is covered by the balance its gas limit was derived from.  It yields the
    EVM's result, logs the value sent by the caller and every balance transfer
    of the execution in order, and keeps the changed accounts for the end of the
    session; an execution the EVM refuses logs the value sent and keeps no
    changes. *)
Theorem evm_transact_effects `{!RevmLaws} context caller transact_to value data :
  uint 64 (gas_balance context) →
  let ctx := extension context in
  let tx := build_evm caller transact_to value data (get_gas_limit (gas_balance context)) in
  let '(r, context') := evm_transact_inner context caller transact_to value data in
  origins (nc_transfer_logs (extension context')) =
    origins (nc_transfer_logs ctx) ++ [(to_move_address caller, value)]
  ∧ match revm_execute (nc_db ctx) (block_env (nc_block_header ctx)) tx with
    | (Ok frame, _) =>
      transfers (nc_transfer_logs (extension context')) =
        transfers (nc_transfer_logs ctx) ++ journal_transfers (journal frame)
      ∧ ∀ outcome, revm_post_execution frame = Ok outcome →
          r = Ok (evm_result_to_move_value (rs_result outcome))
          ∧ nc_state_changes (extension context') = nc_state_changes ctx ++ [rs_state outcome]
          ∧ 0 ≤ gas_balance context' ≤ gas_balance context
          ∧ gas_balance context' = gas_balance context
              - Z.max (er_gas_used (rs_result outcome) - EVM_BASE_GAS) 0 * EVM_SCALE_FACTOR
    | (Err e, _) =>
      r = Err (evm_error e) ∧ gas_balance context' = gas_balance context
      ∧ transfers (nc_transfer_logs (extension context')) = transfers (nc_transfer_logs ctx)
      ∧ nc_state_changes (extension context') = nc_state_changes ctx
    end.
Proof.
  intros Hb ctx tx. unfold evm_transact_inner, evm_transact_with_native. fold ctx tx.
  destruct (revm_execute _ _ tx) as [[frame|e] db] eqn:He; [|by split_and!].
  unfold post_execution. rewrite push_transfers.
  destruct (revm_post_execution frame) as [outcome|e] eqn:Hp.
  - destruct (charge_result_ok (MkNative (gas_balance context)
      (MkNativeContext (MkLogger (transfers (nc_transfer_logs ctx) ++ journal_transfers (journal frame))
         (origins (nc_transfer_logs ctx) ++ [(to_move_address caller, value)])) db
         (nc_state_changes ctx ++ [rs_state outcome]) (nc_block_header ctx))) outcome Hb) as [Hc Hr].
    { apply (revm_gas _ _ _ _ _ _ He Hp). }
    simpl in Hr |- *. rewrite Hr. simpl. split; [done|]. split; [done|].
    intros o [= <-]. simpl in Hc. split_and!; try done; lia.
  - simpl. split; [done|]. split; [done|]. by intros o [=].
Qed.

(** A view leaves the session as it is, and costs within the balance. *)
Lemma evm_view_effects `{!RevmLaws} context args r context' :
  uint 64 (gas_balance context) → evm_view context args = Done (r, context') →
  extension context' = extension context ∧ 0 ≤ gas_balance context' ≤ gas_balance context.
Proof.
  intros Hb Hv. unfold evm_view in Hv. apply bind_Done in Hv as (a & _ & Hv).
  assert (0 ≤ gas_balance context) by (by destruct Hb).
  destruct a as [a|e]; [|injection Hv as _ <-; split; [done|lia]].
  unfold evm_view_with_native in Hv.
  destruct (revm_replay _ _ _) as [outcome|e] eqn:Hr; simpl in Hv; [|injection Hv as _ <-; split; [done|lia]].
  destruct (charge_result_ok context outcome Hb) as [Hc Hch]; [apply (replay_gas _ _ _ _ Hr)|].
  rewrite Hch in Hv. injection Hv as _ <-. simpl. split; [done|lia].
Qed.

End EvmCalls.
Arguments NativeEVMContext {_ _}.
Arguments SafeNativeContext {_ _}.

(** Witness: a call that transfers 5 wei and uses 500 gas above the base. *)
Module EvmCallsWitness.
#[local] Existing Instance Envelope.Witness.unit_errors.

Definition outcome : ResultAndState :=
  MkResultAndState (MkExecutionResult true None (Some [1]) 21500 [])
    [([7], MkEvmAccount (MkInfo 5 1 [] None) [] true false)].
#[local] Instance toy_revm : Revm := {|
  CacheDB := (); Frame := list (list JournalEntry);
  revm_execute := λ db _ tx,
    (if decide (21500 ≤ te_gas_limit tx) then Ok [[OtherEntry; BalanceTransfer [8] [7] 5]]
     else Err (EvmOther "out of gas"), db);
  journal := id; revm_post_execution := λ _, Ok outcome;
  revm_replay := λ _ _ tx,
    if decide (21500 ≤ te_gas_limit tx) then Ok outcome else Err (EvmOther "out of gas");
  SafeNativeError := option (); invariant_violation := λ _, None; aborted := λ _, ();
  native_charge := λ b a, if decide (a ≤ b) then Ok (b - a) else Err (Some ());
  value_as_bytes := λ v, match v with
    | VVector l => ok_or (mapM as_u8 l) None | _ => Err None end; value_as_u256 := λ _, Ok 0; value_as_address := λ _, Ok [] |}.

#[local] Instance toy_revm_laws : RevmLaws.
Proof.
  split; simpl.
  - intros db env tx frame db' o Hx [= <-]. case_decide; [|done]. simpl. lia.
  - intros db env tx o Hx. case_decide; [|done]. injection Hx as <-. simpl. lia.
  - intros b a [_ Ha]. by rewrite decide_True.
Qed.

Definition context : SafeNativeContext :=
  MkNative 1000000 (MkNativeContext (MkLogger [] []) () [] (MkHeaderForExecution 1 12 [])).

Lemma evm_transact_effects_witness :
  let '(r, context') := evm_transact_inner context [8] (Call [7]) 5 [] in
  origins (nc_transfer_logs (extension context')) = [] ++ [(to_move_address [8], 5)]
  ∧ transfers (nc_transfer_logs (extension context')) =
      [] ++ journal_transfers [[OtherEntry; BalanceTransfer [8] [7] 5]]
  ∧ ∀ o, revm_post_execution [[OtherEntry; BalanceTransfer [8] [7] 5]] = Ok o →
      r = Ok (evm_result_to_move_value (rs_result o))
      ∧ nc_state_changes (extension context') = [] ++ [rs_state o]
      ∧ 0 ≤ gas_balance context' ≤ 1000000
      ∧ gas_balance context' = 1000000
          - Z.max (er_gas_used (rs_result o) - EVM_BASE_GAS) 0 * EVM_SCALE_FACTOR.
Proof. apply (evm_transact_effects context [8] (Call [7]) 5 []). done. Defined.

End EvmCallsWitness.
