(* ===== verification/SolidityAbi.v ===== *)
(** The natives that encode Move values with the Solidity ABI and decode them
    ([evm-ext/src/solidity_abi.rs]).  The codec itself is third-party
    ([alloy::dyn_abi]): [SolCodec] is its interface and [SolCodecLaws] what the
    ABI documents of it; here are its dynamic values and types by their
    constructors, the mapping of Move values and layouts onto them, the special
    cases that bypass it, and the charges. *)
From S2P Require Import Prelude Primitives MoveTypes Errors Envelope EthToken Application MoveVm Events TagValidation.
From S2P Require Import Storage StateTree EvmState EvmCalls.
Import Addresses Words.

Local Open Scope Z_scope.

(** [alloy::dyn_abi::DynSolValue]; integers come with their width in bits, fixed
    bytes with their length. *)
Inductive DynSolValue :=
| SBool (b : bool) | SInt (z size : Z) | SUint (u size : Z)
| SFixedBytes (w : B256) (size : Z) | SAddress (a : Address) | SFunction (f : bytes)
| SBytes (b : bytes) | SString (s : bytes)
| SArray (l : list DynSolValue) | SFixedArray (l : list DynSolValue) | STuple (l : list DynSolValue).

(** [alloy::dyn_abi::DynSolType]. *)
Inductive DynSolType :=
| YBool | YInt (size : Z) | YUint (size : Z) | YFixedBytes (size : Z) | YAddress | YFunction
| YBytes | YString | YArray (t : DynSolType) | YFixedArray (t : DynSolType) (n : Z)
| YTuple (ts : list DynSolType).

(** [DynSolType::matches]: the value has the type. *)
Fixpoint sol_matches (t : DynSolType) (v : DynSolValue) : bool :=
  match t, v with
  | YBool, SBool _ | YAddress, SAddress _ | YFunction, SFunction _
  | YBytes, SBytes _ | YString, SString _ => true
  | YUint n, SUint _ m | YInt n, SInt _ m | YFixedBytes n, SFixedBytes _ m => n =? m
  | YArray t, SArray l => forallb (sol_matches t) l
  | YFixedArray t n, SFixedArray l => (Z.of_nat (length l) =? n) && forallb (sol_matches t) l
  | YTuple ts, STuple vs =>
    (fix go ts vs := match ts, vs with
     | [], [] => true
     | t :: ts, v :: vs => sol_matches t v && go ts vs
     | _, _ => false
     end) ts vs
  | _, _ => false
  end.

(** What Rust's types guarantee of a value: words, addresses and bytes of their
    lengths, strings of UTF-8. *)
Fixpoint sol_rep (v : DynSolValue) : Prop :=
  match v with
  | SUint u _ => uint 256 u
  | SFixedBytes w _ => bytes_len 32 w
  | SAddress a => bytes_len 20 a
  | SBytes b | SFunction b => is_bytes b
  | SString b => is_bytes b ∧ utf8_valid b = true
  | SArray l | SFixedArray l | STuple l => every sol_rep l
  | SBool _ | SInt _ _ => True
  end.

(** The values of which the ABI keeps everything: integers within their width,
    fixed bytes with zeros behind their length, no empty tuple. *)
Fixpoint sol_canonical (v : DynSolValue) : Prop :=
  match v with
  | SUint u size => uint size u
  | SFixedBytes w size => drop (Z.to_nat size) w = replicate (32 - Z.to_nat size) 0
  | SBytes b | SString b => Z.of_nat (length b) < 2 ^ 64
  | SArray l => Z.of_nat (length l) < 2 ^ 64 ∧ every sol_canonical l
  | STuple l => l ≠ [] ∧ every sol_canonical l
  | SAddress _ | SBool _ => True
  | _ => False
  end.

(** How deeply types nest. *)
Fixpoint sol_depth (t : DynSolType) : nat :=
  match t with
  | YArray t | YFixedArray t _ => S (sol_depth t)
  | YTuple ts => S (foldr Nat.max O (sol_depth <$> ts))
  | _ => O
  end.

(** An array without elements is encoded as an empty byte string is. *)
Fixpoint sol_erase (v : DynSolValue) : DynSolValue :=
  match v with
  | SArray [] => SBytes []
  | SArray l => SArray (sol_erase <$> l)
  | SFixedArray l => SFixedArray (sol_erase <$> l)
  | STuple l => STuple (sol_erase <$> l)
  | v => v
  end.

Class SolCodec := {
  SolError : Type;
  sol_custom : string → SolError;
  (** [DynSolValue::abi_encode_params], [DynSolType::abi_decode_params]. *)
  sol_encode_params : DynSolValue → bytes;
  sol_decode_params : DynSolType → bytes → result SolError DynSolValue;
  (** The decoder refuses types that nest more deeply. *)
  recursion_limit : nat;
}.

(** The ABI: what was encoded is decoded with its type; what is decoded has the
    type; an integer is its word, an empty array its offset and its length; the
    encoding is that of the words, not of the type: a string alone is encoded as
    its bytes are, and so is a tuple of them. *)
Class SolCodecLaws `{SolCodec} : Prop := {
  sol_decode_encode t v : sol_matches t v = true → sol_rep v → sol_canonical v →
    (sol_depth t ≤ recursion_limit)%nat → sol_decode_params t (sol_encode_params v) = Ok v;
  sol_decode_typed t data v : is_bytes data → sol_decode_params t data = Ok v →
    sol_matches t v = true ∧ sol_rep v;
  sol_encode_uint u size : uint size u → size ≤ 256 → sol_encode_params (SUint u size) = be_bytes 32 u;
  sol_encode_empty : sol_encode_params (SArray []) = be_bytes 32 32 ++ be_bytes 32 0;
  sol_encode_erase v w : sol_erase v = sol_erase w → sol_encode_params v = sol_encode_params w;
  sol_encode_string s : sol_encode_params (STuple [SBytes s]) = sol_encode_params (SString s);
}.

(** ** The markers *)

(** Source: evm-ext/src/solidity_abi.rs 31-37 [FIXED_BYTES_TAG] *)
Definition FIXED_BYTES_TAG : StructTag :=
  MkStructTag EVM_NATIVE_ADDRESS EVM_NATIVE_MODULE "SolidityFixedBytes" [].

(** Source: evm-ext/src/solidity_abi.rs 39-45 [FIXED_ARRAY_TAG] *)
Definition FIXED_ARRAY_TAG : StructTag :=
  MkStructTag EVM_NATIVE_ADDRESS EVM_NATIVE_MODULE "SolidityFixedArray" [].

(** Source: evm-ext/src/solidity_abi.rs 47-53 [STRING_TAG] *)
Definition STRING_TAG : StructTag := MkStructTag FRAMEWORK_ADDRESS "string" "String" [].

(** The comparison of module and name that ignores the type arguments. *)
Definition is_marked (marker tag : StructTag) : bool :=
  bool_decide (tag_module_id marker = tag_module_id tag ∧ tag_name marker = tag_name tag).

(** The loop of [type_args_to_usize] from its [i]-th round on.
    Source: evm-ext/src/solidity_abi.rs 438-453 [type_args_to_usize] *)
Fixpoint clear_bits (i : nat) (params : list TypeTag) (bytes_size : Z) : Z :=
  match params with
  | [] => bytes_size
  | param :: params =>
    if (5 <=? i)%nat then bytes_size
    else
      let bit_param_name := match param with TStruct tag => tag_name tag | _ => ""%string end in
      let bytes_size :=
        if bool_decide (bit_param_name = "B0"%string)
        then Z.lxor bytes_size (Z.shiftl 1 (Z.of_nat (4 - i))) else bytes_size in
      clear_bits (S i) params bytes_size
  end.

(** Source: evm-ext/src/solidity_abi.rs 427-458 [type_args_to_usize] *)
Definition type_args_to_usize (type_args : list TypeTag) : Z :=
  let u5_type_params :=
    match type_args with TStruct struct_tag :: _ => Some (tag_type_args struct_tag) | _ => None end in
  let bytes_size := 31 in
  let bytes_size :=
    match u5_type_params with Some params => clear_bits 0 params bytes_size | None => bytes_size end in
  bytes_size + 1.

(** Source: evm-ext/src/solidity_abi.rs 460-466 [force_to_u8] *)
Definition force_to_u8 (mv : MoveValue) : exec Z :=
  match mv with VU8 x => Done x | _ => Panic end.

(** The native interface as far as these natives use it, with the gas schedule's
    entries; the runtime type arguments are opaque. *)
Class AbiNatives `{SolCodec, Revm} := {
  RuntimeTy : Type;
  type_to_type_layout : RuntimeTy → result SafeNativeError MoveTypeLayout;
  type_to_fully_annotated_layout : RuntimeTy → result SafeNativeError MoveTypeLayout;
  (** [Value::as_move_value], which panics when the layout is not the value's. *)
  as_move_value : MoveValue → MoveTypeLayout → exec MoveValue;
  (** [bcs::serialized_size]. *)
  serialized_size : MoveValue → result string Z;
  value_serialization_error : string → SafeNativeError;
  (** What [safely_pop_arg!] and [safely_pop_type_arg!] return on an empty list. *)
  missing_argument : SafeNativeError;
  native_abort : Z → SafeNativeError;
  TYPE_INFO_TYPE_OF_BASE : Z;
  (** [UTIL_FROM_BYTES_PER_BYTE * NumBytes::new(size)]. *)
  util_from_bytes : Z → Z;
}.

Section SolidityAbi.
Context `{AbiNatives}.

(** ** Between Move and Solidity *)

(** [data.pop()] on the fields of a marker struct: the last field, which must be
    a vector. *)
Fixpoint last_vector {A} (f : list MoveValue → exec A) (fields : list MoveValue) : exec A :=
  match fields with
  | [] => Panic
  | [VVector data] => f data
  | [_] => Panic
  | _ :: fields => last_vector f fields
  end.

(** Source: evm-ext/src/solidity_abi.rs 197-291 [move_value_to_sol_value] *)
Fixpoint move_value_to_sol_value (mv : MoveValue) (annotated_layout : MoveTypeLayout) : exec DynSolValue :=
  match mv with
  | VSigner move_address | VAddress move_address => Done (SAddress (to_eth_address move_address))
  | VBool b => Done (SBool b)
  | VU8 x => Done (SUint x 8)
  | VU16 x => Done (SUint x 16)
  | VU32 x => Done (SUint x 32)
  | VU64 x => Done (SUint x 64)
  | VU128 x => Done (SUint x 128)
  | VU256 x => Done (SUint (to_u256 x) 256)
  | VVector xs =>
    match xs with
    | VU8 _ :: _ => bs ← exec_map force_to_u8 xs; Done (SBytes bs)
    | _ =>
      match annotated_layout with
      | LVector inner_layout =>
        xs ← exec_map (λ x, move_value_to_sol_value x inner_layout) xs; Done (SArray xs)
      | _ => Panic
      end
    end
  | VStruct _ fields =>
    match annotated_layout with
    | LStruct (LWithTypes struct_tag field_layouts) =>
      if is_marked FIXED_BYTES_TAG struct_tag then
        last_vector (λ data,
          data ← exec_map force_to_u8 (take 32 data);
          let size_arg := type_args_to_usize (tag_type_args struct_tag) in
          Done (SFixedBytes (data ++ replicate (32 - length data) 0) size_arg)) fields
      else if is_marked FIXED_ARRAY_TAG struct_tag then
        last_vector (λ data,
          match field_layouts with
          | (_, LVector inner_layout) :: _ =>
            data ← exec_map (λ x, move_value_to_sol_value x inner_layout) data;
            Done (SFixedArray data)
          | _ => Panic
          end) fields
      else
        fields ← (fix zip_map fields field_layouts := match fields, field_layouts with
          | x :: fields, (_, l) :: field_layouts =>
            y ← move_value_to_sol_value x l; ys ← zip_map fields field_layouts; Done (y :: ys)
          | _, _ => Done []
          end) fields field_layouts;
        Done (STuple fields)
    | _ => Panic
    end
  end.

(** Source: evm-ext/src/solidity_abi.rs 293-353 [layout_to_sol_type] *)
Fixpoint layout_to_sol_type (layout : MoveTypeLayout) : exec (result SolError DynSolType) :=
  match layout with
  | LBool => Done (Ok YBool)
  | LU8 => Done (Ok (YUint 8))
  | LU16 => Done (Ok (YUint 16))
  | LU32 => Done (Ok (YUint 32))
  | LU64 => Done (Ok (YUint 64))
  | LU128 => Done (Ok (YUint 128))
  | LU256 => Done (Ok (YUint 256))
  | LSigner | LAddress => Done (Ok YAddress)
  | LVector LU8 => Done (Ok YBytes)
  | LVector vector_layout => t ←? layout_to_sol_type vector_layout; Done (Ok (YArray t))
  | LStruct (LWithTypes struct_tag field_layouts) =>
    if is_marked FIXED_BYTES_TAG struct_tag then
      Done (Ok (YFixedBytes (type_args_to_usize (tag_type_args struct_tag))))
    else if is_marked FIXED_ARRAY_TAG struct_tag then
      Done (Err (sol_custom "Fixed size arrays are not supported in move"))
    else if bool_decide (STRING_TAG = struct_tag) then Done (Ok YString)
    else
      ts ←? (fix go field_layouts := match field_layouts with
        | [] => Done (Ok [])
        | (_, l) :: field_layouts =>
          t ←? layout_to_sol_type l; ts ←? go field_layouts; Done (Ok (t :: ts))
        end) field_layouts;
      Done (Ok (YTuple ts))
  | LStruct _ => Panic
  | LNative native_layout => layout_to_sol_type native_layout
  end.

(** The layouts of the fields, when the struct has no variants. *)
Definition struct_fields (s : MoveStructLayout) : option (list MoveTypeLayout) :=
  match s with
  | LRuntime fields => Some fields
  | LWithFields fields | LWithTypes _ fields => Some fields.*2
  | LRuntimeVariants _ | LWithVariants _ => None
  end.

Definition unrecognized : SolError :=
  sol_custom "Unrecognized and/or mismatched types. Note: Int, FixedArray, Function and CustomStruct are not supported".

(** Source: evm-ext/src/solidity_abi.rs 355-425 [sol_to_value] *)
Fixpoint sol_to_value (sv : DynSolValue) (layout : MoveTypeLayout) : result SolError MoveValue :=
  match sv, layout with
  | SBool b, LBool => Ok (VBool b)
  | SUint u size, _ =>
    let value := U256_to_move_u256 u in
    let unsupported :=
      Err (sol_custom "Only 8, 16, 32, 64, 128 and 256 bit uints are supported by move") in
    match layout with
    | LU8 => if size =? 8 then Ok (VU8 (wrap 8 value)) else unsupported
    | LU16 => if size =? 16 then Ok (VU16 (wrap 16 value)) else unsupported
    | LU32 => if size =? 32 then Ok (VU32 (wrap 32 value)) else unsupported
    | LU64 => if size =? 64 then Ok (VU64 (wrap 64 value)) else unsupported
    | LU128 => if size =? 128 then Ok (VU128 (wrap 128 value)) else unsupported
    | LU256 => if size =? 256 then Ok (VU256 value) else unsupported
    | _ => unsupported
    end
  | SFixedBytes w _, LStruct _ => Ok (VStruct None [vector_u8 w])
  | SAddress a, LAddress => Ok (VAddress (to_move_address a))
  | SAddress _, LSigner => Err (sol_custom "Decoding signer type not allowed")
  | SBytes b, LVector LU8 => Ok (vector_u8 b)
  | SString s, LStruct _ => Ok (VStruct None [vector_u8 s])
  | SArray a, LVector inner_layout =>
    a ← (fix go a := match a with
      | [] => Ok []
      | sv :: a => v ← sol_to_value sv inner_layout; vs ← go a; Ok (v :: vs)
      end) a;
    Ok (VVector a)
  | STuple t, LStruct struct_layout =>
    match struct_fields struct_layout with
    | None => Err (sol_custom "Variant-type layouts are unsupported")
    | Some fields =>
      t ← (fix go t fields := match t, fields with
        | sv :: t, layout :: fields => v ← sol_to_value sv layout; vs ← go t fields; Ok (v :: vs)
        | _, _ => Ok []
        end) t fields;
      Ok (VStruct None t)
    end
  | _, _ => Err unrecognized
  end.

(** Source: evm-ext/src/solidity_abi.rs 156-188 [inner_abi_encode_params] *)
Definition inner_abi_encode_params (mv : MoveValue) (annotated_layout : MoveTypeLayout) : exec bytes :=
  match mv with
  | VU8 x => Done (replicate 31 0 ++ [x])
  | VU16 x => Done (replicate 30 0 ++ be_bytes 2 x)
  | VU32 x => Done (replicate 28 0 ++ be_bytes 4 x)
  | VVector [] => Done (replicate 31 0 ++ [32] ++ replicate 32 0)
  | _ => v ← move_value_to_sol_value mv annotated_layout; Done (sol_encode_params v)
  end.

(** Source: evm-ext/src/solidity_abi.rs 190-195 [inner_abi_decode_params] *)
Definition inner_abi_decode_params (value : bytes) (layout : MoveTypeLayout)
    : exec (result SolError MoveValue) :=
  sol_type ←? layout_to_sol_type layout;
  sol_value ←? Done (sol_decode_params sol_type value);
  Done (sol_to_value sol_value layout).

(** ** The natives *)

(** A charge on the gas left; the rest of the context stays. *)
Definition charge_gas (context : SafeNativeContext) (amount : Z)
    : result SafeNativeError SafeNativeContext :=
  balance ← native_charge (gas_balance context) amount; Ok (MkNative balance (extension context)).

(** Source: evm-ext/src/solidity_abi.rs 128-143 [abi_encode_gas_cost] *)
Definition abi_encode_gas_cost (mv : MoveValue) : result SafeNativeError Z :=
  size ← map_err value_serialization_error (serialized_size mv); Ok (util_from_bytes (wrap 64 size)).

(** Source: evm-ext/src/solidity_abi.rs 145-152 [abi_decode_gas_cost] *)
Definition abi_decode_gas_cost (value : bytes) : Z := util_from_bytes (Z.of_nat (length value)).

(** Taking the last type argument. *)
Definition pop_type_arg (ty_args : list RuntimeTy) : result SafeNativeError RuntimeTy :=
  ok_or (last ty_args) missing_argument.

(** The result of a native and the context it leaves; a charge made before an
    error stays made. *)
Abbreviation native A := (cmd SafeNativeContext SafeNativeError A).
Definition charge (amount : Z) : native () := λ context,
  match charge_gas context amount with
  | Ok context => Done (Ok (), context)
  | Err e => Done (Err e, context)
  end.

Local Open Scope cmd_scope.

(** Source: evm-ext/src/solidity_abi.rs 55-100 [abi_encode_params] *)
Definition abi_encode_params (ty_args : list RuntimeTy) (args : list MoveValue) : native MoveValue :=
  let! (value, args) := cexec (pop_back args) in
  let! (prefix, _) := cexec (pop_back args) in
  let! prefix := clift (value_as_bytes prefix) in
  let! ty_arg := clift (pop_type_arg ty_args) in
  charge TYPE_INFO_TYPE_OF_BASE ;;!
  charge TYPE_INFO_TYPE_OF_BASE ;;!
  let! undecorated_layout := clift (type_to_type_layout ty_arg) in
  let! annotated_layout := clift (type_to_fully_annotated_layout ty_arg) in
  let! mv := cexec (as_move_value value undecorated_layout) in
  let! cost := clift (abi_encode_gas_cost mv) in
  charge cost ;;!
  let! encoding := cexec (inner_abi_encode_params mv annotated_layout) in
  cret (vector_u8 (prefix ++ encoding)).

(** [safely_pop_arg!(args, Vec<u8>)]. *)
Definition pop_bytes (args : list MoveValue) : result SafeNativeError bytes :=
  value ← ok_or (last args) missing_argument; value_as_bytes value.

(** Source: evm-ext/src/solidity_abi.rs 102-126 [abi_decode_params] *)
Definition abi_decode_params (ty_args : list RuntimeTy) (args : list MoveValue) : native MoveValue :=
  let! value := clift (pop_bytes args) in
  let! ty_arg := clift (pop_type_arg ty_args) in
  charge TYPE_INFO_TYPE_OF_BASE ;;!
  charge (abi_decode_gas_cost value) ;;!
  let! annotated_layout := clift (type_to_fully_annotated_layout ty_arg) in
  let! result := cexec (inner_abi_decode_params value annotated_layout) in
  clift (map_err (λ _, native_abort 0) result).


(** ** Sizes of fixed bytes *)

Definition is_B0 (param : TypeTag) : bool :=
  match param with TStruct tag => bool_decide (tag_name tag = "B0"%string) | _ => false end.

(** The five bits of a size, most significant first; what is missing or is not
    [B0] counts as one. *)
Definition size_bits (params : list TypeTag) : list bool :=
  negb <$> take 5 ((is_B0 <$> params) ++ replicate 5 false).
Definition bits_val (bs : list bool) : Z := foldl (λ acc b, 2 * acc + Z.b2z b) 0 bs.

Lemma clear_bits_spec params : clear_bits 0 params 31 = bits_val (size_bits params).
Proof.
  assert (∀ i param params z, (i < 5)%nat → clear_bits i (param :: params) z =
    clear_bits (S i) params (if is_B0 param then Z.lxor z (Z.shiftl 1 (Z.of_nat (4 - i))) else z)) as Hs.
  { intros i param ps z Hi. unfold clear_bits at 1. fold clear_bits.
    rewrite (proj2 (Nat.leb_gt 5 i)) by lia. by destruct param as [| | | | | | | | | |tag]; try done; simpl;
      case_bool_decide. }
  assert (∀ params z, clear_bits 5 params z = z) as Hend by (by intros []).
  unfold size_bits. destruct params as [|p1 [|p2 [|p3 [|p4 [|p5 ps]]]]];
    rewrite ?Hs, ?Hend by lia; simpl;
    repeat match goal with |- context [is_B0 ?p] => destruct (is_B0 p) end; reflexivity.
Qed.

Lemma size_range type_args : 1 ≤ type_args_to_usize type_args ≤ 32.
Proof.
  assert (∀ bs, 0 ≤ bits_val bs < 2 ^ Z.of_nat (length bs)) as Hb.
  { intros bs. unfold bits_val. induction bs as [|b bs IH] using rev_ind; [simpl; lia|].
    rewrite foldl_app, length_app, Nat2Z.inj_add, Z.pow_add_r by lia. simpl. destruct b; simpl; lia. }
  unfold type_args_to_usize. destruct type_args as [|[| | | | | | | | | |tag] rest]; try (simpl; lia).
  rewrite clear_bits_spec. pose proof (Hb (size_bits (tag_type_args tag))) as Hs.
  unfold size_bits in Hs. rewrite length_fmap, length_take, length_app, length_replicate in Hs.
  replace (5 `min` _)%nat with 5%nat in Hs by lia. unfold size_bits. lia.
Qed.

Definition marker_bit (b : bool) : TypeTag :=
  TStruct (MkStructTag EVM_NATIVE_ADDRESS EVM_NATIVE_MODULE (if b then "B1" else "B0") []).
Definition size_tag (bs : list bool) : list TypeTag :=
  [TStruct (MkStructTag EVM_NATIVE_ADDRESS EVM_NATIVE_MODULE "U5" (marker_bit <$> bs))].

(** Every size from 1 to 32 has its type argument, one more than its five bits say. *)
Lemma size_tag_spec bs : length bs = 5%nat → type_args_to_usize (size_tag bs) = bits_val bs + 1.
Proof.
  intros Hl. unfold type_args_to_usize, size_tag. cbn [tag_type_args]. rewrite clear_bits_spec.
  destruct bs as [|[] [|[] [|[] [|[] [|[] []]]]]]; try done.
Qed.

(** ** Values that survive *)

(** The values of a layout that Solidity can hold: Ethereum addresses, lengths
    within 64 bits, fixed bytes with zeros behind their size; no signers, no
    strings, no fixed arrays. *)
Fixpoint abi_typed (layout : MoveTypeLayout) (v : MoveValue) : Prop :=
  match layout, v with
  | LBool, VBool _ => True
  | LU8, VU8 x => uint 8 x
  | LU16, VU16 x => uint 16 x
  | LU32, VU32 x => uint 32 x
  | LU64, VU64 x => uint 64 x
  | LU128, VU128 x => uint 128 x
  | LU256, VU256 x => uint 256 x
  | LAddress, VAddress a => ∃ e, bytes_len 20 e ∧ a = to_move_address e
  | LVector l, VVector xs => Z.of_nat (length xs) < 2 ^ 64 ∧ Forall (abi_typed l) xs
  | LStruct (LWithTypes tag fields), VStruct None vs =>
    if is_marked FIXED_BYTES_TAG tag then
      ∃ w, vs = [vector_u8 w] ∧ bytes_len 32 w
        ∧ sol_canonical (SFixedBytes w (type_args_to_usize (tag_type_args tag)))
    else
      tag ≠ STRING_TAG ∧ fields ≠ [] ∧
      (fix go fields vs := match fields, vs with
       | [], [] => True
       | (_, l) :: fields, v :: vs => abi_typed l v ∧ go fields vs
       | _, _ => False
       end) fields vs
  | _, _ => False
  end.

(** A value [sv] is what [v] is encoded from, and [sv'], which has the same
    encoding, is what it is decoded to. *)
Record mirrors (t : DynSolType) (layout : MoveTypeLayout) (v : MoveValue) (sv sv' : DynSolValue) : Prop := {
  mir_to : move_value_to_sol_value v layout = Done sv;
  mir_erase : sol_erase sv = sol_erase sv';
  mir_matches : sol_matches t sv' = true;
  mir_rep : sol_rep sv';
  mir_canonical : sol_canonical sv';
  mir_back : sol_to_value sv' layout = Ok v;
}.

Lemma force_bytes xs : Forall (abi_typed LU8) xs →
  ∃ bs, xs = VU8 <$> bs ∧ is_bytes bs ∧ exec_map force_to_u8 xs = Done bs.
Proof.
  induction 1 as [|x xs Hx _ (bs & -> & Hb & Hm)]; [by exists []; repeat constructor|].
  destruct x as [|x| | | | | | | | |]; try done. exists (x :: bs). simpl. rewrite Hm.
  split; [done|]. split; [|done]. by constructor.
Qed.

Lemma exec_map_u8 bs : exec_map force_to_u8 (VU8 <$> bs) = Done bs.
Proof. induction bs as [|b bs IH]; [done|]. rewrite fmap_cons. cbn [exec_map]. by rewrite IH. Qed.

Lemma to_move_u256_wrap w u : uint w u → 0 ≤ w ≤ 256 → wrap w (U256_to_move_u256 u) = u.
Proof.
  intros Hu Hw. rewrite U256_to_move_u256_id by by eapply uint_weaken. by apply wrap_small.
Qed.

Lemma mirrors_basic layout t v : layout_to_sol_type layout = Done (Ok t) → abi_typed layout v →
  match layout with LVector _ | LStruct _ | LNative _ => False | _ => True end →
  ∃ sv, mirrors t layout v sv sv.
Proof.
  intros Ht Hv Hl.
  destruct layout, v; try done; simpl in Ht, Hv; simplify_eq/=;
    (eexists; split; [reflexivity|reflexivity|..]);
    try done; cbn [sol_rep sol_canonical sol_to_value Z.eqb Pos.eqb];
    rewrite ?to_u256_id, ?to_move_u256_wrap, ?U256_to_move_u256_id by (done || lia);
    try done; try (by eapply uint_weaken; [|done]; lia).
  - assert (∀ x, uint 256 x → to_u256 x = x) as E by (intros; by apply to_u256_id).
    rewrite U256_to_move_u256_id by by rewrite E. by rewrite E.
  - destruct Hv as (e & He & ->). by rewrite to_eth_to_move.
  - destruct Hv as (e & He & ->). by rewrite to_eth_to_move.
Qed.

Lemma mirrors_bytes t v : layout_to_sol_type (LVector LU8) = Done (Ok t) →
  abi_typed (LVector LU8) v → ∃ sv sv', mirrors t (LVector LU8) v sv sv'.
Proof.
  intros [= <-] Hv. destruct v as [| | | | | | | | |xs|]; try done. destruct Hv as [Hl Hv].
  destruct (force_bytes xs Hv) as (bs & -> & Hb & Hm). rewrite length_fmap in Hl.
  destruct bs as [|b bs].
  - exists (SArray []), (SBytes []). by split.
  - exists (SBytes (b :: bs)), (SBytes (b :: bs)). split; try done.
    transitivity (l ← exec_map force_to_u8 (VU8 <$> b :: bs); Done (SBytes l)); [done|].
    by rewrite exec_map_u8.
Qed.

(** The mirrors of the elements of a vector, and of the fields of a struct. *)
Lemma mirrors_elements t l xs :
  (∀ v, abi_typed l v → ∃ sv sv', mirrors t l v sv sv') → Forall (abi_typed l) xs →
  ∃ svs svs', Forall2 (λ v sv, move_value_to_sol_value v l = Done sv) xs svs
    ∧ Forall2 (λ v sv', sol_to_value sv' l = Ok v) xs svs'
    ∧ sol_erase <$> svs = sol_erase <$> svs' ∧ forallb (sol_matches t) svs' = true
    ∧ Forall sol_rep svs' ∧ Forall sol_canonical svs'.
Proof.
  intros Hl. induction 1 as [|x xs Hx _ (svs & svs' & K1 & K2 & K3 & K4 & K5 & K6)].
  { exists [], []. by repeat constructor. }
  destruct (Hl x Hx) as (sv & sv' & []). exists (sv :: svs), (sv' :: svs').
  split_and!; [by constructor|by constructor| | |by constructor|by constructor].
  - rewrite !fmap_cons. by f_equal.
  - simpl. by rewrite mir_matches0.
Qed.

Lemma exec_map_Forall2 {A B} (f : A → exec B) xs ys :
  Forall2 (λ x y, f x = Done y) xs ys → exec_map f xs = Done ys.
Proof. induction 1 as [|x y xs ys Hx _ IH]; [done|]. cbn [exec_map]. by rewrite Hx, IH. Qed.

Lemma typed_u8 l x : abi_typed l (VU8 x) → l = LU8.
Proof. by destruct l as [| | | | | | | | | |[]|]. Qed.

Lemma mirrors_vector t l v : l ≠ LU8 →
  (∀ v, abi_typed l v → ∃ sv sv', mirrors t l v sv sv') → abi_typed (LVector l) v →
  ∃ sv sv', mirrors (YArray t) (LVector l) v sv sv'.
Proof.
  intros Hne Hl Hv. destruct v as [| | | | | | | | |xs|]; try done. destruct Hv as [Hlen Hv].
  destruct (mirrors_elements t l xs Hl Hv) as (svs & svs' & K1 & K2 & K3 & K4 & K5 & K6).
  exists (SArray svs), (SArray svs'). split.
  - transitivity (ys ← exec_map (λ x, move_value_to_sol_value x l) xs; Done (SArray ys)).
    + destruct Hv as [|x xs Hx _]; [done|]. destruct x; try done. by apply typed_u8 in Hx.
    + by rewrite (exec_map_Forall2 _ _ _ K1).
  - destruct svs as [|y ys], svs' as [|y' ys']; try done. cbn [sol_erase]. by f_equal.
  - done.
  - by apply every_Forall.
  - split; [|by apply every_Forall]. apply Forall2_length in K2. by rewrite <- K2.
  - cbn [sol_to_value]. assert (l ≠ LU8) as _ by done.
    transitivity (ys ← (Ok xs : result SolError (list MoveValue)); Ok (VVector ys)); [|done]. f_equal.
    clear -K2. induction K2 as [|v sv xs svs Hv _ IH]; [done|]. by rewrite Hv; simpl; rewrite IH.
Qed.

Fixpoint fields_typed (fields : list (string * MoveTypeLayout)) (vs : list MoveValue) : Prop :=
  match fields, vs with
  | [], [] => True
  | (_, l) :: fields, v :: vs => abi_typed l v ∧ fields_typed fields vs
  | _, _ => False
  end.

(** The recursions over fields inside the conversions, on their own. *)
Fixpoint fields_to_sol (fields : list MoveValue) (ls : list (string * MoveTypeLayout)) : exec (list DynSolValue) :=
  match fields, ls with
  | x :: fields, (_, l) :: ls =>
    y ← move_value_to_sol_value x l; ys ← fields_to_sol fields ls; Done (y :: ys)
  | _, _ => Done []
  end.
Fixpoint types_of_fields (ls : list (string * MoveTypeLayout)) : exec (result SolError (list DynSolType)) :=
  match ls with
  | [] => Done (Ok [])
  | (_, l) :: ls => t ←? layout_to_sol_type l; ts ←? types_of_fields ls; Done (Ok (t :: ts))
  end.
Fixpoint fields_of_sol (t : list DynSolValue) (ls : list MoveTypeLayout) : result SolError (list MoveValue) :=
  match t, ls with
  | sv :: t, l :: ls => v ← sol_to_value sv l; vs ← fields_of_sol t ls; Ok (v :: vs)
  | _, _ => Ok []
  end.
Fixpoint fields_match (ts : list DynSolType) (vs : list DynSolValue) : bool :=
  match ts, vs with
  | [], [] => true
  | t :: ts, v :: vs => sol_matches t v && fields_match ts vs
  | _, _ => false
  end.

Lemma mirrors_fields fields : 
  Forall (λ f, ∀ t, layout_to_sol_type f.2 = Done (Ok t) →
    ∀ v, abi_typed f.2 v → ∃ sv sv', mirrors t f.2 v sv sv') fields →
  ∀ ts vs, types_of_fields fields = Done (Ok ts) → fields_typed fields vs →
  ∃ svs svs', fields_to_sol vs fields = Done svs ∧ fields_of_sol svs' fields.*2 = Ok vs
    ∧ sol_erase <$> svs = sol_erase <$> svs' ∧ fields_match ts svs' = true
    ∧ Forall sol_rep svs' ∧ Forall sol_canonical svs' ∧ length svs' = length fields.
Proof.
  induction 1 as [|[name l] fields Hl _ IH]; intros ts vs Hts Hvs.
  - destruct vs; [|done]. injection Hts as <-. exists [], []. by repeat constructor.
  - destruct vs as [|v vs]; [done|]. destruct Hvs as [Hv Hvs].
    apply qbind_Ok in Hts as (t & Ht & Hts). apply qbind_Ok in Hts as (ts' & Hts & [= <-]).
    destruct (Hl t Ht v Hv) as (sv & sv' & []).
    destruct (IH ts' vs Hts Hvs) as (svs & svs' & K1 & K2 & K3 & K4 & K5 & K6 & K7).
    exists (sv :: svs), (sv' :: svs'). rewrite !fmap_cons.
    cbn [fields_to_sol fields_of_sol fields_match length fst snd] in *. rewrite mir_to0, K1. simpl.
    rewrite mir_back0, mir_matches0, K4, K7. simpl. rewrite K2.
    split_and!; try done; [by rewrite mir_erase0, K3|by constructor|by constructor].
Qed.

(** Structs that are no markers are tuples. *)
Definition is_tuple (tag : StructTag) : Prop :=
  is_marked FIXED_BYTES_TAG tag = false ∧ is_marked FIXED_ARRAY_TAG tag = false ∧ tag ≠ STRING_TAG.

Lemma layout_tuple tag fields : is_tuple tag →
  layout_to_sol_type (LStruct (LWithTypes tag fields)) =
    (ts ←? types_of_fields fields; Done (Ok (YTuple ts))).
Proof.
  intros (H1' & H2' & H3'). cbn [layout_to_sol_type]. rewrite H1', H2', bool_decide_false by done. done.
Qed.

Lemma layout_array l : l ≠ LU8 →
  layout_to_sol_type (LVector l) = (t ←? layout_to_sol_type l; Done (Ok (YArray t))).
Proof. by destruct l. Qed.

Lemma value_tuple tag fields vs :
  is_marked FIXED_BYTES_TAG tag = false → is_marked FIXED_ARRAY_TAG tag = false →
  move_value_to_sol_value (VStruct None vs) (LStruct (LWithTypes tag fields)) =
    (ys ← fields_to_sol vs fields; Done (STuple ys)).
Proof. intros Hb Ha. cbn [move_value_to_sol_value]. by rewrite Hb, Ha. Qed.

Lemma mirrors_tuple tag fields t vs : is_tuple tag → fields ≠ [] →
  Forall (λ f, ∀ t, layout_to_sol_type f.2 = Done (Ok t) →
    ∀ v, abi_typed f.2 v → ∃ sv sv', mirrors t f.2 v sv sv') fields →
  layout_to_sol_type (LStruct (LWithTypes tag fields)) = Done (Ok t) → fields_typed fields vs →
  ∃ sv sv', mirrors t (LStruct (LWithTypes tag fields)) (VStruct None vs) sv sv'.
Proof.
  intros Htag Hne IH Ht Hvs. rewrite layout_tuple in Ht by done.
  apply qbind_Ok in Ht as (ts & Hts & [= <-]).
  destruct (mirrors_fields fields IH ts vs Hts Hvs) as (svs & svs' & K1 & K2 & K3 & K4 & K5 & K6 & K7).
  exists (STuple svs), (STuple svs'). split.
  - rewrite value_tuple by apply Htag. by rewrite K1.
  - cbn [sol_erase]. by f_equal.
  - done.
  - by apply every_Forall.
  - split; [|by apply every_Forall]. intros ->. by destruct fields.
  - transitivity (ys ← fields_of_sol svs' fields.*2; Ok (VStruct None ys) : result SolError MoveValue);
      [done|]. by rewrite K2.
Qed.

Lemma mirrors_fixed_bytes tag fields w : is_marked FIXED_BYTES_TAG tag = true → bytes_len 32 w →
  let n := type_args_to_usize (tag_type_args tag) in
  sol_canonical (SFixedBytes w n) →
  mirrors (YFixedBytes n) (LStruct (LWithTypes tag fields)) (VStruct None [vector_u8 w])
    (SFixedBytes w n) (SFixedBytes w n).
Proof.
  intros Htag Hw n Hc. split; try done.
  - cbn [move_value_to_sol_value]. rewrite Htag. unfold vector_u8. cbn [last_vector].
    destruct Hw as [Hl _]. rewrite take_ge by by rewrite length_fmap, Hl.
    rewrite exec_map_u8. simpl. by rewrite Hl, app_nil_r.
  - simpl. apply Z.eqb_refl.
Qed.

Lemma typed_mirrors layout : ∀ t, layout_to_sol_type layout = Done (Ok t) →
  ∀ v, abi_typed layout v → ∃ sv sv', mirrors t layout v sv sv'.
Proof.
  induction layout as [l Hb|l IH|l IH|tag fields IH|s Hs] using layout_fields_ind; intros t Ht v Hv.
  - destruct (mirrors_basic l t v Ht Hv) as [sv Hm]; [by destruct l|]. by exists sv, sv.
  - assert (l = LU8 ∨ l ≠ LU8) as [->|Hne] by (destruct l; (by left) || by right).
    { by apply mirrors_bytes. }
    rewrite layout_array in Ht by done. apply qbind_Ok in Ht as (t' & Hl & [= <-]).
    apply mirrors_vector; auto.
  - done.
  - destruct v as [| | | | | | | | | |[] vs]; try done. cbn [abi_typed] in Hv.
    destruct (is_marked FIXED_BYTES_TAG tag) eqn:Hm.
    + destruct Hv as (w & -> & Hw & Hc). cbn [layout_to_sol_type] in Ht. rewrite Hm in Ht.
      injection Ht as <-. eauto using mirrors_fixed_bytes.
    + destruct Hv as (Hns & Hne & Hvs).
      destruct (is_marked FIXED_ARRAY_TAG tag) eqn:Ha.
      { cbn [layout_to_sol_type] in Ht. by rewrite Hm, Ha in Ht. }
      by apply mirrors_tuple.
  - by destruct s.
Qed.

(** ** Correctness *)

(** What is relied on of the native interface: byte vectors are read back, and
    nothing costs less than nothing. *)
Class AbiNativesLaws : Prop := {
  value_bytes b : value_as_bytes (vector_u8 b) = Ok b;
  type_cost_nonneg : 0 ≤ TYPE_INFO_TYPE_OF_BASE;
  bytes_cost_nonneg n : 0 ≤ n → 0 ≤ util_from_bytes n;
}.
Context `{!SolCodecLaws, !RevmLaws, !AbiNativesLaws}.

Lemma be_bytes_leading k n x : uint (8 * Z.of_nat n) x → be_bytes (n + k) x = replicate k 0 ++ be_bytes n x.
Proof.
  intros Hx. unfold be_bytes.
  assert (le_bytes (n + k) x = le_bytes n x ++ replicate k 0) as ->.
  { revert x Hx. induction n as [|n IH]; intros x Hx.
    - assert (x = 0) as -> by (unfold uint in Hx; simpl in Hx; lia). simpl. induction k; [done|]. simpl.
      by rewrite Z.div_0_l, IHk.
    - simpl. f_equal. apply IH. unfold uint in *. rewrite pow256_succ in Hx.
      split; [apply Z.div_pos; lia|apply Z.div_lt_upper_bound; lia]. }
  rewrite rev_app_distr. f_equal. induction k as [|k IHk]; [done|]. cbn [replicate rev].
  by rewrite IHk, <- replicate_cons_app.
Qed.

Lemma word_special k n x : (n + k = 32)%nat → uint (8 * Z.of_nat n) x →
  replicate k 0 ++ be_bytes n x = sol_encode_params (SUint x (8 * Z.of_nat n)).
Proof. intros Hk Hx. rewrite sol_encode_uint by (done || lia). by rewrite <- Hk, be_bytes_leading. Qed.

(** The special cases of the encoder are the general one. *)
Lemma special_cases_agree v layout sv : abi_typed layout v →
  move_value_to_sol_value v layout = Done sv →
  inner_abi_encode_params v layout = Done (sol_encode_params sv).
Proof.
  intros Hv Hsv. destruct v as [| x|x|x| | | | | |[|x xs]|]; try (unfold inner_abi_encode_params; by rewrite Hsv).
  - injection Hsv as <-. destruct layout as [| | | | | | | | | |[]|]; try done.
    unfold inner_abi_encode_params. rewrite <- (word_special 31 1) by done. do 2 f_equal.
    unfold be_bytes. simpl. by rewrite Z.mod_small by done.
  - injection Hsv as <-. destruct layout as [| | | | | | | | | |[]|]; try done.
    unfold inner_abi_encode_params. by rewrite (word_special 30 2).
  - injection Hsv as <-. destruct layout as [| | | | | | | | | |[]|]; try done.
    unfold inner_abi_encode_params. by rewrite (word_special 28 4).
  - destruct layout as [| | | | | | | | | |[]|]; try done. injection Hsv as <-.
    unfold inner_abi_encode_params. by rewrite sol_encode_empty.
Qed.

(** The struct of a string is encoded from the tuple of its bytes. *)
Lemma string_tuple name s : s ≠ [] →
  move_value_to_sol_value (VStruct None [vector_u8 s]) (LStruct (LWithTypes STRING_TAG [(name, LVector LU8)]))
    = Done (STuple [SBytes s]).
Proof.
  intros Hs. rewrite value_tuple by done. destruct s as [|b s]; [done|].
  transitivity (l ← exec_map force_to_u8 (VU8 <$> b :: s); Done (STuple [SBytes l]));
    [|by rewrite exec_map_u8].
  unfold vector_u8. rewrite fmap_cons. cbn [fields_to_sol move_value_to_sol_value].
  by destruct (exec_map force_to_u8 (VU8 b :: (VU8 <$> s))).
Qed.

Lemma string_value name s : ∃ sv,
  move_value_to_sol_value (VStruct None [vector_u8 s]) (LStruct (LWithTypes STRING_TAG [(name, LVector LU8)]))
    = Done sv ∧ sol_erase sv = sol_erase (STuple [SBytes s]).
Proof. destruct s as [|b s]; [by eexists|]. eexists. split; [by apply string_tuple|done]. Qed.

(** What can be sent: a value of a layout, or a string on its own. *)
Definition abi_value (layout : MoveTypeLayout) (v : MoveValue) : Prop :=
  abi_typed layout v
  ∨ ∃ name s, layout = LStruct (LWithTypes STRING_TAG [(name, LVector LU8)])
      ∧ v = VStruct None [vector_u8 s] ∧ is_bytes s ∧ utf8_valid s = true ∧ Z.of_nat (length s) < 2 ^ 64.

Lemma string_roundtrip name s : is_bytes s → utf8_valid s = true → Z.of_nat (length s) < 2 ^ 64 →
  let layout := LStruct (LWithTypes STRING_TAG [(name, LVector LU8)]) in
  ∃ data, inner_abi_encode_params (VStruct None [vector_u8 s]) layout = Done data
    ∧ inner_abi_decode_params data layout = Done (Ok (VStruct None [vector_u8 s])).
Proof.
  intros Hs Hu Hl layout. destruct (string_value name s) as (sv & Hv & He).
  exists (sol_encode_params (SString s)). split.
  - unfold inner_abi_encode_params, layout. rewrite Hv. simpl.
    by rewrite (sol_encode_erase _ _ He), sol_encode_string.
  - unfold inner_abi_decode_params, layout. change (layout_to_sol_type _) with (Done (Ok YString : result SolError DynSolType)).
    cbn [qbind mbind exec_bind]. by rewrite sol_decode_encode by (done || simpl; lia).
Qed.

Lemma inner_roundtrip layout t v : layout_to_sol_type layout = Done (Ok t) →
  (sol_depth t ≤ recursion_limit)%nat → abi_value layout v →
  ∃ data, inner_abi_encode_params v layout = Done data
    ∧ inner_abi_decode_params data layout = Done (Ok v).
Proof.
  intros Ht Hd [Hv|(name & s & -> & -> & Hs & Hu & Hl)]; [|by apply string_roundtrip].
  destruct (typed_mirrors layout t Ht v Hv) as (sv & sv' & []).
  exists (sol_encode_params sv). split; [by apply special_cases_agree|].
  unfold inner_abi_decode_params. rewrite Ht. simpl. rewrite (sol_encode_erase _ _ mir_erase0).
  rewrite sol_decode_encode by done. simpl. by rewrite mir_back0.
Qed.

Lemma charge_ok context amount : 0 ≤ amount ≤ gas_balance context →
  charge amount context = Done (Ok (), MkNative (gas_balance context - amount) (extension context)).
Proof. intros Ha. unfold charge, charge_gas. by rewrite native_charge_ok. Qed.

(** C34 (roundtrip): a value crosses the Solidity ABI unchanged.  For every value
    built of booleans, unsigned integers, Ethereum addresses, fixed bytes with
    zeros behind their size, byte strings, vectors and structs with at least one
    field, of lengths below 2^64 and nested no more deeply than the decoder allows,
    and for every string on its own, encoding succeeds at exactly the cost charged
    before the work, puts the prefix before the encoding, and decoding the encoding
    with the same type returns the value.  Fixed arrays, which the code encodes but
    refuses to decode, and strings inside of vectors and structs, which it encodes
    as tuples, are not among these values. *)
Theorem abi_roundtrip ty plain layout t v size prefix context :
  type_to_type_layout ty = Ok plain → type_to_fully_annotated_layout ty = Ok layout →
  as_move_value v plain = Done v → layout_to_sol_type layout = Done (Ok t) →
  (sol_depth t ≤ recursion_limit)%nat → abi_value layout v →
  serialized_size v = Ok size → uint 64 size →
  let cost := 2 * TYPE_INFO_TYPE_OF_BASE + util_from_bytes size in
  cost ≤ gas_balance context →
  ∃ data, abi_encode_params [ty] [vector_u8 prefix; v] context =
      Done (Ok (vector_u8 (prefix ++ data)), MkNative (gas_balance context - cost) (extension context))
    ∧ ∀ context', let cost' := TYPE_INFO_TYPE_OF_BASE + util_from_bytes (Z.of_nat (length data)) in
        cost' ≤ gas_balance context' →
        abi_decode_params [ty] [vector_u8 data] context' =
          Done (Ok v, MkNative (gas_balance context' - cost') (extension context')).
Proof.
  intros Hp Ha Hv Ht Hd Hty Hs Hu cost Hc.
  destruct (inner_roundtrip layout t v Ht Hd Hty) as (data & He & Hb). exists data.
  pose proof type_cost_nonneg as Ht0. pose proof (bytes_cost_nonneg size ltac:(by destruct Hu)) as Hs0.
  split.
  - unfold abi_encode_params, cexec, clift, cbind, cret, pop_type_arg. simpl. rewrite value_bytes.
    rewrite charge_ok by lia. rewrite charge_ok by (simpl; lia). simpl. rewrite Hp, Ha, Hv.
    unfold abi_encode_gas_cost. rewrite Hs. simpl. rewrite (wrap_small 64 size) by done.
    rewrite charge_ok by (simpl; lia). rewrite He. simpl. do 3 f_equal. lia.
  - intros context' cost' Hc'. pose proof (bytes_cost_nonneg (Z.of_nat (length data)) ltac:(lia)).
    unfold abi_decode_params, cexec, clift, cbind, pop_type_arg, pop_bytes. simpl. rewrite value_bytes.
    rewrite charge_ok by lia. unfold abi_decode_gas_cost. rewrite charge_ok by (simpl; lia). simpl.
    rewrite Ha, Hb. simpl. do 3 f_equal. lia.
Qed.

(** ** What decoding can produce *)

(** The values of a layout, without signers: no layout with a signer in it has a
    value other than the empty vector. *)
Fixpoint decoded_typed (layout : MoveTypeLayout) (v : MoveValue) : Prop :=
  match layout, v with
  | LBool, VBool _ => True
  | LU8, VU8 x => uint 8 x
  | LU16, VU16 x => uint 16 x
  | LU32, VU32 x => uint 32 x
  | LU64, VU64 x => uint 64 x
  | LU128, VU128 x => uint 128 x
  | LU256, VU256 x => uint 256 x
  | LAddress, VAddress a => bytes_len 32 a ∧ take 12 a = replicate 12 0
  | LVector l, VVector xs => Forall (decoded_typed l) xs
  | LStruct (LWithTypes tag fields), VStruct None vs =>
    (fix go fields vs := match fields, vs with
     | [], [] => True
     | (_, l) :: fields, v :: vs => decoded_typed l v ∧ go fields vs
     | _, _ => False
     end) fields vs
  | _, _ => False
  end.
Fixpoint fields_decoded (fields : list (string * MoveTypeLayout)) (vs : list MoveValue) : Prop :=
  match fields, vs with
  | [], [] => True
  | (_, l) :: fields, v :: vs => decoded_typed l v ∧ fields_decoded fields vs
  | _, _ => False
  end.

(** The marker structs and strings are declared with one field, a byte vector. *)
Fixpoint layout_wf (layout : MoveTypeLayout) : Prop :=
  match layout with
  | LVector l => layout_wf l
  | LStruct (LWithTypes tag fields) =>
    (is_marked FIXED_BYTES_TAG tag = true ∨ tag = STRING_TAG → fields.*2 = [LVector LU8])
    ∧ every (λ f, layout_wf f.2) fields
  | _ => True
  end.

Lemma decoded_u8s b : is_bytes b → Forall (decoded_typed LU8) (VU8 <$> b).
Proof. intros Hb. apply Forall_fmap. by eapply Forall_impl. Qed.

Definition decodes_typed (layout : MoveTypeLayout) : Prop := ∀ t sv v,
  layout_wf layout → layout_to_sol_type layout = Done (Ok t) → sol_matches t sv = true →
  sol_rep sv → sol_to_value sv layout = Ok v → decoded_typed layout v.

Lemma decodes_basic l : match l with LVector _ | LStruct _ | LNative _ => False | _ => True end →
  decodes_typed l.
Proof.
  intros Hl t sv v _ Ht Hm Hr Hb.
  destruct l; try done; injection Ht as <-; destruct sv as [|? sz|u sz| |a| | | | | |]; try done;
    cbn [sol_matches] in Hm; try (apply Z.eqb_eq in Hm; subst sz);
    cbn [sol_to_value Z.eqb Pos.eqb] in Hb; injection Hb as <-; simpl;
    try done; try (by apply wrap_uint); [|].
  - by rewrite U256_to_move_u256_id.
  - split; [by apply to_move_address_len|]. done.
Qed.

Lemma decodes_vector l : decodes_typed l → decodes_typed (LVector l).
Proof.
  intros IH t sv v Hwf Ht Hm Hr Hb.
  assert (l = LU8 ∨ l ≠ LU8) as [->|Hne] by (destruct l; (by left) || by right).
  - injection Ht as <-. destruct sv; try done. injection Hb as <-. by apply decoded_u8s.
  - rewrite layout_array in Ht by done. apply qbind_Ok in Ht as (t' & Hl & [= <-]).
    destruct sv as [| | | | | | | |a| |]; try done. cbn [sol_to_value] in Hb.
    apply bind_Ok in Hb as (vs & Hb & [= <-]). cbn [decoded_typed sol_matches sol_rep] in *.
    apply every_Forall in Hr. revert vs Hb.
    induction Hr as [|sv a Hr _ IHa]; intros vs Hb; [injection Hb as <-; constructor|].
    apply bind_Ok in Hb as (x & Hx & Hb). apply bind_Ok in Hb as (xs & Hxs & [= <-]).
    simpl in Hm. apply andb_true_iff in Hm as [Hm Hm']. constructor; [by eapply IH|by apply IHa].
Qed.

Lemma decodes_fields fields : Forall (λ f, decodes_typed f.2) fields → ∀ ts svs vs,
  every (λ f, layout_wf f.2) fields → types_of_fields fields = Done (Ok ts) →
  fields_match ts svs = true → Forall sol_rep svs → fields_of_sol svs fields.*2 = Ok vs →
  fields_decoded fields vs.
Proof.
  induction 1 as [|[name l] fields Hl _ IH]; intros ts svs vs Hwf Hts Hm Hr Hb.
  - injection Hts as <-. destruct svs; [|done]. by injection Hb as <-.
  - apply qbind_Ok in Hts as (t & Ht & Hts). apply qbind_Ok in Hts as (ts' & Hts & [= <-]).
    destruct svs as [|sv svs]; [done|]. simpl in Hm. apply andb_true_iff in Hm as [Hm Hm'].
    apply Forall_cons in Hr as [Hr Hr']. destruct Hwf as [Hwf Hwf'].
    rewrite fmap_cons in Hb. apply bind_Ok in Hb as (x & Hx & Hb).
    apply bind_Ok in Hb as (xs & Hxs & [= <-]). split; [by eapply Hl|by eapply IH].
Qed.

(** A marker or string decodes to a struct of one byte vector. *)
Lemma decoded_marker tag fields b : fields.*2 = [LVector LU8] → is_bytes b →
  decoded_typed (LStruct (LWithTypes tag fields)) (VStruct None [vector_u8 b]).
Proof.
  intros Hf Hb. destruct fields as [|[name l] [|]]; try done. injection Hf as ->.
  split; [|done]. by apply decoded_u8s.
Qed.

Lemma decode_typed layout : decodes_typed layout.
Proof.
  induction layout as [l Hb|l IH|l IH|tag fields IH|s Hs] using layout_fields_ind.
  - by apply decodes_basic.
  - by apply decodes_vector.
  - intros t sv v _ Ht Hm Hr Hb. by destruct sv.
  - intros t sv v [Hone Hwf] Ht Hm Hr Hb.
    destruct (is_marked FIXED_BYTES_TAG tag) eqn:Hfb.
    { cbn [layout_to_sol_type] in Ht. rewrite Hfb in Ht. injection Ht as <-.
      destruct sv; try done. injection Hb as <-. apply decoded_marker; [by apply Hone; left|apply Hr]. }
    destruct (is_marked FIXED_ARRAY_TAG tag) eqn:Hfa.
    { cbn [layout_to_sol_type] in Ht. by rewrite Hfb, Hfa in Ht. }
    destruct (decide (tag = STRING_TAG)) as [Hst|Hst].
    { cbn [layout_to_sol_type] in Ht. rewrite Hfb, Hfa, bool_decide_true in Ht by done.
      injection Ht as <-. destruct sv; try done. injection Hb as <-.
      apply decoded_marker; [by apply Hone; right|apply Hr]. }
    rewrite layout_tuple in Ht by done. apply qbind_Ok in Ht as (ts & Hts & [= <-]).
    destruct sv as [| | | | | | | | | |svs]; try done.
    assert (∃ vs, fields_of_sol svs fields.*2 = Ok vs ∧ v = VStruct None vs) as (vs & Hvs & ->)
      by (apply bind_Ok in Hb as (vs & Hvs & [= <-]); by exists vs).
    by eapply (decodes_fields fields IH ts svs vs Hwf Hts); [|apply every_Forall|].
  - intros t sv v _ Ht Hm Hr Hb. by destruct s.
Qed.

(** C35 (type): whatever bytes are decoded, the result is a value of the type asked
    for, with every integer within its width and every address an Ethereum one;
    and it contains no signer, so that no signature can be forged by decoding.
    Bytes that do not decode abort with code 0.  The gas is charged first, by the
    number of bytes. *)
Theorem decoded_values_typed ty layout data context r context' :
  type_to_fully_annotated_layout ty = Ok layout → layout_wf layout → is_bytes data →
  let cost := TYPE_INFO_TYPE_OF_BASE + util_from_bytes (Z.of_nat (length data)) in
  cost ≤ gas_balance context →
  abi_decode_params [ty] [vector_u8 data] context = Done (r, context') →
  context' = MkNative (gas_balance context - cost) (extension context)
  ∧ match r with Ok v => decoded_typed layout v | Err e => e = native_abort 0 end.
Proof.
  intros Ha Hwf Hb cost Hc Hd. pose proof type_cost_nonneg.
  pose proof (bytes_cost_nonneg (Z.of_nat (length data)) ltac:(lia)).
  unfold abi_decode_params, cexec, clift, cbind, pop_type_arg, pop_bytes in Hd. simpl in Hd.
  rewrite value_bytes, charge_ok in Hd by lia. unfold abi_decode_gas_cost in Hd.
  rewrite charge_ok in Hd by (simpl; lia). simpl in Hd. rewrite Ha in Hd.
  destruct (inner_abi_decode_params data layout) as [[v|e]|] eqn:Hi; simplify_eq/=.
  - split; [f_equal; lia|]. apply qbind_Ok in Hi as (t & Ht & Hi). apply qbind_Ok in Hi as (sv & Hsv & Hi).
    injection Hsv as Hsv. injection Hi as Hi. destruct (sol_decode_typed t data sv Hb Hsv) as [Hm Hr].
    by eapply decode_typed.
  - split; [f_equal; lia|done].
Qed.

(** A string in a struct is encoded as a tuple of bytes but decoded as a string:
    the value does not match the type of its own layout. *)
Lemma nested_string_mismatch name s : s ≠ [] →
  let layout := LStruct (LWithTypes STRING_TAG [(name, LVector LU8)]) in
  move_value_to_sol_value (VStruct None [vector_u8 s]) layout = Done (STuple [SBytes s])
  ∧ layout_to_sol_type layout = Done (Ok YString) ∧ sol_matches YString (STuple [SBytes s]) = false.
Proof.
  intros Hs layout. split; [by apply string_tuple|done].
Qed.

End SolidityAbi.

(** Witnesses: a codec with the interface's laws, which writes every value in
    place (no heads and tails), and a native context. *)
Module SolidityAbiWitness.
#[local] Existing Instance Envelope.Witness.unit_errors.
#[local] Existing Instance EvmCallsWitness.toy_revm.
#[local] Existing Instance EvmCallsWitness.toy_revm_laws.

Definition word (z : Z) : bytes := be_bytes 32 z.

Fixpoint enc (v : DynSolValue) : bytes :=
  match v with
  | SBool b => word (Z.b2z b)
  | SUint u _ => word u
  | SFixedBytes w _ => w
  | SAddress a => replicate 12 0 ++ a
  | SBytes b | SString b => word 32 ++ word (Z.of_nat (length b)) ++ b
  | SArray l => word 32 ++ word (Z.of_nat (length l)) ++ concat (enc <$> l)
  | STuple l => concat (enc <$> l)
  | _ => []
  end.

Definition read (n : nat) (data : bytes) : option (bytes * bytes) :=
  if (n <=? length data)%nat then Some (take n data, drop n data) else None.
(** An offset, which is skipped, and a length. *)
Definition read_length (data : bytes) : option (nat * bytes) :=
  '(_, data) ← read 32 data; '(w, data) ← read 32 data;
  if be_val w <=? Z.of_nat (length data) then Some (Z.to_nat (be_val w), data) else None.
Definition times {A} (f : bytes → option (A * bytes)) : nat → bytes → option (list A * bytes) :=
  fix go n data := match n with
  | O => Some ([], data)
  | S n => '(x, data) ← f data; '(xs, data) ← go n data; Some (x :: xs, data)
  end.

Fixpoint dec (t : DynSolType) (data : bytes) : option (DynSolValue * bytes) :=
  match t with
  | YBool => '(w, data) ← read 32 data; Some (SBool (negb (be_val w =? 0)), data)
  | YUint n => '(w, data) ← read 32 data; Some (SUint (be_val w) n, data)
  | YFixedBytes n => '(w, data) ← read 32 data; Some (SFixedBytes w n, data)
  | YAddress => '(w, data) ← read 32 data; Some (SAddress (drop 12 w), data)
  | YBytes => '(n, data) ← read_length data; '(b, data) ← read n data; Some (SBytes b, data)
  | YString =>
    '(n, data) ← read_length data; '(b, data) ← read n data;
    if utf8_valid b then Some (SString b, data) else None
  | YArray t => '(n, data) ← read_length data; '(l, data) ← times (dec t) n data; Some (SArray l, data)
  | YTuple ts =>
    '(l, data) ← (fix go ts data := match ts with
      | [] => Some ([], data)
      | t :: ts => '(x, data) ← dec t data; '(xs, data) ← go ts data; Some (x :: xs, data)
      end) ts data;
    Some (STuple l, data)
  | _ => None
  end.

#[local] Instance codec : SolCodec := {|
  SolError := (); sol_custom := λ _, ();
  sol_encode_params := enc;
  sol_decode_params := λ t data, match dec t data with Some (v, _) => Ok v | None => Err () end;
  recursion_limit := 16 |}.

Lemma type_ind (P : DynSolType → Prop) :
  (∀ t, match t with YArray _ | YTuple _ => False | _ => True end → P t) →
  (∀ t, P t → P (YArray t)) → (∀ ts, Forall P ts → P (YTuple ts)) → ∀ t, P t.
Proof.
  intros Hb Ha Ht. fix IH 1. intros [| | | | | | | |t| |ts]; try by apply Hb.
  - apply Ha, IH.
  - apply Ht. induction ts as [|t ts IHts]; constructor; [apply IH|exact IHts].
Qed.

Lemma read_app w data : read (length w) (w ++ data) = Some (w, data).
Proof.
  unfold read. rewrite length_app, (proj2 (Nat.leb_le _ _)) by lia.
  by rewrite take_app_length, drop_app_length.
Qed.

Lemma read_word_app z data : uint 256 z → read 32 (word z ++ data) = Some (word z, data) ∧ be_val (word z) = z.
Proof.
  intros Hz. split.
  - rewrite <- (length_be_bytes 32 z) at 1. apply read_app.
  - unfold word. rewrite be_val_bytes. by apply wrap_small.
Qed.

Lemma read_length_app n data : Z.of_nat n < 2 ^ 64 → (n ≤ length data)%nat →
  read_length (word 32 ++ word (Z.of_nat n) ++ data) = Some (n, data).
Proof.
  intros Hn Hl. unfold read_length.
  destruct (read_word_app 32 (word (Z.of_nat n) ++ data)) as [-> _]; [done|]. cbn [mbind option_bind].
  destruct (read_word_app (Z.of_nat n) data) as [-> E]; [unfold uint; lia|]. cbn [mbind option_bind].
  rewrite E, (proj2 (Z.leb_le _ _)) by lia. by rewrite Nat2Z.id.
Qed.

(** Every value takes room, so that a length is at most what is left to read. *)
Lemma enc_pos t : ∀ v, sol_matches t v = true → sol_canonical v → sol_rep v → (1 ≤ length (enc v))%nat.
Proof.
  induction t as [t Ht|t _|ts IH] using type_ind; intros v Hm Hc Hr.
  - destruct t, v; try done; cbn [enc]; unfold word;
      rewrite ?length_app, ?length_be_bytes, ?length_replicate; try lia.
    destruct Hr as [-> _]. lia.
  - destruct v; try done. cbn [enc]. unfold word. rewrite !length_app, !length_be_bytes. lia.
  - destruct v as [| | | | | | | | | |vs]; try done. destruct Hc as [Hne Hc].
    destruct vs as [|v vs], ts as [|t ts]; try done. simpl in Hm. apply andb_true_iff in Hm as [Hm _].
    apply Forall_cons in IH as [IH _]. cbn [enc]. rewrite fmap_cons. cbn [concat].
    rewrite length_app. pose proof (IH v Hm (proj1 Hc) (proj1 Hr)). lia.
Qed.

Lemma times_app {A} (f : bytes → option (A * bytes)) (g : A → bytes) l rest :
  Forall (λ x, ∀ rest, f (g x ++ rest) = Some (x, rest)) l →
  times f (length l) (concat (g <$> l) ++ rest) = Some (l, rest).
Proof.
  induction 1 as [|x l Hx _ IH]; [done|]. rewrite fmap_cons. cbn [concat length times].
  rewrite <- app_assoc, Hx. cbn [mbind option_bind]. fold (times f). by rewrite IH.
Qed.

Lemma concat_long t l : Forall (λ v, sol_matches t v = true ∧ sol_canonical v ∧ sol_rep v) l →
  (length l ≤ length (concat (enc <$> l)))%nat.
Proof.
  induction 1 as [|v l (Hm & Hc & Hr) _ IH]; [done|]. rewrite fmap_cons. cbn [concat length].
  rewrite length_app. pose proof (enc_pos t v Hm Hc Hr). lia.
Qed.

Lemma dec_enc t : ∀ v rest, sol_matches t v = true → sol_rep v → sol_canonical v →
  dec t (enc v ++ rest) = Some (v, rest).
Proof.
  induction t as [t Ht|t IH|ts IH] using type_ind; intros v rest Hm Hr Hc.
  - destruct t, v as [b| |u m|w m|a| |b|s| | |]; try done; cbn [sol_matches] in Hm;
      try (apply Z.eqb_eq in Hm; subst); cbn [dec enc].
    + destruct (read_word_app (Z.b2z b) rest) as [-> Hb]; [by destruct b|]. cbn [mbind option_bind].
      rewrite Hb. by destruct b.
    + destruct (read_word_app u rest) as [-> Hu]; [done|]. cbn [mbind option_bind]. by rewrite Hu.
    + destruct Hr as [Hl _]. rewrite <- Hl. by rewrite read_app.
    + destruct Hr as [Hl _]. change 32%nat with (12 + 20)%nat. rewrite <- Hl.
      rewrite <- (length_replicate 12 0) at 1. rewrite <- length_app, read_app. cbn [mbind option_bind].
      by rewrite drop_app_length'.
    + rewrite <- !app_assoc, read_length_app by (done || rewrite length_app; lia).
      cbn [mbind option_bind]. by rewrite read_app.
    + destruct Hr as [_ Hu]. rewrite <- !app_assoc, read_length_app by (done || rewrite length_app; lia).
      cbn [mbind option_bind]. rewrite read_app. cbn [mbind option_bind]. by rewrite Hu.
  - destruct v as [| | | | | | | |l| |]; try done. cbn [dec enc]. destruct Hc as [Hn Hc].
    simpl in Hm. rewrite forallb_forall in Hm. apply every_Forall in Hc, Hr.
    assert (Forall (λ v, sol_matches t v = true ∧ sol_canonical v ∧ sol_rep v) l) as Hl.
    { apply Forall_forall. intros v Hv. rewrite Forall_forall in Hc, Hr. split_and!; [by apply Hm, list_elem_of_In|by apply Hc|by apply Hr]. }
    pose proof (concat_long t l Hl). rewrite <- !app_assoc, read_length_app by (done || rewrite length_app; lia).
    cbn [mbind option_bind]. rewrite times_app; [done|]. eapply Forall_impl; [exact Hl|].
    intros v (? & ? & ?) r. by apply IH.
  - destruct v as [| | | | | | | | | |vs]; try done. destruct Hc as [_ Hc]. cbn [dec enc].
    match goal with |- ?m ≫= _ = _ => assert (m = Some (vs, rest)) as ->; [|done] end.
    simpl in Hm, Hr. revert vs rest Hm Hr Hc. induction IH as [|t ts Ht _ IHts]; intros vs rest Hm Hr Hc.
    { by destruct vs. }
    destruct vs as [|v vs]; [done|]. apply andb_true_iff in Hm as [Hm Hm'].
    destruct Hr as [Hr Hr'], Hc as [Hc Hc']. rewrite fmap_cons. cbn [concat].
    rewrite <- app_assoc, Ht by done. cbn [mbind option_bind]. by rewrite IHts.
Qed.

Lemma read_typed n data w rest : read n data = Some (w, rest) → is_bytes data →
  bytes_len n w ∧ is_bytes rest.
Proof.
  unfold read. destruct (n <=? length data)%nat eqn:Hn; [|done]. apply Nat.leb_le in Hn.
  intros [= <- <-] Hd. split; [split|]; [rewrite length_take; lia|by apply is_bytes_take|by apply is_bytes_drop].
Qed.

Lemma read_length_typed data n rest : read_length data = Some (n, rest) → is_bytes data → is_bytes rest.
Proof.
  unfold read_length. intros Hr Hd.
  destruct (read 32 data) as [[w1 d1]|] eqn:H1'; simplify_eq/=.
  apply read_typed in H1' as [_ Hd1]; [|done].
  destruct (read 32 d1) as [[w2 d2]|] eqn:H2'; simplify_eq/=.
  apply read_typed in H2' as [_ Hd2]; [|done]. by case_match; simplify_eq/=.
Qed.

Definition yields (t : DynSolType) (v : DynSolValue) : Prop := sol_matches t v = true ∧ sol_rep v.

Lemma times_typed t n data l rest :
  (∀ data v rest, dec t data = Some (v, rest) → is_bytes data → yields t v ∧ is_bytes rest) →
  times (dec t) n data = Some (l, rest) → is_bytes data → Forall (yields t) l ∧ is_bytes rest.
Proof.
  intros Ht. revert data l rest. induction n as [|n IH]; intros data l rest Hr Hd.
  { injection Hr as <- <-. by split. }
  cbn [times] in Hr. fold (times (dec t)) in Hr.
  destruct (dec t data) as [[v d1]|] eqn:H1'; simplify_eq/=. apply Ht in H1' as [Hv Hd1]; [|done].
  destruct (times (dec t) n d1) as [[vs d2]|] eqn:H2'; simplify_eq/=.
  destruct (IH _ _ _ H2' Hd1) as [Hvs Hd2]. split; [by constructor|done].
Qed.

Lemma dec_typed t : ∀ data v rest, dec t data = Some (v, rest) → is_bytes data →
  yields t v ∧ is_bytes rest.
Proof.
  unfold yields. induction t as [t Ht|t IH|ts IH] using type_ind; intros data v rest Hr Hd.
  - destruct t; try done; cbn [dec] in Hr.
    + destruct (read 32 data) as [[w d]|] eqn:E; simplify_eq/=. by apply read_typed in E as [_ ?].
    + destruct (read 32 data) as [[w d]|] eqn:E; simplify_eq/=. apply read_typed in E as [[Hl Hw] ?]; [|done].
      split; [split; [apply Z.eqb_refl|]|done]. apply be_val_bound in Hw. by rewrite Hl in Hw.
    + destruct (read 32 data) as [[w d]|] eqn:E; simplify_eq/=. apply read_typed in E as [? ?]; [|done].
      split; [split; [apply Z.eqb_refl|done]|done].
    + destruct (read 32 data) as [[w d]|] eqn:E; simplify_eq/=. apply read_typed in E as [[Hl Hw] ?]; [|done].
      split; [split; [done|]|done]. split; [rewrite length_drop; lia|by apply is_bytes_drop].
    + destruct (read_length data) as [[n d]|] eqn:E; simplify_eq/=. apply read_length_typed in E; [|done].
      destruct (read n d) as [[w d']|] eqn:E'; simplify_eq/=. by apply read_typed in E' as [[_ ?] ?].
    + destruct (read_length data) as [[n d]|] eqn:E; simplify_eq/=. apply read_length_typed in E; [|done].
      destruct (read n d) as [[w d']|] eqn:E'; simplify_eq/=. apply read_typed in E' as [[_ ?] ?]; [|done].
      destruct (utf8_valid w) eqn:Hu; simplify_eq/=. by split.
  - cbn [dec] in Hr. destruct (read_length data) as [[n d]|] eqn:E; simplify_eq/=.
    apply read_length_typed in E; [|done].
    destruct (times (dec t) n d) as [[l d']|] eqn:E'; simplify_eq/=.
    apply (times_typed t) in E' as [Hl ?]; [|done..]. split; [|done]. rewrite every_Forall, forallb_forall.
    split; [intros v Hv; apply list_elem_of_In in Hv|]; [|by eapply Forall_impl; [exact Hl|]; intros v []].
    rewrite Forall_forall in Hl. by apply Hl.
  - cbn [dec] in Hr. apply bind_Some in Hr as ([l d] & Hl & [= <- <-]).
    cbn [sol_matches sol_rep]. revert data l d Hl Hd.
    induction IH as [|t ts Ht _ IHts]; intros data l d Hl Hd; [by injection Hl as <- <-|].
    apply bind_Some in Hl as ([v d1] & H1' & Hl). apply bind_Some in Hl as ([vs d2] & H2' & [= <- <-]).
    destruct (Ht _ _ _ H1' Hd) as [[-> Hv] Hd1]. destruct (IHts _ _ _ H2' Hd1) as [[-> Hvs] Hd2].
    split; [split; [done|by split]|done].
Qed.

Lemma value_ind (P : DynSolValue → Prop) :
  (∀ v, match v with SArray _ | STuple _ => False | _ => True end → P v) →
  (∀ l, Forall P l → P (SArray l)) → (∀ l, Forall P l → P (STuple l)) → ∀ v, P v.
Proof.
  intros Hb Ha Ht. fix IH 1. intros [| | | | | | | |l| |l]; try by apply Hb.
  - apply Ha. induction l as [|x l IHl]; constructor; [apply IH|exact IHl].
  - apply Ht. induction l as [|x l IHl]; constructor; [apply IH|exact IHl].
Qed.

Lemma enc_erase v : enc (sol_erase v) = enc v.
Proof.
  assert (∀ l, Forall (λ v, enc (sol_erase v) = enc v) l →
    concat (enc <$> (sol_erase <$> l)) = concat (enc <$> l)) as Hl.
  { induction 1 as [|x l Hx _ IH]; [done|]. rewrite !fmap_cons. cbn [concat]. by rewrite Hx, IH. }
  induction v as [v Hv|l IH|l IH] using value_ind.
  - by destruct v.
  - destruct l as [|x l]; [done|]. apply Hl in IH. cbn [sol_erase enc]. by rewrite length_fmap, IH.
  - by apply Hl.
Qed.

#[local] Instance codec_laws : SolCodecLaws.
Proof.
  split; simpl.
  - intros t v Hm Hr Hc _. pose proof (dec_enc t v [] Hm Hr Hc) as Hd. rewrite app_nil_r in Hd. by rewrite Hd.
  - intros t data v Hd Hv. destruct (dec t data) as [[v' rest]|] eqn:E; [|done]. injection Hv as <-.
    by destruct (dec_typed t data v' rest E Hd) as [? _].
  - done.
  - done.
  - intros v w E. by rewrite <- enc_erase, E, enc_erase.
  - intros s. change (enc (SBytes s) ++ [] = enc (SString s)). by rewrite app_nil_r.
Qed.

(** A runtime type is its annotated layout; a call costs 10 per type lookup and 1
    per byte. *)
#[local] Instance natives : AbiNatives := {|
  RuntimeTy := MoveTypeLayout; type_to_type_layout := Ok; type_to_fully_annotated_layout := Ok;
  as_move_value := λ v _, Done v; serialized_size := λ _, Ok 100;
  value_serialization_error := λ _, None; missing_argument := None; native_abort := λ _, Some ();
  TYPE_INFO_TYPE_OF_BASE := 10; util_from_bytes := id |}.

#[local] Instance native_laws : AbiNativesLaws.
Proof.
  split; [|done..]. intros b. unfold vector_u8. simpl.
  assert (mapM as_u8 (VU8 <$> b) = Some b) as ->; [|done].
  induction b as [|x b IH]; [done|]. rewrite fmap_cons. cbn [mapM]. by rewrite IH.
Qed.

(** A struct of an integer, an empty byte vector, a list of addresses and a
    [bytes4]. *)
Definition bytes4 : StructTag :=
  MkStructTag EVM_NATIVE_ADDRESS EVM_NATIVE_MODULE "SolidityFixedBytes"
    (size_tag [false; false; false; true; true]).
Definition call_layout : MoveTypeLayout :=
  LStruct (LWithTypes (MkStructTag address_one "erc20" "Args" [])
    [("amount", LU64); ("data", LVector LU8); ("to", LVector LAddress);
     ("selector", LStruct (LWithTypes bytes4 [("data", LVector LU8)]))])%string.
Definition call_ty : @RuntimeTy _ _ _ natives := call_layout.
Definition addresses_ty : @RuntimeTy _ _ _ natives := LVector LAddress.
Definition selector : bytes := [1; 2; 3; 4] ++ replicate 28 0.
Definition call_args : MoveValue :=
  VStruct None [VU64 7; VVector []; VVector [VAddress (to_move_address (replicate 20 9))];
                VStruct None [vector_u8 selector]].
Definition gas (n : Z) : SafeNativeContext :=
  MkNative n (MkNativeContext (MkLogger [] []) () [] (MkHeaderForExecution 1 12 [])).

Lemma call_args_typed : abi_typed call_layout call_args.
Proof.
  split; [done|]. split; [done|]. split_and!; try done.
  - repeat constructor. exists (replicate 20 9). split; [split; [done|by repeat constructor]|done].
  - exists selector. split; [done|]. split; [|vm_compute; done]. split; [done|by repeat constructor].
Qed.

Lemma abi_roundtrip_witness :
  ∃ data, abi_encode_params [call_ty] [vector_u8 [5]; call_args] (gas 1000) =
      Done (Ok (vector_u8 ([5] ++ data)), gas 880)
    ∧ abi_decode_params [call_ty] [vector_u8 data] (gas 1000) = Done (Ok call_args, gas 766).
Proof.
  edestruct (abi_roundtrip call_ty call_layout call_layout
    (YTuple [YUint 64; YBytes; YArray YAddress; YFixedBytes 4]) call_args 100 [5] (gas 1000))
    as (data & He & Hd);
    [done|done|done|vm_compute; reflexivity|simpl; lia|left; apply call_args_typed|done|done|simpl; lia|].
  exists data. split; [exact He|].
  assert (length data = 224%nat) as Hl.
  { set (sent := enc (STuple [SUint 7 64; SBytes []; SArray [SAddress (replicate 20 9)];
      SFixedBytes selector 4])).
    assert (abi_encode_params [call_ty] [vector_u8 [5]; call_args] (gas 1000) =
      Done (Ok (vector_u8 ([5] ++ sent)), gas 880)) as He' by (vm_compute; reflexivity).
    assert (vector_u8 ([5] ++ sent) = vector_u8 ([5] ++ data)) as E by congruence.
    assert (∀ a b, vector_u8 ([5] ++ a) = vector_u8 ([5] ++ b) → length a = length b) as Hlen.
    { intros x y Hxy. assert (VU8 <$> [5] ++ x = VU8 <$> [5] ++ y) as Hf by (unfold vector_u8 in Hxy; congruence).
      apply (f_equal length) in Hf. rewrite !length_fmap in Hf. simpl in Hf. lia. }
    by rewrite <- (Hlen _ _ E). }
  rewrite Hd; [simpl; by rewrite Hl|simpl; rewrite Hl; done].
Defined.

(** A clean word that decodes as a boolean, and one that does not fit its type. *)
Lemma decoded_values_typed_witness :
  ∃ r context', abi_decode_params [addresses_ty] [vector_u8 (word 32 ++ word 1 ++ word (2 ^ 170))]
      (gas 1000) = Done (r, context')
    ∧ context' = gas (1000 - (10 + 96))
    ∧ match r with Ok v => decoded_typed (LVector LAddress) v | Err e => e = Some () end.
Proof.
  eexists _, _. split; [vm_compute; reflexivity|].
  eapply (decoded_values_typed addresses_ty (LVector LAddress)
    (word 32 ++ word 1 ++ word (2 ^ 170)) (gas 1000)); [done|done| |simpl; lia|vm_compute; reflexivity].
  unfold word. apply Forall_app. split; [apply be_bytes_is_bytes|].
  apply Forall_app. split; apply be_bytes_is_bytes.
Defined.

End SolidityAbiWitness.
