(* ===== verification/StateQueries.v ===== *)
(** The state at any height ([blockchain/src/state/read.rs]): a resolver over the
    state trie at a block's root, and the queries of balances, nonces and Merkle
    proofs that read it. *)
From S2P Require Import Prelude Primitives MoveTypes Errors Envelope EvMap Blocks.
From S2P Require Import EthToken Application MoveVm Events Execution Storage StateTree EvmState.
Import Addresses.

Local Open Scope Z_scope.

(** BCS of [StateValue], and the error of an invalid key. *)
Class StateReading `{StateKeys, ErrorTypes} := {
  state_value_inner : bytes → option bytes;
  data_format_error : PartialVMError;
}.
Class StateReadingLaws `{StateReading} : Prop := {
  state_value_roundtrip v : state_value_inner (state_value_bcs v) = Some v;
  state_value_nonempty v : state_value_bcs v ≠ [];
}.

Section Resolver.
Context `{StateReading, EthTrie}.

(** Source: blockchain/src/state/read.rs 327-331 [deserialize_state_value] *)
Definition deserialize_state_value (value : option bytes) : exec (option bytes) :=
  match value with
  | None => Done None
  | Some b => Some <$> expect (state_value_inner b)
  end.

(** Source: blockchain/src/state/read.rs 277-283 [EthTrieResolver::get_module] *)
Definition tree_get_module (tree : Trie) (address : AccountAddress) (name : string)
    : exec (result PartialVMError (option bytes)) :=
  let key_hash := key_hash (KStateKey (state_key_module address name)) in
  value ← deserialize_state_value (trie_get tree key_hash);
  Done (Ok value).

(** The key a resource is read under.
    Source: blockchain/src/state/read.rs 294-301 [EthTrieResolver::get_resource_bytes_with_metadata_and_layout] *)
Definition resource_key (address : AccountAddress) (struct_tag : StructTag)
    : result PartialVMError TreeKey :=
  match evm_key_address struct_tag with
  | Some address => Ok (KEvm address)
  | None => KStateKey <$> ok_or (state_key_resource address struct_tag) data_format_error
  end.

(** Source: blockchain/src/state/read.rs 287-313 [EthTrieResolver::get_resource_bytes_with_metadata_and_layout] *)
Definition tree_get_resource (tree : Trie) (address : AccountAddress) (struct_tag : StructTag)
    : exec (result PartialVMError (option bytes * Z)) :=
  match resource_key address struct_tag with
  | Err e => Done (Err e)
  | Ok tree_key =>
    let value := trie_get tree (key_hash tree_key) in
    value ← if is_evm_storage_or_account_key struct_tag then Done value
            else deserialize_state_value value;
    Done (Ok (value, Z.of_nat (length (default [] value))))
  end.

(** Source: blockchain/src/state/read.rs 262-270 [EthTrieResolver::new] *)
Definition eth_trie_resolver (tree : Trie) : Resolver :=
  {| get_module := tree_get_module tree; get_resource := tree_get_resource tree |}.

(** ** Reading a change set back *)

Context `{!StateReadingLaws}.

Lemma tree_get_resource_content t t' address tag :
  (∀ h, trie_get t h = trie_get t' h) →
  tree_get_resource t address tag = tree_get_resource t' address tag.
Proof. intros Hg. unfold tree_get_resource. destruct (resource_key _ _); [by rewrite Hg|done]. Qed.

Lemma tree_get_module_content t t' address name :
  (∀ h, trie_get t h = trie_get t' h) → tree_get_module t address name = tree_get_module t' address name.
Proof. intros Hg. unfold tree_get_module. by rewrite Hg. Qed.

Lemma deserialize_stored v :
  deserialize_state_value (stored (VStateValue v)) = Done (Some v).
Proof.
  unfold stored. simpl. pose proof (state_value_nonempty v). pose proof (state_value_roundtrip v) as Hr.
  destruct (state_value_bcs v); [done|]. simpl. by rewrite Hr.
Qed.

(** EVM accounts never serialize to nothing. *)
Definition op_storable (tag : StructTag) (op : ChangeOp) : Prop :=
  is_evm_storage_or_account_key tag = true → op_ok op ≠ Some [].

Lemma resource_value_read t address tag op k v :
  op_storable tag op → resource_value address (tag, op) = Done (k, v) →
  trie_get t (key_hash k) = stored v →
  ∃ n, tree_get_resource t address tag = Done (Ok (op_ok op, n)).
Proof.
  intros Hop Hv Hget. unfold resource_value in Hv. simpl in Hv.
  apply bind_Done in Hv as (key & Hkey & Hv). injection Hv as <- <-.
  assert (resource_key address tag = Ok key) as Hrk.
  { unfold resource_key. destruct (evm_key_address tag); [by injection Hkey as <-|].
    destruct (state_key_resource address tag); [|done]. by injection Hkey as <-. }
  unfold tree_get_resource. rewrite Hrk. rewrite Hget. unfold op_storable in Hop.
  destruct (is_evm_storage_or_account_key tag), (op_ok op) as [b|] eqn:Hb; simpl; try by eexists.
  - unfold stored. simpl. destruct b as [|x b]; [by destruct Hop|]. by eexists.
  - rewrite deserialize_stored. by eexists.
Qed.

Lemma module_value_read t address name op k v :
  module_value address (name, op) = (k, v) → trie_get t (key_hash k) = stored v →
  tree_get_module t address name = Done (Ok (op_ok op)).
Proof.
  intros [= <- <-] Hget. unfold tree_get_module. simpl in Hget |- *. rewrite Hget.
  destruct (op_ok op); simpl; [by rewrite deserialize_stored|done].
Qed.

Lemma tree_value_list_in changes l address ac :
  tree_value_list changes = Done l → (address, ac) ∈ changes →
  (∀ tag op, (tag, op) ∈ ac_resources ac →
     ∃ k v, resource_value address (tag, op) = Done (k, v) ∧ (k, v) ∈ l)
  ∧ (∀ m, m ∈ ac_modules ac → module_value address m ∈ l).
Proof.
  unfold tree_value_list. destruct (exec_map _ changes) as [ls|] eqn:Hm; [|done]. intros [= <-] Hin.
  apply exec_map_Done in Hm. apply list_elem_of_lookup in Hin as [i Hi].
  destruct (Forall2_lookup_l _ _ _ _ _ Hm Hi) as (x & Hx & Hac).
  destruct (exec_map (resource_value address) (ac_resources ac)) as [rs|] eqn:Hrs; [|done].
  injection Hac as <-. apply list_elem_of_lookup_2 in Hx. split.
  - intros tag op Hr. apply exec_map_Done in Hrs. apply list_elem_of_lookup in Hr as [j Hj].
    destruct (Forall2_lookup_l _ _ _ _ _ Hrs Hj) as ([k v] & Hkv & Hv). exists k, v. split; [done|].
    apply list_elem_of_In, in_concat. eexists. split; [by apply list_elem_of_In|].
    apply list_elem_of_In, elem_of_app. right. by apply list_elem_of_lookup_2 in Hkv.
  - intros m Hmod. apply list_elem_of_In, in_concat. eexists. split; [by apply list_elem_of_In|].
    apply list_elem_of_In, elem_of_app. left. by apply list_elem_of_fmap_2.
Qed.

Lemma collect_values_lookup l : NoDup l.*1 →
  (∀ k v, (k, v) ∈ l → collect_values l !! k = Some v)
  ∧ ∀ k, is_Some (collect_values l !! k) → k ∈ l.*1.
Proof.
  unfold collect_values. induction l as [|[k v] l IH] using rev_ind; intros Hnd.
  { split; [by intros ?? ?%not_elem_of_nil|]. intros k. simpl. rewrite lookup_empty. by intros []. }
  rewrite fmap_app in Hnd. apply NoDup_app in Hnd as (Hnd & Hni & _).
  destruct (IH Hnd) as [IH1 IH2]. rewrite fold_left_app, fmap_app. simpl. split.
  - intros k' v' [Hin|Hin]%elem_of_app.
    + rewrite lookup_insert_ne; [by apply IH1|]. intros ->.
      apply (Hni k'); [apply list_elem_of_fmap; by exists (k', v')|by left].
    + apply list_elem_of_singleton in Hin as [= -> ->]. by rewrite lookup_insert_eq.
  - intros k'. destruct (decide (k = k')) as [->|Hne].
    + intros _. apply elem_of_app. right. by left.
    + rewrite lookup_insert_ne by done. intros Hs%IH2. apply elem_of_app. by left.
Qed.

Context `{!EthTrieLaws}.
Context (iteration_order : gmap TreeKey TreeValue → list (TreeKey * TreeValue)).
Context (Horder : ∀ m, iteration_order m ≡ₚ map_to_list m).

(** C18 (roundtrip): a change set applied to the state is read back by the
    resolver over the new state trie: every changed resource and module of it
    resolves to its new bytes, a deleted one to nothing, EVM accounts included
    (which are stored without the encoding of other values), and every resource
    and module of another key resolves as before. *)
Theorem resolver_reads_changes {R E} (resolver_apply : R → ChangeSet → result E R)
    (self : InMemoryState R) changes l t r :
  tree_value_list changes = Done l → NoDup (key_hash <$> l.*1) →
  (∀ address ac tag op, (address, ac) ∈ changes → (tag, op) ∈ ac_resources ac → op_storable tag op) →
  nodes_agree (trie_commit (insert_values t (iteration_order (collect_values l)))).2 (db self) →
  trie_of self t → resolver_apply (resolver self) changes = Ok r →
  ∃ self' t', state_apply iteration_order resolver_apply self changes = Done (Ok self')
    ∧ trie_of self' t' ∧ db self ⊆ db self'
    ∧ (∀ address ac, (address, ac) ∈ changes →
        (∀ tag op, (tag, op) ∈ ac_resources ac →
           ∃ n, get_resource (eth_trie_resolver t') address tag = Done (Ok (op_ok op, n)))
        ∧ ∀ name op, (name, op) ∈ ac_modules ac →
           get_module (eth_trie_resolver t') address name = Done (Ok (op_ok op)))
    ∧ (∀ address tag,
        (∀ k, resource_key address tag = Ok k → key_hash k ∉ key_hash <$> l.*1) →
        get_resource (eth_trie_resolver t') address tag = get_resource (eth_trie_resolver t) address tag)
    ∧ ∀ address name, key_hash (KStateKey (state_key_module address name)) ∉ key_hash <$> l.*1 →
        get_module (eth_trie_resolver t') address name = get_module (eth_trie_resolver t) address name.
Proof.
  intros Hl Hnd Hstor Hagree Ht Hr.
  assert (NoDup l.*1) as Hndk by by eapply NoDup_fmap_1.
  destruct (collect_values_lookup l Hndk) as [Hsome Hkeys].
  assert (∀ k1 k2, is_Some (collect_values l !! k1) → is_Some (collect_values l !! k2) →
    key_hash k1 = key_hash k2 → k1 = k2) as Hinj.
  { intros k1 k2 [i1 Hi1]%Hkeys%list_elem_of_lookup [i2 Hi2]%Hkeys%list_elem_of_lookup Hh.
    assert (i1 = i2) as ->; [|congruence]. eapply (NoDup_lookup _ _ _ (key_hash k1) Hnd).
    - by rewrite list_lookup_fmap, Hi1.
    - by rewrite list_lookup_fmap, Hi2, Hh. }
  destruct (apply_changes_trie iteration_order resolver_apply self changes (collect_values l) t r)
    as (self' & t' & Happ & _ & Hdb & Ht' & _ & Hin & Hout); try done.
  { unfold to_tree_values. by rewrite Hl. }
  exists self', t'. split_and!; [done..| | |].
  - intros address ac Hac. destruct (tree_value_list_in _ _ _ _ Hl Hac) as [Hres Hmod]. split.
    + intros tag op Htag. destruct (Hres tag op Htag) as (k & v & Hv & Hkv).
      eapply resource_value_read; [by eapply Hstor|exact Hv|]. by apply Hin, Hsome.
    + intros name op Hname. specialize (Hmod _ Hname).
      destruct (module_value address (name, op)) as [k v] eqn:Hv.
      eapply module_value_read; [exact Hv|]. by apply Hin, Hsome.
  - intros address tag Hk. simpl. unfold tree_get_resource.
    destruct (resource_key address tag) as [k|]; [|done]. specialize (Hk k eq_refl).
    rewrite Hout; [done|]. intros k' Hk'%Hkeys Hh. apply Hk. rewrite <- Hh.
    by apply list_elem_of_fmap_2.
  - intros address name Hk. simpl. unfold tree_get_module.
    rewrite Hout; [done|]. intros k' Hk'%Hkeys Hh. apply Hk. rewrite <- Hh.
    by apply list_elem_of_fmap_2.
Qed.

End Resolver.

(** ** Queries at a height *)

Record StorageProof := MkStorageProof { sp_key : Z; sp_value : Z; sp_proof : list bytes }.
Record ProofResponse := MkProofResponse {
  pr_address : Address; pr_balance : Z; pr_code_hash : B256; pr_nonce : Z; pr_storage_hash : B256;
  pr_account_proof : list bytes; pr_storage_proof : list StorageProof }.

Section Queries.
Context `{EvMap, StateReading, EthTrie, !EvmStateLibrary}.
Context `{!VmTypes, !MoveVm, !WorldState, !ExecutionLibrary}.
(** A Merkle proof of a key, and the VM's view of a resolver over a trie. *)
Context (get_proof : Trie → bytes → option (list bytes)) (as_state : Trie → MoveState).

(** Source: blockchain/src/state/read.rs 96-99 [SharedMemoryReader::root_by_height] *)
Definition shared_root_by_height (mem : SharedMemory) (height : Z) : option B256 :=
  map_by_height (block_memory mem) height (λ v, h_state_root (header (block v))).

(** Source: blockchain/src/state/read.rs 109-116 [InMemoryStateQueries] *)
Record InMemoryStateQueries := MkStateQueries {
  sq_memory : SharedMemory; sq_db : Nodes; sq_genesis_state_root : B256 }.

(** Source: blockchain/src/state/read.rs 137-143 [InMemoryStateQueries::root_by_height] *)
Definition root_by_height (self : InMemoryStateQueries) (height : Z) : option B256 :=
  if height =? 0 then Some (sq_genesis_state_root self)
  else shared_root_by_height (sq_memory self) height.

(** Source: blockchain/src/state/read.rs 145-150 [InMemoryStateQueries::resolver] *)
Definition resolver_of (self : InMemoryStateQueries) (height : Z) : exec (option Trie) :=
  match root_by_height self height with
  | None => Done None
  | Some root => Some <$> expect (trie_from (sq_db self) root)
  end.

(** Source: blockchain/src/state/read.rs 210-219 [InMemoryStateQueries::balance_at] *)
Definition balance_at (self : InMemoryStateQueries) (evm_storage : EvmStorage)
    (account : AccountAddress) (height : Z) : exec (option Z) :=
  resolver ← resolver_of self height;
  match resolver with
  | None => Done None
  | Some tree => Some <$> quick_get_eth_balance account (as_state tree) evm_storage
  end.

(** Source: blockchain/src/state/read.rs 221-230 [InMemoryStateQueries::nonce_at] *)
Definition nonce_at (self : InMemoryStateQueries) (evm_storage : EvmStorage)
    (account : AccountAddress) (height : Z) : exec (option Z) :=
  resolver ← resolver_of self height;
  match resolver with
  | None => Done None
  | Some tree => Some <$> quick_get_nonce account (as_state tree) evm_storage
  end.

(** The proofs of the slots that have one; a slot that has a proof and no
    readable value panics.
    Source: blockchain/src/state/read.rs 181-195 [proof_from_trie_and_resolver] *)
Fixpoint storage_proofs (storage : Trie) (storage_slots : list Z) : exec (list StorageProof) :=
  match storage_slots with
  | [] => Done []
  | index :: storage_slots =>
    match get_proof storage (index_hash index) with
    | None => storage_proofs storage storage_slots
    | Some proof =>
      value ← expect (storage_get storage index);
      rest ← storage_proofs storage storage_slots;
      Done (MkStorageProof index (default 0 value) proof :: rest)
    end
  end.

(** [open_storage] opens the storage trie of an account at a root.
    Source: blockchain/src/state/read.rs 153-207 [proof_from_trie_and_resolver] *)
Definition proof_from_trie_and_resolver (address : Address) (storage_slots : list Z) (tree : Trie)
    (open_storage : Address → B256 → exec (option Trie)) : exec (option ProofResponse) :=
  found ← get_account (eth_trie_resolver tree) address;
  match found with
  | Err _ | Ok None => Done None
  | Ok (Some account_info) =>
  match get_proof tree (key_hash (KEvm address)) with
  | None => Done None
  | Some account_proof =>
    let respond storage_proof := Done (Some
      {| pr_address := address; pr_balance := acc_balance account_info;
         pr_code_hash := acc_code_hash account_info; pr_nonce := acc_nonce account_info;
         pr_storage_hash := acc_storage_root account_info; pr_account_proof := account_proof;
         pr_storage_proof := storage_proof |}) in
    match storage_slots with
    | [] => respond []
    | _ =>
      opened ← open_storage address (acc_storage_root account_info);
      match opened with
      | None => Done None
      | Some storage => storage_proof ← storage_proofs storage storage_slots; respond storage_proof
      end
    end
  end
  end.

(** Source: blockchain/src/state/read.rs 232-251 [InMemoryStateQueries::proof_at] *)
Definition proof_at (self : InMemoryStateQueries) (evm_storage : InMemoryStorageTrieRepository)
    (account : AccountAddress) (storage_slots : list Z) (height : Z) : exec (option ProofResponse) :=
  let address := to_eth_address account in
  if negb (in_l2_range address) then Done None else
  match root_by_height self height with
  | None => Done None
  | Some root =>
    resolver ← resolver_of self height;
    match resolver with
    | None => Done None
    | Some _ =>
      tree ← expect (trie_from (sq_db self) root);
      proof_from_trie_and_resolver address storage_slots tree
        (λ address root, Done (for_account_with_root evm_storage address root))
    end
  end.

(** Source: blockchain/src/state/read.rs 253-255 [InMemoryStateQueries::resolver_at] *)
Definition resolver_at (self : InMemoryStateQueries) (height : Z) : exec Trie :=
  resolver ← resolver_of self height;
  expect resolver.

End Queries.

(** Witness: an EVM account, a module and a deleted resource, applied to an
    empty state. *)
Module StateQueriesWitness.
Import EvmStateWitness.
#[local] Existing Instance Envelope.Witness.unit_errors.
#[local] Existing Instance StorageWitness.toy_trie.
#[local] Existing Instance StorageWitness.toy_trie_laws.

#[export] Instance reading : StateReading := {|
  state_value_inner := λ b, match b with 0 :: v => Some v | _ => None end;
  data_format_error := () |}.
#[export] Instance reading_laws : StateReadingLaws.
Proof. by split. Qed.

Definition other_tag : StructTag := MkStructTag address_one "m" "T" [].
Definition changes : ChangeSet :=
  [(EVM_NATIVE_ADDRESS, MkAccountChanges [("m"%string, ChNew [5])]
     [(account_info_struct_tag [7], ChModify [9]); (other_tag, ChDelete)])].
Definition updates : list (TreeKey * TreeValue) :=
  match tree_value_list changes with Done l => l | Panic => [] end.
Definition empty_state : InMemoryState () := MkState () ∅ None.
Definition resolve (r : ()) (_ : ChangeSet) : result () () := Ok r.

Lemma updates_distinct : NoDup (key_hash <$> updates.*1).
Proof.
  assert (bool_decide (NoDup (key_hash <$> updates.*1)) = true) as Hd by (vm_compute; reflexivity).
  by apply bool_decide_eq_true in Hd.
Qed.

Lemma resolver_reads_changes_witness :
  ∃ self' t', state_apply map_to_list resolve empty_state changes = Done (Ok self')
    ∧ trie_of self' t' ∧ db empty_state ⊆ db self'
    ∧ (∀ address ac, (address, ac) ∈ changes →
        (∀ tag op, (tag, op) ∈ ac_resources ac →
           ∃ n, get_resource (eth_trie_resolver t') address tag = Done (Ok (op_ok op, n)))
        ∧ ∀ name op, (name, op) ∈ ac_modules ac →
           get_module (eth_trie_resolver t') address name = Done (Ok (op_ok op)))
    ∧ (∀ address tag,
        (∀ k, resource_key address tag = Ok k → key_hash k ∉ key_hash <$> updates.*1) →
        get_resource (eth_trie_resolver t') address tag
          = get_resource (eth_trie_resolver (trie_new ∅)) address tag)
    ∧ ∀ address name, key_hash (KStateKey (state_key_module address name)) ∉ key_hash <$> updates.*1 →
        get_module (eth_trie_resolver t') address name
          = get_module (eth_trie_resolver (trie_new ∅)) address name.
Proof.
  apply (resolver_reads_changes map_to_list (λ m, reflexivity _) resolve empty_state changes updates
    (trie_new ∅) ()); try done.
  - apply updates_distinct.
  - intros address ac tag op Hac Htag. apply list_elem_of_singleton in Hac as [= -> ->].
    simpl in Htag. apply elem_of_cons in Htag as [[= -> ->]|Htag]; [done|].
    apply list_elem_of_singleton in Htag as [= -> ->]. done.
Defined.

End StateQueriesWitness.
