(* ===== verification/World.v ===== *)
(** The world the block builder runs on in memory: the Move state with its Merkle
    trie ([state/src/lib.rs]) and the EVM storage tries
    ([evm-ext/src/state/storage.rs]), and what it keeps of the past: the state of
    every block stays readable; the builds the back ends on disk run. *)
From S2P Require Import Prelude Primitives MoveTypes Errors Envelope EvMap.
From S2P Require Import Transactions Fees BaseFee Receipts Payloads Blocks Application Chain.
From S2P Require Import EthToken Events Storage StateTree EvmState StateQueries.

Local Open Scope Z_scope.

(** The in-memory resolver of the Move library, the iteration order of hash
    maps, and the errors of the storage tries. *)
Class WorldLibrary `{StateKeys, ErrorTypes} := {
  VmResolver : Type;
  vm_resolver_apply : VmResolver → ChangeSet → result PartialVMError VmResolver;
  tree_values_order : gmap TreeKey TreeValue → list (TreeKey * TreeValue);
  storage_changes_order : gmap Address StorageTrieChanges → list (Address * StorageTrieChanges);
  TrieStorageError : Type;
  trie_storage_error : TrieStorageError;
}.

(** What the execution of a block's transactions yields: the changes of each, in
    order, their receipts and the sums over them. *)
Record Executed := MkExecuted {
  ex_changes : list (ChangeSet * list (Address * StorageTrieChanges));
  ex_receipts : list ExtendedReceipt;
  ex_receipts_root : B256;
  ex_logs_bloom : bytes;
  ex_gas_used : Z;
  ex_total_tip : Z;
}.

(** The build of a block on a back end on disk: what it is given and what its
    execution yields. *)
Record Build := MkBuild {
  bd_parent : ExtendedBlock;
  bd_attributes : Payload;
  bd_id : PayloadId;
  bd_txs : list OpTxEnvelope;
  bd_base_fee : Z;
  bd_header : HeaderForExecution;
  bd_executed : Executed;
}.

#[export] Instance moved_world `{EthTrie, WorldLibrary} : WorldState := {|
  MoveState := InMemoryState VmResolver;
  MoveChanges := ChangeSet;
  EvmStorage := InMemoryStorageTrieRepository;
  EvmChanges := StorageTriesChanges;
  StorageError := PartialVMError + TrieStorageError;
  Application.state_apply := λ s c,
    map_err inl <$> StateTree.state_apply tree_values_order vm_resolver_apply s c;
  Application.state_root := StateTree.state_root;
  storage_apply := λ s c,
    ok_or (repository_apply s (storage_changes_order (tries c))) (inr trie_storage_error);
|}.

Section World.
Context `{EthTrie, !EthTrieLaws, WorldLibrary}.
Context `{!TxLibrary, EnvelopeLibrary, HeaderLibrary, EvMapLaws, !Executor, !AppLibrary}.

#[local] Existing Instance in_memory_callbacks.

(** Merkle nodes of different content have different hashes. *)
Definition NoNodeCollision : Prop := ∀ v w, node_hash v = node_hash w → v = w.

(** Every node is stored under its hash. *)
Definition hashed (nodes : Nodes) : Prop := ∀ k v, nodes !! k = Some v → k = node_hash v.

Lemma hashed_agree nodes1 nodes2 :
  NoNodeCollision → hashed nodes1 → hashed nodes2 → nodes_agree nodes1 nodes2.
Proof. intros Hc Hd Hn k v w Hv Hw. apply Hc. by rewrite <- (Hd k v Hv), <- (Hn k w Hw). Qed.

Lemma hashed_union nodes1 nodes2 : hashed nodes1 → hashed nodes2 → hashed (nodes1 ∪ nodes2).
Proof. intros Hd Hn k v [?|[_ ?]]%lookup_union_Some_raw; eauto. Qed.

Definition opens_at (nodes : Nodes) (r : B256) : Prop := is_Some (trie_from nodes r).
Definition open_state (s : InMemoryState VmResolver) : Prop :=
  hashed (db s) ∧ ∃ r, current_state_root s = Some r ∧ opens_at (db s) r.

(** A state and a later one. *)
Definition later (s s' : InMemoryState VmResolver) : Prop :=
  open_state s → db s ⊆ db s' ∧ open_state s'.

#[local] Instance later_preorder : PreOrder later.
Proof.
  split; [by intros s Hs|]. intros s1 s2 s3 H12 H23 Ho.
  destruct (H12 Ho) as [Hsub Ho2]. destruct (H23 Ho2) as [Hsub' Ho3]. split; [by etrans|done].
Qed.

Lemma opens_at_mono nodes nodes' r : nodes ⊆ nodes' → opens_at nodes r → opens_at nodes' r.
Proof. intros Hsub [t Ht]. destruct (trie_from_mono _ _ _ _ Hsub Ht) as (t' & Ht' & _). by exists t'. Qed.

Lemma state_apply_later s changes s' : NoNodeCollision →
  StateTree.state_apply tree_values_order vm_resolver_apply s changes = Done (Ok s') → later s s'.
Proof.
  intros Hagree Happ (Hhash & r & Hr & t & Ht). unfold StateTree.state_apply in Happ.
  apply bind_Done in Happ as (t0 & Ht0 & Happ). unfold tree in Ht0. rewrite Hr, Ht in Ht0.
  injection Ht0 as <-. apply bind_Done in Happ as (t1 & Ht1 & Happ).
  unfold insert_change_set_into_merkle_trie in Ht1. apply bind_Done in Ht1 as (values & _ & Ht1).
  injection Ht1 as Ht1.
  assert (trie_nodes t1 = db s) as Hn.
  { subst t1. rewrite insert_values_nodes. by apply trie_from_nodes in Ht. }
  destruct (trie_commit_open t1 ((trie_commit t1).2 ∪ db s)) as (t' & Hfrom & _); [by rewrite Hn|].
  assert (hashed (trie_commit t1).2) as Hdiff by exact (trie_commit_hashed t1).
  pose proof (hashed_agree _ _ Hagree Hdiff Hhash) as Ha.
  destruct (trie_commit t1) as [root diff]. simpl in *.
  destruct (vm_resolver_apply _ _) as [x|]; [|done]. injection Happ as <-. simpl.
  split; [by apply nodes_agree_subseteq|]. split; [by apply hashed_union|]. exists root. simpl. split; [done|by exists t'].
Qed.

Lemma apply_changes_later app c app' : NoNodeCollision →
  apply_changes app c = Done app' → later (state app) (state app').
Proof.
  intros Hagree. unfold apply_changes. intros (r & Hr & Hrest)%bind_Done.
  apply bind_Done in Hrest as (s & Hs & Hrest). apply bind_Done in Hrest as (e & _ & Hrest).
  injection Hrest as <-. apply unwrap_Done in Hs as ->. simpl in Hr.
  destruct (StateTree.state_apply _ _ _ _) as [[s1|x]|] eqn:Happ; try done.
  injection Hr as ->. simpl. by eapply state_apply_later.
Qed.

Lemma process_tx_later l1 l2 base_fee hx lp t lp' : NoNodeCollision →
  process_tx l1 l2 base_fee hx lp t = Done lp' → later (state (lp_app lp)) (state (lp_app lp')).
Proof.
  intros Hagree Ht. apply process_tx_cases in Ht as [(n & o & app & _ & _ & Ha & Hrec)|[_ ->]]; [|done].
  unfold record_outcome in Hrec. apply bind_Done in Hrec as (rx & _ & Hrec).
  assert (lp_app lp' = app) as -> by by destruct n; injection Hrec as <-.
  by apply (apply_changes_later (lp_app lp) (changes o)).
Qed.

Lemma process_txs_later l1 l2 base_fee hx lp txs lp' : NoNodeCollision →
  process_txs l1 l2 base_fee hx lp txs = Done lp' → later (state (lp_app lp)) (state (lp_app lp')).
Proof.
  intros Hagree. revert lp. induction txs as [|t txs IH]; intros lp Hp; [by injection Hp as ->|].
  apply bind_Done in Hp as (lp1 & Ht & Hp). etrans; [|by apply IH]. by eapply process_tx_later.
Qed.

Lemma execute_transactions_later app txs base_fee hx app' o rs : NoNodeCollision →
  execute_transactions app txs base_fee hx = Done (app', o, rs) →
  later (state app) (state app') ∧ o_state_root o = StateTree.state_root (state app').
Proof.
  intros Hagree He. unfold execute_transactions in He. apply bind_Done in He as (l1 & _ & He).
  apply bind_Done in He as (lp & Hp & He). apply bind_Done in He as (_ & _ & He).
  injection He as <- <- <-. split; [|done]. by apply (process_txs_later _ _ _ _ _ _ _ Hagree Hp).
Qed.

(** ** Every block's state is kept *)

Definition block_root (e : Entry) : B256 := h_state_root (header (block (en_block e))).

(** The state roots of the blocks open on the nodes of the state, whose current
    root is that of the last block. *)
Definition StatesKept (app : Application) (log : list Entry) (e : Entry) : Prop :=
  hashed (db (state app)) ∧ current_state_root (state app) = Some (block_root e)
  ∧ ∀ x, x ∈ log ++ [e] → opens_at (db (state app)) (block_root x).

Lemma states_kept_open app log e : StatesKept app log e → open_state (state app).
Proof. intros (Hh & Hr & Ho). split; [done|]. exists (block_root e). split; [done|]. apply Ho. set_solver. Qed.

(** The entry a build appends on [e], executing from [app]. *)
Definition built_entry (app : Application) (e : Entry) (attributes : Payload) (id : PayloadId)
    (appx : Application) (e' : Entry) : Prop :=
  let hx := execution_header (en_block e) attributes in
  let txs := (λ t, t.2.1) <$> block_transactions app attributes in
  ∃ base_fee o rs, next_base_fee app (en_block e) = Done base_fee
    ∧ execute_transactions (set_mem_pool ∅ app) (block_transactions app attributes) base_fee hx
        = Done (appx, o, rs)
    ∧ e' = block_entry (assemble_block (en_block e) attributes id txs base_fee hx o) txs rs.

Lemma new_build_keeps_states app log e attributes id app' : NoNodeCollision → GasTyped →
  History app (log ++ [e]) → Z.of_nat (length (log ++ [e])) < 2 ^ 64 → StatesKept app log e →
  payload_by_id (storage app) id = None → start_block_build app attributes id = Done app' →
  db (state app) ⊆ db (state app')
  ∧ ∃ e', History app' ((log ++ [e]) ++ [e']) ∧ StatesKept app' (log ++ [e]) e'
      ∧ ∃ appx, built_entry app e attributes id appx e' ∧ db (state app') = db (state appx).
Proof.
  intros Hagree Hg Hh Hlen Hk Hid Hbuild. assert CallbackLaws as Hcb by by split.
  destruct (build_step app log e attributes id app' Hcb Hg Hh Hlen Hbuild)
    as [[[p Hp] _]|(_ & _ & bf & appx & o & rs & txs & hx & b & Htxs & Hhx & Hb & Hbf & Hex & Hh' & _)];
    [congruence|].
  destruct (start_block_build_inv _ _ _ _ Hid Hbuild)
    as (parent & bf' & appx' & o' & rs' & txs' & hx' & b' & Htxs' & Hhx' & Hb' & Hpar & Hbf' & Hex' & Happ).
  rewrite (history_latest _ _ _ Hh Hlen) in Hpar. injection Hpar as <-.
  rewrite Hbf in Hbf'. injection Hbf' as <-. subst hx' hx. rewrite Hex in Hex'.
  injection Hex' as <- <- <-. assert (state app' = state appx) as Hst by by rewrite Happ.
  destruct (execute_transactions_later _ _ _ _ _ _ _ Hagree Hex) as [Hl Hroot].
  destruct (Hl (states_kept_open _ _ _ Hk)) as [Hsub (Hhash & r & Hr & Ho)]. simpl in Hsub.
  rewrite Hst. split; [done|]. exists (block_entry b txs rs). split; [done|].
  assert (block_root (block_entry b txs rs) = r) as Hbr.
  { unfold block_root. subst b. simpl. rewrite Hroot. unfold StateTree.state_root. by rewrite Hr. }
  split; [|exists appx; split; [|done]; exists bf, o, rs; by subst b txs].
  unfold StatesKept. rewrite Hst, Hbr. split; [done|]. split; [done|]. intros x [Hx|Hx]%elem_of_app.
  - eapply opens_at_mono; [exact Hsub|]. by apply Hk.
  - apply list_elem_of_singleton in Hx as ->. by rewrite Hbr.
Qed.

Lemma build_keeps_states app log e attributes id app' : NoNodeCollision → GasTyped →
  History app (log ++ [e]) → Z.of_nat (length (log ++ [e])) < 2 ^ 64 → StatesKept app log e →
  start_block_build app attributes id = Done app' →
  db (state app) ⊆ db (state app')
  ∧ ((app' = app) ∨ ∃ e', History app' ((log ++ [e]) ++ [e']) ∧ StatesKept app' (log ++ [e]) e').
Proof.
  intros Hagree Hg Hh Hlen Hk Hbuild. destruct (payload_by_id (storage app) id) as [p|] eqn:Hid.
  - unfold start_block_build in Hbuild. rewrite decide_True in Hbuild by (rewrite Hid; eauto).
    injection Hbuild as <-. split; [done|by left].
  - destruct (new_build_keeps_states app log e attributes id app') as (Hsub & e' & ? & ? & _); try done.
    split; [done|]. right. by exists e'.
Qed.

Lemma work_keeps_states app log e msgs app' : NoNodeCollision → GasTyped →
  Forall (λ msg, is_genesis_update msg = false) msgs → History app (log ++ [e]) →
  Z.of_nat (length (log ++ [e]) + length msgs) < 2 ^ 64 → StatesKept app log e →
  work app msgs = Done app' →
  db (state app) ⊆ db (state app')
  ∧ ∃ log' e', History app' (log' ++ [e']) ∧ StatesKept app' log' e'
      ∧ (log ++ [e]) `prefix_of` (log' ++ [e'])
      ∧ (length (log' ++ [e']) ≤ length (log ++ [e]) + length msgs)%nat.
Proof.
  intros Hagree Hg Hm. revert app log e. induction Hm as [|msg msgs Hmsg _ IH];
    intros app log e Hh Hlen Hk Hw; simpl in Hw, Hlen.
  { injection Hw as <-. split; [done|]. exists log, e. split_and!; [done..|]. simpl. lia. }
  apply bind_Done in Hw as (app1 & Hr & Hw).
  assert (db (state app) ⊆ db (state app1) ∧ ∃ log1 e1, History app1 (log1 ++ [e1])
    ∧ StatesKept app1 log1 e1 ∧ (log ++ [e]) `prefix_of` (log1 ++ [e1])
    ∧ (length (log1 ++ [e1]) ≤ S (length (log ++ [e])))%nat) as [Hsub (log1 & e1 & Hh1 & Hk1 & Hp1 & Hl1)].
  { destruct msg as [attributes id|tx|b]; simpl in Hr; [| |done].
    - destruct (build_keeps_states app log e attributes id app1) as [Hsub [->|(e' & Hh' & Hk')]]; try done.
      + lia.
      + split; [done|]. exists log, e. split_and!; [done..|lia].
      + split; [done|]. exists (log ++ [e]), e'. split_and!; [done..| |].
        * by apply prefix_app_r.
        * rewrite (length_app (_ ++ _)). simpl. lia.
    - apply bind_Done in Hr as (op & _ & Hr). injection Hr as <-. split; [done|].
      exists log, e. split_and!; [by destruct Hh|done|done|lia]. }
  destruct (IH app1 log1 e1) as [Hsub' (log' & e' & Hh' & Hk' & Hp' & Hl')]; try done; [lia|].
  split; [by etrans|]. exists log', e'. split_and!; [done|done|by etrans|simpl; lia].
Qed.

(** ** The state at any height *)

Lemma by_height_none self log h : Represents self log → Linked log →
  Z.of_nat (length log) ≤ h → by_height self h = None.
Proof.
  intros Hrep [Hnum _] Hlen.
  destruct (block_at_height self log h Hrep) as [Hin Hout].
  destruct (by_height self h) as [b|] eqn:Hb; [|done]. destruct (Hin b eq_refl) as [Hb' Hn].
  apply list_elem_of_lookup in Hb' as [i Hi]. apply Hnum in Hi as Hi'.
  apply lookup_lt_Some in Hi. lia.
Qed.

(** The state queries of an application whose genesis state root is [r]. *)
Definition queries_of (app : Application) (r : B256) : InMemoryStateQueries :=
  MkStateQueries (storage app) (db (state app)) r.

Lemma root_at_height app log r h e :
  History app log → (∀ g, log !! 0%nat = Some g → block_root g = r) →
  0 ≤ h → log !! Z.to_nat h = Some e → root_by_height (queries_of app r) h = Some (block_root e).
Proof.
  intros Hh Hg Hh0 He. unfold root_by_height. destruct (Z.eqb_spec h 0) as [->|Hne].
  - f_equal. symmetry. by apply Hg.
  - unfold shared_root_by_height. simpl.
    pose proof (by_height_linked _ (en_block <$> log) (Z.to_nat h) (en_block e)
      (hist_blocks _ _ Hh) (hist_linked _ _ Hh)) as Hb.
    rewrite list_lookup_fmap, He in Hb. specialize (Hb eq_refl).
    unfold by_height, map_by_height in Hb. rewrite Z2Nat.id in Hb by done.
    unfold map_by_height. destruct (ev_get_one _ h) as [x|]; [|done]. by injection Hb as ->.
Qed.

Lemma root_above_head app log r h : History app log → 0 < Z.of_nat (length log) ≤ h →
  root_by_height (queries_of app r) h = None.
Proof.
  intros Hh Hle. unfold root_by_height. destruct (Z.eqb_spec h 0) as [->|]; [lia|].
  pose proof (by_height_none _ (en_block <$> log) h (hist_blocks _ _ Hh) (hist_linked _ _ Hh)) as Hn.
  rewrite length_fmap in Hn. unfold shared_root_by_height, by_height, map_by_height in *. simpl.
  destruct (ev_get_one _ h); [|done]. discriminate Hn. lia.
Qed.

Lemma resolver_at_height app log e r h x : History app (log ++ [e]) → StatesKept app log e →
  (∀ g, (log ++ [e]) !! 0%nat = Some g → block_root g = r) →
  0 ≤ h → (log ++ [e]) !! Z.to_nat h = Some x →
  ∃ t, trie_from (db (state app)) (block_root x) = Some t
    ∧ resolver_of (queries_of app r) h = Done (Some t).
Proof.
  intros Hh Hk Hg Hh0 Hx. destruct Hk as (_ & _ & Hk).
  destruct (Hk x) as [t Ht]; [by eapply list_elem_of_lookup_2|].
  exists t. split; [done|]. unfold resolver_of. rewrite (root_at_height _ _ _ _ _ Hh Hg Hh0 Hx).
  simpl. by rewrite Ht.
Qed.

(** C5 (safety): the state of every block stays readable and unchanged.  After
    any builds and transactions, a query at the height of a block never panics
    and reads the state trie at that block's root (at the head: the current
    state); a height read before is read with the same content since; and a
    height above the head has no state. *)
Theorem every_height_stays_readable app log e msgs app' r : NoNodeCollision → GasTyped →
  Forall (λ msg, is_genesis_update msg = false) msgs → History app (log ++ [e]) →
  Z.of_nat (length (log ++ [e]) + length msgs) < 2 ^ 64 → StatesKept app log e →
  (∀ g, (log ++ [e]) !! 0%nat = Some g → block_root g = r) →
  work app msgs = Done app' →
  ∃ log', History app' log' ∧ (log ++ [e]) `prefix_of` log'
    ∧ (∀ h x, 0 ≤ h → log' !! Z.to_nat h = Some x →
        ∃ t, trie_from (db (state app')) (block_root x) = Some t
          ∧ resolver_of (queries_of app' r) h = Done (Some t)
          ∧ (Z.to_nat h = pred (length log') → trie_of (state app') t)
          ∧ ∀ t0, resolver_of (queries_of app r) h = Done (Some t0) → ∀ k, trie_get t k = trie_get t0 k)
    ∧ (∀ h, 0 < Z.of_nat (length log') ≤ h → resolver_of (queries_of app' r) h = Done None).
Proof.
  intros Hagree Hg Hm Hh Hlen Hk Hr Hw.
  destruct (work_keeps_states app log e msgs app' Hagree Hg Hm Hh Hlen Hk Hw)
    as (Hsub & log' & e' & Hh' & Hk' & Hpre & Hlen').
  assert (∀ g, (log' ++ [e']) !! 0%nat = Some g → block_root g = r) as Hr'.
  { intros g Hg0. apply Hr. destruct Hpre as [k Hpk]. rewrite Hpk, lookup_app_l in Hg0;
      [done|rewrite length_app; simpl; lia]. }
  exists (log' ++ [e']). split; [done|]. split; [done|]. split.
  - intros h x Hh0 Hx. destruct (resolver_at_height app' log' e' r h x) as (t & Ht & Hres); try done.
    exists t. split; [done|]. split; [done|]. split.
    + intros Hlast. rewrite length_app in Hlast. simpl in Hlast.
      assert (Z.to_nat h = length log') as Heq by lia. rewrite Heq in Hx.
      rewrite list_lookup_middle in Hx by done. injection Hx as <-.
      unfold trie_of, tree. destruct Hk' as (_ & -> & _). by rewrite Ht.
    + intros t0 Ht0 k. unfold resolver_of in Ht0.
      destruct (root_by_height (queries_of app r) h) as [r0|] eqn:Hroot; [|done].
      destruct (trie_from (sq_db (queries_of app r)) r0) as [t1|] eqn:Hf; [|done]. injection Ht0 as <-.
      simpl in Hf. destruct (trie_from_mono _ _ _ _ Hsub Hf) as (t2 & Ht2 & Hsame).
      assert (r0 = block_root x) as ->; [|congruence].
      destruct ((log ++ [e]) !! Z.to_nat h) as [y|] eqn:Hy.
      * rewrite (root_at_height _ _ _ _ _ Hh Hr Hh0 Hy) in Hroot. injection Hroot as <-.
        f_equal. eapply prefix_lookup_Some in Hy; [|done]. congruence.
      * apply lookup_ge_None in Hy. rewrite (root_above_head app _ r h Hh) in Hroot; [done|].
        rewrite length_app in *. simpl in *. lia.
  - intros h Hle. unfold resolver_of. by rewrite (root_above_head app' _ r h Hh' Hle).
Qed.

End World.

(** Witness: a genesis state with one account, and a block whose transaction
    changes it. *)
Module WorldWitness.
Import EvMap.Model Envelope.Witness BlockWitness ChainWitness EvmStateWitness.
#[local] Existing Instance unit_errors.
#[local] Existing Instance tx_library.
#[local] Existing Instance envelopes.
#[local] Existing Instance headers.
#[local] Existing Instance in_memory_callbacks.

#[local] Instance trie : EthTrie := StorageWitness.trie_with id.
#[local] Instance trie_laws : EthTrieLaws := StorageWitness.trie_with_laws id.

#[local] Instance world_library : WorldLibrary := {|
  VmResolver := (); vm_resolver_apply := λ r _, Ok r; tree_values_order := map_to_list;
  storage_changes_order := map_to_list; TrieStorageError := (); trie_storage_error := () |}.

Definition account_change (b : Z) : ChangeSet :=
  [(EVM_NATIVE_ADDRESS, MkAccountChanges [] [(account_info_struct_tag [7], ChModify [b])])].

#[local] Instance block_executor : Executor := λ _, Done (Ok
  {| vm_outcome := Ok (); changes := {| move_vm := account_change 2; evm := tries_empty |};
     gas_used := 7; l2_price := 1; logs := []; deployment := None |}).

#[local] Instance app_library : AppLibrary := {|
  keccak256 := id; decode_tx := λ b, match b with [1] => Some (legacy_tx, []) | _ => None end;
  eth_tx_hash := λ _, [9]; eth_encode := λ _, [1]; try_from_eth_envelope := λ _, Some legacy_tx;
  bloom_zero := []; accrue_log := λ b _, b; accrue_bloom := λ a _, a;
  transactions_trie_root := λ _, []; withdrawals_trie_root := λ _, [];
  receipts_trie_root := λ _, []; drain_order := map_to_list |}.

Definition genesis_state : InMemoryState () :=
  match StateTree.state_apply map_to_list (λ r _, Ok (E:=()) r) (MkState () ∅ None) (account_change 1) with
  | Done (Ok s) => s | _ => MkState () ∅ None end.
Definition genesis_header : Header :=
  with_execution_outcome (MkExecutionOutcome [] (StateTree.state_root genesis_state) [] 0 0) h0.
Definition genesis_block : ExtendedBlock := MkExtendedBlock [0] 0 0 (MkBlock genesis_header []).
Definition genesis_entry : Entry := MkEntry genesis_block [] [].

Definition begin : Application :=
  genesis_update (MkApplication {[ [9] := (legacy_tx, input) ]} (MkEip1559GasFee 6 50) ev_new
    shared_memory_new genesis_state (MkRepository ∅)) genesis_block.
Definition one_build : list Command := [StartBlockBuild attributes 1].
Definition after : Application :=
  match work begin one_build with Done a => a | Panic => begin end.

Lemma begin_history : History begin ([] ++ [genesis_entry]).
Proof. by apply history_genesis. Qed.

Lemma begin_kept : StatesKept begin [] genesis_entry.
Proof.
  split; [|split; [reflexivity|]].
  - intros k v Hk. vm_compute in Hk.
    assert (({[ [Z.pos (encode ({[ [7] := [1] ]} : gmap bytes bytes))] :=
      [Z.pos (encode ({[ [7] := [1] ]} : gmap bytes bytes))] ]} : Nodes) !! k = Some v) as Hk'
      by exact Hk.
    by apply lookup_singleton_Some in Hk' as [<- <-].
  - intros x Hx. apply list_elem_of_singleton in Hx as ->. vm_compute. by eexists.
Qed.

Lemma block_gas_typed : GasTyped.
Proof. intros i o Ho. injection Ho as <-. done. Qed.

Lemma build_done : work begin one_build = Done after.
Proof.
  assert (match work begin one_build with Done _ => true | Panic => false end = true) as Hd
    by (vm_compute; reflexivity).
  unfold after. by destruct (work begin one_build).
Qed.

Lemma every_height_stays_readable_witness :
  ∃ log', History after log' ∧ ([] ++ [genesis_entry]) `prefix_of` log'
    ∧ (∀ h x, 0 ≤ h → log' !! Z.to_nat h = Some x →
        ∃ t, trie_from (db (state after)) (block_root x) = Some t
          ∧ resolver_of (queries_of after (block_root genesis_entry)) h = Done (Some t)
          ∧ (Z.to_nat h = pred (length log') → trie_of (state after) t)
          ∧ ∀ t0, resolver_of (queries_of begin (block_root genesis_entry)) h = Done (Some t0) →
              ∀ k, trie_get t k = trie_get t0 k)
    ∧ (∀ h, 0 < Z.of_nat (length log') ≤ h →
        resolver_of (queries_of after (block_root genesis_entry)) h = Done None).
Proof.
  apply (every_height_stays_readable begin [] genesis_entry one_build after);
    [by intros v w|apply block_gas_typed|by constructor|apply begin_history|done|apply begin_kept
    |by intros g [= <-]|apply build_done].
Defined.

End WorldWitness.
