(* ===== verification/Publication.v ===== *)
(** What readers find while a block is being committed.  The actor and the
    readers of the API run in different threads and share the in-memory stores:
    a commit is a sequence of writes ([ReceiptMemory::extend],
    [TransactionMemory::extend], [BlockMemory::add]), each store visible from its
    own refresh on, and the trie nodes appear one by one while the block
    executes.  Here a command is the list of its writes, a run interleaves the
    writes with the readers, and the theorems say what a reader can find between
    any two writes. *)
From S2P Require Import Prelude Primitives MoveTypes Errors Envelope EvMap.
From S2P Require Import Transactions Fees Receipts Payloads Blocks BaseFee Application Chain.
From S2P Require Import EthToken Storage StateTree EvmState StateQueries World.

Local Open Scope Z_scope.

(** ** Nodes written one by one *)

(** Storing an entry of a larger map keeps a map between the two. *)
Lemma insert_between {K V} `{Countable K} (lo m hi : gmap K V) k v :
  lo ⊆ m → m ⊆ hi → hi !! k = Some v → m ⊆ <[k := v]> m ∧ <[k := v]> m ⊆ hi.
Proof.
  intros Hlo Hhi Hk. split.
  - apply map_subseteq_spec. intros k' v' Hk'. destruct (decide (k = k')) as [<-|Hne].
    + rewrite lookup_insert_eq. rewrite map_subseteq_spec in Hhi. by rewrite <- Hk, <- (Hhi k v' Hk').
    + by rewrite lookup_insert_ne.
  - by apply insert_subseteq_l.
Qed.

Definition insert_all {K V} `{Countable K} (l : list (K * V)) (m : gmap K V) : gmap K V :=
  fold_left (λ m '(k, v), <[k := v]> m) l m.

Lemma insert_all_between {K V} `{Countable K} (l : list (K * V)) (m hi : gmap K V) :
  m ⊆ hi → Forall (λ kv, hi !! kv.1 = Some kv.2) l →
  m ⊆ insert_all l m ∧ insert_all l m ⊆ hi
  ∧ Forall (λ kv, insert_all l m !! kv.1 = Some kv.2) l.
Proof.
  unfold insert_all. intros Hm Hl. revert m Hm.
  induction Hl as [|[k v] l Hk _ IH]; intros m Hm; [done|]. simpl in *.
  destruct (insert_between m m hi k v) as [Hup Hin]; [done..|].
  destruct (IH _ Hin) as (Hlo & Hhi & Hall). split; [by etrans|]. split; [done|].
  constructor; [|done]. simpl. eapply map_subseteq_spec; [exact Hlo|]. apply lookup_insert_eq.
Qed.

(** Storing what a larger map has and a smaller one lacks makes it equal to the
    larger one. *)
Lemma insert_all_difference {K V} `{Countable K} (l : list (K * V)) (m hi : gmap K V) :
  m ⊆ hi → l ≡ₚ map_to_list (hi ∖ m) → insert_all l m = hi.
Proof.
  intros Hm Hl.
  assert (Forall (λ kv, hi !! kv.1 = Some kv.2) l) as Hf.
  { apply Forall_forall. intros [k v] Hin. rewrite Hl in Hin. apply elem_of_map_to_list in Hin.
    by apply lookup_difference_Some in Hin as [? _]. }
  destruct (insert_all_between l m hi Hm Hf) as (Hlo & Hhi & Hall).
  apply (anti_symm (⊆)); [done|]. apply map_subseteq_spec. intros k v Hk.
  destruct (m !! k) as [w|] eqn:Hmk.
  - eapply map_subseteq_spec; [exact Hlo|]. rewrite map_subseteq_spec in Hm.
    by rewrite Hmk, <- Hk, <- (Hm k w Hmk).
  - rewrite Forall_forall in Hall. apply (Hall (k, v)). rewrite Hl.
    apply elem_of_map_to_list, lookup_difference_Some. done.
Qed.

(** ** A map with staged writes *)

Section Staged.
Context `{EvMapLaws} {K V : Type} `{Countable K} (f : V → K).

(** What the readers find, and what they will find after the next refresh. *)
Definition Staged (m : evmap K V) (l : list V * list V) : Prop := Shown f m l.1 ∧ Pending f m l.2.

Lemma staged_put m l v : Staged m l → Staged (ev_insert (f v) v m) (l.1, l.2 ++ [v]).
Proof.
  intros [Hs Hp]. split; [|by apply Pending_insert]. intros k. by rewrite ev_insert_read.
Qed.

Lemma staged_show m l : Staged m l → Staged (ev_refresh m) (l.2, l.2).
Proof. intros [_ Hp]. apply (Pending_refresh f) in Hp as [??]. done. Qed.

Lemma indexed_staged m l : Indexed f m l → Staged m (l, l).
Proof. by intros [??]. Qed.

End Staged.

Section Publication.
Context `{EthTrie, !EthTrieLaws, WorldLibrary}.
Context `{!TxLibrary, EnvelopeLibrary, HeaderLibrary, EvMapLaws, !Executor, !AppLibrary}.
Context (node_order : Nodes → list (bytes * bytes)).
#[local] Existing Instance in_memory_callbacks.

(** ** Writes *)

(** What the readers share with the actor. *)
Record View := MkView {
  vw_receipts : ReceiptMemory;
  vw_storage : SharedMemory;
  vw_nodes : Nodes;
}.

Definition view_of (app : Application) : View :=
  MkView (receipt_memory app) (storage app) (db (state app)).

Inductive Write :=
| PutNode (k v : bytes)
| PutReceipt (r : ExtendedReceipt) | ShowReceipts
| PutTransaction (tx : ExtendedTransaction) | ShowTransactions
| PutHash (b : ExtendedBlock) | PutHeight (b : ExtendedBlock) | PutPayloadId (b : ExtendedBlock)
| ShowHashes | ShowHeights | ShowPayloadIds.

Definition on_receipts (g : ReceiptMemory → ReceiptMemory) (v : View) : View :=
  MkView (g (vw_receipts v)) (vw_storage v) (vw_nodes v).
Definition on_transactions (g : TransactionMemory → TransactionMemory) (v : View) : View :=
  MkView (vw_receipts v) (MkSharedMemory (block_memory (vw_storage v))
    (g (transaction_memory (vw_storage v)))) (vw_nodes v).
Definition on_blocks (g : BlockMemory → BlockMemory) (v : View) : View :=
  MkView (vw_receipts v) (MkSharedMemory (g (block_memory (vw_storage v)))
    (transaction_memory (vw_storage v))) (vw_nodes v).

Definition apply_write (v : View) (w : Write) : View :=
  match w with
  | PutNode k b => MkView (vw_receipts v) (vw_storage v) (<[k := b]> (vw_nodes v))
  | PutReceipt r => on_receipts (ev_insert (Receipts.transaction_hash r) r) v
  | ShowReceipts => on_receipts ev_refresh v
  | PutTransaction tx => on_transactions (ev_insert (et_hash tx) tx) v
  | ShowTransactions => on_transactions ev_refresh v
  | PutHash b =>
    on_blocks (λ m, MkBlockMemory (ev_insert (hash b) b (hashes m)) (heights m) (payload_ids m)) v
  | PutHeight b =>
    on_blocks (λ m, MkBlockMemory (hashes m) (ev_insert (number b) b (heights m)) (payload_ids m)) v
  | PutPayloadId b =>
    on_blocks (λ m, MkBlockMemory (hashes m) (heights m)
                      (ev_insert (payload_id b) b (payload_ids m))) v
  | ShowHashes => on_blocks (λ m, MkBlockMemory (ev_refresh (hashes m)) (heights m) (payload_ids m)) v
  | ShowHeights => on_blocks (λ m, MkBlockMemory (hashes m) (ev_refresh (heights m)) (payload_ids m)) v
  | ShowPayloadIds =>
    on_blocks (λ m, MkBlockMemory (hashes m) (heights m) (ev_refresh (payload_ids m))) v
  end.

Definition apply_writes (v : View) (ws : list Write) : View := fold_left apply_write ws v.

(** Source: blockchain/src/receipt/in_memory.rs 42-49 [ReceiptMemory::extend] *)
Definition receipt_writes (rs : list ExtendedReceipt) : list Write :=
  (PutReceipt <$> rs) ++ [ShowReceipts].

(** Source: blockchain/src/transaction/in_memory.rs 37-41 [TransactionMemory::extend] *)
Definition transaction_writes (txs : list ExtendedTransaction) : list Write :=
  (PutTransaction <$> txs) ++ [ShowTransactions].

(** Source: blockchain/src/block/in_memory.rs 38-47 [BlockMemory::add] *)
Definition block_writes (b : ExtendedBlock) : list Write :=
  [PutHash b; PutHeight b; PutPayloadId b; ShowHashes; ShowHeights; ShowPayloadIds].

(** Source: app/src/command.rs 117-147 [start_block_build] *)
Definition commit_writes (b : ExtendedBlock) (txs : list OpTxEnvelope) (rs : list ExtendedReceipt)
    : list Write :=
  receipt_writes (Receipts.with_block_hash (hash b) <$> rs)
  ++ transaction_writes (extended_transactions b txs) ++ block_writes b.

Lemma apply_writes_app v ws1 ws2 : apply_writes v (ws1 ++ ws2) = apply_writes (apply_writes v ws1) ws2.
Proof. apply fold_left_app. Qed.

Lemma apply_receipt_writes v rs : apply_writes v (receipt_writes rs) = on_receipts (λ m, extend m rs) v.
Proof.
  unfold receipt_writes, apply_writes, extend, ev_extend. rewrite fold_left_app. simpl. revert v.
  induction rs as [|r rs IH]; intros v; [done|]. simpl. by rewrite IH.
Qed.

Lemma apply_transaction_writes v txs :
  apply_writes v (transaction_writes txs) = on_transactions (λ m, tx_extend m txs) v.
Proof.
  unfold transaction_writes, apply_writes, tx_extend, ev_extend. rewrite fold_left_app. simpl. revert v.
  induction txs as [|tx txs IH]; intros v; [done|]. simpl. by rewrite IH.
Qed.

(** Together the writes of a commit are the commit. *)
Lemma commit_writes_all app b txs rs :
  apply_writes (view_of app) (commit_writes b txs rs) = view_of (commit_block app b txs rs).
Proof.
  unfold commit_writes.
  by rewrite !apply_writes_app, apply_receipt_writes, apply_transaction_writes.
Qed.

(** ** The stages of a commit *)

(** The records each map shows and the records staged for it. *)
Record Logs := MkLogs {
  lg_receipts : list ExtendedReceipt * list ExtendedReceipt;
  lg_transactions : list ExtendedTransaction * list ExtendedTransaction;
  lg_hashes : list ExtendedBlock * list ExtendedBlock;
  lg_heights : list ExtendedBlock * list ExtendedBlock;
  lg_payload_ids : list ExtendedBlock * list ExtendedBlock;
}.

Record Tracks (v : View) (a : Logs) : Prop := {
  tr_receipts : Staged Receipts.transaction_hash (vw_receipts v) (lg_receipts a);
  tr_transactions : Staged et_hash (transaction_memory (vw_storage v)) (lg_transactions a);
  tr_hashes : Staged hash (hashes (block_memory (vw_storage v))) (lg_hashes a);
  tr_heights : Staged number (heights (block_memory (vw_storage v))) (lg_heights a);
  tr_payload_ids : Staged payload_id (payload_ids (block_memory (vw_storage v))) (lg_payload_ids a);
}.

Definition log_write (a : Logs) (w : Write) : Logs :=
  let '(MkLogs r t h n p) := a in
  match w with
  | PutNode _ _ => a
  | PutReceipt x => MkLogs (r.1, r.2 ++ [x]) t h n p
  | ShowReceipts => MkLogs (r.2, r.2) t h n p
  | PutTransaction x => MkLogs r (t.1, t.2 ++ [x]) h n p
  | ShowTransactions => MkLogs r (t.2, t.2) h n p
  | PutHash b => MkLogs r t (h.1, h.2 ++ [b]) n p
  | PutHeight b => MkLogs r t h (n.1, n.2 ++ [b]) p
  | PutPayloadId b => MkLogs r t h n (p.1, p.2 ++ [b])
  | ShowHashes => MkLogs r t (h.2, h.2) n p
  | ShowHeights => MkLogs r t h (n.2, n.2) p
  | ShowPayloadIds => MkLogs r t h n (p.2, p.2)
  end.

Lemma tracks_write v a w : Tracks v a → Tracks (apply_write v w) (log_write a w).
Proof.
  destruct a. intros [????]. destruct w; split; simpl in *;
    first [done | by apply (staged_put Receipts.transaction_hash) | by apply (staged_put et_hash)
      | by apply (staged_put hash) | by apply (staged_put number) | by apply (staged_put payload_id)
      | by eapply staged_show].
Qed.

Lemma tracks_writes ws v a : Tracks v a → Tracks (apply_writes v ws) (fold_left log_write ws a).
Proof. revert v a. induction ws as [|w ws IH]; intros v a Ht; [done|]. by apply IH, tracks_write. Qed.

(** The maps of an application whose history is [log]. *)
Definition logs_of (log : list Entry) : Logs :=
  let r := log ≫= en_receipts in let t := log ≫= en_txs in let b := en_block <$> log in
  MkLogs (r, r) (t, t) (b, b) (b, b) (b, b).

Lemma history_tracks app log : History app log → Tracks (view_of app) (logs_of log).
Proof. intros [(? & ? & ?) ????]. split; by apply indexed_staged. Qed.

(** The history as map number [i] shows it when [s] of the five maps show the
    block of [e] on top of [log]. *)
Definition upto (i s : nat) (log : list Entry) (e : Entry) : list Entry :=
  if decide (i < s)%nat then log ++ [e] else log.

Lemma upto_new i s log e : (i < s)%nat → upto i s log e = log ++ [e].
Proof. apply decide_True. Qed.
Lemma upto_old i s log e : (s ≤ i)%nat → upto i s log e = log.
Proof. intros. apply decide_False. lia. Qed.

Record AtStage (a : Logs) (log : list Entry) (e : Entry) (s : nat) : Prop := {
  at_receipts : (lg_receipts a).1 = upto 0 s log e ≫= en_receipts;
  at_transactions : (lg_transactions a).1 = upto 1 s log e ≫= en_txs;
  at_hashes : (lg_hashes a).1 = en_block <$> upto 2 s log e;
  at_heights : (lg_heights a).1 = en_block <$> upto 3 s log e;
  at_payload_ids : (lg_payload_ids a).1 = en_block <$> upto 4 s log e;
}.

(** How many maps a list of writes refreshes. *)
Definition is_show (w : Write) : bool :=
  match w with
  | ShowReceipts | ShowTransactions | ShowHashes | ShowHeights | ShowPayloadIds => true
  | _ => false
  end.
Definition shows (ws : list Write) : nat := sum_list ((λ w, if is_show w then 1%nat else 0%nat) <$> ws).

Lemma shows_app ws1 ws2 : shows (ws1 ++ ws2) = (shows ws1 + shows ws2)%nat.
Proof. unfold shows. by rewrite fmap_app, sum_list_with_app. Qed.

Lemma put_receipts_log rs r t h n p :
  fold_left log_write (PutReceipt <$> rs) (MkLogs r t h n p) = MkLogs (r.1, r.2 ++ rs) t h n p.
Proof.
  revert r. induction rs as [|x rs IH]; intros r; simpl.
  - by rewrite app_nil_r, <- surjective_pairing.
  - rewrite IH. simpl. by rewrite <- app_assoc.
Qed.

Lemma put_transactions_log txs r t h n p :
  fold_left log_write (PutTransaction <$> txs) (MkLogs r t h n p)
  = MkLogs r (t.1, t.2 ++ txs) h n p.
Proof.
  revert t. induction txs as [|x txs IH]; intros t; simpl.
  - by rewrite app_nil_r, <- surjective_pairing.
  - rewrite IH. simpl. by rewrite <- app_assoc.
Qed.

Lemma shows_receipts rs : shows (PutReceipt <$> rs) = 0%nat.
Proof. induction rs; [done|]. by unfold shows in *. Qed.
Lemma shows_transactions txs : shows (PutTransaction <$> txs) = 0%nat.
Proof. induction txs; [done|]. by unfold shows in *. Qed.

Ltac at_stage :=
  unfold shows; split; simpl; first [rewrite upto_new by (simpl; lia) | rewrite upto_old by (simpl; lia)];
  rewrite ?bind_snoc, ?fmap_app; done.

(** Between any two writes of a commit the first few maps show the new block,
    with its transactions and receipts, and the others do not. *)
Lemma commit_stages log b txs rs ws0 ws1 : commit_writes b txs rs = ws0 ++ ws1 →
  AtStage (fold_left log_write ws0 (logs_of log)) log (block_entry b txs rs) (shows ws0).
Proof.
  unfold commit_writes, receipt_writes, transaction_writes. rewrite <- !app_assoc. intros Heq.
  apply app_eq_inv in Heq as [(k & Hk & ->)|(k & -> & Heq)].
  { apply fmap_app_inv in Hk as (rs1 & rs2 & -> & _ & _).
    unfold logs_of. rewrite put_receipts_log, shows_receipts. at_stage. }
  rewrite fold_left_app, shows_app, shows_receipts. unfold logs_of at 1.
  rewrite put_receipts_log. destruct k as [|w k]; [at_stage|]. injection Heq as <- Heq.
  apply app_eq_inv in Heq as [(k' & Hk & ->)|(k' & -> & Heq)].
  { apply fmap_app_inv in Hk as (txs1 & txs2 & -> & _ & _). simpl.
    rewrite put_transactions_log. change (shows (ShowReceipts :: ?l)) with (S (shows l)).
    rewrite shows_transactions. at_stage. }
  simpl. rewrite fold_left_app, put_transactions_log.
  change (shows (ShowReceipts :: ?l)) with (S (shows l)). rewrite shows_app, shows_transactions.
  repeat (destruct k' as [|w k']; [at_stage|];
    injection Heq as <- Heq; simpl).
  destruct k'; [at_stage|discriminate Heq].
Qed.

(** ** The writes of a command *)

(** The nodes one commit of the state trie adds, in the order the trie library
    stores them.
    Source: state/src/lib.rs 110-118 [InMemoryState::apply] *)
Definition node_writes (nodes nodes' : Nodes) : list Write :=
  (λ '(k, v), PutNode k v) <$> node_order (nodes' ∖ nodes).

(** Each executed transaction stores its nodes before the next one runs.
    Source: app/src/command.rs 193-304 [execute_transactions] *)
Fixpoint loop_writes (l1 : option EcotoneGasFee) (l2 : MovedGasFee) (base_fee : Z)
    (block_header : HeaderForExecution) (lp : Loop) (txs : list TxWithMetadata) : list Write :=
  match txs with
  | [] => []
  | t :: txs =>
    match process_tx l1 l2 base_fee block_header lp t with
    | Done lp' =>
      node_writes (db (state (lp_app lp))) (db (state (lp_app lp')))
      ++ loop_writes l1 l2 base_fee block_header lp' txs
    | Panic => []
    end
  end.

(** Source: app/src/command.rs 34-150 [start_block_build] *)
Definition build_writes (app : Application) (attributes : Payload) (id : PayloadId) : list Write :=
  if decide (is_Some (payload_by_id (storage app) id)) then [] else
  let transactions_with_metadata := block_transactions app attributes in
  let app := set_mem_pool ∅ app in
  match
    parent ← expect (repository_latest (storage app));
    base_fee ← next_base_fee app parent;
    l1 ← block_l1_fee transactions_with_metadata;
    Done (parent, base_fee, l1)
  with
  | Panic => []
  | Done (parent, base_fee, l1) =>
    let header_for_execution := execution_header parent attributes in
    let txs := (λ t, t.2.1) <$> transactions_with_metadata in
    loop_writes l1 with_default_gas_fee_multiplier base_fee header_for_execution
      (MkLoop app 0 [] 0 bloom_zero 0 0) transactions_with_metadata
    ++ match execute_transactions app transactions_with_metadata base_fee header_for_execution with
       | Done (_, outcome, receipts) =>
         commit_writes (assemble_block parent attributes id txs base_fee header_for_execution outcome)
           txs receipts
       | Panic => []
       end
  end.

(** What a command writes to the shared stores, up to its end or its panic; the
    pool is the actor's own.
    Source: app/src/actor.rs 40-49 [CommandActor::handle_command] *)
Definition command_writes (app : Application) (msg : Command) : list Write :=
  match msg with
  | StartBlockBuild attributes id => build_writes app attributes id
  | AddTransaction _ => []
  | GenesisUpdate b => block_writes b
  end.

(** *** Writes of nodes only *)

Definition is_node (w : Write) : bool := match w with PutNode _ _ => true | _ => false end.

Lemma only_nodes_view ws v : Forall is_node ws →
  apply_writes v ws = MkView (vw_receipts v) (vw_storage v) (vw_nodes (apply_writes v ws))
  ∧ shows ws = 0%nat ∧ ∀ a, fold_left log_write ws a = a.
Proof.
  intros Hws. revert v. induction Hws as [|[k x| | | | | | | | | |] ws Hw _ IH]; intros v; try done.
  { by destruct v. }
  destruct (IH (apply_write v (PutNode k x))) as (Hv & Hs & Ha). split; [exact Hv|].
  split; [done|]. intros a. simpl. rewrite Ha. by destruct a.
Qed.

Lemma node_writes_only nodes nodes' : Forall is_node (node_writes nodes nodes').
Proof. apply Forall_fmap, Forall_true. by intros []. Qed.

Lemma loop_writes_only l1 l2 base_fee hx txs lp : Forall is_node (loop_writes l1 l2 base_fee hx lp txs).
Proof.
  revert lp. induction txs as [|t txs IH]; intros lp; [done|]. simpl.
  destruct (process_tx _ _ _ _ _ _); [|done]. apply Forall_app. split; [apply node_writes_only|done].
Qed.

Context (node_order_law : ∀ nodes, node_order nodes ≡ₚ map_to_list nodes).

Lemma put_nodes_view l v :
  vw_nodes (apply_writes v ((λ '(k, x), PutNode k x) <$> l)) = insert_all l (vw_nodes v).
Proof. revert v. induction l as [|[k x] l IH]; intros v; [done|]. simpl. by rewrite IH. Qed.

Lemma node_writes_stages nodes nodes' v ws0 ws1 : nodes ⊆ nodes' → vw_nodes v = nodes →
  node_writes nodes nodes' = ws0 ++ ws1 →
  nodes ⊆ vw_nodes (apply_writes v ws0)
  ∧ (ws1 = [] → vw_nodes (apply_writes v ws0) = nodes').
Proof.
  intros Hsub Hv Hw. apply fmap_app_inv in Hw as (k1 & k2 & -> & -> & Hk).
  rewrite put_nodes_view, Hv. split.
  - assert (Forall (λ kv, nodes' !! kv.1 = Some kv.2) (k1 ++ k2)) as [Hf _]%Forall_app.
    { rewrite <- Hk. apply Forall_forall. intros [k x] Hin. rewrite (node_order_law _) in Hin.
      apply elem_of_map_to_list in Hin. by apply lookup_difference_Some in Hin as [? _]. }
    by apply (insert_all_between k1 nodes nodes' Hsub Hf).
  - intros ->%fmap_nil_inv. rewrite app_nil_r in Hk. apply insert_all_difference; [done|].
    by rewrite <- Hk.
Qed.

(** The nodes of the state a command starts from stay while it executes; once
    all its transactions ran, the nodes are those of the state it reaches. *)
Lemma loop_writes_stages l1 l2 base_fee hx txs lp v ws0 ws1 : NoNodeCollision →
  open_state (state (lp_app lp)) → vw_nodes v = db (state (lp_app lp)) →
  loop_writes l1 l2 base_fee hx lp txs = ws0 ++ ws1 →
  db (state (lp_app lp)) ⊆ vw_nodes (apply_writes v ws0)
  ∧ ∀ lp', process_txs l1 l2 base_fee hx lp txs = Done lp' → ws1 = [] →
      vw_nodes (apply_writes v ws0) = db (state (lp_app lp')).
Proof.
  intros Hc. revert lp v ws0. induction txs as [|t txs IH]; intros lp v ws0 Ho Hv Hw; simpl in Hw.
  { symmetry in Hw. apply app_nil in Hw as [-> ->]. simpl. rewrite Hv. split; [done|].
    by intros lp' [= ->]. }
  simpl. destruct (process_tx _ _ _ _ lp t) as [lp1|] eqn:Ht.
  2: { symmetry in Hw. apply app_nil in Hw as [-> ->]. simpl. rewrite Hv. done. }
  destruct (process_tx_later _ _ _ _ _ _ _ Hc Ht Ho) as [Hsub Ho1].
  assert (∀ ws0 ws1, node_writes (db (state (lp_app lp))) (db (state (lp_app lp1))) = ws0 ++ ws1 →
    db (state (lp_app lp)) ⊆ vw_nodes (apply_writes v ws0)
    ∧ (ws1 = [] → vw_nodes (apply_writes v ws0) = db (state (lp_app lp1)))) as Hn.
  { intros k0 k1. by apply node_writes_stages. }
  apply app_eq_inv in Hw as [(k & Hk & ->)|(k & -> & Hw)].
  - destruct (Hn ws0 k Hk) as [Hle Hend]. split; [done|]. intros lp' Hp [-> Hl]%app_nil.
    destruct (IH lp1 (apply_writes v ws0) [] Ho1) as [_ Hfin]; [by apply Hend|by rewrite Hl|].
    by apply Hfin.
  - destruct (Hn _ [] (eq_sym (app_nil_r _))) as [_ Hend]. rewrite apply_writes_app.
    destruct (IH lp1 _ k Ho1 (Hend eq_refl) Hw) as [Hle Hfin]. split; [by etrans|done].
Qed.

(** *** What a command does for the readers *)

Definition grows (app : Application) (ws : list Write) : Prop :=
  ∀ ws0 ws1, ws = ws0 ++ ws1 → db (state app) ⊆ vw_nodes (apply_writes (view_of app) ws0).

(** The command [msg] shows no new block. *)
Record Silent (app : Application) (log : list Entry) (e : Entry) (msg : Command) : Prop := {
  sil_nodes : Forall is_node (command_writes app msg);
  sil_grows : grows app (command_writes app msg);
  sil_done app' : handle_command app msg = Done app' →
    History app' (log ++ [e]) ∧ StatesKept app' log e
    ∧ apply_writes (view_of app) (command_writes app msg) = view_of app';
}.

(** The command [msg] stores the nodes of the state of [e'], then commits [e']
    on the history [log ++ [e]]. *)
Record Commits (app : Application) (log : list Entry) (e : Entry) (msg : Command) (e' : Entry)
    : Prop := {
  com_writes : ∃ nodes b txs rs app',
    command_writes app msg = nodes ++ commit_writes b txs rs ∧ e' = block_entry b txs rs
    ∧ Forall is_node nodes ∧ grows app nodes
    ∧ vw_nodes (apply_writes (view_of app) nodes) = db (state app')
    ∧ handle_command app msg = Done app'
    ∧ History app' ((log ++ [e]) ++ [e']) ∧ StatesKept app' (log ++ [e]) e'
    ∧ apply_writes (view_of app) (command_writes app msg) = view_of app';
}.

Lemma silent_empty app log e msg : History app (log ++ [e]) → StatesKept app log e →
  command_writes app msg = [] →
  (∀ app', handle_command app msg = Done app' →
     receipt_memory app' = receipt_memory app ∧ storage app' = storage app ∧ state app' = state app) →
  Silent app log e msg.
Proof.
  intros Hh Hk Hw Hd. split; rewrite ?Hw; [done| |].
  - intros ws0 ws1 Heq. symmetry in Heq. by apply app_nil in Heq as [-> ->].
  - intros app' (Hr & Hs & Hst)%Hd. split; [|split].
    + destruct Hh as [????]. split; by rewrite ?Hr, ?Hs.
    + unfold StatesKept in *. by rewrite Hst.
    + unfold view_of. simpl. by rewrite Hr, Hs, Hst.
Qed.

Lemma silent_panic app log e msg ws : command_writes app msg = ws → Forall is_node ws →
  grows app ws → (∀ app', handle_command app msg ≠ Done app') → Silent app log e msg.
Proof. intros <- Hn Hgr Hno. split; [done..|]. by intros app' ?%Hno. Qed.

(** A build that ends executed its transactions on the head of the history. *)
Lemma build_inv app log e attributes id app' : History app (log ++ [e]) →
  Z.of_nat (length (log ++ [e])) < 2 ^ 64 → payload_by_id (storage app) id = None →
  start_block_build app attributes id = Done app' →
  let hx := execution_header (en_block e) attributes in
  let txs := (λ t, t.2.1) <$> block_transactions app attributes in
  ∃ base_fee appx o rs, next_base_fee app (en_block e) = Done base_fee
    ∧ execute_transactions (set_mem_pool ∅ app) (block_transactions app attributes) base_fee hx
        = Done (appx, o, rs)
    ∧ app' = commit_block appx (assemble_block (en_block e) attributes id txs base_fee hx o) txs rs.
Proof.
  intros Hh Hlen Hid Hb. destruct (start_block_build_inv _ _ _ _ Hid Hb)
    as (parent & bf & appx & o & rs & txs & hx & b & -> & -> & -> & Hpar & Hbf & Hex & ->).
  rewrite (history_latest _ _ _ Hh Hlen) in Hpar. injection Hpar as <-. by exists bf, appx, o, rs.
Qed.

Lemma execute_loop app txs base_fee hx appx o rs l1 : block_l1_fee txs = Done l1 →
  execute_transactions app txs base_fee hx = Done (appx, o, rs) →
  ∃ lp, process_txs l1 with_default_gas_fee_multiplier base_fee hx
          (MkLoop app 0 [] 0 bloom_zero 0 0) txs = Done lp ∧ lp_app lp = appx.
Proof.
  intros Hl He. unfold execute_transactions in He. rewrite Hl in He. simpl in He.
  apply bind_Done in He as (lp & Hp & He). apply bind_Done in He as (_ & _ & He).
  injection He as <- <- <-. by exists lp.
Qed.

(** A build whose payload id is new, on the head [e] of the history. *)
Section NewBuild.
Context (app : Application) (log : list Entry) (e : Entry) (attributes : Payload) (id : PayloadId).
Context (collision : NoNodeCollision) (gas : GasTyped) (hist : History app (log ++ [e])).
Context (bound : Z.of_nat (length (log ++ [e])) < 2 ^ 64) (kept : StatesKept app log e).
Context (fresh : payload_by_id (storage app) id = None).

Abbreviation build := (StartBlockBuild attributes id).
Abbreviation hx := (execution_header (en_block e) attributes).
Abbreviation ts := (block_transactions app attributes).
Abbreviation txs := ((λ t, t.2.1) <$> ts).
Abbreviation exec_writes l1 bf :=
  (loop_writes l1 with_default_gas_fee_multiplier bf hx (MkLoop (set_mem_pool ∅ app) 0 [] 0 bloom_zero 0 0) ts).

Lemma new_build_writes : build_writes app attributes id =
  match next_base_fee app (en_block e), block_l1_fee ts with
  | Done bf, Done l1 => exec_writes l1 bf
      ++ match execute_transactions (set_mem_pool ∅ app) ts bf hx with
         | Done (_, o, rs) => commit_writes (assemble_block (en_block e) attributes id txs bf hx o) txs rs
         | Panic => []
         end
  | _, _ => []
  end.
Proof.
  unfold build_writes. rewrite decide_False by (rewrite fresh; by intros [? ?]).
  simpl. rewrite (history_latest _ _ _ hist bound). simpl.
  change (next_base_fee (set_mem_pool ∅ app)) with (next_base_fee app).
  destruct (next_base_fee app (en_block e)) as [bf|]; [|done]. simpl. by destruct (block_l1_fee ts).
Qed.

Lemma exec_writes_grow l1 bf : grows app (exec_writes l1 bf).
Proof.
  intros ws0 ws1 Hws. apply (loop_writes_stages _ _ _ _ _ _ (view_of app) ws0 ws1 collision) in Hws;
    [apply Hws| |done]. by apply (states_kept_open _ log e).
Qed.

Lemma exec_writes_all l1 bf appx o rs : block_l1_fee ts = Done l1 →
  execute_transactions (set_mem_pool ∅ app) ts bf hx = Done (appx, o, rs) →
  apply_writes (view_of app) (exec_writes l1 bf) = view_of appx.
Proof.
  intros Hl1 Hex. destruct (execute_loop _ _ _ _ _ _ _ _ Hl1 Hex) as (lp & Hlp & <-).
  assert CallbackLaws as Hcb by by split.
  destruct (execute_transactions_stores _ _ _ _ _ _ _ Hex) as ((_ & _ & Hr & Hs) & _).
  destruct (only_nodes_view (exec_writes l1 bf) (view_of app)) as [-> _]; [apply loop_writes_only|].
  destruct (loop_writes_stages l1 with_default_gas_fee_multiplier bf hx ts
    (MkLoop (set_mem_pool ∅ app) 0 [] 0 bloom_zero 0 0) (view_of app) (exec_writes l1 bf) []
    collision) as [_ Hend]; [by apply (states_kept_open _ log e)|done|by rewrite app_nil_r|].
  rewrite (Hend lp Hlp eq_refl). unfold view_of. simpl. by rewrite Hr, Hs.
Qed.

Lemma new_build_commits bf l1 appx o rs : next_base_fee app (en_block e) = Done bf →
  block_l1_fee ts = Done l1 →
  execute_transactions (set_mem_pool ∅ app) ts bf hx = Done (appx, o, rs) →
  Commits app log e build (block_entry (assemble_block (en_block e) attributes id txs bf hx o) txs rs).
Proof.
  intros Hbf Hl1 Hex. pose proof new_build_writes as Hw. rewrite Hbf, Hl1, Hex in Hw.
  assert (∃ app', start_block_build app attributes id = Done app') as [app' Hb].
  { unfold start_block_build. rewrite decide_False by (rewrite fresh; by intros [? ?]).
    simpl. rewrite (history_latest _ _ _ hist bound). simpl.
    change (next_base_fee (set_mem_pool ∅ app)) with (next_base_fee app). rewrite Hbf. simpl.
    rewrite Hex. by eexists. }
  destruct (build_inv app log e attributes id app' hist bound fresh Hb)
    as (bf' & appx' & o' & rs' & Hbf' & Hex' & Happ).
  rewrite Hbf in Hbf'. injection Hbf' as <-. rewrite Hex in Hex'. injection Hex' as <- <- <-.
  destruct (new_build_keeps_states app log e attributes id app')
    as (_ & e' & Hh' & Hk' & appx' & (bf' & o' & rs' & Hbf' & Hex' & ->) & Hdb); try done.
  rewrite Hbf in Hbf'. injection Hbf' as <-. rewrite Hex in Hex'. injection Hex' as <- <- <-.
  pose proof (exec_writes_all l1 bf appx o rs Hl1 Hex) as Hview.
  split. exists (exec_writes l1 bf). do 3 eexists. exists app'.
  split; [exact Hw|]. split; [done|]. split; [apply loop_writes_only|].
  split; [apply exec_writes_grow|]. split; [by rewrite Hview, Hdb|].
  split; [exact Hb|]. split; [exact Hh'|]. split; [exact Hk'|].
  change (command_writes app build) with (build_writes app attributes id).
  rewrite Hw, apply_writes_app, Hview, commit_writes_all. by rewrite Happ.
Qed.

Lemma new_build_plan : Silent app log e build ∨ ∃ e', Commits app log e build e'.
Proof.
  pose proof new_build_writes as Hw.
  pose proof (λ app', build_inv app log e attributes id app' hist bound fresh) as Hinv.
  assert (grows app []) as Hnil.
  { intros ws0 ws1 Heq. symmetry in Heq. by apply app_nil in Heq as [-> _]. }
  destruct (next_base_fee app (en_block e)) as [bf|] eqn:Hbf.
  2: { left. apply (silent_panic app log e build [] Hw); [done..|].
    intros app' Hb. by destruct (Hinv app' Hb) as (? & ? & ? & ? & ? & _). }
  destruct (block_l1_fee ts) as [l1|] eqn:Hl1.
  2: { left. apply (silent_panic app log e build [] Hw); [done..|].
    intros app' Hb. destruct (Hinv app' Hb) as (? & ? & ? & ? & _ & Hex & _).
    unfold execute_transactions in Hex. by rewrite Hl1 in Hex. }
  destruct (execute_transactions _ ts bf hx) as [[[appx o] rs]|] eqn:Hex.
  - right. eexists. by eapply new_build_commits.
  - left. rewrite app_nil_r in Hw.
    apply (silent_panic app log e build _ Hw); [apply loop_writes_only|apply exec_writes_grow|].
    intros app' Hb. destruct (Hinv app' Hb) as (bf' & ? & ? & ? & [= <-] & Hex' & _).
    by rewrite Hex in Hex'.
Qed.

End NewBuild.

Lemma build_plan app log e attributes id : NoNodeCollision → GasTyped →
  History app (log ++ [e]) → Z.of_nat (length (log ++ [e])) < 2 ^ 64 → StatesKept app log e →
  let msg := StartBlockBuild attributes id in
  Silent app log e msg ∨ ∃ e', Commits app log e msg e'.
Proof.
  intros Hc Hg Hh Hlen Hk msg. destruct (payload_by_id (storage app) id) as [p|] eqn:Hid;
    [|by apply new_build_plan].
  left. apply silent_empty; [done..| |]; simpl.
  - unfold build_writes. by rewrite decide_True by (rewrite Hid; eauto).
  - intros app'. unfold start_block_build. rewrite decide_True by (rewrite Hid; eauto).
    by intros [= <-].
Qed.

Lemma command_plan app log e msg : NoNodeCollision → GasTyped → is_genesis_update msg = false →
  History app (log ++ [e]) → Z.of_nat (length (log ++ [e])) < 2 ^ 64 → StatesKept app log e →
  Silent app log e msg ∨ ∃ e', Commits app log e msg e'.
Proof.
  intros Hc Hg Hm Hh Hlen Hk. destruct msg as [attributes id|tx|b]; [by apply build_plan| |done].
  left. apply silent_empty; [done..|]. intros app' (op & _ & Ha)%bind_Done. by injection Ha as <-.
Qed.

(** ** Runs *)

(** The actor between or in the middle of commands: the application the command
    in progress started from, the writes it has left, and what readers find now. *)
Record Run := MkRun {
  rn_app : Application;
  rn_doing : option (Command * list Write);
  rn_view : View;
}.

(** The actor takes a command, performs its next write, or ends it; readers may
    look between any two steps. *)
Inductive run_step : Run → Run → Prop :=
| run_take app msg v : is_genesis_update msg = false →
    run_step (MkRun app None v) (MkRun app (Some (msg, command_writes app msg)) v)
| run_write app msg w ws v :
    run_step (MkRun app (Some (msg, w :: ws)) v) (MkRun app (Some (msg, ws)) (apply_write v w))
| run_end app msg app' v : handle_command app msg = Done app' →
    run_step (MkRun app (Some (msg, [])) v) (MkRun app' None v).

Definition idle (app : Application) : Run := MkRun app None (view_of app).

(** A point of a run: the history, the block that is or was being committed on
    it, and how many of the five maps show that block. *)
Definition Point : Type := list Entry * Entry * nat.

Definition earlier (p q : Point) : Prop :=
  let '(log, e, s) := p in let '(log', e', s') := q in
  (log' = log ∧ e' = e ∧ (s ≤ s')%nat) ∨ (log ++ [e]) `prefix_of` log'.

#[local] Instance earlier_preorder : PreOrder earlier.
Proof.
  split; [intros [[log e] s]; by left|]. intros [[l1 e1] s1] [[l2 e2] s2] [[l3 e3] s3]. unfold earlier.
  intros [(-> & -> & H12)|H12] [(-> & -> & H23)|H23].
  - left. split_and!; [done|done|lia].
  - by right.
  - by right.
  - right. etrans; [exact H12|]. etrans; [|exact H23]. by apply prefix_app_r.
Qed.

(** What a map shows, every map before it shows too, then and later. *)
Lemma earlier_upto log e s log' e' s' i j : earlier (log, e, s) (log', e', s') → (j ≤ i)%nat →
  upto i s log e `prefix_of` upto j s' log' e'.
Proof.
  intros [(-> & -> & Hs)|Hpre] Hij; unfold upto.
  - repeat case_decide; try lia; [done| |done]. by apply prefix_app_r.
  - transitivity log'.
    + case_decide; [done|]. etrans; [|exact Hpre]. by apply prefix_app_r.
    + case_decide; [|done]. by apply prefix_app_r.
Qed.

Lemma earlier_extends log e s log' e' s' : earlier (log, e, s) (log', e', s') →
  (log ++ [e]) `prefix_of` (log' ++ [e']).
Proof.
  intros [(-> & -> & _)|Hpre]; [done|]. etrans; [exact Hpre|]. by apply prefix_app_r.
Qed.

Definition run_point (r : Run) (p : Point) : Prop :=
  let '(log, e, s) := p in
  match rn_doing r with
  | None => History (rn_app r) (log ++ [e]) ∧ StatesKept (rn_app r) log e
      ∧ rn_view r = view_of (rn_app r) ∧ s = 5%nat
  | Some (msg, ws1) => ∃ ws0 log0 e0,
      History (rn_app r) (log0 ++ [e0]) ∧ StatesKept (rn_app r) log0 e0
      ∧ command_writes (rn_app r) msg = ws0 ++ ws1
      ∧ rn_view r = apply_writes (view_of (rn_app r)) ws0
      ∧ (Silent (rn_app r) log0 e0 msg ∧ p = (log0, e0, 5%nat)
         ∨ Commits (rn_app r) log0 e0 msg e ∧ log = log0 ++ [e0] ∧ s = shows ws0)
  end.

Definition point_length (p : Point) : nat := let '(log, e, _) := p in length (log ++ [e]).

Lemma run_step_point r p r' : NoNodeCollision → GasTyped →
  Z.of_nat (point_length p) < 2 ^ 64 → run_point r p → run_step r r' →
  ∃ p', run_point r' p' ∧ earlier p p' ∧ (point_length p' ≤ S (point_length p))%nat.
Proof.
  intros Hc Hg Hlen Hp Hs. destruct p as [[log e] s]. destruct Hs as [app msg v Hm|app msg w ws v|app msg app' v Hd];
    simpl in Hp.
  - destruct Hp as (Hh & Hk & -> & ->).
    destruct (command_plan app log e msg Hc Hg Hm Hh Hlen Hk) as [Hsil|[e' Hcom]].
    + exists (log, e, 5%nat). split; [|split; [done|lia]]. simpl. exists [], log, e.
      split_and!; [done..|]. by left.
    + exists (log ++ [e], e', 0%nat). split; [|split; [by right|simpl; rewrite !length_app; simpl; lia]].
      simpl. exists [], log, e. split_and!; [done..|]. by right.
  - destruct Hp as (ws0 & log0 & e0 & Hh & Hk & Hw & -> & Hcase).
    assert (apply_write (apply_writes (view_of app) ws0) w = apply_writes (view_of app) (ws0 ++ [w])) as Hv
      by by rewrite apply_writes_app.
    assert (command_writes app msg = (ws0 ++ [w]) ++ ws) as Hw' by by rewrite Hw, <- app_assoc.
    destruct Hcase as [[Hsil [= -> -> ->]]|(Hcom & -> & ->)].
    + exists (log0, e0, 5%nat). split; [|split; [done|lia]]. exists (ws0 ++ [w]), log0, e0.
      split_and!; [done..|]. by left.
    + exists (log0 ++ [e0], e, shows (ws0 ++ [w])). split; [|split; [left|simpl; lia]].
      * exists (ws0 ++ [w]), log0, e0. split_and!; [done..|]. by right.
      * split_and!; [done|done|]. rewrite shows_app. lia.
  - destruct Hp as (ws0 & log0 & e0 & Hh & Hk & Hw & -> & Hcase). rewrite app_nil_r in Hw. subst ws0.
    destruct Hcase as [[Hsil [= -> -> ->]]|(Hcom & -> & ->)].
    + destruct (sil_done _ _ _ _ Hsil app' Hd) as (Hh' & Hk' & ->).
      exists (log0, e0, 5%nat). split; [|split; [done|lia]]. done.
    + destruct Hcom as [(nodes & b & txs & rs & app1 & Hw & -> & Hn & _ & _ & Hd1 & Hh' & Hk' & Hv)].
      rewrite Hd in Hd1. injection Hd1 as <-.
      exists (log0 ++ [e0], block_entry b txs rs, 5%nat). split; [done|]. split; [|simpl; lia].
      left. split_and!; [done|done|]. rewrite Hw, shows_app. unfold commit_writes, receipt_writes, transaction_writes.
      rewrite !shows_app, shows_receipts, shows_transactions. simpl.
      destruct (only_nodes_view nodes (view_of app) Hn) as (_ & -> & _). unfold shows. simpl. lia.
Qed.

Lemma run_points n r p r' : NoNodeCollision → GasTyped →
  Z.of_nat (point_length p + n) < 2 ^ 64 → run_point r p → nsteps run_step n r r' →
  ∃ p', run_point r' p' ∧ earlier p p' ∧ (point_length p' ≤ point_length p + n)%nat.
Proof.
  intros Hc Hg. revert r p. induction n as [|n IH]; intros r p Hlen Hp Hs; inversion Hs as [|? ? y ? Hy Hr]; subst.
  { exists p. split; [done|]. split; [done|lia]. }
  destruct (run_step_point r p y Hc Hg) as (p1 & Hp1 & He1 & Hl1); [lia|done|done|].
  destruct (IH y p1) as (p' & Hp' & He' & Hl'); [lia|done|done|].
  exists p'. split; [done|]. split; [by etrans|lia].
Qed.

(** ** What a reader finds at a point *)

Record Moment (v : View) (p : Point) : Prop := {
  mo_receipts : Shown Receipts.transaction_hash (vw_receipts v) (upto 0 p.2 p.1.1 p.1.2 ≫= en_receipts);
  mo_transactions :
    Shown et_hash (transaction_memory (vw_storage v)) (upto 1 p.2 p.1.1 p.1.2 ≫= en_txs);
  mo_hashes : Shown hash (hashes (block_memory (vw_storage v))) (en_block <$> upto 2 p.2 p.1.1 p.1.2);
  mo_heights :
    Shown number (heights (block_memory (vw_storage v))) (en_block <$> upto 3 p.2 p.1.1 p.1.2);
  mo_payload_ids :
    Shown payload_id (payload_ids (block_memory (vw_storage v))) (en_block <$> upto 4 p.2 p.1.1 p.1.2);
  mo_wf : Forall entry_wf (p.1.1 ++ [p.1.2]);
  mo_linked : Linked (en_block <$> (p.1.1 ++ [p.1.2]));
  mo_roots x : x ∈ upto 0 p.2 p.1.1 p.1.2 → opens_at (vw_nodes v) (block_root x);
}.

Lemma moment_intro v a log e s : Tracks v a → AtStage a log e s → Forall entry_wf (log ++ [e]) →
  Linked (en_block <$> (log ++ [e])) →
  (∀ x, x ∈ upto 0 s log e → opens_at (vw_nodes v) (block_root x)) → Moment v (log, e, s).
Proof.
  intros [[Hr _] [Ht _] [Hh _] [Hn _] [Hp _]] [Er Et Eh En Ep] Hw Hl Ho.
  rewrite Er in Hr. rewrite Et in Ht. rewrite Eh in Hh. rewrite En in Hn. rewrite Ep in Hp. by split.
Qed.

(** The maps of a history with its last block show all of it, whichever block is
    called the last. *)
Lemma all_shown log e : AtStage (logs_of (log ++ [e])) log e 5.
Proof. split; by rewrite upto_new by lia. Qed.
Lemma none_shown log e : AtStage (logs_of log) log e 0.
Proof. split; by rewrite upto_old by lia. Qed.

Lemma only_nodes_tracks ws v a : Forall is_node ws → Tracks v a → Tracks (apply_writes v ws) a.
Proof.
  intros Hws Ht. destruct (only_nodes_view ws v Hws) as (_ & _ & Ha).
  rewrite <- (Ha a). by apply tracks_writes.
Qed.

(** The writes of a commit leave the nodes alone. *)
Lemma no_node_writes ws v : Forall (λ w, ¬ is_node w) ws → vw_nodes (apply_writes v ws) = vw_nodes v.
Proof.
  intros Hws. revert v. induction Hws as [|w ws Hw _ IH]; intros v; [done|]. simpl. rewrite IH.
  by destruct w.
Qed.

Lemma commit_writes_no_node b txs rs : Forall (λ w, ¬ is_node w) (commit_writes b txs rs).
Proof.
  unfold commit_writes, receipt_writes, transaction_writes. repeat (apply Forall_app; split).
  all: first [by apply Forall_fmap, Forall_true; intros ?? | repeat constructor; by intros []].
Qed.

Lemma opens_all app log e nodes : StatesKept app log e → db (state app) ⊆ nodes →
  ∀ x, x ∈ log ++ [e] → opens_at nodes (block_root x).
Proof. intros (_ & _ & Hk) Hsub x Hx. eapply opens_at_mono; [exact Hsub|]. by apply Hk. Qed.

Lemma point_moment r p : run_point r p → Moment (rn_view r) p.
Proof.
  destruct p as [[log e] s]. unfold run_point. destruct (rn_doing r) as [[msg ws1]|].
  2: { intros (Hh & Hk & -> & ->). eapply moment_intro;
         [by apply history_tracks|apply all_shown|apply Hh|apply Hh|]. rewrite upto_new by lia.
       by eapply opens_all. }
  intros (ws0 & log0 & e0 & Hh & Hk & Hw & -> & [[Hsil [= -> -> ->]]|(Hcom & -> & ->)]).
  - pose proof (sil_nodes _ _ _ _ Hsil) as Hn. rewrite Hw in Hn. apply Forall_app in Hn as [Hn _].
    eapply moment_intro; [by apply only_nodes_tracks, history_tracks|apply all_shown|apply Hh|apply Hh|].
    rewrite upto_new by lia. eapply opens_all; [done|]. by eapply (sil_grows _ _ _ _ Hsil).
  - destruct Hcom as [(nodes & b & txs & rs & app' & Hc & -> & Hn & Hg & Hend & _ & Hh' & Hk' & _)].
    rewrite Hc in Hw. apply app_eq_inv in Hw as [(k & -> & _)|(k & -> & Hk0)].
    + apply Forall_app in Hn as [Hn _]. destruct (only_nodes_view ws0 (view_of (rn_app r)) Hn) as (_ & -> & _).
      eapply moment_intro;
        [by apply only_nodes_tracks, history_tracks|apply none_shown|apply Hh'|apply Hh'|].
      rewrite upto_old by lia. eapply opens_all; [done|]. by eapply Hg.
    + rewrite shows_app. destruct (only_nodes_view nodes (view_of (rn_app r)) Hn) as (_ & -> & _).
      rewrite apply_writes_app. simpl. eapply moment_intro;
        [by apply tracks_writes, only_nodes_tracks, history_tracks|by eapply commit_stages
        |apply Hh'|apply Hh'|].
      pose proof (commit_writes_no_node b txs rs) as Hno. rewrite Hk0 in Hno.
      apply Forall_app in Hno as [Hno _]. rewrite no_node_writes by done. rewrite Hend.
      intros x Hx. eapply (opens_all _ _ _ _ Hk'); [done|]. unfold upto in Hx.
      case_decide; [done|]. apply elem_of_app. by left.
Qed.

(** The history the actor's stores will hold once its command in progress ends. *)
Definition chain_of (r : Run) (chain : list Entry) : Prop :=
  match rn_doing r with
  | None => History (rn_app r) chain
  | Some (msg, _) =>
    match handle_command (rn_app r) msg with
    | Done app' => History app' chain
    | Panic => History (rn_app r) chain
    end
  end.

Lemma point_chain r log e s : run_point r (log, e, s) → chain_of r (log ++ [e]).
Proof.
  unfold run_point, chain_of. destruct (rn_doing r) as [[msg ws]|]; [|by intros [? _]].
  intros (ws0 & log0 & e0 & Hh & _ & _ & _ & [[Hsil [= -> -> ->]]|(Hcom & -> & ->)]).
  - destruct (handle_command (rn_app r) msg) as [app'|] eqn:Hd; [|done].
    by apply (sil_done _ _ _ _ Hsil app' Hd).
  - destruct Hcom as [(nodes & b & txs & rs & app' & _ & _ & _ & _ & _ & -> & Hh' & _)]. done.
Qed.

Lemma idle_point app log e : History app (log ++ [e]) → StatesKept app log e →
  run_point (idle app) (log, e, 5%nat).
Proof. done. Qed.

Lemma linked_prefix l l' : Linked l' → l `prefix_of` l' → Linked l.
Proof.
  intros [Hn Hp] Hpre. split.
  - intros i b Hi. apply Hn. by eapply prefix_lookup_Some.
  - intros i b c Hi Hj. eapply Hp; by eapply prefix_lookup_Some.
Qed.

Lemma tx_by_hashes_found m l hs : Shown et_hash m l → (∀ h, h ∈ hs → h ∈ et_hash <$> l) →
  et_hash <$> tx_by_hashes m hs = hs.
Proof.
  intros Hs. unfold tx_by_hashes. induction hs as [|h hs IH]; intros Hin; [done|]. simpl.
  assert (h ∈ et_hash <$> l) as (tx & -> & Htx)%list_elem_of_fmap by (apply Hin; by left). unfold tx_by_hash at 1.
  destruct (ev_get_one m (et_hash tx)) as [tx'|] eqn:Hg.
  - destruct (Shown_get_one et_hash _ _ _ _ Hs Hg) as [_ Hh]. simpl. f_equal; [done|].
    apply IH. intros h Hh'. apply Hin. by right.
  - exfalso. by eapply (Shown_get_one_None et_hash _ _ _ Hs).
Qed.

(** The blocks a reader can come across. *)
Definition visible (mem : SharedMemory) (b : ExtendedBlock) : Prop :=
  (∃ k, by_hash (block_memory mem) k = Some b) ∨ (∃ k, by_height (block_memory mem) k = Some b)
  ∨ ∃ k, by_payload_id (block_memory mem) k = Some b.

Lemma by_height_Some self l k b : Shown number (heights self) l → by_height self k = Some b →
  b ∈ l ∧ number b = k.
Proof.
  intros Hs. unfold by_height, map_by_height. intros Hb.
  destruct (ev_get_one (heights self) k) as [x|] eqn:Hg; [|done]. injection Hb as ->.
  by apply (Shown_get_one number _ _ _ _ Hs) in Hg.
Qed.

Lemma upto_anti i j s log e : (j ≤ i)%nat → upto i s log e `prefix_of` upto j s log e.
Proof. intros Hij. unfold upto. repeat case_decide; try lia; try done. by apply prefix_app_r. Qed.

(** A block that some index shows is shown by the index of hashes. *)
Lemma visible_shown v log e s b : Moment v (log, e, s) → visible (vw_storage v) b →
  ∃ x, en_block x = b ∧ x ∈ upto 2 s log e.
Proof.
  intros Hm Hb.
  assert (∃ i, 2 ≤ i ∧ b ∈ en_block <$> upto i s log e)%nat as (i & Hi & Hin).
  { destruct Hb as [[k Hk]|[[k Hk]|[k Hk]]].
    - exists 2%nat. split; [lia|]. by apply (Shown_get_one hash _ _ _ _ (mo_hashes _ _ Hm)) in Hk as [? _].
    - exists 3%nat. split; [lia|]. by apply (by_height_Some _ _ _ _ (mo_heights _ _ Hm)) in Hk as [? _].
    - exists 4%nat. split; [lia|].
      by apply (Shown_get_one payload_id _ _ _ _ (mo_payload_ids _ _ Hm)) in Hk as [? _]. }
  apply list_elem_of_fmap in Hin as (x & -> & Hx). exists x. split; [done|].
  by eapply elem_of_prefix; [|apply upto_anti].
Qed.

(** What a block visible at a moment comes with at every later one. *)
Lemma visible_complete v1 v2 p1 log2 e2 s2 b : Moment v1 p1 → Moment v2 (log2, e2, s2) →
  earlier p1 (log2, e2, s2) → visible (vw_storage v1) b →
  is_Some (by_hash (block_memory (vw_storage v2)) (hash b))
  ∧ et_hash <$> tx_by_hashes (transaction_memory (vw_storage v2)) (transaction_hashes b)
      = transaction_hashes b
  ∧ opens_at (vw_nodes v2) (h_state_root (header (block b)))
  ∧ ∃ x, x ∈ log2 ++ [e2] ∧ en_block x = b
      ∧ ∀ r, r ∈ en_receipts x → contains (vw_receipts v2) (Receipts.transaction_hash r) = true.
Proof.
  destruct p1 as [[log1 e1] s1]. intros Hm1 Hm2 He Hb.
  destruct (visible_shown _ _ _ _ _ Hm1 Hb) as (x & <- & Hx).
  assert (∀ j, (j ≤ 2)%nat → x ∈ upto j s2 log2 e2) as Hup.
  { intros j Hj. eapply elem_of_prefix; [exact Hx|]. by eapply earlier_upto. }
  assert (x ∈ log2 ++ [e2]) as Hin.
  { pose proof (Hup 2%nat ltac:(lia)) as H2'. unfold upto in H2'. case_decide; [done|].
    apply elem_of_app. by left. }
  pose proof (mo_wf _ _ Hm2) as Hw. rewrite Forall_forall in Hw. specialize (Hw x Hin).
  split_and!.
  - destruct (by_hash _ _) as [b'|] eqn:Hg; [by eexists|]. exfalso.
    eapply (Shown_get_one_None hash _ _ _ (mo_hashes _ _ Hm2)); [exact Hg| |done].
    apply list_elem_of_fmap_2. by apply Hup.
  - eapply tx_by_hashes_found; [apply (mo_transactions _ _ Hm2)|]. intros h Hh.
    rewrite (wf_hashes _ Hw) in Hh. apply list_elem_of_fmap in Hh as (tx & -> & Htx).
    apply list_elem_of_fmap_2, list_elem_of_bind. exists x. split; [done|]. apply Hup. lia.
  - apply (mo_roots _ _ Hm2 x). apply Hup. lia.
  - exists x. split; [done|]. split; [done|]. intros r Hr. unfold contains.
    apply (Shown_contains Receipts.transaction_hash _ _ _ (mo_receipts _ _ Hm2)).
    exists r. split; [|done]. apply list_elem_of_bind. exists x. split; [done|]. apply Hup. lia.
Qed.

(** A block shown by height or payload id is shown by height from then on. *)
Lemma shown_by_height v1 v2 log1 e1 s1 log2 e2 s2 b :
  Moment v1 (log1, e1, s1) → Moment v2 (log2, e2, s2) → earlier (log1, e1, s1) (log2, e2, s2) →
  b ∈ en_block <$> upto 3 s1 log1 e1 →
  by_height (block_memory (vw_storage v2)) (number b) = Some b.
Proof.
  intros Hm1 Hm2 He (x & -> & Hx)%list_elem_of_fmap.
  assert (x ∈ upto 3 s2 log2 e2) as Hin by (eapply elem_of_prefix; [exact Hx|]; by eapply earlier_upto).
  assert (Linked (en_block <$> upto 3 s2 log2 e2)) as Hl.
  { eapply linked_prefix; [exact (mo_linked _ _ Hm2)|]. unfold upto. simpl.
    case_decide; [done|]. rewrite fmap_app. by apply prefix_app_r. }
  apply list_elem_of_lookup in Hin as [i Hi].
  assert ((en_block <$> upto 3 s2 log2 e2) !! i = Some (en_block x)) as Hbi
    by by rewrite list_lookup_fmap, Hi.
  destruct Hl as [Hn Hp]. rewrite (Hn i _ Hbi).
  by apply (by_height_shown _ (en_block <$> upto 3 s2 log2 e2) i _ (mo_heights _ _ Hm2)).
Qed.

(** The latest height is that of the last block the index of heights shows. *)
Lemma latest_shown v log e s : Moment v (log, e, s) → upto 3 s log e ≠ [] →
  Z.of_nat (length (log ++ [e])) < 2 ^ 64 →
  ∃ b, b ∈ en_block <$> upto 3 s log e ∧ query_latest (vw_storage v) = Some (number b).
Proof.
  intros Hm Hne Hlen. assert (Linked (en_block <$> upto 3 s log e)) as Hl.
  { eapply linked_prefix; [exact (mo_linked _ _ Hm)|]. unfold upto. simpl.
    case_decide; [done|]. rewrite fmap_app. by apply prefix_app_r. }
  assert (length (upto 3 s log e) ≤ length (log ++ [e]))%nat as Hle.
  { unfold upto. case_decide; [done|]. rewrite length_app. lia. }
  assert (Z.of_nat (length (en_block <$> upto 3 s log e)) < 2 ^ 64) as Hlen'.
  { rewrite length_fmap. lia. }
  pose proof (mo_heights _ _ Hm) as Hs. simpl in Hs.
  pose proof (height_shown _ _ Hs Hl Hlen') as Hh.
  destruct (upto 3 s log e) as [|x l] using rev_ind; [done|].
  exists (en_block x). split; [set_solver|]. unfold query_latest. rewrite Hh.
  - f_equal. destruct Hl as [Hn _].
    rewrite (Hn (length l) (en_block x)); [rewrite length_fmap, length_app; simpl; lia|].
    rewrite fmap_app. simpl. rewrite lookup_app_r by (rewrite length_fmap; lia). by rewrite length_fmap, Nat.sub_diag.
  - rewrite fmap_app. by destruct (en_block <$> l).
Qed.

(** C2 (safety): a reader never sees half a block.  Take any moment of a run from
    a history with its genesis block, between any two writes of a commit too, and
    any later moment.  Every block that some index shows at the first is found by
    its hash at the second, with every one of its transactions and a receipt for
    every one it executed, and its state opens on the nodes; a block shown by its
    payload id is found by its number; and the latest height is defined, and the
    block at that height is found.  So a query made of several reads never misses
    what its first read promised. *)
Theorem readers_never_see_half_a_block log e app n1 r1 n2 r2 : NoNodeCollision → GasTyped →
  History app (log ++ [e]) → StatesKept app log e →
  Z.of_nat (length (log ++ [e]) + n1 + n2) < 2 ^ 64 →
  nsteps run_step n1 (idle app) r1 → nsteps run_step n2 r1 r2 →
  let m1 := vw_storage (rn_view r1) in
  let v2 := rn_view r2 in
  let m2 := vw_storage v2 in
  ∃ chain, chain_of r2 chain ∧ (log ++ [e]) `prefix_of` chain
    ∧ (∃ h b, query_latest m1 = Some h ∧ by_height (block_memory m2) h = Some b)
    ∧ (∀ k b, by_payload_id (block_memory m1) k = Some b →
         by_height (block_memory m2) (number b) = Some b)
    ∧ ∀ b, visible m1 b →
        is_Some (by_hash (block_memory m2) (hash b))
        ∧ et_hash <$> tx_by_hashes (transaction_memory m2) (transaction_hashes b)
            = transaction_hashes b
        ∧ opens_at (vw_nodes v2) (h_state_root (header (block b)))
        ∧ ∃ x, x ∈ chain ∧ en_block x = b
            ∧ ∀ r, r ∈ en_receipts x → contains (vw_receipts v2) (Receipts.transaction_hash r) = true.
Proof.
  intros Hc Hg Hh Hk Hlen Hr1 Hr2 m1 v2 m2.
  destruct (run_points n1 (idle app) (log, e, 5%nat) r1 Hc Hg) as ([[log1 e1] s1] & Hp1 & He1 & Hl1);
    [simpl; lia|by apply idle_point|done|].
  destruct (run_points n2 r1 (log1, e1, s1) r2 Hc Hg) as ([[log2 e2] s2] & Hp2 & He2 & Hl2);
    [simpl in *; lia|done|done|].
  apply point_moment in Hp1 as Hm1. apply point_moment in Hp2 as Hm2. simpl in Hl1, Hl2.
  exists (log2 ++ [e2]). split; [by eapply point_chain|]. split.
  { etrans; by eapply earlier_extends. }
  split; [|split].
  - destruct (latest_shown _ _ _ _ Hm1) as (b & Hb & Hq); [|lia|].
    + pose proof (earlier_upto _ _ _ _ _ _ 3 3 He1 (le_n _)) as Hpre. rewrite upto_new in Hpre by lia.
      intros Heq. rewrite Heq in Hpre. apply prefix_nil_inv in Hpre. by destruct log.
    + exists (number b), b. split; [exact Hq|]. by eapply (shown_by_height _ _ log1 e1 s1 log2 e2 s2).
  - intros k b Hb. apply (Shown_get_one payload_id _ _ _ _ (mo_payload_ids _ _ Hm1)) in Hb as [Hb _].
    eapply (shown_by_height _ _ log1 e1 s1 log2 e2 s2); [done..|].
    apply list_elem_of_fmap in Hb as (x & -> & Hx). apply list_elem_of_fmap_2.
    eapply elem_of_prefix; [exact Hx|]. apply upto_anti. lia.
  - intros b Hb. by apply (visible_complete (rn_view r1) v2 (log1, e1, s1) log2 e2 s2).
Qed.

(** *** Between commands *)

(** What the actor reaches by ending the command in progress and then handling
    [msgs]. *)
Definition finish (r : Run) (msgs : list Command) : exec Application :=
  match rn_doing r with
  | None => work (rn_app r) msgs
  | Some (msg, _) => app ← handle_command (rn_app r) msg; work app msgs
  end.

Lemma run_finish n r r' : nsteps run_step n r r' → rn_doing r' = None →
  ∃ msgs, Forall (λ msg, is_genesis_update msg = false) msgs ∧ (length msgs ≤ n)%nat
    ∧ finish r msgs = Done (rn_app r').
Proof.
  revert r. induction n as [|n IH]; intros r Hs Hd; inversion Hs as [|? ? y ? Hy Hr]; subst.
  { exists []. unfold finish. rewrite Hd. split; [done|]. split; [simpl; lia|done]. }
  destruct (IH y Hr Hd) as (msgs & Hm & Hl & Hf).
  destruct Hy as [app msg v Hng|app msg w ws v|app msg app' v Hc]; unfold finish in *; simpl in *.
  - exists (msg :: msgs). split; [by constructor|]. split; [simpl; lia|done].
  - exists msgs. split; [done|]. split; [lia|done].
  - exists msgs. rewrite Hc. split; [done|]. split; [lia|done].
Qed.

Lemma write_some app msg ws ws' v :
  nsteps run_step (length ws) (MkRun app (Some (msg, ws ++ ws')) v)
    (MkRun app (Some (msg, ws')) (apply_writes v ws)).
Proof.
  revert v. induction ws as [|w ws IH]; intros v; [constructor|].
  eapply nsteps_l; [apply run_write|]. apply IH.
Qed.

(** A command whose handling ends, step by step. *)
Lemma run_command app log e msg app' : NoNodeCollision → GasTyped → is_genesis_update msg = false →
  History app (log ++ [e]) → Z.of_nat (length (log ++ [e])) < 2 ^ 64 → StatesKept app log e →
  handle_command app msg = Done app' →
  rtc run_step (idle app) (idle app')
  ∧ ∃ log' e', History app' (log' ++ [e']) ∧ StatesKept app' log' e'
      ∧ (length (log' ++ [e']) ≤ S (length (log ++ [e])))%nat.
Proof.
  intros Hc Hg Hm Hh Hlen Hk Hd.
  assert (apply_writes (view_of app) (command_writes app msg) = view_of app' →
    rtc run_step (idle app) (idle app')) as Hrun.
  { intros Hv. eapply rtc_l; [by apply (run_take app msg)|]. etrans.
    { rewrite <- (app_nil_r (command_writes app msg)). eapply rtc_nsteps_2, write_some. }
    rewrite Hv. by apply rtc_once, run_end. }
  destruct (command_plan app log e msg Hc Hg Hm Hh Hlen Hk) as [Hsil|[e' [Hcom]]].
  - destruct (sil_done _ _ _ _ Hsil app' Hd) as (Hh' & Hk' & Hv). split; [by apply Hrun|].
    exists log, e. split_and!; [done|done|lia].
  - destruct Hcom as (nodes & b & txs & rs & app1 & _ & _ & _ & _ & _ & Hd1 & Hh' & Hk' & Hv).
    rewrite Hd in Hd1. injection Hd1 as <-. split; [by apply Hrun|].
    exists (log ++ [e]), e'. split_and!; [done|done|]. rewrite (length_app (_ ++ _)). simpl. lia.
Qed.

(** C30 (refinement): publishing step by step implements handling at once.  When
    the actor is between commands of a run, readers find exactly its stores, and
    these are what handling the commands one after the other gives; and
    conversely every sequence of commands that is handled without a panic is
    carried out by a run. *)
Theorem runs_refine_work log e app : NoNodeCollision → GasTyped →
  History app (log ++ [e]) → StatesKept app log e →
  (∀ n r, Z.of_nat (length (log ++ [e]) + n) < 2 ^ 64 →
     nsteps run_step n (idle app) r → rn_doing r = None →
     r = idle (rn_app r)
     ∧ ∃ msgs, Forall (λ msg, is_genesis_update msg = false) msgs ∧ (length msgs ≤ n)%nat
         ∧ work app msgs = Done (rn_app r))
  ∧ ∀ msgs app', Forall (λ msg, is_genesis_update msg = false) msgs →
      Z.of_nat (length (log ++ [e]) + length msgs) < 2 ^ 64 →
      work app msgs = Done app' → rtc run_step (idle app) (idle app').
Proof.
  intros Hc Hg Hh Hk. split.
  - intros n r Hlen Hs Hd. split; [|by apply (run_finish n (idle app))].
    destruct (run_points n (idle app) (log, e, 5%nat) r Hc Hg) as ([[log' e'] s'] & Hp & _);
      [done|by apply idle_point|done|].
    unfold run_point in Hp. rewrite Hd in Hp. destruct Hp as (_ & _ & Hv & _).
    destruct r as [a d v]. simpl in *. by subst.
  - intros msgs app' Hm. revert log e app Hh Hk.
    induction Hm as [|msg msgs Hng _ IH]; intros log e app Hh Hk Hlen Hw; simpl in *; [by simplify_eq|].
    apply bind_Done in Hw as (app1 & Hd & Hw).
    destruct (run_command app log e msg app1) as (Hr & log1 & e1 & Hh1 & Hk1 & Hl1); [done..|lia|done|done|].
    etrans; [exact Hr|]. apply (IH log1 e1); [done|done|lia|done].
Qed.

End Publication.

(** Witness: the build of [WorldWitness], stopped when its block is shown by hash
    and by height but not yet by payload id. *)
Module PublicationWitness.
Import EvMap.Model Envelope.Witness BlockWitness ChainWitness EvmStateWitness WorldWitness.
#[local] Existing Instance unit_errors.
#[local] Existing Instance tx_library.
#[local] Existing Instance envelopes.
#[local] Existing Instance headers.
#[local] Existing Instance in_memory_callbacks.
#[local] Existing Instance WorldWitness.trie.
#[local] Existing Instance WorldWitness.trie_laws.
#[local] Existing Instance WorldWitness.world_library.
#[local] Existing Instance WorldWitness.block_executor.
#[local] Existing Instance WorldWitness.app_library.

Definition build : Command := StartBlockBuild attributes 1.
Definition writes : list Write := command_writes map_to_list begin build.
Definition done_writes : list Write := take (length writes - 1) writes.
Definition view (n : nat) : View := apply_writes (view_of begin) (take n writes).
Definition run1 : Run := MkRun begin (Some (build, [ShowPayloadIds])) (apply_writes (view_of begin) done_writes).
Definition run2 : Run := MkRun after None (apply_write (apply_writes (view_of begin) done_writes) ShowPayloadIds).

Lemma writes_split : writes = done_writes ++ [ShowPayloadIds].
Proof. vm_compute. reflexivity. Qed.

(** What is found after [n] writes: the transaction's receipt, the transaction,
    the block's hash, its height and its payload. *)
Definition found (n : nat) : list bool :=
  let v := view n in let mem := vw_storage v in
  [bool_decide (is_Some (by_transaction_hash (vw_receipts v) [9]));
   bool_decide (is_Some (tx_by_hash (transaction_memory mem) [9]));
   bool_decide (is_Some (by_hash (block_memory mem) [1]));
   bool_decide (query_latest mem = Some 1);
   bool_decide (is_Some (by_payload_id (block_memory mem) 1))].

(** One transaction that changes one account makes 11 writes: its receipt is found
    before the transaction, and both before the block. *)
Example receipts_come_first : length writes = 11%nat ∧ found <$> [2; 3; 5; 9; 10; 11]%nat =
  [[false; false; false; false; false]; [true; false; false; false; false];
   [true; true; false; false; false]; [true; true; true; false; false];
   [true; true; true; true; false]; [true; true; true; true; true]].
Proof. vm_compute. done. Qed.

Lemma to_run1 : nsteps (run_step map_to_list) 11 (idle begin) run1.
Proof.
  change 11%nat with (S 10). eapply nsteps_l; [by apply (run_take map_to_list begin build)|].
  fold writes. rewrite writes_split.
  assert (length done_writes = 10%nat) as Hl by (vm_compute; reflexivity). rewrite <- Hl.
  apply write_some.
Qed.

Lemma to_run2 : nsteps (run_step map_to_list) 2 run1 run2.
Proof.
  eapply nsteps_l; [apply run_write|]. apply nsteps_once, run_end.
  pose proof build_done as Hd. apply bind_Done in Hd as (a & Hd & Ha). by injection Ha as ->.
Qed.

Lemma readers_never_see_half_a_block_witness :
  let m1 := vw_storage (rn_view run1) in
  let v2 := rn_view run2 in
  let m2 := vw_storage v2 in
  ∃ chain, chain_of run2 chain ∧ ([] ++ [genesis_entry]) `prefix_of` chain
    ∧ (∃ h b, query_latest m1 = Some h ∧ by_height (block_memory m2) h = Some b)
    ∧ (∀ k b, by_payload_id (block_memory m1) k = Some b →
         by_height (block_memory m2) (number b) = Some b)
    ∧ ∀ b, visible m1 b →
        is_Some (by_hash (block_memory m2) (hash b))
        ∧ et_hash <$> tx_by_hashes (transaction_memory m2) (transaction_hashes b)
            = transaction_hashes b
        ∧ opens_at (vw_nodes v2) (h_state_root (header (block b)))
        ∧ ∃ x, x ∈ chain ∧ en_block x = b
            ∧ ∀ r, r ∈ en_receipts x → contains (vw_receipts v2) (Receipts.transaction_hash r) = true.
Proof.
  apply (readers_never_see_half_a_block map_to_list (λ _, reflexivity _) [] genesis_entry begin 11 run1 2 run2);
    [by intros v w|apply block_gas_typed|apply begin_history|apply begin_kept|done
    |apply to_run1|apply to_run2].
Defined.

Lemma runs_refine_work_witness :
  (∀ n r, Z.of_nat (length ([] ++ [genesis_entry]) + n) < 2 ^ 64 →
     nsteps (run_step map_to_list) n (idle begin) r → rn_doing r = None →
     r = idle (rn_app r)
     ∧ ∃ msgs, Forall (λ msg, is_genesis_update msg = false) msgs ∧ (length msgs ≤ n)%nat
         ∧ work begin msgs = Done (rn_app r))
  ∧ ∀ msgs app', Forall (λ msg, is_genesis_update msg = false) msgs →
      Z.of_nat (length ([] ++ [genesis_entry]) + length msgs) < 2 ^ 64 →
      work begin msgs = Done app' → rtc (run_step map_to_list) (idle begin) (idle app').
Proof.
  apply (runs_refine_work map_to_list (λ _, reflexivity _) [] genesis_entry begin);
    [by intros v w|apply block_gas_typed|apply begin_history|apply begin_kept].
Defined.

End PublicationWitness.
