(* ===== verification/Queries.v ===== *)
(** The query side of the application ([app/src/query.rs]): what the node answers
    about its blocks, transactions, receipts, payloads and state, and the calls
    and gas estimates it runs on the state of a block. *)
From S2P Require Import Prelude Primitives MoveTypes Errors Envelope EvMap.
From S2P Require Import Transactions Fees BaseFee Receipts Payloads Blocks Application Chain.
From S2P Require Import MoveVm EthToken ToyVm Nonces Events TagValidation Execution.
From S2P Require Import Storage StateTree EvmState StateQueries World.
Import Addresses Words.

Local Open Scope Z_scope.

(** The tags of [alloy::eips::BlockNumberOrTag] and [alloy::eips::BlockId]. *)
Inductive BlockNumberOrTag := Latest | Finalized | Safe | Earliest | Pending | Number (height : Z).
Inductive BlockId := IdHash (block_hash : B256) | IdNumber (height : BlockNumberOrTag).

Section Reader.
Context `{EthTrie, WorldLibrary, !TxLibrary, EnvelopeLibrary, HeaderLibrary, EvMapLaws}.
Context `{!AppLibrary, !StateReading, !EvmStateLibrary, !VmTypes, !MoveVm, !ExecutionLibrary}.
Context `{!Bcs SerializableTransactionData, !Bcs ScriptOrDeployment}.
(** A Merkle proof of a key, and the VM's view of a resolver over a trie. *)
Context (get_proof : Trie → bytes → option (list bytes)) (as_state : Trie → MoveState).

(** The handles of the stores read what the application's hold; the EVM storage
    is the reader's own.
    Source: app/src/dependency.rs 10-21 [ApplicationReader] *)
Record ApplicationReader := MkReader {
  rd_genesis_config : GenesisConfig;
  rd_base_token : MovedBaseTokenAccounts;
  rd_receipt_memory : ReceiptMemory;
  rd_storage : SharedMemory;
  rd_state_queries : InMemoryStateQueries;
  rd_evm_storage : InMemoryStorageTrieRepository;
}.

(** Source: app/src/query.rs 25-27 [ApplicationReader::chain_id] *)
Definition reader_chain_id (self : ApplicationReader) : Z := g_chain_id (rd_genesis_config self).

(** Source: app/src/query.rs 168-176 [ApplicationReader::resolve_height] *)
Definition resolve_height (self : ApplicationReader) (height : BlockNumberOrTag) : option Z :=
  match height with
  | Number height => Some height
  | Finalized | Pending | Latest | Safe => query_latest (rd_storage self)
  | Earliest => Some 0
  end.

(** Source: app/src/query.rs 29-35 [ApplicationReader::balance_by_height] *)
Definition balance_by_height (self : ApplicationReader) (address : Address)
    (height : BlockNumberOrTag) : exec (option Z) :=
  match resolve_height self height with
  | None => Done None
  | Some height =>
    balance_at as_state (rd_state_queries self) (rd_evm_storage self) (to_move_address address) height
  end.

(** Source: app/src/query.rs 37-43 [ApplicationReader::nonce_by_height] *)
Definition nonce_by_height (self : ApplicationReader) (address : Address)
    (height : BlockNumberOrTag) : exec (option Z) :=
  match resolve_height self height with
  | None => Done None
  | Some height =>
    nonce_at as_state (rd_state_queries self) (rd_evm_storage self) (to_move_address address) height
  end.

(** Source: app/src/query.rs 45-49 [ApplicationReader::block_by_hash] *)
Definition block_by_hash (self : ApplicationReader) (hash : B256) (include_transactions : bool)
    : exec (option BlockResponse) :=
  query_by_hash (rd_storage self) hash include_transactions.

(** Source: app/src/query.rs 51-63 [ApplicationReader::block_by_height] *)
Definition block_by_height (self : ApplicationReader) (height : BlockNumberOrTag)
    (include_transactions : bool) : exec (option BlockResponse) :=
  match resolve_height self height with
  | None => Done None
  | Some height => query_by_height (rd_storage self) height include_transactions
  end.

(** Source: app/src/query.rs 65-67 [ApplicationReader::block_number] *)
Definition block_number (self : ApplicationReader) : exec Z := expect (query_latest (rd_storage self)).

(** The height whose number the estimate runs under.
    Source: app/src/query.rs 85-93 [ApplicationReader::estimate_gas] *)
Definition estimate_height (self : ApplicationReader) (block_number : BlockNumberOrTag) : exec Z :=
  match block_number with
  | Number height => Done height
  | Finalized | Pending | Latest | Safe => expect (query_latest (rd_storage self))
  | Earliest => Done 0
  end.

(** [now], [random_randao] and [random_hash] are the clock and the random source.
    Source: app/src/query.rs 79-109 [ApplicationReader::estimate_gas] *)
Definition estimate_gas (self : ApplicationReader) (transaction : TransactionRequest)
    (block_number : BlockNumberOrTag) (now : Z) (random_randao random_hash : B256)
    : exec (result Error Z) :=
  height ← expect (resolve_height self block_number);
  block_height ← estimate_height self block_number;
  tree ← resolver_at (rd_state_queries self) height;
  outcome ← simulate_transaction transaction (as_state tree) (rd_evm_storage self)
    (rd_genesis_config self) (rd_base_token self) block_height
    (hash_by_number (rd_storage self)) now random_randao random_hash;
  Done match outcome with
    | Ok outcome => Ok (wrap 64 (gas_used outcome + gas_used outcome / 3))
    | Err e => Err e
    end.

(** Source: app/src/query.rs 111-126 [ApplicationReader::call] *)
Definition call (self : ApplicationReader) (transaction : TransactionRequest)
    (block_number : BlockNumberOrTag) : exec (result Error bytes) :=
  height ← expect (resolve_height self block_number);
  tree ← resolver_at (rd_state_queries self) height;
  call_transaction transaction (as_state tree) (rd_evm_storage self) (rd_genesis_config self)
    (rd_base_token self) (hash_by_number (rd_storage self)).

(** Source: app/src/query.rs 128-132 [ApplicationReader::transaction_receipt] *)
Definition transaction_receipt (self : ApplicationReader) (tx_hash : B256)
    : exec (option TransactionReceipt) :=
  query_by_transaction_hash (rd_receipt_memory self) tx_hash.

(** Source: blockchain/src/transaction/read.rs 68-77 [InMemoryTransactionQueries::by_hash] *)
Definition transaction_query_by_hash (mem : SharedMemory) (hash : B256)
    : exec (option TransactionResponse) :=
  match tx_by_hash (transaction_memory mem) hash with
  | None => Done None
  | Some tx => Some <$> to_response tx
  end.

(** Source: app/src/query.rs 134-139 [ApplicationReader::transaction_by_hash] *)
Definition transaction_by_hash (self : ApplicationReader) (tx_hash : B256)
    : exec (option TransactionResponse) :=
  transaction_query_by_hash (rd_storage self) tx_hash.

(** Source: app/src/query.rs 178-190 [ApplicationReader::height_from_block_id] *)
Definition height_from_block_id (self : ApplicationReader) (id : BlockId) : exec (option Z) :=
  match id with
  | IdNumber height => Done (resolve_height self height)
  | IdHash h =>
    found ← query_by_hash (rd_storage self) h false;
    Done match found with Some b => Some (h_number (br_header b)) | None => None end
  end.

(** Source: app/src/query.rs 141-155 [ApplicationReader::proof] *)
Definition proof (self : ApplicationReader) (address : Address) (storage_slots : list Z)
    (height : BlockId) : exec (option ProofResponse) :=
  height ← height_from_block_id self height;
  match height with
  | None => Done None
  | Some height =>
    proof_at get_proof (rd_state_queries self) (rd_evm_storage self) (to_move_address address)
      storage_slots height
  end.

(** Source: app/src/query.rs 157-159 [ApplicationReader::payload] *)
Definition payload (self : ApplicationReader) (id : PayloadId) : option PayloadResponse :=
  payload_by_id (rd_storage self) id.

(** Source: app/src/query.rs 161-166 [ApplicationReader::payload_by_block_hash] *)
Definition payload_by_block_hash (self : ApplicationReader) (block_hash : B256)
    : option PayloadResponse :=
  payload_by_hash (rd_storage self) block_hash.

(** ** Answers about blocks *)

(** A reader of the stores of [app]. *)
Definition Reads (self : ApplicationReader) (app : Application) : Prop :=
  rd_storage self = storage app ∧ rd_receipt_memory self = receipt_memory app.

Definition is_head_tag (tag : BlockNumberOrTag) : bool :=
  match tag with Number _ | Earliest => false | _ => true end.

(** The block a tag names. *)
Definition tag_index (log : list Entry) (tag : BlockNumberOrTag) : Z :=
  match tag with
  | Number h => h
  | Earliest => 0
  | _ => Z.of_nat (length log) - 1
  end.

Lemma query_latest_history app log : History app log → log ≠ [] →
  Z.of_nat (length log) < 2 ^ 64 → query_latest (storage app) = Some (Z.of_nat (length log) - 1).
Proof.
  intros Hh Hne Hlen. unfold query_latest.
  rewrite (height_linked _ (en_block <$> log)); rewrite ?length_fmap; try done.
  - apply (hist_blocks _ _ Hh).
  - apply (hist_linked _ _ Hh).
  - by destruct log.
Qed.

Lemma resolve_height_history self app log tag : Reads self app → History app log → log ≠ [] →
  Z.of_nat (length log) < 2 ^ 64 → resolve_height self tag = Some (tag_index log tag).
Proof.
  intros [Hs _] Hh Hne Hlen. pose proof (query_latest_history app log Hh Hne Hlen) as Hl.
  destruct tag; simpl; rewrite ?Hs; done.
Qed.

Lemma by_height_history app log h e : History app log → 0 ≤ h → log !! Z.to_nat h = Some e →
  by_height (block_memory (storage app)) h = Some (en_block e).
Proof.
  intros Hh H0' He. rewrite <- (Z2Nat.id h) by done.
  apply (by_height_linked _ (en_block <$> log)); [apply (hist_blocks _ _ Hh)|apply (hist_linked _ _ Hh)|].
  by rewrite list_lookup_fmap, He.
Qed.

Lemma by_height_history_none app log h : History app log → Z.of_nat (length log) ≤ h →
  by_height (block_memory (storage app)) h = None.
Proof.
  intros Hh Hle. apply (by_height_none _ (en_block <$> log));
    [apply (hist_blocks _ _ Hh)|apply (hist_linked _ _ Hh)|by rewrite length_fmap].
Qed.

(** C27 (refinement): the reader answers about the chain from its history: the
    block number is that of the head; the tags latest, pending, safe and
    finalized name the head and earliest the genesis block; the block at a height
    is that of the history with exactly its transactions, in full when no two
    stored transactions share a hash; and there is none above the head. *)
Theorem blocks_answer_from_history self app log :
  Reads self app → History app log → log ≠ [] → Z.of_nat (length log) < 2 ^ 64 →
  block_number self = Done (Z.of_nat (length log) - 1)
  ∧ (∀ tag e, 0 ≤ tag_index log tag → log !! Z.to_nat (tag_index log tag) = Some e →
       number (en_block e) = tag_index log tag
       ∧ (is_head_tag tag = true → List.last log e = e)
       ∧ block_by_height self tag false
           = Done (Some (from_block_with_transaction_hashes (en_block e)))
       ∧ (NoDup (et_hash <$> (log ≫= en_txs)) →
          block_by_height self tag true
            = Some <$> from_block_with_transactions (en_block e) (en_txs e)))
  ∧ ∀ h full, Z.of_nat (length log) ≤ h → block_by_height self (Number h) full = Done None.
Proof.
  intros Hr Hh Hne Hlen. assert (Hs := Hr). destruct Hs as [Hs _]. split; [|split].
  - unfold block_number. by rewrite Hs, (query_latest_history _ _ Hh Hne Hlen).
  - intros tag e H0' He.
    assert (number (en_block e) = tag_index log tag) as Hn.
    { destruct (hist_linked _ _ Hh) as [Hnum _]. rewrite (Hnum (Z.to_nat (tag_index log tag)));
        [lia|by rewrite list_lookup_fmap, He]. }
    assert (is_head_tag tag = true → List.last log e = e) as Hhead.
    { intros Htag. assert (tag_index log tag = Z.of_nat (length log) - 1) as Hi by by destruct tag.
      rewrite Hi in He. replace (Z.to_nat _) with (pred (length log)) in He by lia.
      rewrite <- last_lookup in He. apply last_Some in He as [l ->]. apply last_last. }
    split; [done|]. split; [done|].
    unfold block_by_height. rewrite (resolve_height_history _ _ _ _ Hr Hh Hne Hlen), Hs.
    unfold query_by_height. rewrite (by_height_history _ _ _ _ Hh H0' He). split; [done|].
    intros Hnd. unfold block_query.
    rewrite (wf_hashes e) by by eapply Forall_lookup_1; [apply (hist_wf _ _ Hh)|].
    rewrite (tx_by_hashes_exact _ (log ≫= en_txs)); [done|apply (hist_txs _ _ Hh)|done|].
    intros tx Htx. apply list_elem_of_bind. exists e. split; [done|]. by eapply list_elem_of_lookup_2.
  - intros h full Hle. unfold block_by_height. simpl. rewrite Hs.
    unfold query_by_height. by rewrite (by_height_history_none _ _ _ Hh Hle).
Qed.

(** ** Transactions and receipts *)

(** A block of the history is the one at its own number. *)
Lemma block_at_own_number self app log e : Reads self app → History app log → e ∈ log →
  block_by_height self (Number (number (en_block e))) false
    = Done (Some (from_block_with_transaction_hashes (en_block e))).
Proof.
  intros [Hs _] Hh [i He]%list_elem_of_lookup. destruct (hist_linked _ _ Hh) as [Hnum _].
  assert (number (en_block e) = Z.of_nat i) as -> by (apply Hnum; by rewrite list_lookup_fmap, He).
  unfold block_by_height. simpl. rewrite Hs. unfold query_by_height.
  rewrite (by_height_history app log _ e); [done|done|lia|by rewrite Nat2Z.id].
Qed.

Lemma stored_receipt_block log e r : Forall entry_wf log → e ∈ log → r ∈ en_receipts e →
  Receipts.block_number r = number (en_block e) ∧ Receipts.block_hash r = hash (en_block e).
Proof.
  intros Hwf He Hr. rewrite Forall_forall in Hwf. destruct (Hwf e He) as [_ _ (hx & Hrw & Hn & _) Hb].
  split; [|by apply Hb]. apply list_elem_of_lookup in Hr as [i Hi].
  destruct (Hrw i r Hi) as (_ & _ & _ & -> & _). done.
Qed.

Lemma to_rpc_receipt_inv r resp : to_rpc_receipt r = Done resp →
  rx_transaction_hash resp = Receipts.transaction_hash r
  ∧ rx_block_hash resp = Some (Receipts.block_hash r)
  ∧ rx_block_number resp = Some (Receipts.block_number r).
Proof. by intros (inner & _ & [= <-])%bind_Done. Qed.

Lemma fmap_Some_Done {A B} (f : A → B) (m : exec A) b :
  f <$> m = Done b → ∃ a, m = Done a ∧ f a = b.
Proof. destruct m; naive_solver. Qed.

(** C28 (functional): the answers about transactions and receipts agree with the
    blocks.  A receipt is found exactly for the transactions that have one in the
    history, and names the number and hash of the block that the reader returns
    at that number; a transaction that is found is listed in the block at its
    block number, at its index, and names that block's hash. *)
Theorem transactions_point_to_blocks self app log h : Reads self app → History app log →
  (transaction_receipt self h = Done None ↔
     ∀ e r, e ∈ log → r ∈ en_receipts e → Receipts.transaction_hash r ≠ h)
  ∧ (∀ resp, transaction_receipt self h = Done (Some resp) →
       rx_transaction_hash resp = h
       ∧ ∃ n b, rx_block_number resp = Some n ∧ rx_block_hash resp = Some (br_hash b)
           ∧ block_by_height self (Number n) false = Done (Some b))
  ∧ (∀ resp, transaction_by_hash self h = Done (Some resp) →
       ∃ n b hashes i, tr_block_number resp = Some n ∧ tr_block_hash resp = Some (br_hash b)
         ∧ tr_transaction_index resp = Some (Z.of_nat i)
         ∧ block_by_height self (Number n) false = Done (Some b)
         ∧ br_transactions b = Hashes hashes ∧ hashes !! i = Some h).
Proof.
  intros Hr Hh. assert (Hs := Hr). destruct Hs as [Hs Hm].
  unfold transaction_receipt, query_by_transaction_hash, by_transaction_hash. rewrite Hm.
  pose proof (hist_receipts _ _ Hh) as Hi. split; [|split].
  - pose proof (Indexed_get_one_None Receipts.transaction_hash _ _ h Hi) as Hn.
    destruct (ev_get_one _ h) as [r|].
    + split; [by destruct (to_rpc_receipt r)|]. intros Hno. exfalso.
      assert (Some r = None); [|done]. apply Hn. intros v (e & Hv & He)%list_elem_of_bind. by eapply Hno.
    + split; [|done]. intros _ e r He Hre. eapply (proj1 Hn); [done|].
      apply list_elem_of_bind. by exists e.
  - intros resp Hq. destruct (ev_get_one _ h) as [r|] eqn:Hg; [|done].
    apply fmap_Some_Done in Hq as (x & (Ht & Hbh & Hbn)%to_rpc_receipt_inv & [= ->]).
    destruct (Indexed_get_one _ _ _ _ _ Hi Hg) as [(e & Hre & He)%list_elem_of_bind Heq].
    split; [congruence|]. destruct (stored_receipt_block _ _ _ (hist_wf _ _ Hh) He Hre) as [Hn Hb].
    eexists _, _. split; [done|]. rewrite Hn, Hbh, Hb.
    split; [|by eapply block_at_own_number]. done.
  - intros resp Hq. unfold transaction_by_hash, transaction_query_by_hash, tx_by_hash in Hq.
    rewrite Hs in Hq. destruct (ev_get_one _ h) as [tx|] eqn:Hg; [|done].
    apply fmap_Some_Done in Hq as (x & (_ & Hbh & Hbn & Hti)%to_response_inner & [= ->]).
    destruct (Indexed_get_one _ _ _ _ _ (hist_txs _ _ Hh) Hg) as [(e & Hte & He)%list_elem_of_bind Heq].
    pose proof (hist_wf _ _ Hh) as Hwf. rewrite Forall_forall in Hwf.
    destruct (Hwf e He) as [Hhashes Htx _ _].
    apply list_elem_of_lookup in Hte as [i Hl]. destruct (Htx i tx Hl) as (Hn & Hb & Hx).
    exists (number (en_block e)), (from_block_with_transaction_hashes (en_block e)),
      (transaction_hashes (en_block e)), i. rewrite Hbn, Hn, Hbh, Hb, Hti, Hx.
    split_and!; try done; [by eapply block_at_own_number|].
    change (transaction_hashes (en_block e) !! i = Some h).
    by rewrite Hhashes, list_lookup_fmap, Hl, <- Heq.
Qed.

(** ** Calls on the state of a block *)

(** C31 (error): a call or a balance or nonce query that names a block of the
    chain runs on the state at that block's root; above the head the balance and
    the nonce are absent, whereas a call and a gas estimate panic. *)
Theorem calls_run_at_a_block `{!EthTrieLaws, !Executor} self app log e r :
  Reads self app → rd_state_queries self = queries_of app r →
  History app (log ++ [e]) → Z.of_nat (length (log ++ [e])) < 2 ^ 64 → StatesKept app log e →
  (∀ g, (log ++ [e]) !! 0%nat = Some g → block_root g = r) →
  (∀ tag x, 0 ≤ tag_index (log ++ [e]) tag →
     (log ++ [e]) !! Z.to_nat (tag_index (log ++ [e]) tag) = Some x →
     ∃ t, trie_from (db (state app)) (block_root x) = Some t
       ∧ (∀ request, call self request tag =
            call_transaction request (as_state t) (rd_evm_storage self) (rd_genesis_config self)
              (rd_base_token self) (hash_by_number (storage app)))
       ∧ (∀ a, balance_by_height self a tag =
            Some <$> quick_get_eth_balance (to_move_address a) (as_state t) (rd_evm_storage self))
       ∧ ∀ a, nonce_by_height self a tag =
            Some <$> quick_get_nonce (to_move_address a) (as_state t) (rd_evm_storage self))
  ∧ ∀ h, Z.of_nat (length (log ++ [e])) ≤ h →
      (∀ a, balance_by_height self a (Number h) = Done None)
      ∧ (∀ a, nonce_by_height self a (Number h) = Done None)
      ∧ (∀ request, call self request (Number h) = Panic)
      ∧ ∀ request now randao hash, estimate_gas self request (Number h) now randao hash = Panic.
Proof.
  intros Hr Hq Hh Hlen Hk Hg. assert (Hs := Hr). destruct Hs as [Hs _]. split.
  - intros tag x Hh0 Hx.
    destruct (resolver_at_height app log e r _ x Hh Hk Hg Hh0 Hx) as (t & Ht & Hres).
    assert (resolve_height self tag = Some (tag_index (log ++ [e]) tag)) as Htag
      by (eapply resolve_height_history; [done..|by destruct log|done]).
    exists t. split; [done|].
    unfold call, balance_by_height, nonce_by_height, balance_at, nonce_at, resolver_at.
    rewrite Htag, Hq, Hs. simpl. rewrite Hres. done.
  - intros h Hle. assert (resolver_of (queries_of app r) h = Done None) as Hres.
    { unfold resolver_of. rewrite (root_above_head app (log ++ [e])); [done|done|].
      split; [|done]. rewrite length_app. simpl. lia. }
    unfold call, estimate_gas, balance_by_height, nonce_by_height, balance_at, nonce_at, resolver_at.
    simpl. rewrite Hq, Hres. done.
Qed.

End Reader.

(** Witnesses: a reader of the application of [WorldWitness], before and after
    its build. *)
Module QueriesWitness.
Import EvMap.Model Envelope.Witness BlockWitness ChainWitness EvmStateWitness StateQueriesWitness.
Import WorldWitness.
#[local] Existing Instance unit_errors.
#[local] Existing Instance tx_library.
#[local] Existing Instance std_bcs.
#[local] Existing Instance sod_bcs.
#[local] Existing Instance envelopes.
#[local] Existing Instance headers.
#[local] Existing Instance in_memory_callbacks.
#[local] Existing Instance WorldWitness.trie.
#[local] Existing Instance WorldWitness.trie_laws.
#[local] Existing Instance WorldWitness.world_library.
#[local] Existing Instance WorldWitness.block_executor.
#[local] Existing Instance WorldWitness.app_library.

#[local] Instance library : ExecutionLibrary := {|
  create_move_vm := Ok (); create_vm_session := λ _ _ _ _, MkToy (λ _, 5) (λ _, Some 7);
  session_id_default := MkSessionId [] None 0 None (MkHeaderForExecution 0 0 []);
  new_gas_meter := id;
  charge_intrinsic_gas_for_transaction := λ _ g, (Ok (), g);
  charge_io_gas_for_transaction := λ _ g, (Ok (), g);
  charge_publish_request := λ _ g, (Ok (), g); charge_dependency := λ _ _ g, (Ok (), g);
  execution_gas_used := id; io_gas_used := λ _, 0; storage_fee_used_in_gas_units := λ _, 0;
  scaling_factor := 1;
  compiled_module_self_id := λ _, Err (); staged_module_bundle := λ _ _ _, Err ();
  check_module_exists := λ _ _, Ok false;
  empty_changes := []; add_module_op := λ _ _ c, Some c; squash := λ a b, Some (a ++ b);
  finish_with_extensions := λ _, Ok ([], []); extract_evm_accounts := λ _, [];
  extract_evm_storage := λ _, tries_empty; vm_keccak256 := id; canonical_string := λ _, [];
  script_bcs := λ _, []; return_values_bcs := λ _, Ok [] |}.

Definition proofs (_ : Trie) (_ : bytes) : option (list bytes) := None.
Definition view (t : Trie) : MoveState := MkState () (trie_nodes t) (Some (trie_commit t).1).
Definition genesis_root : B256 := block_root genesis_entry.
Definition reader (app : Application) : ApplicationReader :=
  MkReader (MkGenesisConfig 404) (MkBaseToken [200]) (receipt_memory app) (storage app)
    (queries_of app genesis_root) (MkRepository ∅).

(** The history after the build. *)
Lemma after_history : ∃ log, History after log ∧ log ≠ [] ∧ Z.of_nat (length log) < 2 ^ 64.
Proof.
  destruct (work_keeps_states begin [] genesis_entry one_build after) as (_ & log & e & Hh & _ & _ & Hl);
    [by intros v w|apply block_gas_typed|by constructor|apply begin_history|done|apply begin_kept
    |apply build_done|].
  exists (log ++ [e]). split; [done|]. split; [by destruct log|]. simpl in Hl. lia.
Qed.

Lemma blocks_answer_from_history_witness : ∃ log, History after log ∧
  block_number (reader after) = Done (Z.of_nat (length log) - 1)
  ∧ (∀ tag e, 0 ≤ tag_index log tag → log !! Z.to_nat (tag_index log tag) = Some e →
       number (en_block e) = tag_index log tag
       ∧ (is_head_tag tag = true → List.last log e = e)
       ∧ block_by_height (reader after) tag false
           = Done (Some (from_block_with_transaction_hashes (en_block e)))
       ∧ (NoDup (et_hash <$> (log ≫= en_txs)) →
          block_by_height (reader after) tag true
            = Some <$> from_block_with_transactions (en_block e) (en_txs e)))
  ∧ ∀ h full, Z.of_nat (length log) ≤ h → block_by_height (reader after) (Number h) full = Done None.
Proof.
  destruct after_history as (log & Hh & Hne & Hlen). exists log. split; [done|].
  by apply (blocks_answer_from_history (reader after) after log).
Defined.

Lemma transactions_point_to_blocks_witness : ∃ log, History after log ∧
  (transaction_receipt (reader after) [9] = Done None ↔
     ∀ e r, e ∈ log → r ∈ en_receipts e → Receipts.transaction_hash r ≠ [9])
  ∧ (∀ resp, transaction_receipt (reader after) [9] = Done (Some resp) →
       rx_transaction_hash resp = [9]
       ∧ ∃ n b, rx_block_number resp = Some n ∧ rx_block_hash resp = Some (br_hash b)
           ∧ block_by_height (reader after) (Number n) false = Done (Some b))
  ∧ (∀ resp, transaction_by_hash (reader after) [9] = Done (Some resp) →
       ∃ n b hashes i, tr_block_number resp = Some n ∧ tr_block_hash resp = Some (br_hash b)
         ∧ tr_transaction_index resp = Some (Z.of_nat i)
         ∧ block_by_height (reader after) (Number n) false = Done (Some b)
         ∧ br_transactions b = Hashes hashes ∧ hashes !! i = Some [9]).
Proof.
  destruct after_history as (log & Hh & _). exists log. split; [done|].
  by apply (transactions_point_to_blocks (reader after) after log [9]).
Defined.

(** The receipt and the transaction of the build are found. *)
Example built_transaction_found :
  match transaction_receipt (reader after) [9], transaction_by_hash (reader after) [9] with
  | Done (Some r), Done (Some t) => rx_block_number r = Some 1 ∧ tr_block_number t = Some 1
  | _, _ => False
  end.
Proof. vm_compute. done. Qed.

Lemma calls_run_at_a_block_witness :
  (∀ tag x, 0 ≤ tag_index ([] ++ [genesis_entry]) tag →
     ([] ++ [genesis_entry]) !! Z.to_nat (tag_index ([] ++ [genesis_entry]) tag) = Some x →
     ∃ t, trie_from (db (state begin)) (block_root x) = Some t
       ∧ (∀ request, call view (reader begin) request tag =
            call_transaction request (view t) (MkRepository ∅) (MkGenesisConfig 404)
              (MkBaseToken [200]) (hash_by_number (storage begin)))
       ∧ (∀ a, balance_by_height view (reader begin) a tag =
            Some <$> quick_get_eth_balance (to_move_address a) (view t) (MkRepository ∅))
       ∧ ∀ a, nonce_by_height view (reader begin) a tag =
            Some <$> quick_get_nonce (to_move_address a) (view t) (MkRepository ∅))
  ∧ ∀ h, Z.of_nat (length ([] ++ [genesis_entry])) ≤ h →
      (∀ a, balance_by_height view (reader begin) a (Number h) = Done None)
      ∧ (∀ a, nonce_by_height view (reader begin) a (Number h) = Done None)
      ∧ (∀ request, call view (reader begin) request (Number h) = Panic)
      ∧ ∀ request now randao hash,
          estimate_gas view (reader begin) request (Number h) now randao hash = Panic.
Proof.
  apply (calls_run_at_a_block view (reader begin) begin [] genesis_entry genesis_root);
    [done|done|apply begin_history|done|apply begin_kept|by intros g [= <-]].
Defined.

End QueriesWitness.
