(* ===== verification/Columns.v ===== *)
(** What the persistent back ends ([storage/rocksdb/src], [storage/heed/src])
    keep on disk: named columns of key-value pairs, ordered by the bytes of their
    keys.  The two databases are third-party code and have interfaces of their
    own ([RocksDb], [Heed]); here is the format they share, what it means for a
    column to hold the records of a chain, and how records are read back. *)
From S2P Require Import Prelude Primitives MoveTypes Errors Envelope EvMap.
From S2P Require Import Transactions Fees Receipts Payloads Blocks Application Chain.

Local Open Scope Z_scope.

(** The content of a database: a map per column. *)
Abbreviation Columns := (string → gmap bytes bytes).

(** The columns, under the same names in both back ends.
    Source: storage/rocksdb/src/all.rs 3-15 [COLUMN_FAMILIES] *)
Definition COLUMN_FAMILIES : list string :=
  ["block"; "height"; "state"; "state_height"; "trie"; "trie_root"; "evm_storage_trie";
   "evm_storage_trie_root"; "transaction"; "receipt"; "payload"]%string.

(** The five columns of the chain, the two of the roots and the four of the state. *)
Definition chain_columns : list string := ["block"; "height"; "transaction"; "receipt"; "payload"]%string.
Definition root_columns : list string := ["state"; "state_height"]%string.
Definition state_columns : list string := ["trie"; "trie_root"]%string.
Definition storage_columns : list string := ["evm_storage_trie"; "evm_storage_trie_root"]%string.

(** Closed statements about lists of columns. *)
Ltac decided := apply (bool_decide_unpack _); vm_compute; exact I.

Lemma column_families_unique : NoDup COLUMN_FAMILIES.
Proof. apply (bool_decide_unpack _). vm_compute. done. Qed.

Definition put (c : string) (k v : bytes) (cols : Columns) : Columns :=
  λ c', if decide (c' = c) then <[k := v]> (cols c') else cols c'.

(** The writes of a batch or a transaction, in order. *)
Abbreviation Writes := (list (string * (bytes * bytes))).
Definition put_all (ws : Writes) (cols : Columns) : Columns :=
  fold_left (λ cols '(c, (k, v)), put c k v cols) ws cols.

(** ** JSON

    [serde_json] to and from the bytes of a value. *)
Class Json (A : Type) := {
  to_json : A → option bytes;
  from_json : bytes → option A;
}.
Class JsonLaws (A : Type) `{!Json A} : Prop :=
  json_roundtrip : ∀ (a : A) b, to_json a = Some b → from_json b = Some a.

(** ** Integer keys *)

(** A [u64] as a key.
    Source: storage/rocksdb/src/generic.rs 29-33 [u64::to_key] *)
Definition u64_key (z : Z) : bytes := be_bytes 8 z.

(** Source: storage/rocksdb/src/generic.rs 34-38 [u64::from_key] *)
Definition u64_from_key (slice : bytes) : exec Z :=
  if decide (length slice = 8%nat) then Done (be_val slice) else Panic.

Lemma u64_key_val z : uint 64 z → be_val (u64_key z) = z.
Proof. intros Hz. unfold u64_key. rewrite be_val_bytes. by apply wrap_small. Qed.

Lemma u64_key_inj x y : uint 64 x → uint 64 y → u64_key x = u64_key y → x = y.
Proof. intros Hx Hy E. by rewrite <- (u64_key_val x), <- (u64_key_val y), E. Qed.

Lemma u64_from_to_key z : uint 64 z → u64_from_key (u64_key z) = Done z.
Proof.
  intros Hz. unfold u64_from_key. rewrite decide_True by apply length_be_bytes.
  by rewrite u64_key_val.
Qed.

Lemma le_val_app l1 l2 : le_val (l1 ++ l2) = le_val l1 + 2 ^ (8 * Z.of_nat (length l1)) * le_val l2.
Proof.
  induction l1 as [|b l1 IH]; [simpl app; change (le_val []) with 0; cbn [length]; rewrite Z.mul_0_r; lia|].
  cbn [app le_val foldr length]. fold (le_val l1) (le_val (l1 ++ l2)). rewrite IH, pow256_succ. lia.
Qed.

Lemma be_val_cons b l : be_val (b :: l) = b * 2 ^ (8 * Z.of_nat (length l)) + be_val l.
Proof.
  unfold be_val. simpl rev. rewrite le_val_app, length_rev.
  change (le_val [b]) with (b + 256 * 0). lia.
Qed.

(** The order of the databases on keys of one length is that of the numbers the
    keys write. *)
Lemma bytes_le_be_val a b : length a = length b → is_bytes a → is_bytes b →
  bytes_le a b = (be_val a <=? be_val b).
Proof.
  intros Hl Ha. revert b Hl. induction Ha as [|x a Hx Ha IH]; intros [|y b] Hl Hb; try done.
  apply Forall_cons in Hb as [Hy Hb]. injection Hl as Hl. cbn [bytes_le].
  rewrite !be_val_cons, IH, Hl by done.
  pose proof (be_val_bound a Ha) as Ba. pose proof (be_val_bound b Hb) as Bb. rewrite Hl in Ba.
  unfold uint, is_byte in *.
  destruct (Z.ltb_spec x y); [|destruct (Z.ltb_spec y x)]; symmetry.
  - apply Z.leb_le. nia.
  - apply Z.leb_gt. nia.
  - assert (x = y) as -> by lia.
    destruct (Z.leb_spec (be_val a) (be_val b)); [apply Z.leb_le|apply Z.leb_gt]; lia.
Qed.

Lemma u64_key_le x y : uint 64 x → uint 64 y → bytes_le (u64_key x) (u64_key y) = (x <=? y).
Proof.
  intros Hx Hy. unfold u64_key.
  rewrite bytes_le_be_val; rewrite ?length_be_bytes; [|done|apply be_bytes_is_bytes..].
  fold (u64_key x) (u64_key y). by rewrite !u64_key_val.
Qed.

(** The greatest entry of a column. *)
Definition greatest (m : gmap bytes bytes) (e : option (bytes * bytes)) : Prop :=
  match e with
  | None => m = ∅
  | Some (k, v) => m !! k = Some v ∧ ∀ k', is_Some (m !! k') → bytes_le k' k = true
  end.

(** ** Columns of records *)

Section Records.
Context {A : Type} (key : A → bytes).

(** The last record of a log with a given key. *)
Definition latest_with (k : bytes) (l : list A) : option A :=
  fold_left (λ acc a, if decide (key a = k) then Some a else acc) l None.

Lemma latest_with_snoc k l a :
  latest_with k (l ++ [a]) = if decide (key a = k) then Some a else latest_with k l.
Proof. unfold latest_with. by rewrite fold_left_app. Qed.

Lemma latest_with_Some k l a : latest_with k l = Some a → a ∈ l ∧ key a = k.
Proof.
  induction l as [|b l IH] using rev_ind; [done|]. rewrite latest_with_snoc.
  case_decide; [intros [= ->]; set_solver|]. intros [??]%IH. set_solver.
Qed.

Lemma latest_with_None k l : latest_with k l = None ↔ ∀ a, a ∈ l → key a ≠ k.
Proof.
  induction l as [|b l IH] using rev_ind; [set_solver|]. rewrite latest_with_snoc.
  case_decide; [split; [done|]; intros Hn; by destruct (Hn b); [set_solver|]|]. rewrite IH. set_solver.
Qed.

Lemma latest_with_unique k l a : NoDup (key <$> l) → a ∈ l → key a = k → latest_with k l = Some a.
Proof.
  intros Hnd Hin Hk. destruct (latest_with k l) as [b|] eqn:Hb.
  - apply latest_with_Some in Hb as [Hb Hkb]. f_equal.
    apply list_elem_of_lookup in Hin as [i Hi], Hb as [j Hj].
    assert (i = j) as ->; [|congruence].
    apply (NoDup_lookup _ _ _ k Hnd); rewrite list_lookup_fmap, ?Hi, ?Hj; simpl; congruence.
  - by edestruct (proj1 (latest_with_None k l) Hb a).
Qed.

Context (written : A → bytes → Prop).

(** The column [m] holds the log [l]: every key has its last record. *)
Definition Holds (m : gmap bytes bytes) (l : list A) : Prop :=
  ∀ k, match latest_with k l with
       | Some a => ∃ b, m !! k = Some b ∧ written a b
       | None => m !! k = None
       end.

Lemma holds_empty : Holds ∅ [].
Proof. intros k. apply lookup_empty. Qed.

Lemma holds_snoc m l a b : Holds m l → written a b → Holds (<[key a := b]> m) (l ++ [a]).
Proof.
  intros Hm Hw k. rewrite latest_with_snoc. case_decide as Hk; [subst|].
  - exists b. by rewrite lookup_insert_eq.
  - rewrite lookup_insert_ne by done. apply Hm.
Qed.

Lemma holds_lookup m l k b : Holds m l → m !! k = Some b → ∃ a, latest_with k l = Some a ∧ written a b.
Proof.
  intros Hm Hb. specialize (Hm k). destruct (latest_with k l) as [a|].
  - destruct Hm as (b' & Hb' & Hw). exists a. split; [done|]. congruence.
  - congruence.
Qed.

Lemma holds_lookup_None m l k : Holds m l → m !! k = None → latest_with k l = None.
Proof.
  intros Hm Hn. specialize (Hm k). destruct (latest_with k l); [|done]. destruct Hm as (? & ? & _). congruence.
Qed.

End Records.

Lemma put_eq c k v cols : put c k v cols c = <[k := v]> (cols c).
Proof. unfold put. by rewrite decide_True. Qed.
Lemma put_ne c c' k v cols : c' ≠ c → put c k v cols c' = cols c'.
Proof. intros. unfold put. by rewrite decide_False. Qed.

(** A batch of distinct keys in one column is a union. *)
Lemma put_all_union c cols (ws : list (bytes * bytes)) : NoDup ws.*1 →
  put_all (pair c <$> ws) cols c = list_to_map ws ∪ cols c
  ∧ ∀ c', c' ≠ c → put_all (pair c <$> ws) cols c' = cols c'.
Proof.
  revert cols. induction ws as [|[k v] ws IH]; intros cols Hnd.
  { simpl. by rewrite (left_id_L ∅ (∪)). }
  apply NoDup_cons in Hnd as [Hk Hnd]. destruct (IH (put c k v cols) Hnd) as [IH1 IH2].
  assert (put_all (pair c <$> (k, v) :: ws) cols = put_all (pair c <$> ws) (put c k v cols)) as -> by done.
  split.
  - rewrite IH1, put_eq. simpl. rewrite <- insert_union_l, insert_union_r; [done|].
    by apply not_elem_of_list_to_map.
  - intros c' Hc. by rewrite IH2, put_ne.
Qed.

(** A batch of records of one column. *)
Lemma put_all_holds {A} (key : A → bytes) written c cols l (ws : list (bytes * bytes)) added :
  Holds key written (cols c) l → Forall2 (λ a w, w.1 = key a ∧ written a w.2) added ws →
  Holds key written (put_all (pair c <$> ws) cols c) (l ++ added)
  ∧ ∀ c', c' ≠ c → put_all (pair c <$> ws) cols c' = cols c'.
Proof.
  intros Hm Hf. revert l cols Hm. induction Hf as [|a [k v] added ws [Hk Hw] Hf IH]; intros l cols Hm.
  { rewrite app_nil_r. done. }
  simpl in Hk, Hw. subst k. rewrite cons_middle, app_assoc. simpl.
  destruct (IH (l ++ [a]) (put c (key a) v cols)) as [IH1 IH2].
  { rewrite put_eq. by apply holds_snoc. }
  split; [done|]. intros c' Hc. rewrite IH2, put_ne by done. done.
Qed.

(** ** The columns of a chain *)

Section ChainColumns.
Context `{ErrorTypes, !TxLibrary, EnvelopeLibrary, HeaderLibrary, EvMapLaws}.
Context `{!Json ExtendedBlock, !Json ExtendedTransaction, !Json ExtendedReceipt}.

Definition json_written {A} `{!Json A} (a : A) (v : bytes) : Prop := from_json v = Some a.
Definition hash_written (b : ExtendedBlock) (v : bytes) : Prop := v = hash b.

(** The columns hold the chain of the genesis block [g] and the built blocks
    [log]; only built blocks have payload ids. *)
Record Persisted (cols : Columns) (g : Entry) (log : list Entry) : Prop := {
  per_blocks : Holds hash json_written (cols "block"%string) (en_block <$> g :: log);
  per_heights : Holds (λ b, u64_key (number b)) hash_written (cols "height"%string)
    (en_block <$> g :: log);
  per_txs : Holds et_hash json_written (cols "transaction"%string) ((g :: log) ≫= en_txs);
  per_receipts : Holds Receipts.transaction_hash json_written (cols "receipt"%string)
    ((g :: log) ≫= en_receipts);
  per_payloads : Holds (λ b, u64_key (payload_id b)) hash_written (cols "payload"%string)
    (en_block <$> log);
}.

(** Records have the sizes of their types. *)
Record block_typed (b : ExtendedBlock) : Prop := {
  typed_hash : length (hash b) = 32%nat;
  typed_number : uint 64 (number b);
  typed_payload : uint 64 (payload_id b);
}.

(** No two records of the chain have the same key. *)
Record Distinct (g : Entry) (log : list Entry) : Prop := {
  distinct_hashes : NoDup (hash <$> (en_block <$> g :: log));
  distinct_ids : NoDup (payload_id <$> (en_block <$> g :: log));
  distinct_txs : NoDup (et_hash <$> ((g :: log) ≫= en_txs));
  distinct_receipts : NoDup (Receipts.transaction_hash <$> ((g :: log) ≫= en_receipts));
}.

Lemma persisted_commit cols cols' g log e vb :
  Persisted cols g log →
  json_written (en_block e) vb →
  cols' "block"%string = <[hash (en_block e) := vb]> (cols "block"%string) →
  cols' "height"%string = <[u64_key (number (en_block e)) := hash (en_block e)]> (cols "height"%string) →
  cols' "payload"%string
    = <[u64_key (payload_id (en_block e)) := hash (en_block e)]> (cols "payload"%string) →
  Holds et_hash json_written (cols' "transaction"%string) (((g :: log) ≫= en_txs) ++ en_txs e) →
  Holds Receipts.transaction_hash json_written (cols' "receipt"%string)
    (((g :: log) ≫= en_receipts) ++ en_receipts e) →
  Persisted cols' g (log ++ [e]).
Proof.
  intros [Hb Hh Ht Hr Hp] Hv Eb Eh Ep Ht' Hr'.
  split; rewrite ?app_comm_cons, ?fmap_app, ?bind_snoc; try done.
  - rewrite Eb. by apply (holds_snoc hash).
  - rewrite Eh. by apply (holds_snoc (λ b, u64_key (number b)) hash_written).
  - rewrite Ep. by apply (holds_snoc (λ b, u64_key (payload_id b)) hash_written).
Qed.

(** ** The in-memory indices and the columns *)

Lemma indexed_latest {K V} `{Countable K} (f : V → K) (enc : K → bytes) (m : evmap K V) l k :
  Indexed f m l → NoDup (f <$> l) → (∀ v, v ∈ l → enc (f v) = enc k → f v = k) →
  ev_get_one m k = latest_with (λ v, enc (f v)) (enc k) l.
Proof.
  intros Hi Hnd Hinj. destruct (latest_with _ (enc k) l) as [v|] eqn:Hl.
  - apply (latest_with_Some (λ v, enc (f v))) in Hl as [Hv Hk]. specialize (Hinj v Hv Hk).
    apply (Indexed_get_one_unique f _ l); [done..|]. intros v' Hv' Hk'.
    apply list_elem_of_lookup in Hv as [i Hi1], Hv' as [j Hj].
    assert (i = j) as ->; [|congruence].
    apply (NoDup_lookup _ _ _ k Hnd); rewrite list_lookup_fmap, ?Hi1, ?Hj; simpl; congruence.
  - apply (Indexed_get_one_None f _ l); [done|]. intros v Hv Hk.
    eapply latest_with_None; [exact Hl|exact Hv|]. simpl. by rewrite Hk.
Qed.

Section Agreement.
Context (app_storage : SharedMemory) (receipts : ReceiptMemory) (g : Entry) (log : list Entry).
Context (cols : Columns).
Context (Hblocks : Represents (block_memory app_storage) (en_block <$> g :: log)).
Context (Htxs : Indexed et_hash (transaction_memory app_storage) ((g :: log) ≫= en_txs)).
Context (Hreceipts : Indexed Receipts.transaction_hash receipts ((g :: log) ≫= en_receipts)).
Context (Hlinked : Linked (en_block <$> g :: log)).
Context (Hper : Persisted cols g log) (Hdist : Distinct g log).
Context (Htyped : Forall block_typed (en_block <$> g :: log)).

Lemma block_typed_in b : b ∈ en_block <$> g :: log → block_typed b.
Proof. rewrite Forall_forall in Htyped. apply Htyped. Qed.

Lemma mem_block h : by_hash (block_memory app_storage) h = latest_with hash h (en_block <$> g :: log).
Proof.
  destruct Hblocks as (Hi & _ & _).
  apply (indexed_latest hash id _ _ _ Hi); [apply (distinct_hashes _ _ Hdist)|done].
Qed.

Lemma mem_height n : uint 64 n →
  by_height (block_memory app_storage) n
    = latest_with (λ b, u64_key (number b)) (u64_key n) (en_block <$> g :: log).
Proof.
  intros Hn. destruct Hblocks as (_ & Hi & _). unfold by_height, map_by_height.
  rewrite (indexed_latest number u64_key _ _ n Hi); [by destruct (latest_with _ _ _)| |].
  - by apply linked_numbers.
  - intros b Hb. apply u64_key_inj; [by apply typed_number, block_typed_in|done].
Qed.

Lemma mem_payload id : uint 64 id → payload_id (en_block g) ≠ id →
  by_payload_id (block_memory app_storage) id
    = latest_with (λ b, u64_key (payload_id b)) (u64_key id) (en_block <$> log).
Proof.
  intros Hid Hg. destruct Hblocks as (_ & _ & Hi). unfold by_payload_id.
  rewrite (indexed_latest payload_id u64_key _ _ id Hi).
  - change (en_block <$> g :: log) with ([en_block g] ++ (en_block <$> log)).
    unfold latest_with. rewrite fold_left_app. cbn [fold_left]. rewrite decide_False; [done|].
    intros E. apply Hg. apply u64_key_inj; [|done..].
    apply typed_payload, block_typed_in. apply elem_of_cons. by left.
  - apply (distinct_ids _ _ Hdist).
  - intros b Hb. apply u64_key_inj; [by apply typed_payload, block_typed_in|done].
Qed.

Lemma mem_tx h : tx_by_hash (transaction_memory app_storage) h = latest_with et_hash h ((g :: log) ≫= en_txs).
Proof. apply (indexed_latest et_hash id _ _ _ Htxs); [apply (distinct_txs _ _ Hdist)|done]. Qed.

Lemma mem_receipt h : by_transaction_hash receipts h
  = latest_with Receipts.transaction_hash h ((g :: log) ≫= en_receipts).
Proof.
  apply (indexed_latest Receipts.transaction_hash id _ _ _ Hreceipts);
    [apply (distinct_receipts _ _ Hdist)|done].
Qed.

(** The entry of a column under a key, in terms of the in-memory lookup. *)
Lemma block_column h : match cols "block"%string !! h with
  | Some v => ∃ b, by_hash (block_memory app_storage) h = Some b ∧ from_json v = Some b
  | None => by_hash (block_memory app_storage) h = None end.
Proof.
  rewrite mem_block. destruct (cols "block"%string !! h) eqn:Hc.
  - by apply (holds_lookup _ _ _ _ _ _ (per_blocks _ _ _ Hper)).
  - by apply (holds_lookup_None _ _ _ _ _ (per_blocks _ _ _ Hper)).
Qed.

Lemma height_column n : uint 64 n → match cols "height"%string !! u64_key n with
  | Some v => ∃ b, by_height (block_memory app_storage) n = Some b ∧ v = hash b
  | None => by_height (block_memory app_storage) n = None end.
Proof.
  intros Hn. rewrite mem_height by done. destruct (cols "height"%string !! u64_key n) eqn:Hc.
  - by apply (holds_lookup _ _ _ _ _ _ (per_heights _ _ _ Hper)).
  - by apply (holds_lookup_None _ _ _ _ _ (per_heights _ _ _ Hper)).
Qed.

Lemma tx_column h : match cols "transaction"%string !! h with
  | Some v => ∃ t, tx_by_hash (transaction_memory app_storage) h = Some t ∧ from_json v = Some t
  | None => tx_by_hash (transaction_memory app_storage) h = None end.
Proof.
  rewrite mem_tx. destruct (cols "transaction"%string !! h) eqn:Hc.
  - by apply (holds_lookup _ _ _ _ _ _ (per_txs _ _ _ Hper)).
  - by apply (holds_lookup_None _ _ _ _ _ (per_txs _ _ _ Hper)).
Qed.

Lemma receipt_column h : match cols "receipt"%string !! h with
  | Some v => ∃ r, by_transaction_hash receipts h = Some r ∧ from_json v = Some r
  | None => by_transaction_hash receipts h = None end.
Proof.
  rewrite mem_receipt. destruct (cols "receipt"%string !! h) eqn:Hc.
  - by apply (holds_lookup _ _ _ _ _ _ (per_receipts _ _ _ Hper)).
  - by apply (holds_lookup_None _ _ _ _ _ (per_receipts _ _ _ Hper)).
Qed.

Lemma payload_column id : uint 64 id → payload_id (en_block g) ≠ id →
  match cols "payload"%string !! u64_key id with
  | Some v => ∃ b, by_payload_id (block_memory app_storage) id = Some b ∧ v = hash b
  | None => by_payload_id (block_memory app_storage) id = None end.
Proof.
  intros Hid Hg. rewrite mem_payload by done. destruct (cols "payload"%string !! u64_key id) eqn:Hc.
  - by apply (holds_lookup _ _ _ _ _ _ (per_payloads _ _ _ Hper)).
  - by apply (holds_lookup_None _ _ _ _ _ (per_payloads _ _ _ Hper)).
Qed.

(** The genesis block is in no index of payloads on disk, and in that of memory. *)
Lemma genesis_payload :
  cols "payload"%string !! u64_key (payload_id (en_block g)) = None
  ∧ is_Some (by_payload_id (block_memory app_storage) (payload_id (en_block g))).
Proof.
  pose proof (distinct_ids _ _ Hdist) as Hnd. rewrite !fmap_cons in Hnd. apply NoDup_cons in Hnd as [Hg _].
  assert (en_block g ∈ en_block <$> g :: log) as Hin by (rewrite fmap_cons; left).
  assert (∀ b, b ∈ en_block <$> log → u64_key (payload_id b) ≠ u64_key (payload_id (en_block g))) as Hne.
  { intros b Hb E. apply Hg. rewrite <- (u64_key_inj (payload_id b) (payload_id (en_block g))); [by apply list_elem_of_fmap_2| |..|done];
      apply typed_payload, block_typed_in; [rewrite fmap_cons; by right|done]. }
  split.
  - pose proof (per_payloads _ _ _ Hper (u64_key (payload_id (en_block g)))) as Hp.
    by rewrite (proj2 (latest_with_None _ _ _)) in Hp.
  - destruct Hblocks as (_ & _ & Hi). unfold by_payload_id.
    destruct (ev_get_one _ _) as [b|] eqn:Hn; [by exists b|].
    rewrite (Indexed_get_one_None payload_id _ _ _ Hi) in Hn. by destruct (Hn (en_block g) Hin).
Qed.

(** A block found by any index is the one its hash finds. *)
Lemma found_by_hash b : b ∈ en_block <$> g :: log →
  by_hash (block_memory app_storage) (hash b) = Some b ∧ length (hash b) = 32%nat.
Proof.
  intros Hb. split; [|by apply typed_hash, block_typed_in]. rewrite mem_block.
  by apply latest_with_unique; [apply (distinct_hashes _ _ Hdist)| |].
Qed.

(** The greatest entry of the height column is that of the head. *)
Lemma greatest_height e : greatest (cols "height"%string) e → Z.of_nat (length (g :: log)) < 2 ^ 64 →
  ∃ head, e = Some (u64_key (Z.of_nat (length log)), hash head)
    ∧ repository_latest app_storage = Some head
    ∧ query_latest app_storage = Some (Z.of_nat (length log)) ∧ head ∈ en_block <$> g :: log.
Proof.
  intros He Hlen. simpl length in Hlen.
  assert (query_latest app_storage = Some (Z.of_nat (length log))) as Hq.
  { unfold query_latest. rewrite (height_linked _ _ Hblocks Hlinked);
      rewrite ?length_fmap; [simpl length; f_equal; lia|simpl length; lia|done]. }
  assert (∃ head, (en_block <$> g :: log) !! length log = Some head) as [head Hhead].
  { apply lookup_lt_is_Some_2. rewrite length_fmap. simpl. lia. }
  assert (number head = Z.of_nat (length log)) as Hn by by apply Hlinked.
  assert (head ∈ en_block <$> g :: log) as Hin by by eapply list_elem_of_lookup_2.
  pose proof (by_height_linked _ _ _ _ Hblocks Hlinked Hhead) as Hbh.
  assert (uint 64 (Z.of_nat (length log))) as Hu by (unfold uint; lia).
  pose proof (height_column _ Hu) as Hc. destruct (cols "height"%string !! _) as [v|] eqn:Hv;
    [|congruence]. destruct Hc as (b & Hb & ->). rewrite Hbh in Hb. injection Hb as <-.
  exists head. split; [|split; [|done]].
  - destruct e as [[k w]|]; simpl in He; [|by rewrite He in Hv; apply lookup_empty_Some in Hv].
    destruct He as [Hk Hmax].
    assert (bytes_le (u64_key (Z.of_nat (length log))) k = true) as Hle by (apply Hmax; eauto).
    destruct (holds_lookup _ _ _ _ _ _ (per_heights _ _ _ Hper) Hk) as (b & Hb & ->).
    apply latest_with_Some in Hb as [Hb <-].
    pose proof (typed_number _ (block_typed_in _ Hb)) as Hub.
    rewrite u64_key_le in Hle by done. apply Z.leb_le in Hle.
    apply list_elem_of_lookup in Hb as Hb'. destruct Hb' as [i Hi].
    pose proof (proj1 Hlinked _ _ Hi) as Hni. apply lookup_lt_Some in Hi as Hlt.
    rewrite length_fmap in Hlt. simpl in Hlt. assert (i = length log) as -> by lia.
    rewrite Hhead in Hi. injection Hi as <-. by rewrite Hn.
  - unfold repository_latest, last. unfold query_latest in Hq. rewrite Hq. done.
Qed.

End Agreement.
End ChainColumns.

(** A JSON whose texts are the positions of a table of values, for the witnesses. *)
Section TableJson.
Context {A : Type} `{EqDecision A} (table : list A).

Definition table_json : Json A := {|
  to_json a := (λ p, [Z.of_nat p.1]) <$> list_find (eq a) table;
  from_json v := match v with [i] => table !! Z.to_nat i | _ => None end |}.

Lemma table_json_laws : @JsonLaws A table_json.
Proof.
  intros a b. simpl. destruct (list_find (eq a) table) as [[i x]|] eqn:Hf; [|done].
  apply list_find_Some in Hf as (Hi & <- & _). intros [= <-]. by rewrite Nat2Z.id.
Qed.
End TableJson.

#[export] Instance tx_kind_eq : EqDecision TxKind.
Proof. solve_decision. Defined.
#[export] Instance log_eq : EqDecision Log.
Proof. solve_decision. Defined.
#[export] Instance tx_eip1559_eq : EqDecision TxEip1559.
Proof. solve_decision. Defined.
#[export] Instance tx_eip2930_eq : EqDecision TxEip2930.
Proof. solve_decision. Defined.
#[export] Instance tx_legacy_eq : EqDecision TxLegacy.
Proof. solve_decision. Defined.
#[export] Instance tx_eip7702_eq : EqDecision TxEip7702.
Proof. solve_decision. Defined.
#[export] Instance tx_deposit_eq : EqDecision TxDeposit.
Proof. solve_decision. Defined.
#[export] Instance signed_eq {T} `{EqDecision T} : EqDecision (Signed T).
Proof. solve_decision. Defined.
#[export] Instance sealed_eq {T} `{EqDecision T} : EqDecision (Sealed T).
Proof. solve_decision. Defined.
#[export] Instance op_tx_eq : EqDecision OpTxEnvelope.
Proof. solve_decision. Defined.
#[export] Instance receipt_eq {L} `{EqDecision L} : EqDecision (Receipt L).
Proof. solve_decision. Defined.
#[export] Instance receipt_with_bloom_eq {L} `{EqDecision L} : EqDecision (ReceiptWithBloom L).
Proof. solve_decision. Defined.
#[export] Instance op_deposit_receipt_eq {L} `{EqDecision L} : EqDecision (OpDepositReceipt L).
Proof. solve_decision. Defined.
#[export] Instance op_receipt_eq {L} `{EqDecision L} : EqDecision (OpReceiptEnvelope L).
Proof. solve_decision. Defined.
#[export] Instance header_eq : EqDecision Header.
Proof. solve_decision. Defined.
#[export] Instance block_eq : EqDecision Block.
Proof. solve_decision. Defined.
#[export] Instance extended_block_eq : EqDecision ExtendedBlock.
Proof. solve_decision. Defined.
#[export] Instance extended_transaction_eq : EqDecision ExtendedTransaction.
Proof. solve_decision. Defined.
#[export] Instance l1_block_info_eq : EqDecision L1BlockInfo.
Proof. solve_decision. Defined.
#[export] Instance extended_receipt_eq : EqDecision ExtendedReceipt.
Proof. solve_decision. Defined.
