(* ===== verification/RocksDb.v ===== *)
(** The RocksDB back end ([storage/rocksdb/src]): the repositories and queries of
    blocks, transactions, receipts and payloads, the node database of the state
    trie and of the storage tries, the state and its queries at a height.

    RocksDB is third-party code: [RocksDb] is the interface of an open database
    and [RocksDbLaws] what it documents.  A read may fail; a write is atomic and
    fails without effect. *)
From S2P Require Import Prelude Primitives MoveTypes Errors Envelope EvMap.
From S2P Require Import Transactions Fees Receipts Payloads Blocks Application Chain.
From S2P Require Import MoveVm EthToken ToyVm Nonces Events TagValidation Execution.
From S2P Require Import Storage StateTree EvmState StateQueries Columns.
Import Addresses.

Local Open Scope Z_scope.

Class RocksDb := {
  Db : Type;
  DbError : Type;
  has_column : Db → string → bool;
  db_get : Db → string → bytes → result DbError (option bytes);
  db_write : Db → Writes → result DbError Db;
  (** [iterator_cf(.., IteratorMode::End).next()] *)
  db_last : Db → string → result DbError (option (bytes * bytes));
  (** What is on disk. *)
  contents : Db → Columns;
}.

Class RocksDbLaws `{RocksDb} : Prop := {
  db_get_ok db c k v : db_get db c k = Ok v → v = contents db c !! k;
  db_write_ok db ws db' : db_write db ws = Ok db' →
    (∀ c, contents db' c = put_all ws (contents db) c) ∧ ∀ c, has_column db' c = has_column db c;
  db_last_ok db c e : db_last db c = Ok e → greatest (contents db c) e;
}.

Section RocksDb.
Context `{RocksDb, ErrorTypes, !TxLibrary, EnvelopeLibrary, HeaderLibrary}.
Context `{!Json ExtendedBlock, !Json ExtendedTransaction, !Json ExtendedReceipt}.

(** [cf_handle(..).expect(..)] *)
Definition cf (db : Db) (c : string) : exec string :=
  assert_or_panic (has_column db c);; Done c.

(** Source: storage/rocksdb/src/generic.rs 44-48 [ToValue::to_value] *)
Definition to_value {A} `{!Json A} (a : A) : exec bytes := expect (to_json a).

(** Source: storage/rocksdb/src/generic.rs 50-55 [FromValue::from_value] *)
Definition from_value {A} `{!Json A} (slice : bytes) : exec A := expect (from_json slice).

(** [B256::new(slice.try_into().unwrap())] *)
Definition b256_from (slice : bytes) : exec B256 :=
  if decide (length slice = 32%nat) then Done slice else Panic.

(** ** Blocks *)

(** Source: storage/rocksdb/src/block.rs 24-35 [RocksDbBlockRepository::add] *)
Definition block_add (db : Db) (b : ExtendedBlock) : exec (result DbError Db) :=
  block_cf ← cf db "block";
  value ← to_value b;
  height_cf ← cf db "height";
  Done (db_write db [(block_cf, (hash b, value)); (height_cf, (u64_key (number b), hash b))]).

(** Source: storage/rocksdb/src/block.rs 37-41 [RocksDbBlockRepository::by_hash] *)
Definition block_repo_by_hash (db : Db) (h : B256) : exec (result DbError (option ExtendedBlock)) :=
  block_cf ← cf db "block";
  found ←? Done (db_get db block_cf h);
  match found with
  | None => Done (Ok None)
  | Some bytes => b ← from_value bytes; Done (Ok (Some b))
  end.

(** Source: storage/rocksdb/src/block.rs 43-51 [RocksDbBlockRepository::latest] *)
Definition block_repo_latest (db : Db) : exec (result DbError (option ExtendedBlock)) :=
  height_cf ← cf db "height";
  last ←? Done (db_last db height_cf);
  match last with
  | None => Done (Ok None)
  | Some (_, h) => h ← b256_from h; block_repo_by_hash db h
  end.

(** The transactions of a list of hashes, in order; those not stored are left
    out.
    Source: storage/rocksdb/src/block.rs 75-83 [RocksDbBlockQueries::by_hash] *)
Fixpoint get_transactions (db : Db) (tx_cf : string) (keys : list B256)
    : exec (result DbError (list ExtendedTransaction)) :=
  match keys with
  | [] => Done (Ok [])
  | key :: keys =>
    found ←? Done (db_get db tx_cf key);
    match found with
    | None => get_transactions db tx_cf keys
    | Some bytes =>
      tx ← from_value bytes;
      rest ←? get_transactions db tx_cf keys;
      Done (Ok (tx :: rest))
    end
  end.

(** Source: storage/rocksdb/src/block.rs 61-90 [RocksDbBlockQueries::by_hash] *)
Definition block_by_hash (db : Db) (h : B256) (include_transactions : bool)
    : exec (result DbError (option BlockResponse)) :=
  block_cf ← cf db "block";
  found ←? Done (db_get db block_cf h);
  match found with
  | None => Done (Ok None)
  | Some bytes =>
    b ← from_value bytes;
    if include_transactions then
      tx_cf ← cf db "transaction";
      transactions ←? get_transactions db tx_cf (transaction_hashes b);
      response ← from_block_with_transactions b transactions;
      Done (Ok (Some response))
    else Done (Ok (Some (from_block_with_transaction_hashes b)))
  end.

(** Source: storage/rocksdb/src/block.rs 92-102 [RocksDbBlockQueries::by_height] *)
Definition block_by_height (db : Db) (height : Z) (include_transactions : bool)
    : exec (result DbError (option BlockResponse)) :=
  height_cf ← cf db "height";
  found ←? Done (db_get db height_cf (u64_key height));
  match found with
  | None => Done (Ok None)
  | Some h => h ← b256_from h; block_by_hash db h include_transactions
  end.

(** Source: storage/rocksdb/src/block.rs 104-110 [RocksDbBlockQueries::latest] *)
Definition latest_height (db : Db) : exec (result DbError (option Z)) :=
  height_cf ← cf db "height";
  last ←? Done (db_last db height_cf);
  match last with
  | None => Done (Ok None)
  | Some (height, _) => height ← u64_from_key height; Done (Ok (Some height))
  end.

(** ** Transactions *)

Definition json_writes {A} `{!Json A} (c : string) (key : A → bytes) (l : list A)
    : exec Writes :=
  exec_map (λ a, value ← to_value a; Done (c, (key a, value))) l.

(** Source: storage/rocksdb/src/transaction.rs 19-33 [RocksDbTransactionRepository::extend] *)
Definition transaction_extend (db : Db) (transactions : list ExtendedTransaction)
    : exec (result DbError Db) :=
  tx_cf ← cf db "transaction";
  batch ← json_writes tx_cf et_hash transactions;
  Done (db_write db batch).

(** Source: storage/rocksdb/src/transaction.rs 43-53 [RocksDbTransactionQueries::by_hash] *)
Definition transaction_by_hash (db : Db) (h : B256)
    : exec (result DbError (option TransactionResponse)) :=
  tx_cf ← cf db "transaction";
  found ←? Done (db_get db tx_cf h);
  match found with
  | None => Done (Ok None)
  | Some bytes => tx ← from_value bytes; response ← to_response tx; Done (Ok (Some response))
  end.

(** ** Receipts *)

(** Source: storage/rocksdb/src/receipt.rs 19-23 [RocksDbReceiptRepository::contains] *)
Definition receipt_contains (db : Db) (transaction_hash : B256) : exec (result DbError bool) :=
  rx_cf ← cf db "receipt";
  found ←? Done (db_get db rx_cf transaction_hash);
  Done (Ok (bool_decide (is_Some found))).

(** Source: storage/rocksdb/src/receipt.rs 25-39 [RocksDbReceiptRepository::extend] *)
Definition receipt_extend (db : Db) (receipts : list ExtendedReceipt) : exec (result DbError Db) :=
  rx_cf ← cf db "receipt";
  batch ← json_writes rx_cf Receipts.transaction_hash receipts;
  Done (db_write db batch).

(** Source: storage/rocksdb/src/receipt.rs 49-59 [RocksDbReceiptQueries::by_transaction_hash] *)
Definition receipt_by_transaction_hash (db : Db) (transaction_hash : B256)
    : exec (result DbError (option TransactionReceipt)) :=
  rx_cf ← cf db "receipt";
  found ←? Done (db_get db rx_cf transaction_hash);
  match found with
  | None => Done (Ok None)
  | Some bytes =>
    rx ← from_value bytes; response ← to_rpc_receipt rx; Done (Ok (Some response))
  end.

(** ** Payloads *)

(** Source: storage/rocksdb/src/payload.rs 34-36 [RocksDbPayloadQueries::add_block_hash] *)
Definition add_block_hash (db : Db) (id : PayloadId) (block_hash : B256) : exec (result DbError Db) :=
  payload_cf ← cf db "payload";
  Done (db_write db [(payload_cf, (u64_key id, block_hash))]).

(** Source: storage/rocksdb/src/payload.rs 47-72 [RocksDbPayloadQueries::by_hash] *)
Definition payload_by_hash (db : Db) (h : B256) : exec (result DbError (option PayloadResponse)) :=
  block_cf ← cf db "block";
  found ←? Done (db_get db block_cf h);
  match found with
  | None => Done (Ok None)
  | Some bytes =>
    b ← from_value bytes;
    tx_cf ← cf db "transaction";
    transactions ←? get_transactions db tx_cf (transaction_hashes b);
    Done (Ok (Some (payload_response_from b (et_inner <$> transactions))))
  end.

(** Source: storage/rocksdb/src/payload.rs 74-83 [RocksDbPayloadQueries::by_id] *)
Definition payload_by_id (db : Db) (id : PayloadId) : exec (result DbError (option PayloadResponse)) :=
  payload_cf ← cf db "payload";
  found ←? Done (db_get db payload_cf (u64_key id));
  match found with
  | None => Done (Ok None)
  | Some h => h ← b256_from h; payload_by_hash db h
  end.

(** The writes of a build's commit on this back end: those of [commit_block]
    and the payload callback.
    Source: server/src/dependency/rocksdb.rs 44-46 [RocksDbDependencies::on_payload] *)
Definition on_payload (db : Db) (id : PayloadId) (block_hash : B256) : exec Db :=
  r ← add_block_hash db id block_hash; unwrap r.

(** Source: app/src/command.rs 117-147 [start_block_build] *)
Definition rocks_commit (db : Db) (b : ExtendedBlock) (txs : list OpTxEnvelope)
    (receipts : list ExtendedReceipt) : exec Db :=
  r ← receipt_extend db (Receipts.with_block_hash (hash b) <$> receipts);
  db ← unwrap r;
  r ← transaction_extend db (extended_transactions b txs);
  db ← unwrap r;
  r ← block_add db b;
  db ← unwrap r;
  on_payload db (payload_id b) (hash b).

(** ** Agreement with the in-memory back end *)

Context `{!RocksDbLaws, EvMapLaws}.

(** The database is open with its columns; its reads succeed. *)
Definition Opened (db : Db) : Prop := ∀ c, c ∈ COLUMN_FAMILIES → has_column db c = true.
Definition reads_ok (db : Db) : Prop :=
  (∀ c k, ∃ v, db_get db c k = Ok v) ∧ ∀ c, ∃ e, db_last db c = Ok e.

(** The operation [m] on [db] does what [q] does, unless a read fails: then it
    returns the error. *)
Definition agrees {A} (db : Db) (m : exec (result DbError A)) (q : exec A) : Prop :=
  m = Ok <$> q ∨ (¬ reads_ok db ∧ ∃ e, m = Done (Err e)).

Lemma agrees_ret {A} db (a : A) : agrees db (Done (Ok a)) (Done a).
Proof. by left. Qed.

Lemma agrees_get {A} db c k (f : option bytes → exec (result DbError A)) q :
  agrees db (f (contents db c !! k)) q → agrees db (qbind (Done (db_get db c k)) f) q.
Proof.
  intros Hf. destruct (db_get db c k) as [v|e] eqn:Hg; simpl.
  - by rewrite (db_get_ok _ _ _ _ Hg).
  - right. split; [|by exists e]. intros [Hr _]. destruct (Hr c k). congruence.
Qed.

Lemma agrees_last {A} db c (f : option (bytes * bytes) → exec (result DbError A)) q :
  (∀ e, greatest (contents db c) e → agrees db (f e) q) →
  agrees db (qbind (Done (db_last db c)) f) q.
Proof.
  intros Hf. destruct (db_last db c) as [v|e] eqn:Hg; simpl.
  - by apply Hf, db_last_ok.
  - right. split; [|by exists e]. intros [_ Hr]. destruct (Hr c). congruence.
Qed.

Lemma agrees_qbind {A B} db m q (f : A → exec (result DbError B)) g :
  agrees db m q → (∀ a, q = Done a → agrees db (f a) (g a)) → agrees db (qbind m f) (q ≫= g).
Proof.
  intros [->|(Hr & e & ->)] Hf; [|right; split; [done|by exists e]].
  destruct q as [a|]; [by apply Hf|by left].
Qed.

Lemma cf_opened db c : Opened db → c ∈ COLUMN_FAMILIES → cf db c = Done c.
Proof. intros Ho Hc. unfold cf. by rewrite (Ho c Hc). Qed.

Lemma from_value_json {A} `{!Json A} v (a : A) : from_json v = Some a → from_value v = Done a.
Proof. unfold from_value. by intros ->. Qed.

Lemma b256_from_ok h : length h = 32%nat → b256_from h = Done h.
Proof. intros Hh. unfold b256_from. by rewrite decide_True. Qed.

Section Simulation.
Context (db : Db) (mem : SharedMemory) (receipts : ReceiptMemory) (g : Entry) (log : list Entry).
Context (Hopen : Opened db).
Context (Hblocks : Represents (block_memory mem) (en_block <$> g :: log)).
Context (Htxs : Indexed et_hash (transaction_memory mem) ((g :: log) ≫= en_txs)).
Context (Hreceipts : Indexed Receipts.transaction_hash receipts ((g :: log) ≫= en_receipts)).
Context (Hlinked : Linked (en_block <$> g :: log)).
Context (Hper : Persisted (contents db) g log) (Hdist : Distinct g log).
Context (Htyped : Forall block_typed (en_block <$> g :: log)).

Ltac column c := rewrite (cf_opened db c) by (done || set_solver); cbn [mbind exec_bind].

Lemma get_transactions_agrees keys :
  agrees db (get_transactions db "transaction" keys) (Done (tx_by_hashes (transaction_memory mem) keys)).
Proof.
  induction keys as [|h keys IH]; [apply agrees_ret|]. cbn [get_transactions]. apply agrees_get.
  pose proof (tx_column mem g log (contents db) Htxs Hper Hdist h) as Hc. simpl.
  destruct (contents db "transaction"%string !! h) as [v|].
  - destruct Hc as (t & -> & Hj). rewrite (from_value_json _ _ Hj). simpl.
    destruct IH as [->|(Hr & e & ->)]; [by left|right; split; [done|by exists e]].
  - by rewrite Hc.
Qed.

Lemma block_by_hash_agrees h full : agrees db (block_by_hash db h full) (query_by_hash mem h full).
Proof.
  unfold block_by_hash. column "block"%string. apply agrees_get.
  pose proof (block_column mem g log (contents db) Hblocks Hper Hdist h) as Hc.
  unfold query_by_hash, block_query. destruct (contents db "block"%string !! h) as [v|].
  - destruct Hc as (b & -> & Hj). rewrite (from_value_json _ _ Hj). cbn [mbind exec_bind].
    destruct full; [|apply agrees_ret]. column "transaction"%string.
    destruct (get_transactions_agrees (transaction_hashes b)) as [->|(Hr & e & ->)];
      [|right; split; [done|by exists e]].
    left. simpl. by destruct (from_block_with_transactions b _).
  - rewrite Hc. apply agrees_ret.
Qed.

Lemma block_by_height_agrees n full : uint 64 n →
  agrees db (block_by_height db n full) (query_by_height mem n full).
Proof.
  intros Hn. unfold block_by_height. column "height"%string. apply agrees_get.
  pose proof (height_column mem g log (contents db) Hblocks Hlinked Hper Htyped n Hn) as Hc.
  unfold query_by_height. destruct (contents db "height"%string !! u64_key n) as [v|].
  - destruct Hc as (b & Hb & ->). rewrite Hb.
    assert (b ∈ en_block <$> g :: log) as Hin by by apply (block_at_height _ _ n Hblocks) in Hb as [? _].
    destruct (found_by_hash mem g log Hblocks Hdist Htyped b Hin) as [Hf Hl].
    rewrite b256_from_ok by done. rewrite <- Hf. apply block_by_hash_agrees.
  - rewrite Hc. apply agrees_ret.
Qed.

Lemma block_repo_by_hash_agrees h :
  agrees db (block_repo_by_hash db h) (Done (repository_by_hash mem h)).
Proof.
  unfold block_repo_by_hash. column "block"%string. apply agrees_get.
  pose proof (block_column mem g log (contents db) Hblocks Hper Hdist h) as Hc.
  unfold repository_by_hash. destruct (contents db "block"%string !! h) as [v|].
  - destruct Hc as (b & -> & Hj). rewrite (from_value_json _ _ Hj). apply agrees_ret.
  - rewrite Hc. apply agrees_ret.
Qed.

Lemma latest_agrees : Z.of_nat (length (g :: log)) < 2 ^ 64 →
  agrees db (block_repo_latest db) (Done (repository_latest mem))
  ∧ agrees db (latest_height db) (Done (query_latest mem)).
Proof.
  intros Hlen. unfold block_repo_latest, latest_height. column "height"%string.
  split; apply agrees_last; intros e He;
    destruct (greatest_height mem g log (contents db) Hblocks Hlinked Hper Htyped e He Hlen)
      as (head & -> & Hlast & Hq & Hin).
  - destruct (found_by_hash mem g log Hblocks Hdist Htyped head Hin) as [Hf Hl].
    rewrite b256_from_ok by done. rewrite Hlast, <- Hf. apply block_repo_by_hash_agrees.
  - rewrite u64_from_to_key by (simpl in Hlen; unfold uint; lia). rewrite Hq. apply agrees_ret.
Qed.

Lemma transaction_by_hash_agrees h :
  agrees db (transaction_by_hash db h)
    match tx_by_hash (transaction_memory mem) h with
    | None => Done None | Some tx => Some <$> to_response tx end.
Proof.
  unfold transaction_by_hash. column "transaction"%string. apply agrees_get.
  pose proof (tx_column mem g log (contents db) Htxs Hper Hdist h) as Hc.
  destruct (contents db "transaction"%string !! h) as [v|].
  - destruct Hc as (t & -> & Hj). rewrite (from_value_json _ _ Hj). left. simpl.
    by destruct (to_response t).
  - rewrite Hc. apply agrees_ret.
Qed.

Lemma receipt_agrees h :
  agrees db (receipt_contains db h) (Done (contains receipts h))
  ∧ agrees db (receipt_by_transaction_hash db h) (query_by_transaction_hash receipts h).
Proof.
  unfold receipt_contains, receipt_by_transaction_hash. column "receipt"%string.
  pose proof (receipt_column receipts g log (contents db) Hreceipts Hper Hdist h) as Hc.
  split; apply agrees_get.
  - assert (contains receipts h = bool_decide (is_Some (contents db "receipt"%string !! h))) as ->;
      [|apply agrees_ret].
    unfold contains, ev_contains_key. apply bool_decide_ext.
    rewrite <- (ev_get_one_None receipts h). unfold by_transaction_hash in Hc.
    destruct (contents db "receipt"%string !! h) as [v|].
    + destruct Hc as (r & -> & _). split; [by eexists|done].
    + rewrite Hc. split; [done|by intros []].
  - unfold query_by_transaction_hash. destruct (contents db "receipt"%string !! h) as [v|].
    + destruct Hc as (r & -> & Hj). rewrite (from_value_json _ _ Hj). left. simpl.
      by destruct (to_rpc_receipt r).
    + rewrite Hc. apply agrees_ret.
Qed.

Lemma payload_by_hash_agrees h : agrees db (payload_by_hash db h) (Done (Payloads.payload_by_hash mem h)).
Proof.
  unfold payload_by_hash. column "block"%string. apply agrees_get.
  pose proof (block_column mem g log (contents db) Hblocks Hper Hdist h) as Hc.
  unfold Payloads.payload_by_hash. destruct (contents db "block"%string !! h) as [v|].
  - destruct Hc as (b & -> & Hj). rewrite (from_value_json _ _ Hj). cbn [mbind exec_bind].
    column "transaction"%string.
    destruct (get_transactions_agrees (transaction_hashes b)) as [->|(Hr & e & ->)];
      [by left|right; split; [done|by exists e]].
  - rewrite Hc. apply agrees_ret.
Qed.

Lemma payload_by_id_agrees id : uint 64 id → payload_id (en_block g) ≠ id →
  agrees db (payload_by_id db id) (Done (Payloads.payload_by_id mem id)).
Proof.
  intros Hid Hg. unfold payload_by_id. column "payload"%string. apply agrees_get.
  pose proof (payload_column mem g log (contents db) Hblocks Hper Hdist Htyped id Hid Hg) as Hc.
  unfold Payloads.payload_by_id. destruct (contents db "payload"%string !! u64_key id) as [v|].
  - destruct Hc as (b & Hb & ->). rewrite Hb.
    assert (b ∈ en_block <$> g :: log) as Hin.
    { destruct Hblocks as (_ & _ & Hi). by apply (Indexed_get_one payload_id _ _ _ _ Hi) in Hb as [? _]. }
    destruct (found_by_hash mem g log Hblocks Hdist Htyped b Hin) as [Hf Hl].
    rewrite b256_from_ok by done. pose proof (payload_by_hash_agrees (hash b)) as Hp.
    unfold Payloads.payload_by_hash in Hp. by rewrite Hf in Hp.
  - rewrite Hc. apply agrees_ret.
Qed.

Lemma genesis_payload_differs :
  agrees db (payload_by_id db (payload_id (en_block g))) (Done None)
  ∧ is_Some (Payloads.payload_by_id mem (payload_id (en_block g))).
Proof.
  destruct (genesis_payload mem g log (contents db) Hblocks Hper Hdist Htyped) as [Hn Hs]. split.
  - unfold payload_by_id. column "payload"%string. apply agrees_get. rewrite Hn. apply agrees_ret.
  - unfold Payloads.payload_by_id. by apply fmap_is_Some.
Qed.

End Simulation.

Context `{!WorldState, !Executor, AppLibrary, !Callbacks}.

(** C19 (equivalence): a RocksDB node answers like the in-memory one, with one
    exception that is stated.  Over the same chain, in which no two blocks, no two
    transactions and no two receipts have the same hash and no two blocks the same
    payload id (on disk the later record would replace the earlier one), every
    query of blocks, transactions and receipts by hash, of blocks by number and of
    the head, and of payloads by hash and by the id of any block but the genesis
    block, returns what the in-memory stores return, and panics where they do; the
    only other outcome is the error of a read that failed.  The exception is the
    payload id of the genesis block: memory finds its payload, the disk has none. *)
Theorem rocksdb_answers_as_memory db app g log :
  Opened db → History app (g :: log) → Persisted (contents db) g log → Distinct g log →
  Forall block_typed (en_block <$> g :: log) → Z.of_nat (length (g :: log)) < 2 ^ 64 →
  let mem := storage app in
  agrees db (block_repo_latest db) (Done (repository_latest mem))
  ∧ agrees db (latest_height db) (Done (query_latest mem))
  ∧ (∀ h, agrees db (block_repo_by_hash db h) (Done (repository_by_hash mem h))
      ∧ (∀ full, agrees db (block_by_hash db h full) (query_by_hash mem h full))
      ∧ agrees db (payload_by_hash db h) (Done (Payloads.payload_by_hash mem h))
      ∧ agrees db (transaction_by_hash db h)
          match tx_by_hash (transaction_memory mem) h with
          | None => Done None | Some tx => Some <$> to_response tx end
      ∧ agrees db (receipt_contains db h) (Done (contains (receipt_memory app) h))
      ∧ agrees db (receipt_by_transaction_hash db h) (query_by_transaction_hash (receipt_memory app) h))
  ∧ (∀ n full, uint 64 n → agrees db (block_by_height db n full) (query_by_height mem n full))
  ∧ (∀ id, uint 64 id → payload_id (en_block g) ≠ id →
      agrees db (payload_by_id db id) (Done (Payloads.payload_by_id mem id)))
  ∧ agrees db (payload_by_id db (payload_id (en_block g))) (Done None)
  ∧ is_Some (Payloads.payload_by_id mem (payload_id (en_block g))).
Proof.
  intros Ho [Hb Ht Hr Hl _ _] Hp Hd Hty Hlen mem.
  edestruct latest_agrees as [L1 L2]; [done..|].
  split; [exact L1|]. split; [exact L2|]. split; [|split; [|split]].
  - intros h. edestruct (receipt_agrees db) with (h := h) as [R1 R2]; [done..|].
    split_and!; try done; try intros full; eauto using block_repo_by_hash_agrees, block_by_hash_agrees,
      payload_by_hash_agrees, transaction_by_hash_agrees.
  - intros n full Hn. eauto using block_by_height_agrees.
  - intros id Hid Hg. eauto using payload_by_id_agrees.
  - eauto using genesis_payload_differs.
Qed.

(** ** Commits *)

Context `{!JsonLaws ExtendedBlock, !JsonLaws ExtendedTransaction, !JsonLaws ExtendedReceipt}.

Lemma to_value_written {A} `{!Json A, !JsonLaws A} (a : A) v : to_value a = Done v → json_written a v.
Proof. intros Hv%expect_Done. by apply json_roundtrip. Qed.

Lemma cf_Done db c c' : cf db c = Done c' → c' = c.
Proof. unfold cf. intros ([] & _ & [= <-])%bind_Done. done. Qed.

Lemma json_writes_spec {A} `{!Json A, !JsonLaws A} c (key : A → bytes) l ws :
  json_writes c key l = Done ws →
  ∃ ws', ws = pair c <$> ws' ∧ Forall2 (λ a w, w.1 = key a ∧ json_written a w.2) l ws'.
Proof.
  intros Hw%exec_map_Done. induction Hw as [|a w l ws Ha Hw IH]; [by exists []|].
  apply bind_Done in Ha as (v & Hv & [= <-]). destruct IH as (ws' & -> & Hf).
  exists ((key a, v) :: ws'). split; [done|]. constructor; [|done]. split; [done|].
  by apply to_value_written.
Qed.

(** A batch of records of one column, written. *)
Lemma write_records {A} `{!Json A, !JsonLaws A} db db' c (key : A → bytes) l added ws :
  Holds key json_written (contents db c) l → json_writes c key added = Done ws →
  db_write db ws = Ok db' →
  Holds key json_written (contents db' c) (l ++ added)
  ∧ (∀ c', c' ≠ c → contents db' c' = contents db c') ∧ ∀ c', has_column db' c' = has_column db c'.
Proof.
  intros Hh Hws Hw. apply json_writes_spec in Hws as (ws' & -> & Hf).
  destruct (db_write_ok _ _ _ Hw) as [Hc Hcol].
  destruct (put_all_holds key json_written c (contents db) l ws' added Hh Hf) as [K1 K2].
  split; [by rewrite Hc|]. split; [|done]. intros c' Hne. by rewrite Hc, K2.
Qed.

Lemma block_add_spec db b db' : block_add db b = Done (Ok db') →
  ∃ v, json_written b v
    ∧ contents db' "block"%string = <[hash b := v]> (contents db "block"%string)
    ∧ contents db' "height"%string = <[u64_key (number b) := hash b]> (contents db "height"%string)
    ∧ (∀ c, c ≠ "block"%string → c ≠ "height"%string → contents db' c = contents db c)
    ∧ ∀ c, has_column db' c = has_column db c.
Proof.
  intros (c1 & ->%cf_Done & Hb)%bind_Done. apply bind_Done in Hb as (v & Hv%to_value_written & Hb).
  apply bind_Done in Hb as (c2 & ->%cf_Done & Hb). injection Hb as Hw.
  destruct (db_write_ok _ _ _ Hw) as [Hc Hcol]. exists v. split; [done|].
  rewrite !Hc. split_and!; [done..| |done]. intros c K1 K2. by rewrite Hc; simpl; rewrite !put_ne.
Qed.

Lemma add_block_hash_spec db id h db' : add_block_hash db id h = Done (Ok db') →
  contents db' "payload"%string = <[u64_key id := h]> (contents db "payload"%string)
  ∧ (∀ c, c ≠ "payload"%string → contents db' c = contents db c)
  ∧ ∀ c, has_column db' c = has_column db c.
Proof.
  intros (c1 & ->%cf_Done & Hb)%bind_Done. injection Hb as Hw.
  destruct (db_write_ok _ _ _ Hw) as [Hc Hcol]. rewrite Hc. split_and!; [done| |done].
  intros c Hne. by rewrite Hc; simpl; rewrite put_ne.
Qed.

(** The genesis block, added to empty columns. *)
Lemma rocks_genesis_persists db b db' :
  Opened db → (∀ c, contents db c = ∅) → block_add db b = Done (Ok db') →
  Opened db' ∧ Persisted (contents db') (MkEntry b [] []) [].
Proof.
  intros Ho He (v & Hv & B & E & N & C)%block_add_spec.
  split; [intros c Hc; rewrite C; by apply Ho|]. split; simpl; rewrite ?B, ?E, ?N, ?He by done;
    try apply holds_empty.
  - apply (holds_snoc hash json_written ∅ []); [apply holds_empty|done].
  - apply (holds_snoc (λ b, u64_key (number b)) hash_written ∅ []); [apply holds_empty|done].
Qed.

(** One commit: the columns that held the chain hold the chain extended. *)
Lemma rocks_commit_step db g log b txs receipts db' :
  Opened db → Persisted (contents db) g log →
  rocks_commit db b txs receipts = Done db' →
  Opened db' ∧ Persisted (contents db') g (log ++ [block_entry b txs receipts])
  ∧ ∀ c, c ∉ ["block"; "height"; "transaction"; "receipt"; "payload"]%string →
      contents db' c = contents db c.
Proof.
  intros Ho Hp Hc. unfold rocks_commit, on_payload in Hc.
  apply bind_Done in Hc as (r1 & K1 & Hc). apply bind_Done in Hc as (db1 & ->%unwrap_Done & Hc).
  apply bind_Done in Hc as (r2 & K2 & Hc). apply bind_Done in Hc as (db2 & ->%unwrap_Done & Hc).
  apply bind_Done in Hc as (r3 & K3 & Hc). apply bind_Done in Hc as (db3 & ->%unwrap_Done & Hc).
  apply bind_Done in Hc as (r4 & K4 & ->%unwrap_Done).
  apply bind_Done in K1 as (c1 & ->%cf_Done & K1). apply bind_Done in K1 as (w1 & Hw1 & [= K1]).
  apply bind_Done in K2 as (c2 & ->%cf_Done & K2). apply bind_Done in K2 as (w2 & Hw2 & [= K2]).
  destruct (write_records _ _ _ _ _ _ _ (per_receipts _ _ _ Hp) Hw1 K1) as (R1 & N1 & C1).
  pose proof (per_txs _ _ _ Hp) as Ht. rewrite <- (N1 "transaction"%string) in Ht by done.
  destruct (write_records _ _ _ _ _ _ _ Ht Hw2 K2) as (R2 & N2 & C2).
  destruct (block_add_spec _ _ _ K3) as (v & Hv & B3 & E3 & N3 & C3).
  destruct (add_block_hash_spec _ _ _ _ K4) as (P4 & N4 & C4).
  split; [intros c Hcol; rewrite C4, C3, C2, C1; by apply Ho|]. split.
  - apply (persisted_commit (contents db) (contents db') g log (block_entry b txs receipts) v);
      [done|done| | | | |].
    + rewrite N4, B3, N2, N1 by done. done.
    + rewrite N4, E3, N2, N1 by done. done.
    + rewrite P4, N3, N2, N1 by done. done.
    + rewrite N4, N3 by done. exact R2.
    + rewrite N4, N3, N2 by done. exact R1.
  - intros c Hcol. rewrite N4, N3, N2, N1 by set_solver. done.
Qed.

(** The commits of a run, in order. *)
Fixpoint rocks_commits (db : Db)
    (commits : list (ExtendedBlock * list OpTxEnvelope * list ExtendedReceipt)) : exec Db :=
  match commits with
  | [] => Done db
  | (b, txs, receipts) :: commits =>
    db ← rocks_commit db b txs receipts; rocks_commits db commits
  end.

(** The disk follows the chain.  A genesis block added to empty
    columns and any sequence of commits that succeed leave the columns holding
    exactly that chain: the blocks, the heights, the transactions and receipts of
    every block and the payload ids of the built ones; the columns of the state
    are untouched. *)
Lemma rocks_commits_persist db genesis db0 commits db' :
  Opened db → (∀ c, contents db c = ∅) → block_add db genesis = Done (Ok db0) →
  rocks_commits db0 commits = Done db' →
  Opened db'
  ∧ Persisted (contents db') (MkEntry genesis [] []) ((λ '(b, txs, rs), block_entry b txs rs) <$> commits)
  ∧ ∀ c, c ∉ ["block"; "height"; "transaction"; "receipt"; "payload"]%string → contents db' c = ∅.
Proof.
  intros Ho He Hg. destruct (rocks_genesis_persists db genesis db0) as [Ho0 Hp0]; [done..|].
  assert (∀ c, c ∉ ["block"; "height"; "transaction"; "receipt"; "payload"]%string →
    contents db0 c = ∅) as He0.
  { apply block_add_spec in Hg as (v & _ & _ & _ & N & _). intros c Hc. rewrite N by set_solver. done. }
  revert db0 Ho0 Hp0 He0 Hg. change (_ <$> commits) with ([] ++ ((λ '(b, txs, rs), block_entry b txs rs) <$> commits)).
  generalize (@nil Entry) as log. intros log db0 Ho0 Hp0 He0 _.
  revert log db0 Ho0 Hp0 He0. induction commits as [|[[b txs] rs] commits IH];
    intros log db0 Ho0 Hp0 He0; simpl.
  - intros [= <-]. by rewrite app_nil_r.
  - intros (db1 & H1' & Hr)%bind_Done.
    destruct (rocks_commit_step _ _ _ _ _ _ _ Ho0 Hp0 H1') as (Ho1 & Hp1 & Hc1).
    rewrite cons_middle, app_assoc. apply (IH (log ++ [block_entry b txs rs]) db1); [done..| |done].
    intros c Hc. rewrite Hc1 by done. by apply He0.
Qed.

End RocksDb.

(** Witnesses: a database kept as its columns, and a chain of a genesis block and
    a block with one transaction. *)
Module RocksWitness.
Import EvMap.Model Envelope.Witness BlockWitness ChainWitness.
#[local] Existing Instance unit_errors.
#[local] Existing Instance tx_library.
#[local] Existing Instance envelopes.
#[local] Existing Instance world.
#[local] Existing Instance executor.
#[local] Existing Instance library.
#[local] Existing Instance callbacks.

#[local] Instance long_headers : HeaderLibrary := {|
  hash_slow := λ h, be_bytes 32 (h_number h); header_default := h0 |}.

(** The greatest entry of a column, looked for among all of them. *)
Definition last_entry (m : gmap bytes bytes) : result () (option (bytes * bytes)) :=
  match map_to_list m with
  | [] => Ok None
  | l => match list_find (λ e, Forall (λ e', bytes_le e'.1 e.1 = true) l) l with
         | Some (_, e) => Ok (Some e) | None => Err () end
  end.

#[local] Instance plain_db : RocksDb := {|
  Db := Columns; DbError := (); has_column := λ _ c, bool_decide (c ∈ COLUMN_FAMILIES);
  db_get := λ db c k, Ok (db c !! k); db_write := λ db ws, Ok (put_all ws db);
  db_last := λ db c, last_entry (db c); contents := id |}.

#[local] Instance plain_db_laws : RocksDbLaws.
Proof.
  split.
  - by intros db c k v [= <-].
  - by intros db ws db' [= <-].
  - intros db c e. simpl. unfold last_entry, id. destruct (map_to_list (db c)) as [|x l] eqn:Hl.
    + intros [= <-]. by apply map_to_list_empty_iff.
    + destruct (list_find _ _) as [[i [k v]]|] eqn:Hf; [|done]. intros [= <-].
      apply list_find_Some in Hf as (Hi & Hall & _). rewrite Forall_forall in Hall.
      split; [by apply elem_of_map_to_list; rewrite Hl; apply list_elem_of_lookup; eauto|].
      intros k' [v' Hv']. apply elem_of_map_to_list in Hv'. rewrite Hl in Hv'. by apply (Hall _ Hv').
Qed.

Lemma bytes_le_refl a : bytes_le a a = true.
Proof. induction a as [|x a IH]; [done|]. simpl. by rewrite Z.ltb_irrefl. Qed.

Lemma bytes_le_total a b : bytes_le a b = true ∨ bytes_le b a = true.
Proof.
  revert b. induction a as [|x a IH]; intros [|y b]; simpl; eauto.
  destruct (Z.ltb_spec x y), (Z.ltb_spec y x); try lia; eauto.
Qed.

Lemma bytes_le_trans a b c : bytes_le a b = true → bytes_le b c = true → bytes_le a c = true.
Proof.
  revert b c. induction a as [|x a IH]; intros [|y b] [|z c]; simpl; try done.
  destruct (Z.ltb_spec x y), (Z.ltb_spec y x), (Z.ltb_spec y z), (Z.ltb_spec z y),
    (Z.ltb_spec x z), (Z.ltb_spec z x); try done; try lia. apply IH.
Qed.

Lemma greatest_exists (l : list (bytes * bytes)) : l ≠ [] →
  ∃ e, e ∈ l ∧ ∀ e', e' ∈ l → bytes_le e'.1 e.1 = true.
Proof.
  induction l as [|x l IH]; [done|]. intros _. destruct l as [|y l].
  { exists x. split; [set_solver|]. intros e' ->%list_elem_of_singleton. apply bytes_le_refl. }
  destruct IH as (e & Hin & Hmax); [done|]. destruct (bytes_le_total x.1 e.1) as [Hle|Hle].
  - exists e. split; [set_solver|]. intros e' [->|He']%elem_of_cons; [done|by apply Hmax].
  - exists x. split; [set_solver|]. intros e' [->|He']%elem_of_cons; [apply bytes_le_refl|].
    by eapply bytes_le_trans; [apply Hmax|].
Qed.

Lemma last_entry_ok m : ∃ e, last_entry m = Ok e.
Proof.
  unfold last_entry. destruct (map_to_list m) as [|x l] eqn:Hl; [by eexists|]. rewrite <- Hl.
  destruct (greatest_exists (map_to_list m)) as (e & Hin & Hmax); [by rewrite Hl|].
  destruct (list_find _ (map_to_list m)) as [[i e']|] eqn:Hf; [by eexists|].
  apply list_find_None in Hf. rewrite Forall_forall in Hf. destruct (Hf e Hin).
  rewrite Forall_forall. intros e' He'. by apply Hmax.
Qed.

Lemma plain_reads_ok (db : @Db plain_db) : reads_ok db.
Proof. split; [by eexists|]. intros c. apply last_entry_ok. Qed.

Definition g32 : ExtendedBlock := MkExtendedBlock (be_bytes 32 0) 0 0 (MkBlock h0 []).
Definition g_entry : Entry := MkEntry g32 [] [].
Definition one_tx : list TxWithMetadata := [([9], (legacy_tx, input))].
Definition executed1 :=
  match execute_transactions start one_tx 1 hx0 with
  | Done r => r | Panic => (start, MkExecutionOutcome [] [] [] 0 0, []) end.
Definition b1 : ExtendedBlock := assemble_block g32 attributes 1 [legacy_tx] 1 hx0 executed1.1.2.
Definition e1 : Entry := block_entry b1 [legacy_tx] executed1.2.
Definition mem1 : Application :=
  commit_block (genesis_update empty_app g32) b1 [legacy_tx] executed1.2.

#[local] Instance json_blocks : Json ExtendedBlock := table_json [g32; b1].
#[local] Instance json_txs : Json ExtendedTransaction := table_json (en_txs e1).
#[local] Instance json_receipts : Json ExtendedReceipt := table_json (en_receipts e1).
#[local] Instance json_blocks_laws : JsonLaws ExtendedBlock := table_json_laws _.
#[local] Instance json_txs_laws : JsonLaws ExtendedTransaction := table_json_laws _.
#[local] Instance json_receipts_laws : JsonLaws ExtendedReceipt := table_json_laws _.

Definition done_or (db : @Db plain_db) (m : exec (@Db plain_db)) : @Db plain_db :=
  match m with Done db => db | Panic => db end.
Definition no_columns : @Db plain_db := λ _ : string, (∅ : gmap bytes bytes).
Definition disk0 : @Db plain_db :=
  match block_add no_columns g32 with Done (Ok db) => db | _ => no_columns end.
Definition disk1 : @Db plain_db := done_or disk0 (rocks_commit disk0 b1 [legacy_tx] executed1.2).

Lemma plain_opened (db : @Db plain_db) : Opened db.
Proof. intros c Hc. by apply bool_decide_eq_true_2. Qed.

Lemma disk0_persisted : Persisted disk0 g_entry [].
Proof.
  apply (rocks_genesis_persists no_columns g32 disk0); [apply plain_opened|done|].
  reflexivity.
Qed.

Lemma disk1_done : rocks_commit disk0 b1 [legacy_tx] executed1.2 = Done disk1.
Proof.
  assert (match rocks_commit disk0 b1 [legacy_tx] executed1.2 with Done _ => true | Panic => false end
    = true) as Hd by (vm_compute; reflexivity).
  unfold disk1. by destruct (rocks_commit disk0 b1 [legacy_tx] executed1.2).
Qed.

Lemma mem1_history : History mem1 (g_entry :: [e1]).
Proof.
  apply (commit_block_history (genesis_update empty_app g32) [g_entry] b1 [legacy_tx] executed1.2).
  - by apply history_genesis.
  - apply (linked_snoc [] g32 b1); [|by vm_compute|by vm_compute].
    by apply (hist_linked (genesis_update empty_app g32) [g_entry]), history_genesis.
  - apply (block_entry_wf g32 attributes 1 [legacy_tx] 1 executed1.1.2 executed1.2).
    intros [|i] r Hr; [|done]. injection Hr as <-. vm_compute. done.
  - intros r _. done.
Qed.

Lemma chain1_distinct : Distinct g_entry [e1].
Proof.
  split; apply (bool_decide_unpack _); vm_compute; done.
Qed.

Lemma chain1_typed : Forall block_typed (en_block <$> [g_entry; e1]).
Proof. repeat constructor; vm_compute; done. Qed.

Lemma rocksdb_answers_as_memory_witness :
  let mem := storage mem1 in
  agrees disk1 (block_repo_latest disk1) (Done (repository_latest mem))
  ∧ agrees disk1 (latest_height disk1) (Done (query_latest mem))
  ∧ (∀ h, agrees disk1 (block_repo_by_hash disk1 h) (Done (repository_by_hash mem h))
      ∧ (∀ full, agrees disk1 (block_by_hash disk1 h full) (query_by_hash mem h full))
      ∧ agrees disk1 (payload_by_hash disk1 h) (Done (Payloads.payload_by_hash mem h))
      ∧ agrees disk1 (transaction_by_hash disk1 h)
          match tx_by_hash (transaction_memory mem) h with
          | None => Done None | Some tx => Some <$> to_response tx end
      ∧ agrees disk1 (receipt_contains disk1 h) (Done (contains (receipt_memory mem1) h))
      ∧ agrees disk1 (receipt_by_transaction_hash disk1 h)
          (query_by_transaction_hash (receipt_memory mem1) h))
  ∧ (∀ n full, uint 64 n → agrees disk1 (block_by_height disk1 n full) (query_by_height mem n full))
  ∧ (∀ id, uint 64 id → payload_id (en_block g_entry) ≠ id →
      agrees disk1 (payload_by_id disk1 id) (Done (Payloads.payload_by_id mem id)))
  ∧ agrees disk1 (payload_by_id disk1 (payload_id (en_block g_entry))) (Done None)
  ∧ is_Some (Payloads.payload_by_id mem (payload_id (en_block g_entry))).
Proof.
  apply (rocksdb_answers_as_memory disk1 mem1 g_entry [e1]);
    [apply plain_opened|apply mem1_history| |apply chain1_distinct|apply chain1_typed|done].
  apply (rocks_commit_step disk0 g_entry [] b1 [legacy_tx] executed1.2 disk1);
    [apply plain_opened|apply disk0_persisted|apply disk1_done].
Defined.

(** The stored block, transaction and receipt are found again. *)
Example disk1_answers :
  latest_height disk1 = Done (Ok (Some 1)) ∧ receipt_contains disk1 [9] = Done (Ok true)
  ∧ match payload_by_id disk1 1, transaction_by_hash disk1 [9] with
    | Done (Ok (Some p)), Done (Ok (Some t)) =>
      ep_block_number (execution_payload p) = 1 ∧ tr_block_number t = Some 1
    | _, _ => False
    end.
Proof. vm_compute. done. Qed.

Lemma rocks_commits_persist_witness :
  Opened disk1 ∧ Persisted disk1 g_entry [e1]
  ∧ ∀ c, c ∉ ["block"; "height"; "transaction"; "receipt"; "payload"]%string → disk1 c = ∅.
Proof.
  apply (rocks_commits_persist no_columns g32 disk0 [(b1, [legacy_tx], executed1.2)] disk1);
    [apply plain_opened|done|reflexivity|].
  cbn [rocks_commits]. by rewrite disk1_done.
Defined.

End RocksWitness.
