(* ===== verification/RocksState.v ===== *)
(** The state on RocksDB ([storage/rocksdb/src/trie.rs], [state.rs],
    [evm_storage_trie.rs], [evm.rs]): the node database of the state trie with its
    root, the state and its queries at a height, and the storage tries of the
    accounts, which share a column under keys prefixed by the account's address. *)
From S2P Require Import Prelude Primitives MoveTypes Errors Envelope EvMap.
From S2P Require Import Transactions Fees BaseFee Receipts Payloads Blocks Application Chain.
From S2P Require Import MoveVm EthToken ToyVm Nonces Events TagValidation Execution.
From S2P Require Import Storage StateTree EvmState StateQueries World Columns RocksDb.
Import Addresses.

Local Open Scope Z_scope.

(** Tries read their nodes as they need them.  [open_reads] is what the reads of
    opening a trie on a column see, [walk_reads] whether the reads of a later
    operation on it all succeed. *)
Class TrieReads `{RocksDb} := {
  open_reads : Db → string → result DbError Nodes;
  walk_reads : Db → string → result DbError ();
}.
Class TrieReadsLaws `{TrieReads} : Prop :=
  open_reads_ok db c nodes : open_reads db c = Ok nodes → nodes = contents db c.

(** The trie library's errors a database can cause. *)
Inductive TrieError `{RocksDb} := TrieDb (e : DbError) | InvalidStateRoot (root : B256).

Section RocksState.
Context `{RocksDb, !TrieReads, StateReading, EthTrie, EvMap}.

(** ** The node database of the state trie *)

(** Source: storage/rocksdb/src/trie.rs 10-10 [ROOT_KEY] *)
Definition ROOT_KEY : bytes := string_bytes "trie_root".

(** Source: storage/rocksdb/src/trie.rs 21-26 [RocksEthTrieDb::root] *)
Definition trie_root (db : Db) : exec (result DbError (option B256)) :=
  root_cf ← cf db "trie_root";
  found ←? Done (db_get db root_cf ROOT_KEY);
  match found with
  | None => Done (Ok None)
  | Some v => root ← b256_from v; Done (Ok (Some root))
  end.

(** Source: storage/rocksdb/src/trie.rs 28-30 [RocksEthTrieDb::put_root] *)
Definition put_root (db : Db) (root : B256) : exec (result DbError Db) :=
  root_cf ← cf db "trie_root";
  Done (db_write db [(root_cf, (ROOT_KEY, root))]).

(** Source: storage/rocksdb/src/trie.rs 48-50 [RocksEthTrieDb::get] *)
Definition trie_db_get (db : Db) (key : bytes) : exec (result DbError (option bytes)) :=
  c ← cf db "trie"; Done (db_get db c key).

(** Source: storage/rocksdb/src/trie.rs 52-54 [RocksEthTrieDb::insert] *)
Definition trie_db_insert (db : Db) (key value : bytes) : exec (result DbError Db) :=
  c ← cf db "trie"; Done (db_write db [(c, (key, value))]).

(** Source: storage/rocksdb/src/trie.rs 56-66 [RocksEthTrieDb::insert_batch] *)
Definition trie_db_insert_batch (db : Db) (entries : list (bytes * bytes)) : exec (result DbError Db) :=
  c ← cf db "trie"; Done (db_write db (pair c <$> entries)).

(** Nodes are never removed: those of older roots stay readable.
    Source: storage/rocksdb/src/trie.rs 68-71 [RocksEthTrieDb::remove] *)
Definition trie_db_remove (db : Db) (_key : bytes) : exec (result DbError Db) := Done (Ok db).

(** An empty trie reads nothing to open.
    Source: storage/rocksdb/src/trie.rs 84-91 [try_from_opt_root] *)
Definition try_from_opt_root (db : Db) (root : option B256) : exec (result TrieError Trie) :=
  c ← cf db "trie";
  match root with
  | None => Done (Ok (trie_new (contents db c)))
  | Some root =>
    nodes ←? Done (map_err TrieDb (open_reads db c));
    Done (ok_or (trie_from nodes root) (InvalidStateRoot root))
  end.

(** Source: storage/rocksdb/src/trie.rs 99-103 [from_opt_root] *)
Definition from_opt_root (db : Db) (root : option B256) : exec Trie :=
  t ← try_from_opt_root db root; unwrap t.

(** ** The state *)

(** Source: storage/rocksdb/src/state.rs 32-37 [RocksDbState] *)
Record RocksDbState := MkRocksState { rs_resolver : Trie; rs_state_root : option B256 }.

(** Source: storage/rocksdb/src/state.rs 40-50 [RocksDbState::new] *)
Definition rocks_state_new (db : Db) : exec RocksDbState :=
  root ← trie_root db;
  state_root ← unwrap root;
  resolver ← from_opt_root db state_root;
  Done (MkRocksState resolver state_root).

(** Source: storage/rocksdb/src/state.rs 52-56 [RocksDbState::persist_state_root] *)
Definition persist_state_root (db : Db) (self : RocksDbState) : exec (result DbError Db) :=
  match rs_state_root self with
  | Some root => put_root db root
  | None => Done (Ok db)
  end.

(** Source: storage/rocksdb/src/state.rs 58-60 [RocksDbState::tree] *)
Definition rocks_tree (db : Db) (self : RocksDbState) : exec Trie :=
  from_opt_root db (rs_state_root self).

Context (iteration_order : gmap TreeKey TreeValue → list (TreeKey * TreeValue)).

(** The trie's commit writes the nodes it changed in one batch.
    Source: storage/rocksdb/src/state.rs 66-73 [RocksDbState::apply] *)
Definition rocks_state_apply (db : Db) (self : RocksDbState) (changes : ChangeSet)
    : exec (result TrieError (Db * RocksDbState)) :=
  tree ← rocks_tree db self;
  _ ←? Done (map_err TrieDb (walk_reads db "trie"));
  tree ← insert_change_set_into_merkle_trie iteration_order tree changes;
  let '(root, diff) := trie_commit tree in
  written ← trie_db_insert_batch db (map_to_list diff);
  db ←? Done (map_err TrieDb written);
  let self := MkRocksState tree (Some root) in
  persisted ← persist_state_root db self;
  db ← unwrap persisted;
  Done (Ok (db, self)).

(** Source: storage/rocksdb/src/state.rs 91-93 [RocksDbState::state_root] *)
Definition rocks_state_root (self : RocksDbState) : B256 :=
  default (replicate 32 0) (rs_state_root self).

(** ** Queries at a height *)

(** Source: storage/rocksdb/src/state.rs 30-30 [HEIGHT_KEY] *)
Definition HEIGHT_KEY : bytes := string_bytes "state_height".

(** Source: storage/rocksdb/src/state.rs 126-132 [RocksDbStateQueries::height] *)
Definition state_height (db : Db) : exec (result DbError Z) :=
  height_cf ← cf db "state_height";
  found ←? Done (db_get db height_cf HEIGHT_KEY);
  match found with
  | None => Done (Ok 0)
  | Some v => height ← u64_from_key v; Done (Ok height)
  end.

(** Source: storage/rocksdb/src/state.rs 116-124 [RocksDbStateQueries::push_state_root] *)
Definition push_state_root (db : Db) (state_root : B256) : exec (result DbError Db) :=
  height ←? state_height db;
  let height := wrap 64 (height + 1) in
  c ← cf db "state";
  height_cf ← cf db "state_height";
  Done (db_write db [(c, (u64_key height, state_root)); (height_cf, (HEIGHT_KEY, u64_key height))]).

(** Source: server/src/dependency/rocksdb.rs 52-59 [RocksDbDependencies::on_tx_batch] *)
Definition rocks_on_tx_batch (db : Db) (self : RocksDbState) : exec Db :=
  r ← push_state_root db (rocks_state_root self); unwrap r.

(** Source: storage/rocksdb/src/state.rs 134-143 [RocksDbStateQueries::root_by_height] *)
Definition rocks_root_by_height (db : Db) (genesis_state_root : B256) (height : Z)
    : exec (result DbError (option B256)) :=
  if height =? 0 then Done (Ok (Some genesis_state_root)) else
  c ← cf db "state";
  found ←? Done (db_get db c (u64_key height));
  match found with
  | None => Done (Ok None)
  | Some v => root ← b256_from v; Done (Ok (Some root))
  end.

(** Source: storage/rocksdb/src/state.rs 145-152 [RocksDbStateQueries::tree] *)
Definition tree_at (db : Db) (genesis_state_root : B256) (height : Z) : exec (result DbError Trie) :=
  root ←? rocks_root_by_height db genesis_state_root height;
  t ← from_opt_root db root;
  Done (Ok t).

(** ** The storage tries *)

(** Source: storage/rocksdb/src/evm_storage_trie.rs 21-23 [RocksEthStorageTrieDb::unique_key] *)
Definition unique_key (account : Address) (key : bytes) : bytes := account ++ key.

(** Source: storage/rocksdb/src/evm_storage_trie.rs 39-44 [RocksEthStorageTrieDb::root] *)
Definition storage_trie_root (db : Db) (account : Address) : exec (result DbError (option B256)) :=
  root_cf ← cf db "evm_storage_trie_root";
  found ←? Done (db_get db root_cf account);
  match found with
  | None => Done (Ok None)
  | Some v => root ← b256_from v; Done (Ok (Some root))
  end.

(** Source: storage/rocksdb/src/evm_storage_trie.rs 46-49 [RocksEthStorageTrieDb::put_root] *)
Definition storage_put_root (db : Db) (account : Address) (root : B256) : exec (result DbError Db) :=
  root_cf ← cf db "evm_storage_trie_root";
  Done (db_write db [(root_cf, (account, root))]).

(** Source: storage/rocksdb/src/evm_storage_trie.rs 55-58 [RocksEthStorageTrieDb::get] *)
Definition storage_db_get (db : Db) (account : Address) (key : bytes)
    : exec (result DbError (option bytes)) :=
  c ← cf db "evm_storage_trie"; Done (db_get db c (unique_key account key)).

(** Source: storage/rocksdb/src/evm_storage_trie.rs 60-63 [RocksEthStorageTrieDb::insert] *)
Definition storage_db_insert (db : Db) (account : Address) (key value : bytes)
    : exec (result DbError Db) :=
  c ← cf db "evm_storage_trie"; Done (db_write db [(c, (unique_key account key, value))]).

(** Source: storage/rocksdb/src/evm_storage_trie.rs 65-76 [RocksEthStorageTrieDb::insert_batch] *)
Definition storage_db_insert_batch (db : Db) (account : Address) (entries : list (bytes * bytes))
    : exec (result DbError Db) :=
  c ← cf db "evm_storage_trie";
  Done (db_write db ((λ '(key, value), (c, (unique_key account key, value))) <$> entries)).

(** Source: storage/rocksdb/src/evm_storage_trie.rs 78-81 [RocksEthStorageTrieDb::remove] *)
Definition storage_db_remove (db : Db) (_account : Address) (_key : bytes) : exec (result DbError Db) :=
  Done (Ok db).

(** The nodes a trie of [account] finds in the shared column. *)
Definition strip_account (account : Address) (key : bytes) : option bytes :=
  if decide (take (length account) key = account) then Some (drop (length account) key) else None.
Definition account_nodes (account : Address) (nodes : Nodes) : Nodes :=
  map_imap (λ key _, nodes !! unique_key account key)
    (gset_to_gmap () (set_omap (D := gset bytes) (strip_account account) (dom nodes))).

(** A trie is opened on a staging database with an empty memory each time.
    Source: evm-ext/src/state/storage.rs 61-65 [StorageTrieRepository::for_account_with_root] *)
Definition rocks_for_account_with_root (db : Db) (account : Address) (storage_root : B256)
    : exec (result TrieError Trie) :=
  c ← cf db "evm_storage_trie";
  nodes ←? Done (map_err TrieDb (open_reads db c));
  Done (ok_or (trie_from (account_nodes account nodes) storage_root) (InvalidStateRoot storage_root)).

(** Source: evm-ext/src/state/storage.rs 51-59 [StorageTrieRepository::for_account] *)
Definition rocks_for_account (db : Db) (account : Address) : exec (result TrieError Trie) :=
  found ← storage_trie_root db account;
  root ←? Done (map_err TrieDb found);
  match root with
  | Some root => rocks_for_account_with_root db account root
  | None =>
    c ← cf db "evm_storage_trie";
    Done (Ok (trie_new (account_nodes account (contents db c))))
  end.

(** What is on disk afterwards, and the outcome: the nodes of a trie whose root
    could not be written stay.
    Source: evm-ext/src/state/storage.rs 229-246 [StorageTrie::apply] *)
Definition rocks_trie_apply (db : Db) (account : Address) (changes : StorageTrieChanges)
    : exec (Db * result TrieError ()) :=
  written ← storage_db_insert_batch db account (map_to_list (trie_diff changes));
  match written with
  | Err e => Done (db, Err (TrieDb e))
  | Ok db =>
    put ← storage_put_root db account (root changes);
    match put with
    | Err e => Done (db, Err (TrieDb e))
    | Ok db => Done (db, Ok ())
    end
  end.

(** Source: evm-ext/src/state/storage.rs 67-72 [StorageTrieRepository::apply] *)
Fixpoint rocks_repository_apply (db : Db) (changes : list (Address * StorageTrieChanges))
    : exec (Db * result TrieError ()) :=
  match changes with
  | [] => Done (db, Ok ())
  | (account, c) :: changes =>
    opened ← rocks_for_account db account;
    match opened with
    | Err e => Done (db, Err e)
    | Ok _ =>
      '(db, r) ← rocks_trie_apply db account c;
      match r with
      | Err e => Done (db, Err e)
      | Ok _ => rocks_repository_apply db changes
      end
    end
  end.

(** ** A restart *)

Context `{!RocksDbLaws, !TrieReadsLaws, !EthTrieLaws}.

(** Every read of the database succeeds, and every write. *)
Definition readable (db : Db) : Prop :=
  reads_ok db ∧ (∀ c, open_reads db c = Ok (contents db c)) ∧ ∀ c, walk_reads db c = Ok ().
Definition AlwaysHealthy : Prop := ∀ db, readable db ∧ ∀ ws, ∃ db', db_write db ws = Ok db'.

Lemma readable_get db c k : readable db → db_get db c k = Ok (contents db c !! k).
Proof. intros [[Hr _] _]. destruct (Hr c k) as [v Hv]. by rewrite Hv, (db_get_ok _ _ _ _ Hv). Qed.

(** The state in memory without the VM's cache: the reference. *)
Definition reference_apply (m : InMemoryState ()) (changes : ChangeSet)
    : exec (result () (InMemoryState ())) :=
  StateTree.state_apply iteration_order (λ r _, Ok r) m changes.

Fixpoint reference_apply_all (m : InMemoryState ()) (batches : list ChangeSet)
    : exec (result () (InMemoryState ())) :=
  match batches with
  | [] => Done (Ok m)
  | changes :: batches => m ←? reference_apply m changes; reference_apply_all m batches
  end.

Fixpoint rocks_apply_all (db : Db) (self : RocksDbState) (batches : list ChangeSet)
    : exec (result TrieError (Db * RocksDbState)) :=
  match batches with
  | [] => Done (Ok (db, self))
  | changes :: batches =>
    '(db, self) ←? rocks_state_apply db self changes; rocks_apply_all db self batches
  end.

(** What a disk holds of a state (its nodes and its root) and the state opened on
    it (its trie and root) are those of [m]. *)
Record on_disk (nodes : Nodes) (disk_root : option B256) (resolver : Trie) (root : option B256)
    (m : InMemoryState ()) : Prop := {
  disk_nodes : nodes = StateTree.db m;
  disk_opened : root = current_state_root m;
  disk_written : disk_root = current_state_root m;
  disk_root_size : ∀ r, current_state_root m = Some r → length r = 32%nat;
  disk_resolver : ∃ t, trie_of m t ∧ ∀ k, trie_get resolver k = trie_get t k;
}.

(** A commit of the trie, written. *)
Lemma on_disk_commit nodes disk_root resolver root m t :
  length (trie_commit t).1 = 32%nat →
  on_disk nodes disk_root resolver root m → trie_nodes t = StateTree.db m →
  on_disk ((trie_commit t).2 ∪ nodes) (Some (trie_commit t).1) t (Some (trie_commit t).1)
    (MkState () ((trie_commit t).2 ∪ StateTree.db m) (Some (trie_commit t).1)).
Proof.
  intros H32 [-> _ _ _ _] Hn. split; simpl; try done.
  - by intros r [= <-].
  - destruct (trie_commit_open t ((trie_commit t).2 ∪ StateTree.db m)) as (t' & Hf & Hg); [by rewrite Hn|].
    exists t'. split; [|done]. unfold trie_of, StateTree.tree. simpl. by rewrite Hf.
Qed.

(** The database and the state opened on it are those of [m]. *)
Definition in_step (db : Db) (self : RocksDbState) (m : InMemoryState ()) : Prop :=
  Opened db ∧ on_disk (contents db "trie"%string) (contents db "trie_root"%string !! ROOT_KEY)
    (rs_resolver self) (rs_state_root self) m.

Lemma step_opened db self m : in_step db self m → Opened db.
Proof. by intros [? _]. Qed.
Lemma step_disk db self m : in_step db self m →
  on_disk (contents db "trie"%string) (contents db "trie_root"%string !! ROOT_KEY)
    (rs_resolver self) (rs_state_root self) m.
Proof. by intros [_ ?]. Qed.
Lemma step_nodes db self m : in_step db self m → contents db "trie"%string = StateTree.db m.
Proof. intros Hs. apply (step_disk _ _ _ Hs). Qed.
Lemma step_root db self m : in_step db self m → rs_state_root self = current_state_root m.
Proof. intros Hs. apply (step_disk _ _ _ Hs). Qed.

Lemma from_opt_root_ref db self m t : in_step db self m →
  from_opt_root db (rs_state_root self) = Done t → StateTree.tree m = Done t.
Proof.
  intros Hs. unfold from_opt_root, try_from_opt_root, StateTree.tree.
  rewrite (cf_opened db) by (apply Hs || set_solver). cbn [mbind exec_bind].
  rewrite (step_root _ _ _ Hs), <- (step_nodes _ _ _ Hs).
  destruct (current_state_root m) as [r|]; [|done].
  destruct (open_reads db "trie") as [nodes|e] eqn:Ho; [|done]. apply open_reads_ok in Ho as ->.
  simpl. by destruct (trie_from _ r).
Qed.

Lemma from_opt_root_readable db self m : in_step db self m → readable db →
  from_opt_root db (rs_state_root self) = StateTree.tree m.
Proof.
  intros Hs (_ & Ho & _). unfold from_opt_root, try_from_opt_root, StateTree.tree.
  rewrite (cf_opened db) by (apply Hs || set_solver). cbn [mbind exec_bind].
  rewrite (step_root _ _ _ Hs), <- (step_nodes _ _ _ Hs).
  destruct (current_state_root m) as [r|]; [|done]. rewrite Ho. simpl. by destruct (trie_from _ r).
Qed.

(** The writes of a commit of the state trie. *)
Lemma commit_writes db db1 db2 diff root :
  Opened db → trie_db_insert_batch db (map_to_list diff) = Done (Ok db1) →
  put_root db1 root = Done (Ok db2) →
  Opened db2 ∧ contents db2 "trie"%string = diff ∪ contents db "trie"%string
  ∧ contents db2 "trie_root"%string = <[ROOT_KEY := root]> (contents db "trie_root"%string)
  ∧ ∀ c, c ≠ "trie"%string → c ≠ "trie_root"%string → contents db2 c = contents db c.
Proof.
  intros Ho (c1 & ->%cf_Done & K1)%bind_Done (c2 & ->%cf_Done & K2)%bind_Done.
  injection K1 as K1. injection K2 as K2.
  destruct (db_write_ok _ _ _ K1) as [W1 C1], (db_write_ok _ _ _ K2) as [W2 C2].
  destruct (put_all_union "trie" (contents db) (map_to_list diff)) as [P1 P2];
    [apply NoDup_fst_map_to_list|]. rewrite list_to_map_to_list in P1.
  split; [intros c Hc; rewrite C2, C1; by apply Ho|].
  rewrite !W2. simpl. rewrite put_eq, put_ne, !W1, P1, P2 by done. split_and!; [done..|].
  intros c N1 N2. rewrite W2. simpl. rewrite put_ne, W1, P2 by done. done.
Qed.

Context (commit_root_size : ∀ t, length (trie_commit t).1 = 32%nat).

(** One application, from the trie the change set was inserted into. *)
Lemma apply_in_step db self m t db1 db2 : in_step db self m →
  trie_nodes t = StateTree.db m →
  trie_db_insert_batch db (map_to_list (trie_commit t).2) = Done (Ok db1) →
  put_root db1 (trie_commit t).1 = Done (Ok db2) →
  in_step db2 (MkRocksState t (Some (trie_commit t).1))
    (MkState () ((trie_commit t).2 ∪ StateTree.db m) (Some (trie_commit t).1))
  ∧ ∀ c, c ≠ "trie"%string → c ≠ "trie_root"%string → contents db2 c = contents db c.
Proof.
  intros Hs Hn W1 W2.
  destruct (commit_writes _ _ _ _ _ (step_opened _ _ _ Hs) W1 W2) as (Ho & Ht & Hr & Hc).
  split; [|done]. split; [done|]. simpl. rewrite Hr, lookup_insert_eq, Ht.
  eapply on_disk_commit; [apply commit_root_size|apply (step_disk _ _ _ Hs)|done].
Qed.

Lemma inserted_nodes (m : InMemoryState ()) changes t t' : StateTree.tree m = Done t →
  insert_change_set_into_merkle_trie iteration_order t changes = Done t' → trie_nodes t' = StateTree.db m.
Proof.
  intros Ht (values & _ & [= <-])%bind_Done. rewrite insert_values_nodes. by apply trie_of_nodes.
Qed.

Lemma rocks_apply_step db self m changes db' self' : in_step db self m →
  rocks_state_apply db self changes = Done (Ok (db', self')) →
  ∃ m', reference_apply m changes = Done (Ok m') ∧ in_step db' self' m'
    ∧ ∀ c, c ≠ "trie"%string → c ≠ "trie_root"%string → contents db' c = contents db c.
Proof.
  intros Hs (t & Ht & Hr)%bind_Done. apply (from_opt_root_ref db self m t Hs) in Ht.
  apply qbind_Ok in Hr as ([] & _ & Hr). apply bind_Done in Hr as (t' & Hins & Hr).
  unfold reference_apply, StateTree.state_apply. rewrite Ht. simpl. rewrite Hins. simpl.
  pose proof (inserted_nodes _ _ _ _ Ht Hins) as Hn.
  pose proof (apply_in_step db self m t') as Hstep.
  destruct (trie_commit t') as [root diff] eqn:Hc. simpl in *.
  apply bind_Done in Hr as ([db1|] & Hw & Hr); [|done].
  apply bind_Done in Hr as (p & Hp & Hr). apply bind_Done in Hr as (db2 & ->%unwrap_Done & [= <- <-]).
  eexists. split; [done|]. destruct (resolver m). by apply (Hstep db1).
Qed.

(** When nothing fails on disk, the application succeeds whenever the reference does. *)
Lemma rocks_apply_progress db self m changes m' : AlwaysHealthy → in_step db self m →
  reference_apply m changes = Done (Ok m') →
  ∃ db' self', rocks_state_apply db self changes = Done (Ok (db', self')) ∧ in_step db' self' m'.
Proof.
  intros Hh Hs Hr. pose proof (proj1 (Hh db)) as Hread. unfold reference_apply, StateTree.state_apply in Hr.
  apply bind_Done in Hr as (t & Ht & Hr). apply bind_Done in Hr as (t' & Hins & Hr).
  pose proof (inserted_nodes _ _ _ _ Ht Hins) as Hn.
  pose proof (apply_in_step db self m t') as Hstep.
  destruct (trie_commit t') as [root diff] eqn:Hc. simpl in *. injection Hr as <-.
  destruct (proj2 (Hh db) (pair "trie"%string <$> map_to_list diff)) as [db1 W1].
  destruct (proj2 (Hh db1) [("trie_root"%string, (ROOT_KEY, root))]) as [db2 W2].
  assert (trie_db_insert_batch db (map_to_list diff) = Done (Ok db1)) as E1.
  { unfold trie_db_insert_batch. rewrite (cf_opened db) by (apply Hs || set_solver). simpl. by rewrite W1. }
  assert (put_root db1 root = Done (Ok db2)) as E2.
  { unfold put_root. destruct (db_write_ok _ _ _ W1) as [_ Hcol].
    rewrite (cf_opened db1); [simpl; by rewrite W2| |set_solver].
    intros c Hcf. rewrite Hcol. by apply Hs. }
  exists db2, (MkRocksState t' (Some root)). split; [|destruct (resolver m); by apply (Hstep db1)].
  unfold rocks_state_apply, rocks_tree. rewrite (from_opt_root_readable _ _ _ Hs Hread), Ht. simpl.
  destruct Hread as (_ & _ & ->). simpl. rewrite Hins. simpl. rewrite Hc, E1. simpl.
  unfold persist_state_root. simpl. by rewrite E2.
Qed.

(** A state opened on the database afterwards is the state of [m]. *)
Lemma reopened db self m : in_step db self m → readable db →
  ∃ self', rocks_state_new db = Done self' ∧ in_step db self' m
    ∧ ∀ k, trie_get (rs_resolver self') k = trie_get (rs_resolver self) k.
Proof.
  intros Hs Hr. pose proof (from_opt_root_readable _ _ _ Hs Hr) as Ht.
  pose proof (step_disk _ _ _ Hs) as [_ _ Hw Hsz (t & Ho & Hg)]. unfold trie_of in Ho. rewrite Ho in Ht.
  exists (MkRocksState t (current_state_root m)). unfold rocks_state_new, trie_root.
  rewrite (cf_opened db) by (apply Hs || set_solver). simpl.
  rewrite (readable_get _ _ _ Hr), Hw. simpl. rewrite (step_root _ _ _ Hs) in Ht.
  split; [|split; [split; [apply Hs|]; split; try done; [apply (step_nodes _ _ _ Hs)|by exists t]|]].
  - destruct (current_state_root m) as [r|] eqn:Hm; simpl.
    + rewrite b256_from_ok by by apply Hsz. simpl. by rewrite Ht.
    + by rewrite Ht.
  - simpl. intros k. by rewrite Hg.
Qed.

(** The state on disk is the state in memory, and it survives a
    restart.  Applying any change sets to a state opened on RocksDB succeeds
    only as the in-memory state does, with the same state root and the same
    content, and always does when the database does not fail; a state opened on
    the database afterwards has that root and reads that content.  Only the nodes
    and the root of the state are written. *)
Lemma state_survives_restart db self m batches :
  in_step db self m →
  (∀ db' self', rocks_apply_all db self batches = Done (Ok (db', self')) →
    (∃ m', reference_apply_all m batches = Done (Ok m')
      ∧ rocks_state_root self' = StateTree.state_root m'
      ∧ ∃ t, trie_of m' t ∧ ∀ k, trie_get (rs_resolver self') k = trie_get t k)
    ∧ (readable db' → ∃ self'', rocks_state_new db' = Done self''
        ∧ rocks_state_root self'' = rocks_state_root self'
        ∧ ∀ k, trie_get (rs_resolver self'') k = trie_get (rs_resolver self') k)
    ∧ ∀ c, c ≠ "trie"%string → c ≠ "trie_root"%string → contents db' c = contents db c)
  ∧ (AlwaysHealthy → ∀ m', reference_apply_all m batches = Done (Ok m') →
      ∃ db' self', rocks_apply_all db self batches = Done (Ok (db', self'))).
Proof.
  intros Hs. split; revert db self m Hs; induction batches as [|changes batches IH]; intros db self m Hs.
  - intros db' self' [= <- <-]. split; [|split; [|done]].
    + exists m. split; [done|]. split; [unfold rocks_state_root; by rewrite (step_root _ _ _ Hs)|].
      apply (step_disk _ _ _ Hs).
    + intros Hr. destruct (reopened db self m Hs Hr) as (self' & Hn & Hs' & Hg). exists self'.
      split; [done|]. split; [|done]. unfold rocks_state_root.
      by rewrite (step_root _ _ _ Hs), (step_root _ _ _ Hs').
  - intros db' self' ([db1 self1] & Ha & Hr)%qbind_Ok.
    destruct (rocks_apply_step db self m changes db1 self1 Hs Ha) as (m1 & Hm1 & Hs1 & Hc1).
    destruct (IH db1 self1 m1 Hs1 db' self' Hr) as ((m' & Hm' & Hrest) & Hnew & Hc).
    split; [|split; [done|]].
    + exists m'. split; [|done]. simpl. by rewrite Hm1.
    + intros c H1' H2'. by rewrite Hc, Hc1.
  - intros _ m' _. by exists db, self.
  - intros Hh m' (m1 & Hm1 & Hr)%qbind_Ok.
    destruct (rocks_apply_progress db self m changes m1 Hh Hs Hm1) as (db1 & self1 & Ha & Hs1).
    destruct (IH db1 self1 m1 Hs1 Hh m' Hr) as (db' & self' & Hr').
    exists db', self'. simpl. by rewrite Ha.
Qed.

End RocksState.

(** ** States at a height *)

Section Heights.
Context `{EthTrie, !EthTrieLaws, WorldLibrary}.
Context `{!TxLibrary, EnvelopeLibrary, HeaderLibrary, EvMapLaws, !Executor, !AppLibrary}.
Context `{RocksDb, !RocksDbLaws, !TrieReads}.

(** The state roots of the batches of a run, pushed in order. *)
Fixpoint push_all (db : Db) (roots : list B256) : exec (result DbError Db) :=
  match roots with
  | [] => Done (Ok db)
  | root :: roots => db ←? push_state_root db root; push_all db roots
  end.

(** The columns of the state hold the roots of heights 1, 2, ... *)
Definition pushed (db : Db) (roots : list B256) : Prop :=
  contents db "state_height"%string !! HEIGHT_KEY
    = match roots with [] => None | _ => Some (u64_key (Z.of_nat (length roots))) end
  ∧ ∀ h, 0 < h < 2 ^ 64 → contents db "state"%string !! u64_key h = roots !! pred (Z.to_nat h).

Lemma pushed_height db roots h : pushed db roots → Z.of_nat (length roots) < 2 ^ 64 →
  state_height db = Done (Ok h) → h = Z.of_nat (length roots).
Proof.
  intros [Hk _] Hl (c & ->%cf_Done & Hh)%bind_Done. apply qbind_Ok in Hh as (v & Hv & Hh).
  injection Hv as Hv. apply db_get_ok in Hv as ->. rewrite Hk in Hh.
  destruct roots as [|r roots]; [by injection Hh|].
  rewrite u64_from_to_key in Hh by (unfold uint; lia). by injection Hh as <-.
Qed.

Lemma push_step db roots root db' : pushed db roots → Z.of_nat (length roots) + 1 < 2 ^ 64 →
  push_state_root db root = Done (Ok db') →
  pushed db' (roots ++ [root])
  ∧ (∀ c, c ≠ "state"%string → c ≠ "state_height"%string → contents db' c = contents db c)
  ∧ ∀ c, has_column db' c = has_column db c.
Proof.
  intros Hp Hl (h & Hh & Hr)%qbind_Ok. apply (pushed_height db roots) in Hh as ->; [|done|lia].
  apply bind_Done in Hr as (c1 & ->%cf_Done & Hr). apply bind_Done in Hr as (c2 & ->%cf_Done & Hr).
  injection Hr as Hw. destruct (db_write_ok _ _ _ Hw) as [W C]. rewrite wrap_small in W by (unfold uint; lia).
  destruct Hp as [Hk Hs]. split; [split|split; [|done]].
  - rewrite W. simpl. rewrite put_eq, lookup_insert_eq, length_app. simpl.
    assert (∀ l : list B256, l ++ [root] ≠ []) as Hne by (intros []; done).
    specialize (Hne roots). destruct (roots ++ [root]); [done|]. do 3 f_equal. lia.
  - intros h Hh. rewrite W. simpl. rewrite put_ne, put_eq by done.
    destruct (decide (h = Z.of_nat (length roots) + 1)) as [->|Hne].
    + rewrite lookup_insert_eq. replace (pred _) with (length roots) by lia.
      by rewrite list_lookup_middle.
    + rewrite lookup_insert_ne, Hs by (done || intros E; apply u64_key_inj in E; unfold uint; lia).
      destruct (decide (pred (Z.to_nat h) < length roots)%nat).
      * by rewrite lookup_app_l.
      * rewrite !lookup_ge_None_2; [done|rewrite length_app; simpl; lia|lia].
  - intros c N1 N2. rewrite W. simpl. by rewrite !put_ne.
Qed.

Lemma push_all_spec db roots more db' : pushed db roots →
  Z.of_nat (length roots + length more) < 2 ^ 64 → push_all db more = Done (Ok db') →
  pushed db' (roots ++ more)
  ∧ (∀ c, c ≠ "state"%string → c ≠ "state_height"%string → contents db' c = contents db c)
  ∧ ∀ c, has_column db' c = has_column db c.
Proof.
  revert db roots. induction more as [|r more IH]; intros db roots Hp Hl.
  - intros [= <-]. by rewrite app_nil_r.
  - intros (db1 & H1' & Hr)%qbind_Ok. simpl in Hl.
    destruct (push_step db roots r db1 Hp ltac:(lia) H1') as (Hp1 & Hc1 & Hcol1).
    destruct (IH db1 (roots ++ [r]) Hp1) as (Hp' & Hc' & Hcol'); [rewrite length_app; simpl; lia|done|].
    rewrite cons_middle, app_assoc. split; [done|]. split.
    + intros c N1 N2. by rewrite Hc', Hc1.
    + intros c. by rewrite Hcol', Hcol1.
Qed.

Lemma rocks_root_pushed db roots r h : Opened db → readable db → pushed db roots →
  Forall (λ root, length root = 32%nat) roots → uint 64 h →
  rocks_root_by_height db r h
    = Done (Ok (if h =? 0 then Some r else roots !! pred (Z.to_nat h))).
Proof.
  intros Ho Hr [_ Hs] H32 Hh. unfold rocks_root_by_height. destruct (Z.eqb_spec h 0); [done|].
  rewrite (cf_opened db) by (done || set_solver). simpl.
  rewrite (readable_get _ _ _ Hr), Hs by (unfold uint in Hh; lia). simpl.
  destruct (roots !! _) as [root|] eqn:E; [|done].
  rewrite b256_from_ok; [done|]. rewrite Forall_forall in H32.
  by eapply H32, list_elem_of_lookup_2.
Qed.

(** The in-memory roots of a history whose block roots were pushed. *)
Lemma pushed_root app g l r h : History app (g :: l) → block_root g = r → uint 64 h →
  (if h =? 0 then Some r else (block_root <$> l) !! pred (Z.to_nat h))
    = root_by_height (queries_of app r) h.
Proof.
  intros Hh Hg Hu. unfold uint in Hu. destruct (decide (h < Z.of_nat (length (g :: l)))) as [Hlt|Hge].
  - destruct (lookup_lt_is_Some_2 (g :: l) (Z.to_nat h)) as [x Hx]; [lia|].
    rewrite (root_at_height app (g :: l) r h x); [|done|by intros g0 [= <-]|lia|done].
    destruct (Z.eqb_spec h 0) as [->|Hn]; [simpl in Hx; congruence|].
    rewrite list_lookup_fmap. destruct (Z.to_nat h) as [|n] eqn:En; [lia|]. simpl in *. by rewrite Hx.
  - simpl in Hge. rewrite (root_above_head app (g :: l)) by (try done; simpl; lia).
    destruct (Z.eqb_spec h 0); [lia|]. apply lookup_ge_None. rewrite length_fmap. lia.
Qed.

Lemma tree_at_pushed db roots r h : Opened db → readable db → pushed db roots →
  Forall (λ root, length root = 32%nat) roots → uint 64 h →
  tree_at db r h =
    t ← match if h =? 0 then Some r else roots !! pred (Z.to_nat h) with
        | Some root => expect (trie_from (contents db "trie"%string) root)
        | None => Done (trie_new (contents db "trie"%string)) end;
    Done (Ok t).
Proof.
  intros Ho Hr Hp H32 Hu. unfold tree_at. rewrite (rocks_root_pushed db roots r h) by done.
  simpl. unfold from_opt_root, try_from_opt_root. rewrite (cf_opened db) by (done || set_solver). simpl.
  destruct (if h =? 0 then _ else _) as [root|]; [|done].
  destruct Hr as (_ & -> & _). simpl. by destruct (trie_from _ root).
Qed.

(** Queries at a height on disk and in memory.  When the state
    root of every block was pushed, the trie at the height of a block is the one
    the in-memory queries resolve.  Above the head they differ: in memory there
    is no state, and on disk there is the empty trie, so that a balance or nonce
    asked there is that of an account which does not exist. *)
Lemma states_on_disk_by_height app g log e r db0 db :
  History app ((g :: log) ++ [e]) → StatesKept app (g :: log) e → block_root g = r →
  Forall (λ x, length (block_root x) = 32%nat) (log ++ [e]) →
  Z.of_nat (length ((g :: log) ++ [e])) < 2 ^ 64 →
  Opened db0 → (∀ c, contents db0 c = if decide (c = "trie"%string) then StateTree.db (state app) else ∅) →
  push_all db0 (block_root <$> log ++ [e]) = Done (Ok db) → readable db →
  ∀ h, uint 64 h →
    (h < Z.of_nat (length ((g :: log) ++ [e])) → ∃ t, tree_at db r h = Done (Ok t)
       ∧ resolver_of (queries_of app r) h = Done (Some t))
    ∧ (Z.of_nat (length ((g :: log) ++ [e])) ≤ h → resolver_of (queries_of app r) h = Done None
       ∧ ∃ t, tree_at db r h = Done (Ok t) ∧ ∀ k, trie_get t k = None).
Proof.
  intros Hh Hk Hg H32 Hlen Ho He Hp Hr h Hu.
  destruct (push_all_spec db0 [] (block_root <$> log ++ [e]) db) as (Hpush & Hc & Hcol);
    [split; [|intros h' _]; rewrite He, decide_False by done; apply lookup_empty
    |rewrite length_fmap, !length_app in *; simpl in *; lia|done|].
  rewrite (tree_at_pushed db (block_root <$> log ++ [e])), (pushed_root app g (log ++ [e]) r h), Hc, He,
    decide_True by first [done | intros c Hcf; rewrite Hcol; by apply Ho | by apply Forall_fmap].
  unfold uint in Hu. split; intros Hle.
  - destruct (lookup_lt_is_Some_2 ((g :: log) ++ [e]) (Z.to_nat h)) as [x Hx]; [lia|].
    destruct (resolver_at_height app (g :: log) e r h x) as (t & Hf & Hres);
      [done|done|by intros g0 [= <-]|lia|done|].
    exists t. split; [|done].
    rewrite (root_at_height app ((g :: log) ++ [e]) r h x);
      [simpl; by rewrite Hf|done|by intros g0 [= <-]|lia|done].
  - assert (root_by_height (queries_of app r) h = None) as Hn
      by (apply (root_above_head app ((g :: log) ++ [e])); [done|rewrite length_app in *; simpl in *; lia]).
    unfold resolver_of. rewrite Hn. split; [done|]. eexists. split; [done|]. intros k. apply trie_new_get.
Qed.

End Heights.

(** ** Storage tries in one column *)

Section StorageTries.
Context `{RocksDb, !RocksDbLaws, !TrieReads, !TrieReadsLaws, EthTrie, !EthTrieLaws}.

Lemma unique_key_inj a a' k k' : length a = length a' → unique_key a k = unique_key a' k' → a = a' ∧ k = k'.
Proof. intros Hl E. by apply app_inj_1 in E. Qed.

Lemma account_nodes_lookup a nodes k : account_nodes a nodes !! k = nodes !! unique_key a k.
Proof.
  unfold account_nodes. rewrite map_lookup_imap, lookup_gset_to_gmap.
  destruct (nodes !! unique_key a k) as [v|] eqn:Hv; simpl.
  - rewrite option_guard_True; [done|].
    apply elem_of_set_omap. exists (unique_key a k). split; [by apply elem_of_dom|].
    unfold strip_account, unique_key. rewrite decide_True by apply take_app_length.
    by rewrite drop_app_length.
  - by destruct (guard _).
Qed.

(** What the disk holds of an account: its root and its nodes. *)
Definition storage_view (db : Db) (a : Address) : option bytes * Nodes :=
  (contents db "evm_storage_trie_root"%string !! a, account_nodes a (contents db "evm_storage_trie"%string)).

(** One account's nodes, written in a batch. *)
Lemma storage_batch_view (db : Db) (a : Address) (diff : Nodes) (db1 : Db) :
  db_write db ((λ (e : bytes * bytes), let '(key, value) := e in ("evm_storage_trie"%string, (unique_key a key, value)))
    <$> map_to_list diff) = Ok db1 →
  account_nodes a (contents db1 "evm_storage_trie"%string)
    = diff ∪ account_nodes a (contents db "evm_storage_trie"%string)
  ∧ (∀ a', length a' = length a → a' ≠ a →
      account_nodes a' (contents db1 "evm_storage_trie"%string)
        = account_nodes a' (contents db "evm_storage_trie"%string))
  ∧ ∀ col, col ≠ "evm_storage_trie"%string → contents db1 col = contents db col.
Proof.
  intros K1. destruct (db_write_ok _ _ _ K1) as [W1 _].
  set (ws := (λ '(key, value), (unique_key a key, value)) <$> map_to_list diff).
  assert (((λ '(key, value), ("evm_storage_trie"%string, (unique_key a key, value)))
    <$> map_to_list diff) = pair "evm_storage_trie"%string <$> ws) as E.
  { unfold ws. rewrite <- list_fmap_compose. apply list_fmap_ext. by intros ? [??]. }
  assert (NoDup ws.*1) as Hnd.
  { unfold ws. rewrite <- list_fmap_compose.
    rewrite (list_fmap_ext _ (unique_key a ∘ fst)) by (by intros ? [??]).
    rewrite list_fmap_compose. apply NoDup_fmap_2; [|apply NoDup_fst_map_to_list].
    intros k k' Hk. by apply unique_key_inj in Hk as [_ ?]. }
  rewrite E in W1. destruct (put_all_union "evm_storage_trie" (contents db) ws Hnd) as [P1 P2].
  assert (∀ k v, (list_to_map ws : Nodes) !! k = Some v ↔ ∃ k', k = unique_key a k' ∧ diff !! k' = Some v) as Hws.
  { intros k v. rewrite <- elem_of_list_to_map by done. unfold ws. rewrite list_elem_of_fmap. split.
    - intros ([k' v'] & [= -> ->] & Hin%elem_of_map_to_list). by exists k'.
    - intros (k' & -> & Hv). exists (k', v). by rewrite elem_of_map_to_list. }
  rewrite W1, P1. split; [|split].
  - apply map_eq. intros k. rewrite account_nodes_lookup, !lookup_union, account_nodes_lookup. f_equal.
    apply option_eq. intros v. rewrite Hws. split; [|by eauto].
    intros (k2 & Hk & Hv). by apply unique_key_inj in Hk as [_ ->].
  - intros a' Hl Hne. apply map_eq. intros k. rewrite !account_nodes_lookup, lookup_union.
    assert ((list_to_map ws : Nodes) !! unique_key a' k = None) as ->; [|by destruct (_ !! _)].
    apply eq_None_not_Some. intros [v (k2 & Hk & _)%Hws]. by apply unique_key_inj in Hk as [-> _].
  - intros col Hne. by rewrite W1, P2.
Qed.

(** One account's changes, applied. *)
Lemma trie_apply_view db a c db' : rocks_trie_apply db a c = Done (db', Ok ()) →
  storage_view db' a = (Some (Storage.root c), trie_diff c ∪ (storage_view db a).2)
  ∧ (∀ a', length a' = length a → a' ≠ a → storage_view db' a' = storage_view db a')
  ∧ ∀ col, col ≠ "evm_storage_trie"%string → col ≠ "evm_storage_trie_root"%string →
      contents db' col = contents db col.
Proof.
  intros (w & (c1 & ->%cf_Done & [= <-])%bind_Done & Hr)%bind_Done.
  destruct (db_write db _) as [db1|e] eqn:K1; [|done].
  apply bind_Done in Hr as (w & (c2 & ->%cf_Done & [= <-])%bind_Done & Hr).
  destruct (db_write db1 _) as [db2|e] eqn:K2; [|done]. injection Hr as ->.
  destruct (storage_batch_view _ _ _ _ K1) as (V & N & C), (db_write_ok _ _ _ K2) as [W2 _].
  unfold storage_view. rewrite !W2. simpl. rewrite !put_eq, !put_ne, C, V by done. split; [|split].
  - by rewrite lookup_insert_eq.
  - intros a' Hl Hne. by rewrite lookup_insert_ne, N by congruence.
  - intros col N1 N2. rewrite W2. simpl. by rewrite put_ne, C.
Qed.

(** Changes of distinct accounts, applied in any order. *)
Lemma repository_apply_view changes : ∀ db db',
  Forall (λ a, length a = 20%nat) changes.*1 → NoDup changes.*1 →
  rocks_repository_apply db changes = Done (db', Ok ()) →
  (∀ a c, (a, c) ∈ changes →
    storage_view db' a = (Some (Storage.root c), trie_diff c ∪ (storage_view db a).2))
  ∧ (∀ a, length a = 20%nat → a ∉ changes.*1 → storage_view db' a = storage_view db a)
  ∧ ∀ col, col ≠ "evm_storage_trie"%string → col ≠ "evm_storage_trie_root"%string →
      contents db' col = contents db col.
Proof.
  induction changes as [|[a c] changes IH]; intros db db' H20 Hnd Hr.
  - injection Hr as <-. split; [set_solver|done].
  - apply Forall_cons in H20 as [Ha H20]. apply NoDup_cons in Hnd as [Hni Hnd]. simpl in Ha, Hni.
    apply bind_Done in Hr as ([t|] & _ & Hr); [|done].
    apply bind_Done in Hr as ([db1 r] & Hap & Hr). destruct r as [[]|]; [|done].
    destruct (trie_apply_view db a c db1 Hap) as (V1 & N1 & C1).
    destruct (IH db1 db' H20 Hnd Hr) as (V2 & N2 & C2). split; [|split].
    + intros a' c' [[= -> ->]|Hin]%elem_of_cons; [by rewrite N2|].
      assert (a' ∈ changes.*1) as Hin' by (apply list_elem_of_fmap; by exists (a', c')).
      rewrite (V2 a' c' Hin). rewrite Forall_forall in H20.
      rewrite N1; [done|by rewrite Ha, H20|]. by intros ->.
    + intros a' Ha' [Hne Hni']%not_elem_of_cons. rewrite N2, N1; [done|by rewrite Ha|done..].
    + intros col K1 K2. by rewrite C2, C1.
Qed.

(** The storage trie of an account, from what the disk holds of it. *)
Lemma for_account_view db a t : rocks_for_account db a = Done (Ok t) →
  match (storage_view db a).1 with
  | Some root => length root = 32%nat ∧ trie_from (storage_view db a).2 root = Some t
  | None => t = trie_new (storage_view db a).2
  end.
Proof.
  intros (f & (c & ->%cf_Done & Hf)%bind_Done & Hr)%bind_Done. simpl.
  destruct (db_get db _ a) as [v|e] eqn:Hg; [|by injection Hf as <-].
  apply db_get_ok in Hg as <-. simpl in Hf. destruct v as [root|].
  - apply bind_Done in Hf as (root' & Hb & [= <-]). unfold b256_from in Hb.
    case_decide; [|done]. injection Hb as <-. simpl in Hr. split; [done|].
    apply bind_Done in Hr as (c & ->%cf_Done & Hr).
    destruct (open_reads db _) as [nodes|] eqn:Ho; [|done]. apply open_reads_ok in Ho as ->.
    simpl in Hr. by destruct (trie_from _ root); simplify_eq/=.
  - injection Hf as <-. simpl in Hr. apply bind_Done in Hr as (c & ->%cf_Done & [= <-]). done.
Qed.

Lemma for_account_readable db a : Opened db → readable db →
  (∀ root, (storage_view db a).1 = Some root → length root = 32%nat) →
  rocks_for_account db a =
    Done (match (storage_view db a).1 with
          | Some root => ok_or (trie_from (storage_view db a).2 root) (InvalidStateRoot root)
          | None => Ok (trie_new (storage_view db a).2) end).
Proof.
  intros Ho Hr H32. unfold rocks_for_account, storage_trie_root, rocks_for_account_with_root.
  rewrite !(cf_opened db) by (done || set_solver). simpl. rewrite (readable_get _ _ _ Hr). simpl in *.
  destruct (_ !! a) as [root|]; simpl; [|done]. rewrite b256_from_ok by by apply H32. simpl.
  destruct Hr as (_ & -> & _). done.
Qed.

(** Storage tries of different accounts do not disturb each other
    on disk.  Applying the commits of any accounts' tries, in any order, makes
    each of these accounts open to the content its trie had, and every other
    account opens to the very trie it had, though all their nodes share one
    column; nothing else in the database changes. *)
Lemma storage_accounts_isolated db changes db' :
  (∀ t, length (trie_commit t).1 = 32%nat) →
  Opened db' → readable db' →
  Forall (λ a, length a = 20%nat) changes.*1 → NoDup changes.*1 →
  rocks_repository_apply db changes = Done (db', Ok ()) →
  (∀ a t0 t, rocks_for_account db a = Done (Ok t0) → trie_nodes t = trie_nodes t0 →
    (a, storage_commit t) ∈ changes →
    ∃ t', rocks_for_account db' a = Done (Ok t') ∧ ∀ k, trie_get t' k = trie_get t k)
  ∧ (∀ a t0, length a = 20%nat → a ∉ changes.*1 →
      rocks_for_account db a = Done (Ok t0) → rocks_for_account db' a = Done (Ok t0))
  ∧ ∀ col, col ≠ "evm_storage_trie"%string → col ≠ "evm_storage_trie_root"%string →
      contents db' col = contents db col.
Proof.
  intros H32 Ho Hr H20 Hnd Hap.
  destruct (repository_apply_view changes db db' H20 Hnd Hap) as (V & N & C). split; [|split; [|done]].
  - intros a t0 t H0' Hn Hin. apply for_account_view in H0'. rewrite for_account_readable;
      rewrite ?(V a _ Hin); simpl; [|done|done|by intros root [= <-]; apply H32].
    destruct (trie_commit_open t ((trie_commit t).2 ∪ (storage_view db a).2)) as (t' & Hf & Hg).
    { rewrite Hn. destruct (storage_view db a).1; [destruct H0' as [_ H0']|].
      - by rewrite (trie_from_nodes _ _ _ H0').
      - by rewrite H0', trie_new_nodes. }
    exists t'. simpl in Hf. by rewrite Hf.
  - intros a t0 Ha Hni H0'%for_account_view. rewrite for_account_readable; rewrite ?(N a Ha Hni); [|done|done|].
    + destruct (storage_view db a).1; [destruct H0' as [_ ->]|rewrite H0']; done.
    + intros root Hroot. rewrite Hroot in H0'. by destruct H0'.
Qed.

End StorageTries.

(** ** The queries *)

Section RocksQueries.
Context `{EvMap, StateReading, EthTrie, !EvmStateLibrary}.
Context `{!VmTypes, !MoveVm, !WorldState, !ExecutionLibrary, RocksDb, !TrieReads}.
Context (get_proof : Trie → bytes → option (list bytes)) (as_state : Trie → MoveState).

(** Source: storage/rocksdb/src/state.rs 154-159 [RocksDbStateQueries::resolver] *)
Definition rocks_resolver (db : Db) (genesis_state_root : B256) (height : Z)
    : exec (result DbError Trie) :=
  tree_at db genesis_state_root height.

(** Source: storage/rocksdb/src/state.rs 175-184 [RocksDbStateQueries::balance_at] *)
Definition rocks_balance_at (db : Db) (genesis_state_root : B256) (evm_storage : EvmStorage)
    (account : AccountAddress) (height : Z) : exec (option Z) :=
  resolver ← rocks_resolver db genesis_state_root height;
  match resolver with
  | Err _ => Done None
  | Ok tree => Some <$> quick_get_eth_balance account (as_state tree) evm_storage
  end.

(** Source: storage/rocksdb/src/state.rs 186-195 [RocksDbStateQueries::nonce_at] *)
Definition rocks_nonce_at (db : Db) (genesis_state_root : B256) (evm_storage : EvmStorage)
    (account : AccountAddress) (height : Z) : exec (option Z) :=
  resolver ← rocks_resolver db genesis_state_root height;
  match resolver with
  | Err _ => Done None
  | Ok tree => Some <$> quick_get_nonce account (as_state tree) evm_storage
  end.

(** Source: storage/rocksdb/src/state.rs 197-214 [RocksDbStateQueries::proof_at] *)
Definition rocks_proof_at (db : Db) (genesis_state_root : B256)
    (account : AccountAddress) (storage_slots : list Z) (height : Z) : exec (option ProofResponse) :=
  let address := to_eth_address account in
  if negb (in_l2_range address) then Done None else
  tree ← tree_at db genesis_state_root height;
  match tree with
  | Err _ => Done None
  | Ok tree =>
    resolver ← rocks_resolver db genesis_state_root height;
    match resolver with
    | Err _ => Done None
    | Ok _ =>
      proof_from_trie_and_resolver get_proof address storage_slots tree (λ address root,
        opened ← rocks_for_account_with_root db address root;
        Done (match opened with Ok t => Some t | Err _ => None end))
    end
  end.

(** Source: storage/rocksdb/src/state.rs 216-218 [RocksDbStateQueries::resolver_at] *)
Definition rocks_resolver_at (db : Db) (genesis_state_root : B256) (height : Z) : exec Trie :=
  resolver ← rocks_resolver db genesis_state_root height; unwrap resolver.

End RocksQueries.

(** Witnesses: the toy trie on the plain database. *)
Module RocksStateWitness.
Import EvMap.Model Envelope.Witness BlockWitness ChainWitness EvmStateWitness RocksWitness.
#[local] Existing Instance unit_errors.
#[local] Existing Instance tx_library.
#[local] Existing Instance envelopes.
#[local] Existing Instance long_headers.
#[local] Existing Instance plain_db.
#[local] Existing Instance plain_db_laws.
#[local] Existing Instance StorageWitness.toy_trie.
#[local] Existing Instance StorageWitness.toy_trie_laws.
#[local] Existing Instance WorldWitness.world_library.
#[local] Existing Instance WorldWitness.app_library.
#[local] Existing Instance in_memory_callbacks.

#[local] Instance plain_reads : TrieReads := {|
  open_reads := λ db c, Ok (contents db c); walk_reads := λ _ _, Ok () |}.
#[local] Instance plain_reads_laws : TrieReadsLaws.
Proof. by intros db c nodes [= <-]. Qed.

Lemma plain_readable db : readable db.
Proof. split; [apply plain_reads_ok|done]. Qed.
Lemma plain_healthy : AlwaysHealthy.
Proof. intros db. split; [apply plain_readable|]. intros ws. by exists (put_all ws db). Qed.
Lemma toy_root_size (t : Trie) : length (trie_commit t).1 = 32%nat.
Proof. apply length_be_bytes. Qed.

(** ** Two change sets, applied and reopened *)

Definition account_change (b : Z) : ChangeSet := WorldWitness.account_change b.
Definition batches : list ChangeSet := [account_change 1; account_change 2].
Definition empty_state : RocksDbState := MkRocksState (trie_new ∅) None.
Definition memory_state : InMemoryState () := MkState () ∅ None.

Lemma empty_in_step : in_step no_columns empty_state memory_state.
Proof. split; [apply plain_opened|]. split; try done. exists (trie_new ∅). split; done. Qed.

Lemma state_survives_restart_witness :
  (∀ db' self', rocks_apply_all map_to_list no_columns empty_state batches = Done (Ok (db', self')) →
    (∃ m', reference_apply_all map_to_list memory_state batches = Done (Ok m')
      ∧ rocks_state_root self' = StateTree.state_root m'
      ∧ ∃ t, trie_of m' t ∧ ∀ k, trie_get (rs_resolver self') k = trie_get t k)
    ∧ (readable db' → ∃ self'', rocks_state_new db' = Done self''
        ∧ rocks_state_root self'' = rocks_state_root self'
        ∧ ∀ k, trie_get (rs_resolver self'') k = trie_get (rs_resolver self') k)
    ∧ ∀ c, c ≠ "trie"%string → c ≠ "trie_root"%string → contents db' c = contents no_columns c)
  ∧ (AlwaysHealthy → ∀ m', reference_apply_all map_to_list memory_state batches = Done (Ok m') →
      ∃ db' self', rocks_apply_all map_to_list no_columns empty_state batches = Done (Ok (db', self'))).
Proof.
  apply (state_survives_restart map_to_list toy_root_size no_columns empty_state memory_state batches).
  apply empty_in_step.
Defined.

(** Both change sets are applied. *)
Example batches_applied :
  match rocks_apply_all map_to_list no_columns empty_state batches with
  | Done (Ok (db, self)) => match rocks_state_new db with
    | Done self' => rocks_state_root self' = rocks_state_root self
    | Panic => False end
  | _ => False
  end.
Proof. vm_compute. done. Qed.

(** ** The storage of an account *)

Definition contract : Address := replicate 20 7.
Definition slot_trie : Trie := trie_insert [1] [5] (trie_new ∅).
Definition slot_changes : list (Address * StorageTrieChanges) := [(contract, storage_commit slot_trie)].
Definition disk_after : @Db plain_db :=
  match rocks_repository_apply no_columns slot_changes with Done (db, _) => db | Panic => no_columns end.

Lemma storage_accounts_isolated_witness :
  (∀ a t0 t, rocks_for_account no_columns a = Done (Ok t0) → trie_nodes t = trie_nodes t0 →
    (a, storage_commit t) ∈ slot_changes →
    ∃ t', rocks_for_account disk_after a = Done (Ok t') ∧ ∀ k, trie_get t' k = trie_get t k)
  ∧ (∀ a t0, length a = 20%nat → a ∉ slot_changes.*1 →
      rocks_for_account no_columns a = Done (Ok t0) → rocks_for_account disk_after a = Done (Ok t0))
  ∧ ∀ col, col ≠ "evm_storage_trie"%string → col ≠ "evm_storage_trie_root"%string →
      contents disk_after col = contents no_columns col.
Proof.
  apply (storage_accounts_isolated no_columns slot_changes disk_after);
    [apply toy_root_size|apply plain_opened|apply plain_readable|by repeat constructor| |reflexivity].
  apply NoDup_singleton.
Defined.

Example slot_found : match rocks_for_account disk_after contract with
  | Done (Ok t) => trie_get t [1] = Some [5] | _ => False end.
Proof. vm_compute. done. Qed.

(** ** Two blocks of one state root *)

Definition some_root : B256 := StorageWitness.toy_hash (StorageWitness.toy_node ∅).
Definition some_nodes : Nodes := {[ some_root := StorageWitness.toy_node ∅ ]}.
Definition outcome0 : ExecutionOutcome := MkExecutionOutcome [] some_root [] 0 0.
Definition genesis0 : ExtendedBlock :=
  MkExtendedBlock (be_bytes 32 0) 0 0 (MkBlock (with_execution_outcome outcome0 h0) []).
Definition next0 : ExtendedBlock := assemble_block genesis0 attributes 1 [] 1 hx0 outcome0.
Definition e0 : Entry := MkEntry genesis0 [] [].
Definition e1 : Entry := block_entry next0 [] [].
Definition app0 : Application :=
  commit_block (genesis_update (MkApplication ∅ (MkEip1559GasFee 6 50) ev_new shared_memory_new
    (MkState () some_nodes (Some some_root)) (MkRepository ∅)) genesis0) next0 [] [].

Lemma app0_history : History app0 (([e0]) ++ [e1]).
Proof.
  apply commit_block_history.
  - by apply history_genesis.
  - apply (linked_snoc [] genesis0 next0); [|by vm_compute|by vm_compute]. split.
    + intros i x Hx. apply list_lookup_singleton_Some in Hx as [-> <-]. done.
    + intros i x y _ Hy. apply list_lookup_singleton_Some in Hy as [? _]. done.
  - apply block_entry_wf. by intros i r Hr.
  - intros r Hr. by apply not_elem_of_nil in Hr.
Qed.

Definition disk_base : @Db plain_db :=
  λ c : string, if decide (c = "trie"%string) then some_nodes else ∅.
Definition disk_pushed : @Db plain_db :=
  match push_all disk_base [some_root] with Done (Ok db) => db | _ => disk_base end.

Lemma states_on_disk_by_height_witness :
  (∃ t, tree_at disk_pushed some_root 1 = Done (Ok t)
     ∧ resolver_of (queries_of app0 some_root) 1 = Done (Some t))
  ∧ resolver_of (queries_of app0 some_root) 2 = Done None
  ∧ ∃ t, tree_at disk_pushed some_root 2 = Done (Ok t) ∧ ∀ k, trie_get t k = None.
Proof.
  edestruct (λ H1 H2 H3 H4 H5 H6 H7 H8 H9,
    conj (states_on_disk_by_height app0 e0 [] e1 some_root disk_base disk_pushed H1 H2 H3 H4 H5 H6 H7 H8 H9 1)
      (states_on_disk_by_height app0 e0 [] e1 some_root disk_base disk_pushed H1 H2 H3 H4 H5 H6 H7 H8 H9 2))
    as [Hat Habove];
    [apply app0_history| |done| |done|apply plain_opened|done|reflexivity|apply plain_readable|].
  - split; [|split; [done|]].
    + intros k v Hk. assert (({[ some_root := StorageWitness.toy_node ∅ ]} : Nodes) !! k = Some v)
        as [<- <-]%lookup_singleton_Some by exact Hk. done.
    + intros x [->|[->|[]%not_elem_of_nil]%elem_of_cons]%elem_of_cons; vm_compute; by eexists.
  - repeat constructor.
  - split; [apply Hat|apply Habove]; unfold uint; simpl; lia.
Defined.

End RocksStateWitness.
