(* ===== verification/Heed.v ===== *)
(** The LMDB back end over [heed] ([storage/heed/src]): the repositories and
    queries of blocks, transactions, receipts and payloads, and the state roots by
    height.

    [heed] is third-party code: [Heed] is the interface of an environment and its
    transactions, and [HeedLaws] what it documents.  A read transaction sees the
    environment as it was when the transaction began; the writes of a write
    transaction reach the environment together, by its commit, or not at all.
    Keys and values are typed: a value that does not decode is an error of the
    read, where the RocksDB back end panics. *)
From S2P Require Import Prelude Primitives MoveTypes Errors Envelope EvMap.
From S2P Require Import Transactions Fees Receipts Payloads Blocks Application Chain.
From S2P Require Import MoveVm EthToken ToyVm Nonces Events TagValidation Execution.
From S2P Require Import Storage StateTree EvmState StateQueries World Queries Columns RocksDb.
Import Addresses Words.

Local Open Scope Z_scope.

Class Heed := {
  Env : Type;
  Txn : Type;
  HeedError : Type;
  (** [heed::Error::Encoding], [heed::Error::Decoding]. *)
  Encoding : HeedError;
  Decoding : HeedError;
  read_txn : Env → result HeedError Txn;
  write_txn : Env → result HeedError Txn;
  (** [open_database(.., Some(name))]: whether the database exists. *)
  open_database : Txn → string → result HeedError bool;
  txn_get : Txn → string → bytes → result HeedError (option bytes);
  txn_last : Txn → string → result HeedError (option (bytes * bytes));
  txn_put : Txn → string → bytes → bytes → result HeedError Txn;
  (** [RoTxn::commit] and [RwTxn::commit]. *)
  ro_commit : Txn → result HeedError ();
  rw_commit : Env → Txn → result HeedError Env;
  (** What is on disk and what a transaction sees, with the databases there are. *)
  env_contents : Env → Columns;
  env_has : Env → string → bool;
  txn_view : Txn → Columns;
  txn_has : Txn → string → bool;
}.

Class HeedLaws `{Heed} : Prop := {
  read_txn_ok env t : read_txn env = Ok t →
    ∀ c, txn_view t c = env_contents env c ∧ txn_has t c = env_has env c;
  write_txn_ok env t : write_txn env = Ok t →
    ∀ c, txn_view t c = env_contents env c ∧ txn_has t c = env_has env c;
  open_database_ok t c b : open_database t c = Ok b → b = txn_has t c;
  txn_get_ok t c k v : txn_get t c k = Ok v → v = txn_view t c !! k;
  txn_last_ok t c e : txn_last t c = Ok e → greatest (txn_view t c) e;
  txn_put_ok t c k v t' : txn_put t c k v = Ok t' →
    ∀ c', txn_view t' c' = put c k v (txn_view t) c' ∧ txn_has t' c' = txn_has t c';
  rw_commit_ok env t env' : rw_commit env t = Ok env' →
    ∀ c, env_contents env' c = txn_view t c ∧ env_has env' c = txn_has t c;
}.

Section Heed.
Context `{Heed, ErrorTypes, !TxLibrary, EnvelopeLibrary, HeaderLibrary}.
Context `{!Json ExtendedBlock, !Json ExtendedTransaction, !Json ExtendedReceipt}.

(** ** Typed keys and values *)

(** Opening a database that must exist: the accessors [block_database],
    [receipt_database] and so on, each with its name.
    Source: storage/heed/src/block.rs 154-160 [HeedBlockExt::block_database] *)
Definition database (t : Txn) (name : string) : exec (result HeedError string) :=
  found ←? Done (open_database t name);
  assert_or_panic found;; Done (Ok name).

(** Source: storage/heed/src/generic.rs 26-28 [EncodableB256::bytes_decode] *)
Definition decode_b256 (bs : bytes) : result HeedError B256 :=
  if decide (length bs = 32%nat) then Ok bs else Err Decoding.

Definition decode_u64 (bs : bytes) : result HeedError Z :=
  if decide (length bs = 8%nat) then Ok (be_val bs) else Err Decoding.

(** Source: storage/heed/src/generic.rs 62-64 [SerdeJson::bytes_encode] *)
Definition encode_json {A} `{!Json A} (item : A) : result HeedError bytes :=
  ok_or (to_json item) Encoding.

(** Source: storage/heed/src/generic.rs 73-75 [SerdeJson::bytes_decode] *)
Definition decode_json {A} `{!Json A} (bs : bytes) : result HeedError A :=
  ok_or (from_json bs) Decoding.

(** Source: storage/heed/src/all.rs 37-47 [HeedDb::get] *)
Definition heed_get {A} (decode : bytes → result HeedError A) (t : Txn) (db : string) (key : bytes)
    : result HeedError (option A) :=
  found ← txn_get t db key;
  match found with
  | None => Ok None
  | Some bs => Some <$> decode bs
  end.

(** Source: storage/heed/src/all.rs 49-55 [HeedDb::last] *)
Definition heed_last {K A} (decode_key : bytes → result HeedError K)
    (decode : bytes → result HeedError A) (t : Txn) (db : string)
    : result HeedError (option (K * A)) :=
  found ← txn_last t db;
  match found with
  | None => Ok None
  | Some (k, v) => k ← decode_key k; v ← decode v; Ok (Some (k, v))
  end.

(** Source: storage/heed/src/all.rs 24-35 [HeedDb::put] *)
Definition put_json {A} `{!Json A} (t : Txn) (db : string) (key : bytes) (item : A)
    : result HeedError Txn :=
  value ← encode_json item; txn_put t db key value.

(** ** Blocks *)

(** Source: storage/heed/src/block.rs 30-42 [HeedBlockRepository::add] *)
Definition heed_block_add (env : Env) (b : ExtendedBlock) : exec (result HeedError Env) :=
  t ←? Done (write_txn env);
  db ←? database t "block";
  t ←? Done (put_json t db (hash b) b);
  db ←? database t "height";
  t ←? Done (txn_put t db (u64_key (number b)) (hash b));
  Done (rw_commit env t).

(** Source: storage/heed/src/block.rs 44-54 [HeedBlockRepository::by_hash] *)
Definition heed_block_repo_by_hash (env : Env) (h : B256)
    : exec (result HeedError (option ExtendedBlock)) :=
  t ←? Done (read_txn env);
  db ←? database t "block";
  let response := heed_get decode_json t db h in
  _ ←? Done (ro_commit t);
  Done response.

(** The block is read before the commit; an error of that read is returned after
    it.
    Source: storage/heed/src/block.rs 56-68 [HeedBlockRepository::latest] *)
Definition heed_block_repo_latest (env : Env) : exec (result HeedError (option ExtendedBlock)) :=
  t ←? Done (read_txn env);
  db ←? database t "height";
  last ←? Done (heed_last decode_u64 decode_b256 t db);
  response ← match last with
    | None => Done (Ok None)
    | Some (_, h) => db ←? database t "block"; Done (heed_get decode_json t db h)
    end;
  _ ←? Done (ro_commit t);
  Done response.

(** The transactions of a list of hashes, in order; those not stored are left
    out.
    Source: storage/heed/src/block.rs 95-98 [HeedBlockQueries::by_hash] *)
Fixpoint heed_transactions (t : Txn) (db : string) (keys : list B256)
    : result HeedError (list ExtendedTransaction) :=
  match keys with
  | [] => Ok []
  | key :: keys =>
    found ← heed_get decode_json t db key;
    rest ← heed_transactions t db keys;
    Ok (match found with None => rest | Some tx => tx :: rest end)
  end.

(** Source: storage/heed/src/block.rs 78-114 [HeedBlockQueries::by_hash] *)
Definition heed_block_by_hash (env : Env) (h : B256) (include_transactions : bool)
    : exec (result HeedError (option BlockResponse)) :=
  t ←? Done (read_txn env);
  db ←? database t "block";
  found ←? Done (heed_get decode_json t db h);
  match found with
  | Some b =>
    if include_transactions then
      db ←? database t "transaction";
      transactions ←? Done (heed_transactions t db (transaction_hashes b));
      _ ←? Done (ro_commit t);
      response ← from_block_with_transactions b transactions;
      Done (Ok (Some response))
    else
      _ ←? Done (ro_commit t);
      Done (Ok (Some (from_block_with_transaction_hashes b)))
  | None => _ ←? Done (ro_commit t); Done (Ok None)
  end.

(** Source: storage/heed/src/block.rs 116-132 [HeedBlockQueries::by_height] *)
Definition heed_block_by_height (env : Env) (height : Z) (include_transactions : bool)
    : exec (result HeedError (option BlockResponse)) :=
  t ←? Done (read_txn env);
  db ←? database t "height";
  found ←? Done (heed_get decode_b256 t db (u64_key height));
  match found with
  | None => Done (Ok None)
  | Some h => _ ←? Done (ro_commit t); heed_block_by_hash env h include_transactions
  end.

(** Source: storage/heed/src/block.rs 134-144 [HeedBlockQueries::latest] *)
Definition heed_latest_height (env : Env) : exec (result HeedError (option Z)) :=
  t ←? Done (read_txn env);
  db ←? database t "height";
  pair ←? Done (heed_last decode_u64 decode_b256 t db);
  _ ←? Done (ro_commit t);
  Done (Ok (fst <$> pair)).

(** ** Transactions and receipts *)

(** Records put one after the other; the first error ends them. *)
Fixpoint put_records {A} `{!Json A} (t : Txn) (db : string) (key : A → bytes) (l : list A)
    : result HeedError Txn :=
  match l with
  | [] => Ok t
  | a :: l => t ← put_json t db (key a) a; put_records t db key l
  end.

(** Source: storage/heed/src/transaction.rs 27-41 [HeedTransactionRepository::extend] *)
Definition heed_transaction_extend (env : Env) (transactions : list ExtendedTransaction)
    : exec (result HeedError Env) :=
  t ←? Done (write_txn env);
  db ←? database t "transaction";
  t ←? Done (put_records t db et_hash transactions);
  Done (rw_commit env t).

(** Source: storage/heed/src/transaction.rs 51-65 [HeedTransactionQueries::by_hash] *)
Definition heed_transaction_by_hash (env : Env) (h : B256)
    : exec (result HeedError (option TransactionResponse)) :=
  t ←? Done (read_txn env);
  db ←? database t "transaction";
  found ←? Done (heed_get decode_json t db h);
  response ← match found with None => Done None | Some tx => Some <$> to_response tx end;
  _ ←? Done (ro_commit t);
  Done (Ok response).

(** Source: storage/heed/src/receipt.rs 27-37 [HeedReceiptRepository::contains] *)
Definition heed_receipt_contains (env : Env) (transaction_hash : B256) : exec (result HeedError bool) :=
  t ←? Done (read_txn env);
  db ←? database t "receipt";
  let response := (λ v, bool_decide (is_Some v)) <$> txn_get t db transaction_hash in
  _ ←? Done (ro_commit t);
  Done response.

(** Source: storage/heed/src/receipt.rs 39-53 [HeedReceiptRepository::extend] *)
Definition heed_receipt_extend (env : Env) (receipts : list ExtendedReceipt)
    : exec (result HeedError Env) :=
  t ←? Done (write_txn env);
  db ←? database t "receipt";
  t ←? Done (put_records t db Receipts.transaction_hash receipts);
  Done (rw_commit env t).

(** Source: storage/heed/src/receipt.rs 63-77 [HeedReceiptQueries::by_transaction_hash] *)
Definition heed_receipt_by_hash (env : Env) (transaction_hash : B256)
    : exec (result HeedError (option TransactionReceipt)) :=
  t ←? Done (read_txn env);
  db ←? database t "receipt";
  let response := heed_get decode_json t db transaction_hash in
  _ ←? Done (ro_commit t);
  found ←? Done response;
  match found with
  | None => Done (Ok None)
  | Some rx => response ← to_rpc_receipt rx; Done (Ok (Some response))
  end.

(** ** Payloads *)

(** Source: storage/heed/src/payload.rs 29-37 [HeedPayloadQueries::add_block_hash] *)
Definition heed_add_block_hash (env : Env) (id : PayloadId) (block_hash : B256)
    : exec (result HeedError Env) :=
  t ←? Done (write_txn env);
  db ←? database t "payload";
  t ←? Done (txn_put t db (u64_key (to_u64 id)) block_hash);
  Done (rw_commit env t).

(** Source: storage/heed/src/payload.rs 44-74 [HeedPayloadQueries::by_hash] *)
Definition heed_payload_by_hash (env : Env) (h : B256)
    : exec (result HeedError (option PayloadResponse)) :=
  t ←? Done (read_txn env);
  db ←? database t "block";
  response ← match heed_get decode_json t db h with
    | Err e => Done (Err e)
    | Ok None => Done (Ok None)
    | Ok (Some b) =>
      db ←? database t "transaction";
      transactions ←? Done (heed_transactions t db (transaction_hashes b));
      Done (Ok (Some (payload_response_from b (et_inner <$> transactions))))
    end;
  _ ←? Done (ro_commit t);
  Done response.

(** Source: storage/heed/src/payload.rs 76-92 [HeedPayloadQueries::by_id] *)
Definition heed_payload_by_id (env : Env) (id : PayloadId)
    : exec (result HeedError (option PayloadResponse)) :=
  t ←? Done (read_txn env);
  db ←? database t "payload";
  found ←? Done (heed_get decode_b256 t db (u64_key (to_u64 id)));
  match found with
  | None => Done (Ok None)
  | Some h => _ ←? Done (ro_commit t); heed_payload_by_hash env h
  end.

(** The writes of a build's commit on this back end.
    Source: server/src/dependency/heed.rs 55-57 [HeedDependencies::on_payload] *)
Definition heed_on_payload (env : Env) (id : PayloadId) (block_hash : B256) : exec Env :=
  r ← heed_add_block_hash env id block_hash; unwrap r.

(** Source: app/src/command.rs 117-147 [start_block_build] *)
Definition heed_commit (env : Env) (b : ExtendedBlock) (txs : list OpTxEnvelope)
    (receipts : list ExtendedReceipt) : exec Env :=
  r ← heed_receipt_extend env (Receipts.with_block_hash (hash b) <$> receipts);
  env ← unwrap r;
  r ← heed_transaction_extend env (extended_transactions b txs);
  env ← unwrap r;
  r ← heed_block_add env b;
  env ← unwrap r;
  heed_on_payload env (payload_id b) (hash b).

(** ** The node databases of the tries *)

(** Source: storage/heed/src/trie.rs 20 [ROOT_KEY] *)
Definition HEED_ROOT_KEY : Z := 0.

(** A read of one value in a transaction of its own. *)
Definition read_one {A} (decode : bytes → result HeedError A) (env : Env) (name : string) (key : bytes)
    : exec (result HeedError (option A)) :=
  t ←? Done (read_txn env);
  db ←? database t name;
  value ←? Done (heed_get decode t db key);
  _ ←? Done (ro_commit t);
  Done (Ok value).

(** Values put one after the other in a transaction of their own. *)
Fixpoint puts (t : Txn) (db : string) (l : list (bytes * bytes)) : result HeedError Txn :=
  match l with
  | [] => Ok t
  | (key, value) :: l => t ← txn_put t db key value; puts t db l
  end.
Definition write_all (env : Env) (name : string) (l : list (bytes * bytes)) : exec (result HeedError Env) :=
  t ←? Done (write_txn env);
  db ←? database t name;
  t ←? Done (puts t db l);
  Done (rw_commit env t).

(** Source: storage/heed/src/trie.rs 31-41 [HeedEthTrieDb::root] *)
Definition heed_trie_root (env : Env) : exec (result HeedError (option B256)) :=
  read_one decode_b256 env "trie_root" (u64_key HEED_ROOT_KEY).

(** Source: storage/heed/src/trie.rs 43-51 [HeedEthTrieDb::put_root] *)
Definition heed_put_root (env : Env) (root : B256) : exec (result HeedError Env) :=
  write_all env "trie_root" [(u64_key HEED_ROOT_KEY, root)].

(** Source: storage/heed/src/trie.rs 57-67 [HeedEthTrieDb::get] *)
Definition heed_trie_get (env : Env) (key : bytes) : exec (result HeedError (option bytes)) :=
  read_one Ok env "trie" key.

(** Source: storage/heed/src/trie.rs 69-77 [HeedEthTrieDb::insert] *)
Definition heed_trie_insert (env : Env) (key value : bytes) : exec (result HeedError Env) :=
  write_all env "trie" [(key, value)].

(** Source: storage/heed/src/trie.rs 79-89 [HeedEthTrieDb::insert_batch] *)
Definition heed_trie_insert_batch (env : Env) (keys values : list bytes) : exec (result HeedError Env) :=
  write_all env "trie" (zip keys values).

(** Source: storage/heed/src/evm_storage_trie.rs 31-33 [HeedEthStorageTrieDb::unique_key] *)
Definition heed_unique_key (account : Address) (key : bytes) : bytes := account ++ key.

(** Source: storage/heed/src/evm_storage_trie.rs 37-47 [HeedEthStorageTrieDb::root] *)
Definition heed_storage_root (env : Env) (account : Address) : exec (result HeedError (option B256)) :=
  read_one decode_b256 env "evm_storage_trie_root" account.

(** Source: storage/heed/src/evm_storage_trie.rs 49-57 [HeedEthStorageTrieDb::put_root] *)
Definition heed_storage_put_root (env : Env) (account : Address) (root : B256)
    : exec (result HeedError Env) :=
  write_all env "evm_storage_trie_root" [(account, root)].

(** Source: storage/heed/src/evm_storage_trie.rs 63-74 [HeedEthStorageTrieDb::get] *)
Definition heed_storage_get (env : Env) (account : Address) (key : bytes)
    : exec (result HeedError (option bytes)) :=
  read_one Ok env "evm_storage_trie" (heed_unique_key account key).

(** Source: storage/heed/src/evm_storage_trie.rs 76-85 [HeedEthStorageTrieDb::insert] *)
Definition heed_storage_insert (env : Env) (account : Address) (key value : bytes)
    : exec (result HeedError Env) :=
  write_all env "evm_storage_trie" [(heed_unique_key account key, value)].

(** Source: storage/heed/src/evm_storage_trie.rs 87-98 [HeedEthStorageTrieDb::insert_batch] *)
Definition heed_storage_insert_batch (env : Env) (account : Address) (keys values : list bytes)
    : exec (result HeedError Env) :=
  write_all env "evm_storage_trie" ((λ '(key, value), (heed_unique_key account key, value)) <$> zip keys values).

(** ** State roots by height *)

(** Source: storage/heed/src/state.rs 35 [HEIGHT_KEY] *)
Definition HEED_HEIGHT_KEY : Z := 0.

(** Source: storage/heed/src/state.rs 136-146 [HeedStateQueries::height] *)
Definition heed_state_height (env : Env) : exec (result HeedError Z) :=
  t ←? Done (read_txn env);
  db ←? database t "state_height";
  let height := heed_get decode_u64 t db (u64_key HEED_HEIGHT_KEY) in
  _ ←? Done (ro_commit t);
  height ←? Done height;
  Done (Ok (default 0 height)).

(** Source: storage/heed/src/state.rs 121-134 [HeedStateQueries::push_state_root] *)
Definition heed_push_state_root (env : Env) (state_root : B256) : exec (result HeedError Env) :=
  height ←? heed_state_height env;
  let height := wrap 64 (height + 1) in
  t ←? Done (write_txn env);
  db ←? database t "state";
  t ←? Done (txn_put t db (u64_key height) state_root);
  db ←? database t "state_height";
  t ←? Done (txn_put t db (u64_key HEED_HEIGHT_KEY) (u64_key height));
  Done (rw_commit env t).

(** Source: storage/heed/src/state.rs 148-162 [HeedStateQueries::root_by_height] *)
Definition heed_root_by_height (env : Env) (genesis_state_root : B256) (height : Z)
    : exec (result HeedError (option B256)) :=
  if height =? 0 then Done (Ok (Some genesis_state_root)) else
  t ←? Done (read_txn env);
  db ←? database t "state";
  let root := heed_get decode_b256 t db (u64_key height) in
  _ ←? Done (ro_commit t);
  Done root.

(** ** Agreement with the in-memory back end *)

Context `{!HeedLaws, EvMapLaws}.

(** The databases were created. *)
Definition Created (env : Env) : Prop := ∀ c, c ∈ COLUMN_FAMILIES → env_has env c = true.

(** Reading works: a transaction can be opened, and nothing fails in it. *)
Definition readable_env (env : Env) : Prop :=
  (∃ t, read_txn env = Ok t) ∧ ∀ t, read_txn env = Ok t →
    ro_commit t = Ok () ∧ ∀ c, (∃ b, open_database t c = Ok b) ∧ (∃ e, txn_last t c = Ok e)
      ∧ ∀ k, ∃ v, txn_get t c k = Ok v.

(** The operation [m] on [env] does what [q] does, unless reading fails: then it
    returns the error. *)
Definition serves {A} (env : Env) (m : exec (result HeedError A)) (q : exec A) : Prop :=
  m = Ok <$> q ∨ (¬ readable_env env ∧ ∃ e, m = Done (Err e)).

Lemma serves_ret {A} env (a : A) : serves env (Done (Ok a)) (Done a).
Proof. by left. Qed.

Lemma serves_read {A} env (f : Txn → exec (result HeedError A)) q :
  (∀ t, read_txn env = Ok t → serves env (f t) q) → serves env (qbind (Done (read_txn env)) f) q.
Proof.
  intros Hf. destruct (read_txn env) as [t|e] eqn:Ht; simpl; [by apply Hf|].
  right. split; [|by exists e]. intros [[t ?] _]. congruence.
Qed.

Section Txn.
Context (env : Env) (t : Txn) (Ht : read_txn env = Ok t).

Lemma serves_database {A} c (f : string → exec (result HeedError A)) q :
  Created env → c ∈ COLUMN_FAMILIES → serves env (f c) q → serves env (qbind (database t c) f) q.
Proof.
  intros Ho Hc Hf. unfold database. destruct (open_database t c) as [b|e] eqn:Hd; simpl.
  - rewrite (open_database_ok _ _ _ Hd), (proj2 (read_txn_ok _ _ Ht c)), Ho by done. exact Hf.
  - right. split; [|by exists e]. intros [_ Hr]. destruct (Hr t Ht) as [_ Hr'].
    destruct (Hr' c) as ([b ?] & _). congruence.
Qed.

(** A read returns what is on disk, decoded, unless reading fails. *)
Lemma txn_get_cases c k :
  txn_get t c k = Ok (env_contents env c !! k) ∨ (¬ readable_env env ∧ ∃ e, txn_get t c k = Err e).
Proof.
  destruct (txn_get t c k) as [v|e] eqn:Hg.
  - left. by rewrite (txn_get_ok _ _ _ _ Hg), (proj1 (read_txn_ok _ _ Ht c)).
  - right. split; [|by exists e]. intros [_ Hr]. destruct (Hr t Ht) as [_ Hr'].
    destruct (Hr' c) as (_ & _ & Hk). destruct (Hk k). congruence.
Qed.

Lemma heed_get_cases {A} (decode : bytes → result HeedError A) c k :
  heed_get decode t c k = match env_contents env c !! k with
    | None => Ok None | Some bs => Some <$> decode bs end
  ∨ (¬ readable_env env ∧ ∃ e, heed_get decode t c k = Err e).
Proof.
  unfold heed_get. destruct (txn_get_cases c k) as [->|(Hn & e & ->)]; [by left|].
  right. split; [done|by exists e].
Qed.

Lemma heed_last_cases :
  (∃ e, greatest (env_contents env "height"%string) e ∧
     heed_last decode_u64 decode_b256 t "height" = match e with
       | None => Ok None
       | Some (k, v) => k ← decode_u64 k; v ← decode_b256 v; Ok (Some (k, v)) end)
  ∨ (¬ readable_env env ∧ ∃ e, heed_last decode_u64 decode_b256 t "height" = Err e).
Proof.
  unfold heed_last. destruct (txn_last t "height") as [e|e] eqn:Hl.
  - left. exists e. split; [|done].
    rewrite <- (proj1 (read_txn_ok _ _ Ht "height"%string)). by apply txn_last_ok.
  - right. split; [|by exists e]. intros [_ Hr]. destruct (Hr t Ht) as [_ Hr'].
    destruct (Hr' "height"%string) as (_ & [? ?] & _). congruence.
Qed.

Lemma serves_commit {A} m (q : exec A) : serves env m q → serves env (_ ←? Done (ro_commit t); m) q.
Proof.
  intros Hm. destruct (ro_commit t) as [[]|e] eqn:Hc; [done|]. simpl.
  right. split; [|by exists e]. intros [_ Hr]. destruct (Hr t Ht) as [Hr' _]. congruence.
Qed.

End Txn.

Lemma decode_b256_ok h : length h = 32%nat → decode_b256 h = Ok h.
Proof. intros Hh. unfold decode_b256. by rewrite decide_True. Qed.

Lemma decode_u64_ok z : uint 64 z → decode_u64 (u64_key z) = Ok z.
Proof.
  intros Hz. unfold decode_u64. rewrite decide_True by apply length_be_bytes. by rewrite u64_key_val.
Qed.

Lemma decode_json_ok {A} `{!Json A} v (a : A) : from_json v = Some a → decode_json v = Ok a.
Proof. unfold decode_json. by intros ->. Qed.

(** The transaction of a query, its database, and a read that failed. *)
Ltac begin_txn t Ht := apply serves_read; intros t Ht.
Ltac table t Ht c := apply (serves_database _ t Ht c); [assumption|set_solver|].
Ltac read_failed Hn e := right; split; [exact Hn|exists e; reflexivity].

Section Simulation.
Context (env : Env) (mem : SharedMemory) (receipts : ReceiptMemory) (g : Entry) (log : list Entry).
Context (Hcreated : Created env).
Context (Hblocks : Represents (block_memory mem) (en_block <$> g :: log)).
Context (Htxs : Indexed et_hash (transaction_memory mem) ((g :: log) ≫= en_txs)).
Context (Hreceipts : Indexed Receipts.transaction_hash receipts ((g :: log) ≫= en_receipts)).
Context (Hlinked : Linked (en_block <$> g :: log)).
Context (Hper : Persisted (env_contents env) g log) (Hdist : Distinct g log).
Context (Htyped : Forall block_typed (en_block <$> g :: log)).

(** The typed reads of each column, in terms of the in-memory lookup. *)
Lemma get_block_cases t h : read_txn env = Ok t →
  heed_get decode_json t "block" h = Ok (by_hash (block_memory mem) h)
  ∨ (¬ readable_env env ∧ ∃ e, heed_get (A:=ExtendedBlock) decode_json t "block" h = Err e).
Proof.
  intros Ht. destruct (heed_get_cases env t Ht (decode_json (A:=ExtendedBlock)) "block" h) as [->|]; [left|by right].
  pose proof (block_column mem g log (env_contents env) Hblocks Hper Hdist h) as Hc.
  destruct (env_contents env "block"%string !! h) as [v|]; [|by rewrite Hc].
  destruct Hc as (b & -> & Hj). by rewrite (decode_json_ok _ _ Hj).
Qed.

Lemma get_tx_cases t h : read_txn env = Ok t →
  heed_get decode_json t "transaction" h = Ok (tx_by_hash (transaction_memory mem) h)
  ∨ (¬ readable_env env ∧ ∃ e, heed_get (A:=ExtendedTransaction) decode_json t "transaction" h = Err e).
Proof.
  intros Ht. destruct (heed_get_cases env t Ht (decode_json (A:=ExtendedTransaction)) "transaction" h)
    as [->|]; [left|by right].
  pose proof (tx_column mem g log (env_contents env) Htxs Hper Hdist h) as Hc.
  destruct (env_contents env "transaction"%string !! h) as [v|]; [|by rewrite Hc].
  destruct Hc as (b & -> & Hj). by rewrite (decode_json_ok _ _ Hj).
Qed.

Lemma transactions_cases t keys : read_txn env = Ok t →
  heed_transactions t "transaction" keys = Ok (tx_by_hashes (transaction_memory mem) keys)
  ∨ (¬ readable_env env ∧ ∃ e, heed_transactions t "transaction" keys = Err e).
Proof.
  intros Ht. induction keys as [|h keys IH]; [by left|]. cbn [heed_transactions].
  destruct (get_tx_cases t h Ht) as [->|(Hn & e & ->)]; [|right; split; [done|by exists e]]. simpl.
  destruct IH as [->|(Hn & e & ->)]; [|right; split; [done|by exists e]]. left. simpl.
  by destruct (tx_by_hash (transaction_memory mem) h).
Qed.

Lemma heed_block_by_hash_serves h full :
  serves env (heed_block_by_hash env h full) (query_by_hash mem h full).
Proof.
  unfold heed_block_by_hash. begin_txn t Ht. table t Ht "block"%string.
  destruct (get_block_cases t h Ht) as [->|(Hn & e & ->)]; [|read_failed Hn e].
  unfold query_by_hash, block_query. cbn [qbind].
  destruct (by_hash (block_memory mem) h) as [b|]; [|apply serves_commit, serves_ret; done].
  destruct full; [|apply serves_commit, serves_ret; done]. table t Ht "transaction"%string.
  destruct (transactions_cases t (transaction_hashes b) Ht) as [->|(Hn & e & ->)]; [|read_failed Hn e].
  apply serves_commit; [done|]. left. simpl. by destruct (from_block_with_transactions b _).
Qed.

Lemma heed_block_by_height_serves n full : uint 64 n →
  serves env (heed_block_by_height env n full) (query_by_height mem n full).
Proof.
  intros Hn. unfold heed_block_by_height. begin_txn t Ht. table t Ht "height"%string.
  destruct (heed_get_cases env t Ht decode_b256 "height" (u64_key n)) as [->|(Hr & e & ->)]; [|read_failed Hr e].
  pose proof (height_column mem g log (env_contents env) Hblocks Hlinked Hper Htyped n Hn) as Hc.
  unfold query_by_height. destruct (env_contents env "height"%string !! u64_key n) as [v|].
  - destruct Hc as (b & Hb & ->). rewrite Hb.
    assert (b ∈ en_block <$> g :: log) as Hin by by apply (block_at_height _ _ n Hblocks) in Hb as [? _].
    destruct (found_by_hash mem g log Hblocks Hdist Htyped b Hin) as [Hf Hl].
    rewrite decode_b256_ok by done. cbn [fmap result_fmap qbind]. rewrite <- Hf.
    apply serves_commit; [done|]. apply heed_block_by_hash_serves.
  - rewrite Hc. apply serves_ret.
Qed.

Lemma heed_block_repo_by_hash_serves h :
  serves env (heed_block_repo_by_hash env h) (Done (repository_by_hash mem h)).
Proof.
  unfold heed_block_repo_by_hash. begin_txn t Ht. table t Ht "block"%string. apply serves_commit; [done|].
  destruct (get_block_cases t h Ht) as [->|(Hn & e & ->)]; [apply serves_ret|read_failed Hn e].
Qed.

Lemma heed_latest_serves : Z.of_nat (length (g :: log)) < 2 ^ 64 →
  serves env (heed_block_repo_latest env) (Done (repository_latest mem))
  ∧ serves env (heed_latest_height env) (Done (query_latest mem)).
Proof.
  intros Hlen. unfold heed_block_repo_latest, heed_latest_height.
  split; begin_txn t Ht; table t Ht "height"%string;
    (destruct (heed_last_cases env t Ht) as [(x & Hx & ->)|(Hn & e & ->)]; [|read_failed Hn e]);
    destruct (greatest_height mem g log (env_contents env) Hblocks Hlinked Hper Htyped x Hx Hlen)
      as (head & -> & Hlast & Hq & Hin);
    destruct (found_by_hash mem g log Hblocks Hdist Htyped head Hin) as [Hf Hl];
    rewrite decode_u64_ok by (simpl in Hlen; unfold uint; lia); cbn [mbind result_bind];
    rewrite decode_b256_ok by done; cbn [mbind result_bind qbind].
  - unfold database. destruct (open_database t "block") as [b|e] eqn:Hd; cbn [qbind].
    + rewrite (open_database_ok _ _ _ Hd), (proj2 (read_txn_ok _ _ Ht _)), Hcreated by set_solver.
      cbn [assert_or_panic mbind exec_bind qbind]. apply serves_commit; [done|].
      destruct (get_block_cases t (hash head) Ht) as [->|(Hn & e & ->)]; [|read_failed Hn e].
      rewrite Hf, Hlast. apply serves_ret.
    + cbn [mbind exec_bind]. apply serves_commit; [done|]. right. split; [|by exists e].
      intros [_ Hr]. destruct (Hr t Ht) as [_ Hr']. destruct (Hr' "block"%string) as ([? ?] & _). congruence.
  - apply serves_commit; [done|]. rewrite Hq. apply serves_ret.
Qed.

Lemma heed_transaction_serves h :
  serves env (heed_transaction_by_hash env h)
    match tx_by_hash (transaction_memory mem) h with
    | None => Done None | Some tx => Some <$> to_response tx end.
Proof.
  unfold heed_transaction_by_hash. begin_txn t Ht. table t Ht "transaction"%string.
  destruct (get_tx_cases t h Ht) as [->|(Hn & e & ->)]; [|read_failed Hn e]. cbn [qbind].
  destruct (tx_by_hash (transaction_memory mem) h) as [tx|]; [|apply serves_commit, serves_ret; done].
  destruct (to_response tx) as [r|]; [|by left]. apply serves_commit, serves_ret. done.
Qed.

Lemma heed_receipt_serves h :
  serves env (heed_receipt_contains env h) (Done (contains receipts h))
  ∧ serves env (heed_receipt_by_hash env h) (query_by_transaction_hash receipts h).
Proof.
  pose proof (receipt_column receipts g log (env_contents env) Hreceipts Hper Hdist h) as Hc.
  unfold heed_receipt_contains, heed_receipt_by_hash.
  split; begin_txn t Ht; table t Ht "receipt"%string; (apply serves_commit; [done|]).
  - destruct (txn_get_cases env t Ht "receipt" h) as [->|(Hn & e & ->)]; [|read_failed Hn e].
    assert (contains receipts h = bool_decide (is_Some (env_contents env "receipt"%string !! h))) as ->;
      [|apply serves_ret].
    unfold contains, ev_contains_key. apply bool_decide_ext.
    rewrite <- (ev_get_one_None receipts h). unfold by_transaction_hash in Hc.
    destruct (env_contents env "receipt"%string !! h) as [v|].
    + destruct Hc as (r & -> & _). split; [by eexists|done].
    + rewrite Hc. split; [done|by intros []].
  - destruct (heed_get_cases env t Ht (decode_json (A:=ExtendedReceipt)) "receipt" h)
      as [->|(Hn & e & ->)]; [|read_failed Hn e].
    unfold query_by_transaction_hash. destruct (env_contents env "receipt"%string !! h) as [v|].
    + destruct Hc as (r & -> & Hj). rewrite (decode_json_ok _ _ Hj). left. simpl.
      by destruct (to_rpc_receipt r).
    + rewrite Hc. apply serves_ret.
Qed.

Lemma heed_payload_by_hash_serves h :
  serves env (heed_payload_by_hash env h) (Done (Payloads.payload_by_hash mem h)).
Proof.
  unfold heed_payload_by_hash. begin_txn t Ht. table t Ht "block"%string.
  destruct (get_block_cases t h Ht) as [->|(Hn & e & ->)];
    [|cbn [mbind exec_bind]; apply serves_commit; [done|]; read_failed Hn e].
  unfold Payloads.payload_by_hash.
  destruct (by_hash (block_memory mem) h) as [b|];
    [|cbn [mbind exec_bind]; apply serves_commit, serves_ret; done].
  unfold database. destruct (open_database t "transaction") as [x|e] eqn:Hd; cbn [qbind].
  - rewrite (open_database_ok _ _ _ Hd), (proj2 (read_txn_ok _ _ Ht _)), Hcreated by set_solver.
    cbn [assert_or_panic mbind exec_bind qbind].
    destruct (transactions_cases t (transaction_hashes b) Ht) as [->|(Hn & e & ->)]; simpl;
      (apply serves_commit; [done|]); [apply serves_ret|read_failed Hn e].
  - cbn [mbind exec_bind]. apply serves_commit; [done|]. right. split; [|by exists e].
    intros [_ Hr]. destruct (Hr t Ht) as [_ Hr']. destruct (Hr' "transaction"%string) as ([? ?] & _). congruence.
Qed.

Lemma heed_payload_by_id_serves id : uint 64 id → payload_id (en_block g) ≠ id →
  serves env (heed_payload_by_id env id) (Done (Payloads.payload_by_id mem id)).
Proof.
  intros Hid Hg. unfold heed_payload_by_id. begin_txn t Ht. table t Ht "payload"%string.
  rewrite to_u64_small by done.
  destruct (heed_get_cases env t Ht decode_b256 "payload" (u64_key id)) as [->|(Hr & e & ->)]; [|read_failed Hr e].
  pose proof (payload_column mem g log (env_contents env) Hblocks Hper Hdist Htyped id Hid Hg) as Hc.
  unfold Payloads.payload_by_id. destruct (env_contents env "payload"%string !! u64_key id) as [v|].
  - destruct Hc as (b & Hb & ->). rewrite Hb.
    assert (b ∈ en_block <$> g :: log) as Hin.
    { destruct Hblocks as (_ & _ & Hi). by apply (Indexed_get_one payload_id _ _ _ _ Hi) in Hb as [? _]. }
    destruct (found_by_hash mem g log Hblocks Hdist Htyped b Hin) as [Hf Hl].
    rewrite decode_b256_ok by done. pose proof (heed_payload_by_hash_serves (hash b)) as Hp.
    unfold Payloads.payload_by_hash in Hp. rewrite Hf in Hp. by apply serves_commit.
  - rewrite Hc. apply serves_ret.
Qed.

End Simulation.

Context `{!WorldState, !Executor, AppLibrary, !Callbacks}.

(** An LMDB node answers like the in-memory one.  Over the same
    chain every query of blocks, transactions, receipts and payloads, by hash,
    number, payload id or of the head, returns what the in-memory stores return,
    although each looks several records up in one snapshot or in two; the only
    other outcome is the error of a transaction or a read that failed. *)
Lemma heed_answers_as_memory env app g log :
  Created env → History app (g :: log) → Persisted (env_contents env) g log → Distinct g log →
  Forall block_typed (en_block <$> g :: log) → Z.of_nat (length (g :: log)) < 2 ^ 64 →
  let mem := storage app in
  serves env (heed_block_repo_latest env) (Done (repository_latest mem))
  ∧ serves env (heed_latest_height env) (Done (query_latest mem))
  ∧ (∀ h, serves env (heed_block_repo_by_hash env h) (Done (repository_by_hash mem h))
      ∧ (∀ full, serves env (heed_block_by_hash env h full) (query_by_hash mem h full))
      ∧ serves env (heed_payload_by_hash env h) (Done (Payloads.payload_by_hash mem h))
      ∧ serves env (heed_transaction_by_hash env h)
          match tx_by_hash (transaction_memory mem) h with
          | None => Done None | Some tx => Some <$> to_response tx end
      ∧ serves env (heed_receipt_contains env h) (Done (contains (receipt_memory app) h))
      ∧ serves env (heed_receipt_by_hash env h) (query_by_transaction_hash (receipt_memory app) h))
  ∧ (∀ n full, uint 64 n → serves env (heed_block_by_height env n full) (query_by_height mem n full))
  ∧ ∀ id, uint 64 id → payload_id (en_block g) ≠ id →
      serves env (heed_payload_by_id env id) (Done (Payloads.payload_by_id mem id)).
Proof.
  intros Ho [Hb Ht Hr Hl _ _] Hp Hd Hty Hlen mem.
  edestruct heed_latest_serves as [L1 L2]; [done..|].
  split; [exact L1|]. split; [exact L2|]. split; [|split].
  - intros h. edestruct (heed_receipt_serves env) with (h := h) as [R1 R2]; [done..|].
    split_and!; try done; try intros full; eauto using heed_block_repo_by_hash_serves,
      heed_block_by_hash_serves, heed_payload_by_hash_serves, heed_transaction_serves.
  - intros n full Hn. eauto using heed_block_by_height_serves.
  - intros id Hid Hg. eauto using heed_payload_by_id_serves.
Qed.

(** ** Writes *)

Context `{!JsonLaws ExtendedBlock, !JsonLaws ExtendedTransaction, !JsonLaws ExtendedReceipt}.

(** A write transaction on [env] that has put [ws] so far, and an environment
    after the commit of [ws]. *)
Definition putting (env : Env) (ws : Writes) (t : Txn) : Prop :=
  ∀ c, txn_view t c = put_all ws (env_contents env) c ∧ txn_has t c = env_has env c.
Definition after (env : Env) (ws : Writes) (env' : Env) : Prop :=
  ∀ c, env_contents env' c = put_all ws (env_contents env) c ∧ env_has env' c = env_has env c.

Lemma putting_begin env t : write_txn env = Ok t → putting env [] t.
Proof. intros Ht c. by apply write_txn_ok. Qed.

Lemma put_all_snoc ws c k v cols : put_all (ws ++ [(c, (k, v))]) cols = put c k v (put_all ws cols).
Proof. unfold put_all. by rewrite fold_left_app. Qed.

Lemma put_pointwise (c : string) (k v : bytes) (cols cols' : Columns) (c' : string) : (∀ c, cols c = cols' c) →
  put c k v cols c' = put c k v cols' c'.
Proof. intros E. unfold put. by rewrite E. Qed.

Lemma putting_put env ws t c k v t' : putting env ws t → txn_put t c k v = Ok t' →
  putting env (ws ++ [(c, (k, v))]) t'.
Proof.
  intros Hp Ht c'. destruct (txn_put_ok _ _ _ _ _ Ht c') as [-> ->]. destruct (Hp c') as [Hv ->].
  split; [|done]. rewrite put_all_snoc. apply put_pointwise. intros c0. apply Hp.
Qed.

Lemma putting_commit env ws t env' : putting env ws t → rw_commit env t = Ok env' → after env ws env'.
Proof. intros Hp Hc c. destruct (rw_commit_ok _ _ _ Hc c) as [-> ->]. apply Hp. Qed.

Lemma database_Ok t c db : database t c = Done (Ok db) → db = c.
Proof.
  unfold database. intros (b & Hb & Hd)%qbind_Ok. injection Hb as Hb. by destruct b; simplify_eq/=.
Qed.

Lemma puts_putting env ws t c l t' : putting env ws t → puts t c l = Ok t' →
  putting env (ws ++ (pair c <$> l)) t'.
Proof.
  revert ws t. induction l as [|[k v] l IH]; intros ws t Hp Ht; simpl in Ht.
  - injection Ht as <-. by rewrite app_nil_r.
  - apply bind_Ok in Ht as (t1 & H1' & Ht). rewrite fmap_cons, cons_middle, app_assoc.
    apply (IH _ t1); [|done]. by eapply putting_put.
Qed.

Lemma put_records_putting {A} `{!Json A, !JsonLaws A} env ws t c (key : A → bytes) l t' :
  putting env ws t → put_records t c key l = Ok t' →
  ∃ ws', putting env (ws ++ (pair c <$> ws')) t'
    ∧ Forall2 (λ a w, w.1 = key a ∧ json_written a w.2) l ws'.
Proof.
  revert ws t. induction l as [|a l IH]; intros ws t Hp Ht; simpl in Ht.
  - injection Ht as <-. exists []. by rewrite app_nil_r.
  - apply bind_Ok in Ht as (t1 & H1' & Ht). unfold put_json, encode_json in H1'.
    apply bind_Ok in H1' as (v & Hv & H1'). destruct (to_json a) as [v'|] eqn:Hj; [|done].
    injection Hv as ->. destruct (IH _ t1 (putting_put _ _ _ _ _ _ _ Hp H1') Ht) as (ws' & Hp' & Hf).
    exists ((key a, v) :: ws'). rewrite fmap_cons, cons_middle, app_assoc. split; [done|].
    constructor; [|done]. split; [done|]. by apply json_roundtrip.
Qed.

(** The puts of records in one transaction, committed. *)
Lemma records_written {A} `{!Json A, !JsonLaws A} env env' c (key : A → bytes) l added :
  (t ←? Done (write_txn env); db ←? database t c;
   t ←? Done (put_records t db key added); Done (rw_commit env t)) = Done (Ok env') →
  Holds key json_written (env_contents env c) l →
  Holds key json_written (env_contents env' c) (l ++ added)
  ∧ (∀ c', c' ≠ c → env_contents env' c' = env_contents env c')
  ∧ ∀ c', env_has env' c' = env_has env c'.
Proof.
  intros (t & Ht & He)%qbind_Ok Hh. injection Ht as Ht. apply qbind_Ok in He as (db & ->%database_Ok & He).
  apply qbind_Ok in He as (t' & Hp & He). injection Hp as Hp. injection He as He.
  destruct (put_records_putting _ _ _ _ _ _ _ (putting_begin _ _ Ht) Hp) as (ws & Hput & Hf).
  pose proof (putting_commit _ _ _ _ Hput He) as Ha.
  destruct (put_all_holds key json_written c (env_contents env) l ws added Hh Hf) as [K1 K2].
  split; [by rewrite (proj1 (Ha c))|]. split; [|intros c'; apply Ha].
  intros c' Hne. rewrite (proj1 (Ha c')). by apply K2.
Qed.

Lemma heed_block_add_spec env b env' : heed_block_add env b = Done (Ok env') →
  ∃ v, json_written b v
    ∧ after env [("block", (hash b, v)); ("height", (u64_key (number b), hash b))]%string env'.
Proof.
  unfold heed_block_add.
  intros (t & Ht & He)%qbind_Ok. injection Ht as Ht. apply qbind_Ok in He as (db & ->%database_Ok & He).
  apply qbind_Ok in He as (t1 & H1' & He). injection H1' as H1'.
  apply qbind_Ok in He as (db & ->%database_Ok & He).
  apply qbind_Ok in He as (t2 & H2' & He). injection H2' as H2'. injection He as He.
  unfold put_json, encode_json in H1'. apply bind_Ok in H1' as (v & Hv & H1').
  destruct (to_json b) as [v'|] eqn:Hj; [|done]. injection Hv as ->. exists v.
  split; [by apply json_roundtrip|]. eapply putting_commit; [|exact He].
  eapply (putting_put _ [_]); [|exact H2']. eapply (putting_put _ []); [|exact H1']. by apply putting_begin.
Qed.

Lemma heed_add_block_hash_after env id h env' : heed_add_block_hash env id h = Done (Ok env') →
  after env [("payload"%string, (u64_key (to_u64 id), h))] env'.
Proof.
  unfold heed_add_block_hash. intros (t & Ht & He)%qbind_Ok. injection Ht as Ht. apply qbind_Ok in He as (db & ->%database_Ok & He).
  apply qbind_Ok in He as (t1 & H1' & He). injection H1' as H1'. injection He as He.
  eapply putting_commit; [|exact He]. eapply (putting_put _ []); [|exact H1']. by apply putting_begin.
Qed.

Lemma heed_add_block_hash_spec env id h env' : uint 64 id → heed_add_block_hash env id h = Done (Ok env') →
  after env [("payload"%string, (u64_key id, h))] env'.
Proof. intros Hid Ha%heed_add_block_hash_after. by rewrite to_u64_small in Ha by done. Qed.

(** The puts of a commit are in the columns of the chain. *)
Definition heed_frame (cs : list string) (env env' : Env) : Prop :=
  (∀ c, env_has env' c = env_has env c) ∧ ∀ c, c ∉ cs → env_contents env' c = env_contents env c.

Lemma heed_frame_trans cs env1 env2 env3 :
  heed_frame cs env1 env2 → heed_frame cs env2 env3 → heed_frame cs env1 env3.
Proof. intros [K1 C1] [K2 C2]. split; intros c; [by rewrite K2|]. intros Hc. by rewrite C2, C1. Qed.
Lemma heed_frame_weaken cs cs' env env' : heed_frame cs env env' → cs ⊆ cs' → heed_frame cs' env env'.
Proof. intros [K C] Hs. split; [done|]. intros c Hc. apply C. intros Hin. by apply Hc, Hs. Qed.

Lemma after_frame env ws env' : after env ws env' → heed_frame ws.*1 env env'.
Proof.
  intros Ha. split; intros c; [apply Ha|]. rewrite (proj1 (Ha c)). clear.
  generalize (env_contents env). induction ws as [|[c' [k v]] ws IH]; intros cols Hc; [done|].
  apply not_elem_of_cons in Hc as [Hne Hc]. simpl in *. rewrite IH by done. by apply put_ne.
Qed.

Lemma after_column env c l env' : after env (pair c <$> l) env' → heed_frame [c] env env'.
Proof.
  intros Ha. eapply heed_frame_weaken; [by apply after_frame|]. intros c' Hc.
  apply list_elem_of_fmap in Hc as ([c0 w] & -> & Hin). apply list_elem_of_fmap in Hin as (? & [= -> ->] & _).
  apply list_elem_of_here.
Qed.

Lemma records_frame {A} `{!Json A, !JsonLaws A} env env' c (key : A → bytes) added :
  (t ←? Done (write_txn env); db ←? database t c;
   t ←? Done (put_records t db key added); Done (rw_commit env t)) = Done (Ok env') →
  heed_frame [c] env env'.
Proof.
  intros (t & Ht & He)%qbind_Ok. injection Ht as Ht. apply qbind_Ok in He as (db & ->%database_Ok & He).
  apply qbind_Ok in He as (t' & Hp & He). injection Hp as Hp. injection He as He.
  destruct (put_records_putting _ _ _ _ _ _ _ (putting_begin _ _ Ht) Hp) as (ws & Hput & _).
  eapply after_column, putting_commit; [exact Hput|exact He].
Qed.

Lemma heed_commit_frame env b txs receipts env' : heed_commit env b txs receipts = Done env' →
  heed_frame chain_columns env env'.
Proof.
  intros Hc. unfold heed_commit, heed_on_payload in Hc.
  apply bind_Done in Hc as (r1 & K1 & Hc). apply bind_Done in Hc as (env1 & ->%unwrap_Done & Hc).
  apply bind_Done in Hc as (r2 & K2 & Hc). apply bind_Done in Hc as (env2 & ->%unwrap_Done & Hc).
  apply bind_Done in Hc as (r3 & K3 & Hc). apply bind_Done in Hc as (env3 & ->%unwrap_Done & Hc).
  apply bind_Done in Hc as (r4 & K4 & ->%unwrap_Done).
  apply records_frame in K1, K2. apply heed_block_add_spec in K3 as (v & _ & K3%after_frame).
  apply heed_add_block_hash_after, after_frame in K4. simpl in K3, K4.
  apply (heed_frame_trans _ _ env1); [eapply heed_frame_weaken; [exact K1|decided]|].
  apply (heed_frame_trans _ _ env2); [eapply heed_frame_weaken; [exact K2|decided]|].
  apply (heed_frame_trans _ _ env3); [eapply heed_frame_weaken; [exact K3|decided]|].
  eapply heed_frame_weaken; [exact K4|decided].
Qed.

(** The genesis block, added to empty databases. *)
Lemma heed_genesis_persists env b env' :
  Created env → (∀ c, env_contents env c = ∅) → heed_block_add env b = Done (Ok env') →
  Created env' ∧ Persisted (env_contents env') (MkEntry b [] []) [].
Proof.
  intros Ho He (v & Hv & Ha)%heed_block_add_spec.
  assert (∀ c, c ≠ "block"%string → c ≠ "height"%string → env_contents env' c = ∅) as N.
  { intros c N1 N2. rewrite (proj1 (Ha c)). simpl. by rewrite !put_ne, He. }
  split; [intros c Hc; rewrite (proj2 (Ha c)); by apply Ho|].
  split; simpl; rewrite ?(N _) by done; try apply holds_empty.
  - rewrite (proj1 (Ha _)). simpl. rewrite put_ne, put_eq, He by done.
    apply (holds_snoc hash json_written ∅ []); [apply holds_empty|done].
  - rewrite (proj1 (Ha _)). simpl. rewrite put_eq, put_ne, He by done.
    apply (holds_snoc (λ b, u64_key (number b)) hash_written ∅ []); [apply holds_empty|done].
Qed.

(** One commit: the databases that held the chain hold the chain extended. *)
Lemma heed_commit_step env g log b txs receipts env' :
  Created env → Persisted (env_contents env) g log → uint 64 (payload_id b) →
  heed_commit env b txs receipts = Done env' →
  Created env' ∧ Persisted (env_contents env') g (log ++ [block_entry b txs receipts]).
Proof.
  intros Ho Hp Hid Hc. unfold heed_commit, heed_on_payload in Hc.
  apply bind_Done in Hc as (r1 & K1 & Hc). apply bind_Done in Hc as (env1 & ->%unwrap_Done & Hc).
  apply bind_Done in Hc as (r2 & K2 & Hc). apply bind_Done in Hc as (env2 & ->%unwrap_Done & Hc).
  apply bind_Done in Hc as (r3 & K3 & Hc). apply bind_Done in Hc as (env3 & ->%unwrap_Done & Hc).
  apply bind_Done in Hc as (r4 & K4 & ->%unwrap_Done).
  destruct (records_written _ _ _ _ _ _ K1 (per_receipts _ _ _ Hp)) as (R1 & N1 & C1).
  pose proof (per_txs _ _ _ Hp) as Ht. rewrite <- (N1 "transaction"%string) in Ht by done.
  destruct (records_written _ _ _ _ _ _ K2 Ht) as (R2 & N2 & C2).
  destruct (heed_block_add_spec _ _ _ K3) as (v & Hv & A3).
  pose proof (heed_add_block_hash_spec _ _ _ _ Hid K4) as A4.
  assert (∀ c, env_contents env' c = put_all [("block", (hash b, v)); ("height", (u64_key (number b), hash b));
    ("payload", (u64_key (payload_id b), hash b))]%string (env_contents env2) c) as A.
  { intros c. rewrite (proj1 (A4 c)). simpl. apply put_pointwise. intros c'. apply A3. }
  split; [intros c Hcol; rewrite (proj2 (A4 c)), (proj2 (A3 c)), C2, C1; by apply Ho|].
  apply (persisted_commit (env_contents env) (env_contents env') g log (block_entry b txs receipts) v);
    [done|done|rewrite A; simpl..].
  - by rewrite !put_ne, put_eq, N2, N1 by done.
  - by rewrite put_ne, put_eq, put_ne, N2, N1 by done.
  - by rewrite put_eq, !put_ne, N2, N1 by done.
  - by rewrite !put_ne by done.
  - by rewrite !put_ne, N2 by done.
Qed.

(** A node that starts with empty databases and commits blocks keeps its chain on
    disk. *)
Fixpoint heed_commits (env : Env)
    (commits : list (ExtendedBlock * list OpTxEnvelope * list ExtendedReceipt)) : exec Env :=
  match commits with
  | [] => Done env
  | (b, txs, receipts) :: commits =>
    env ← heed_commit env b txs receipts; heed_commits env commits
  end.

Lemma heed_commits_persist env genesis env0 commits env' :
  Created env → (∀ c, env_contents env c = ∅) → heed_block_add env genesis = Done (Ok env0) →
  Forall (λ x, uint 64 (payload_id x.1.1)) commits →
  heed_commits env0 commits = Done env' →
  Created env'
  ∧ Persisted (env_contents env') (MkEntry genesis [] [])
      ((λ '(b, txs, rs), block_entry b txs rs) <$> commits).
Proof.
  intros Ho He Hg Hid. destruct (heed_genesis_persists env genesis env0 Ho He Hg) as [Ho0 Hp0].
  change (_ <$> commits) with ([] ++ ((λ '(b, txs, rs), block_entry b txs rs) <$> commits)).
  generalize dependent (@nil Entry). clear Hg. revert env0 Ho0.
  induction Hid as [|[[b txs] rs] commits Hb _ IH]; intros env0 Ho0 log Hp0; simpl.
  - intros [= <-]. by rewrite app_nil_r.
  - intros (env1 & H1' & Hr)%bind_Done.
    destruct (heed_commit_step _ _ _ _ _ _ _ Ho0 Hp0 Hb H1') as (Ho1 & Hp1).
    rewrite cons_middle, app_assoc. by apply (IH env1).
Qed.

End Heed.

Section Roots.
Context `{HeedLaws}.

(** ** The roots *)

(** The roots pushed so far, with the height under its key. *)
Definition heed_pushed (env : Env) (roots : list B256) : Prop :=
  env_contents env "state_height"%string !! u64_key HEED_HEIGHT_KEY
    = (if decide (roots = []) then None else Some (u64_key (Z.of_nat (length roots))))
  ∧ ∀ h, uint 64 h → env_contents env "state"%string !! u64_key h
    = if h =? 0 then None else roots !! pred (Z.to_nat h).

Lemma heed_state_height_spec env roots : heed_pushed env roots → Z.of_nat (length roots) < 2 ^ 64 →
  ∀ h, heed_state_height env = Done (Ok h) → h = Z.of_nat (length roots).
Proof.
  intros [Hh _] Hl h. unfold heed_state_height. intros (t & Ht & He)%qbind_Ok. injection Ht as Ht.
  apply qbind_Ok in He as (db & ->%database_Ok & He). apply qbind_Ok in He as (_ & _ & He).
  apply qbind_Ok in He as (v & Hv & [= <-]). injection Hv as Hv.
  destruct (heed_get_cases env t Ht decode_u64 "state_height" (u64_key HEED_HEIGHT_KEY))
    as [E|(_ & e & E)]; rewrite E in Hv; [|done]. rewrite Hh in Hv.
  case_decide as Hr; [subst; by injection Hv as <-|].
  rewrite decode_u64_ok in Hv by (unfold uint; lia). by injection Hv as <-.
Qed.

(** Pushing a root: the next height has it, and every height keeps what it had. *)
Lemma heed_push_step env roots root env' : heed_pushed env roots →
  Z.of_nat (length roots) + 1 < 2 ^ 64 → heed_push_state_root env root = Done (Ok env') →
  heed_pushed env' (roots ++ [root])
  ∧ (∀ c, c ≠ "state"%string → c ≠ "state_height"%string → env_contents env' c = env_contents env c)
  ∧ ∀ c, env_has env' c = env_has env c.
Proof.
  intros Hp Hl. unfold heed_push_state_root. intros (h & Hh & He)%qbind_Ok.
  apply (heed_state_height_spec env roots Hp) in Hh as ->; [|lia].
  rewrite wrap_small in He by (unfold uint; lia).
  apply qbind_Ok in He as (t & Ht & He). injection Ht as Ht. apply qbind_Ok in He as (db & ->%database_Ok & He).
  apply qbind_Ok in He as (t1 & H1' & He). injection H1' as H1'.
  apply qbind_Ok in He as (db & ->%database_Ok & He).
  apply qbind_Ok in He as (t2 & H2' & He). injection H2' as H2'. injection He as He.
  assert (after env [("state", (u64_key (Z.of_nat (length roots) + 1), root));
    ("state_height", (u64_key HEED_HEIGHT_KEY, u64_key (Z.of_nat (length roots) + 1)))]%string env') as Ha.
  { eapply putting_commit; [|exact He]. eapply (putting_put _ [_]); [|exact H2'].
    eapply (putting_put _ []); [|exact H1']. by apply putting_begin. }
  destruct Hp as [_ Hs]. split; [split|split; [|intros c; apply Ha]].
  - rewrite (proj1 (Ha _)). simpl. rewrite put_eq, lookup_insert_eq, decide_False by by destruct roots.
    rewrite length_app. simpl. do 2 f_equal. lia.
  - intros h Hu. rewrite (proj1 (Ha _)). simpl. rewrite put_ne, put_eq by done.
    destruct (decide (h = Z.of_nat (length roots) + 1)) as [->|Hne].
    + rewrite lookup_insert_eq, (proj2 (Z.eqb_neq _ _)) by lia. rewrite lookup_app_r by lia.
      by replace (_ - _)%nat with 0%nat by lia.
    + rewrite lookup_insert_ne by (intros E; apply Hne; symmetry; by apply u64_key_inj; [unfold uint; lia|..]).
      rewrite Hs by done. destruct (Z.eqb_spec h 0); [done|]. unfold uint in Hu.
      destruct (decide (pred (Z.to_nat h) < length roots)%nat).
      * by rewrite lookup_app_l.
      * rewrite lookup_app_r, lookup_ge_None_2 by lia. symmetry. apply lookup_ge_None. simpl. lia.
  - intros c N1 N2. rewrite (proj1 (Ha _)). simpl. by rewrite !put_ne.
Qed.

(** The root of a height: the genesis root, the one pushed for it, or none above. *)
Lemma heed_root_pushed env roots r h : Created env → heed_pushed env roots →
  Forall (λ root, length root = 32%nat) roots → uint 64 h →
  serves env (heed_root_by_height env r h) (Done (if h =? 0 then Some r else roots !! pred (Z.to_nat h))).
Proof.
  intros Ho [_ Hs] H32 Hu. unfold heed_root_by_height. destruct (Z.eqb_spec h 0) as [|Hne]; [apply serves_ret|].
  apply serves_read. intros t Ht. apply (serves_database _ t Ht "state"%string); [done|set_solver|].
  apply serves_commit; [done|].
  destruct (heed_get_cases env t Ht decode_b256 "state" (u64_key h)) as [->|(Hr & e & ->)]; [|by right; split; [|exists e]].
  rewrite Hs, (proj2 (Z.eqb_neq _ _)) by done.
  destruct (roots !! _) as [root|] eqn:E; [|apply serves_ret].
  rewrite decode_b256_ok; [apply serves_ret|]. rewrite Forall_forall in H32.
  by eapply H32, list_elem_of_lookup_2.
Qed.

End Roots.

(** Witnesses: an environment kept as its columns, and the chain of
    [RocksWitness]. *)
Module HeedWitness.
Import EvMap.Model Envelope.Witness BlockWitness ChainWitness RocksWitness.
#[local] Existing Instance unit_errors.
#[local] Existing Instance tx_library.
#[local] Existing Instance envelopes.
#[local] Existing Instance world.
#[local] Existing Instance executor.
#[local] Existing Instance library.
#[local] Existing Instance callbacks.
#[local] Existing Instance long_headers.
#[local] Existing Instance json_blocks.
#[local] Existing Instance json_txs.
#[local] Existing Instance json_receipts.
#[local] Existing Instance json_blocks_laws.
#[local] Existing Instance json_txs_laws.
#[local] Existing Instance json_receipts_laws.

#[local] Instance plain_heed : Heed := {|
  Env := Columns; Txn := Columns; HeedError := (); Encoding := (); Decoding := ();
  read_txn := Ok; write_txn := Ok; open_database := λ _ c, Ok (bool_decide (c ∈ COLUMN_FAMILIES));
  txn_get := λ t c k, Ok (t c !! k); txn_last := λ t c, last_entry (t c);
  txn_put := λ t c k v, Ok (put c k v t); ro_commit := λ _, Ok (); rw_commit := λ _ t, Ok t;
  env_contents := id; env_has := λ _ c, bool_decide (c ∈ COLUMN_FAMILIES);
  txn_view := id; txn_has := λ _ c, bool_decide (c ∈ COLUMN_FAMILIES) |}.

#[local] Instance plain_heed_laws : HeedLaws.
Proof.
  split; simpl.
  - by intros env t [= <-].
  - by intros env t [= <-].
  - by intros t c b [= <-].
  - by intros t c k v [= <-].
  - intros t c e He. by apply (@db_last_ok plain_db plain_db_laws t).
  - by intros t c k v t' [= <-].
  - by intros env t env' [= <-].
Qed.

Definition empty_env : @Env plain_heed := λ _ : string, (∅ : gmap bytes bytes).
Definition env0 : @Env plain_heed :=
  match heed_block_add empty_env g32 with Done (Ok env) => env | _ => empty_env end.
Definition env1 : @Env plain_heed :=
  match heed_commit env0 b1 [legacy_tx] executed1.2 with Done env => env | Panic => env0 end.

Lemma all_created (env : @Env plain_heed) : Created env.
Proof. intros c Hc. by apply bool_decide_eq_true_2. Qed.

Lemma env1_done : heed_commit env0 b1 [legacy_tx] executed1.2 = Done env1.
Proof.
  assert (match heed_commit env0 b1 [legacy_tx] executed1.2 with Done _ => true | Panic => false end
    = true) as Hd by (vm_compute; reflexivity).
  unfold env1. by destruct (heed_commit env0 b1 [legacy_tx] executed1.2).
Qed.

Lemma env1_persisted : Persisted (env_contents env1) g_entry [e1].
Proof.
  apply (heed_commits_persist empty_env g32 env0 [(b1, [legacy_tx], executed1.2)] env1);
    [apply all_created|done|reflexivity|by repeat constructor|].
  cbn [heed_commits]. by rewrite env1_done.
Qed.

Lemma heed_answers_as_memory_witness :
  let mem := storage mem1 in
  serves env1 (heed_block_repo_latest env1) (Done (repository_latest mem))
  ∧ serves env1 (heed_latest_height env1) (Done (query_latest mem))
  ∧ (∀ h, serves env1 (heed_block_repo_by_hash env1 h) (Done (repository_by_hash mem h))
      ∧ (∀ full, serves env1 (heed_block_by_hash env1 h full) (query_by_hash mem h full))
      ∧ serves env1 (heed_payload_by_hash env1 h) (Done (Payloads.payload_by_hash mem h))
      ∧ serves env1 (heed_transaction_by_hash env1 h)
          match tx_by_hash (transaction_memory mem) h with
          | None => Done None | Some tx => Some <$> to_response tx end
      ∧ serves env1 (heed_receipt_contains env1 h) (Done (contains (receipt_memory mem1) h))
      ∧ serves env1 (heed_receipt_by_hash env1 h) (query_by_transaction_hash (receipt_memory mem1) h))
  ∧ (∀ n full, uint 64 n → serves env1 (heed_block_by_height env1 n full) (query_by_height mem n full))
  ∧ ∀ id, uint 64 id → payload_id (en_block g_entry) ≠ id →
      serves env1 (heed_payload_by_id env1 id) (Done (Payloads.payload_by_id mem id)).
Proof.
  apply (heed_answers_as_memory env1 mem1 g_entry [e1]);
    [apply all_created|apply mem1_history|apply env1_persisted|apply chain1_distinct|apply chain1_typed|done].
Defined.

(** The environment answers, and a pushed root is found at its height. *)
Example env1_answers :
  heed_latest_height env1 = Done (Ok (Some 1)) ∧ heed_receipt_contains env1 [9] = Done (Ok true)
  ∧ match heed_push_state_root env1 (be_bytes 32 7) with
    | Done (Ok env) => heed_root_by_height env (be_bytes 32 0) 1 = Done (Ok (Some (be_bytes 32 7)))
        ∧ heed_root_by_height env (be_bytes 32 0) 2 = Done (Ok None)
    | _ => False
    end.
Proof. vm_compute. done. Qed.

End HeedWitness.
