(* ===== verification/HeedState.v ===== *)
(** The state on LMDB ([storage/heed/src/state.rs], [trie.rs], [evm.rs]): the state
    and its queries at a height, and the storage tries of the accounts, over the
    environments and node databases of [Heed]; the builds of blocks on it
    ([app/src/command.rs]), which keep every state readable. *)
From S2P Require Import Prelude Primitives MoveTypes Errors Envelope EvMap.
From S2P Require Import Transactions Fees BaseFee Receipts Payloads Blocks Application Chain.
From S2P Require Import MoveVm EthToken ToyVm Nonces Events TagValidation Execution.
From S2P Require Import Storage StateTree EvmState StateQueries World Columns RocksDb RocksState Heed.
Import Addresses.

Local Open Scope Z_scope.

(** The reads of a trie on a database of the environment: those of opening it,
    and whether those of a later operation all succeed. *)
Class HeedReads `{Heed} := {
  env_open_reads : Env → string → result HeedError Nodes;
  env_walk_reads : Env → string → result HeedError ();
}.
Class HeedReadsLaws `{HeedReads} : Prop :=
  env_open_reads_ok env c nodes : env_open_reads env c = Ok nodes → nodes = env_contents env c.

(** The trie library's errors an environment can cause. *)
Inductive HeedTrieError `{Heed} := HeedTrieDb (e : HeedError) | HeedInvalidRoot (root : B256).

Section HeedState.
Context `{Heed, !HeedReads, StateReading, EthTrie}.

(** Nodes are never removed: those of older roots stay readable.
    Source: storage/heed/src/trie.rs 91-94 [HeedEthTrieDb::remove] *)
Definition heed_trie_remove (env : Env) (_key : bytes) : exec (result HeedError Env) := Done (Ok env).

(** Source: storage/heed/src/evm_storage_trie.rs 100-103 [HeedEthStorageTrieDb::remove] *)
Definition heed_storage_remove (env : Env) (_account : Address) (_key : bytes)
    : exec (result HeedError Env) := Done (Ok env).

(** An empty trie reads nothing to open.
    Source: storage/heed/src/trie.rs 108-115 [try_from_opt_root] *)
Definition heed_try_from_opt_root (env : Env) (root : option B256) : result HeedTrieError Trie :=
  match root with
  | None => Ok (trie_new (env_contents env "trie"))
  | Some root =>
    nodes ← map_err HeedTrieDb (env_open_reads env "trie");
    ok_or (trie_from nodes root) (HeedInvalidRoot root)
  end.

(** Source: storage/heed/src/trie.rs 123-127 [from_opt_root] *)
Definition heed_from_opt_root (env : Env) (root : option B256) : exec Trie :=
  unwrap (heed_try_from_opt_root env root).

(** ** The state *)

(** Source: storage/heed/src/state.rs 38-42 [HeedState] *)
Record HeedState := MkHeedState { hs_resolver : Trie; hs_state_root : option B256 }.

(** Source: storage/heed/src/state.rs 45-55 [HeedState::new] *)
Definition heed_state_new (env : Env) : exec HeedState :=
  root ← heed_trie_root env;
  state_root ← unwrap root;
  resolver ← heed_from_opt_root env state_root;
  Done (MkHeedState resolver state_root).

(** Source: storage/heed/src/state.rs 57-61 [HeedState::persist_state_root] *)
Definition heed_persist_state_root (env : Env) (self : HeedState) : exec (result HeedError Env) :=
  match hs_state_root self with
  | Some root => heed_put_root env root
  | None => Done (Ok env)
  end.

(** Source: storage/heed/src/state.rs 63-65 [HeedState::tree] *)
Definition heed_tree (env : Env) (self : HeedState) : exec Trie :=
  heed_from_opt_root env (hs_state_root self).

Context (iteration_order : gmap TreeKey TreeValue → list (TreeKey * TreeValue)).

(** The trie's commit writes the nodes it changed in one batch.
    Source: storage/heed/src/state.rs 71-78 [HeedState::apply] *)
Definition heed_state_apply (env : Env) (self : HeedState) (changes : ChangeSet)
    : exec (result HeedTrieError (Env * HeedState)) :=
  tree ← heed_tree env self;
  _ ←? Done (map_err HeedTrieDb (env_walk_reads env "trie"));
  tree ← insert_change_set_into_merkle_trie iteration_order tree changes;
  let '(root, diff) := trie_commit tree in
  written ← heed_trie_insert_batch env (map_to_list diff).*1 (map_to_list diff).*2;
  env ←? Done (map_err HeedTrieDb written);
  let self := MkHeedState tree (Some root) in
  persisted ← heed_persist_state_root env self;
  env ← unwrap persisted;
  Done (Ok (env, self)).

(** Tables are not stored.
    Source: storage/heed/src/state.rs 80-86 [HeedState::apply_with_tables] *)
Definition heed_apply_with_tables {Tables} (env : Env) (self : HeedState) (changes : ChangeSet)
    (_table_changes : Tables) : exec (result HeedTrieError (Env * HeedState)) :=
  heed_state_apply env self changes.

(** Source: storage/heed/src/state.rs 96-98 [HeedState::state_root] *)
Definition heed_state_root (self : HeedState) : B256 :=
  default (replicate 32 0) (hs_state_root self).

(** Source: server/src/dependency/heed.rs 63-70 [HeedDependencies::on_tx_batch] *)
Definition heed_on_tx_batch (env : Env) (self : HeedState) : exec Env :=
  r ← heed_push_state_root env (heed_state_root self); unwrap r.

(** ** States at a height *)

(** Source: storage/heed/src/state.rs 164-171 [HeedStateQueries::tree] *)
Definition heed_tree_at (env : Env) (genesis_state_root : B256) (height : Z)
    : exec (result HeedError Trie) :=
  root ←? heed_root_by_height env genesis_state_root height;
  t ← heed_from_opt_root env root;
  Done (Ok t).

(** Source: storage/heed/src/state.rs 173-178 [HeedStateQueries::resolver] *)
Definition heed_resolver (env : Env) (genesis_state_root : B256) (height : Z)
    : exec (result HeedError Trie) :=
  heed_tree_at env genesis_state_root height.

(** Source: storage/heed/src/state.rs 223-225 [HeedStateQueries::resolver_at] *)
Definition heed_resolver_at (env : Env) (genesis_state_root : B256) (height : Z) : exec Trie :=
  resolver ← heed_resolver env genesis_state_root height; unwrap resolver.

(** ** The storage tries *)

(** A trie is opened on a staging database with an empty memory each time
    ([HeedStorageTrieRepository::db]).
    Source: evm-ext/src/state/storage.rs 61-65 [StorageTrieRepository::for_account_with_root] *)
Definition heed_for_account_with_root (env : Env) (account : Address) (storage_root : B256)
    : result HeedTrieError Trie :=
  nodes ← map_err HeedTrieDb (env_open_reads env "evm_storage_trie");
  ok_or (trie_from (account_nodes account nodes) storage_root) (HeedInvalidRoot storage_root).

(** Source: evm-ext/src/state/storage.rs 51-59 [StorageTrieRepository::for_account] *)
Definition heed_for_account (env : Env) (account : Address) : exec (result HeedTrieError Trie) :=
  found ← heed_storage_root env account;
  root ←? Done (map_err HeedTrieDb found);
  Done match root with
  | Some root => heed_for_account_with_root env account root
  | None => Ok (trie_new (account_nodes account (env_contents env "evm_storage_trie")))
  end.

(** Source: evm-ext/src/state/storage.rs 229-246 [StorageTrie::apply] *)
Definition heed_storage_apply (env : Env) (account : Address) (changes : StorageTrieChanges)
    : exec (Env * result HeedTrieError ()) :=
  written ← heed_storage_insert_batch env account
    (map_to_list (trie_diff changes)).*1 (map_to_list (trie_diff changes)).*2;
  match written with
  | Err e => Done (env, Err (HeedTrieDb e))
  | Ok env =>
    put ← heed_storage_put_root env account (root changes);
    match put with
    | Err e => Done (env, Err (HeedTrieDb e))
    | Ok env => Done (env, Ok ())
    end
  end.

(** Source: evm-ext/src/state/storage.rs 67-72 [StorageTrieRepository::apply] *)
Fixpoint heed_repository_apply (env : Env) (changes : list (Address * StorageTrieChanges))
    : exec (Env * result HeedTrieError ()) :=
  match changes with
  | [] => Done (env, Ok ())
  | (account, c) :: changes =>
    opened ← heed_for_account env account;
    match opened with
    | Err e => Done (env, Err e)
    | Ok _ =>
      '(env, r) ← heed_storage_apply env account c;
      match r with
      | Err e => Done (env, Err e)
      | Ok _ => heed_repository_apply env changes
      end
    end
  end.

(** ** The state on disk *)

Context `{!HeedLaws, !HeedReadsLaws, !EthTrieLaws}.

Definition readable_tries (env : Env) : Prop :=
  readable_env env ∧ (∀ c, env_open_reads env c = Ok (env_contents env c))
  ∧ ∀ c, env_walk_reads env c = Ok ().

(** No operation on an environment fails. *)
Definition HeedHealthy : Prop := ∀ env, readable_tries env
  ∧ (∃ t, write_txn env = Ok t) ∧ (∀ t, ∃ env', rw_commit env t = Ok env')
  ∧ ∀ t c, (∃ b, open_database t c = Ok b) ∧ ∀ k v, ∃ t', txn_put t c k v = Ok t'.

Lemma write_all_after env c l env' : write_all env c l = Done (Ok env') →
  after env (pair c <$> l) env'.
Proof.
  unfold write_all. intros (t & Ht & He)%qbind_Ok. injection Ht as Ht. apply qbind_Ok in He as (db & ->%database_Ok & He).
  apply qbind_Ok in He as (t' & Hp & He). injection Hp as Hp. injection He as He.
  eapply putting_commit; [|exact He]. apply (puts_putting env [] t c l t'); [by apply putting_begin|done].
Qed.

Lemma puts_progress (env : Env) t c l : HeedHealthy → ∃ t', puts t c l = Ok t'.
Proof.
  intros Hh. revert t. induction l as [|[k v] l IH]; intros t; [by exists t|].
  destruct (Hh env) as (_ & _ & _ & Hput). destruct (Hput t c) as [_ Hp]. destruct (Hp k v) as [t1 H1'].
  destruct (IH t1) as [t' Ht']. exists t'. simpl. by rewrite H1'.
Qed.

Lemma write_all_progress env c l : HeedHealthy → Created env → c ∈ COLUMN_FAMILIES →
  ∃ env', write_all env c l = Done (Ok env').
Proof.
  intros Hh Ho Hc. pose proof (Hh env) as (_ & [t Ht] & Hcommit & Hput).
  unfold write_all, database. rewrite Ht. simpl. destruct (Hput t c) as [[b Hb] _]. rewrite Hb. simpl.
  apply open_database_ok in Hb as ->. rewrite (proj2 (write_txn_ok _ _ Ht c)), Ho by done. simpl.
  destruct (puts_progress env t c l Hh) as [t' ->]. simpl.
  destruct (Hcommit t') as [env' ->]. by exists env'.
Qed.

(** A read of one value. *)
Lemma read_one_readable {A} (decode : bytes → result HeedError A) env c k :
  Created env → c ∈ COLUMN_FAMILIES → readable_env env →
  read_one decode env c k = Done match env_contents env c !! k with
    | None => Ok None | Some bs => Some <$> decode bs end.
Proof.
  intros Ho Hc Hr. destruct Hr as [[t Ht] Hr']. pose proof (Hr' t Ht) as [Hcommit Hops].
  unfold read_one, database. rewrite Ht. simpl. destruct (Hops c) as ([b Hb] & _ & _).
  rewrite Hb. simpl. apply open_database_ok in Hb as ->. rewrite (proj2 (read_txn_ok _ _ Ht c)), Ho by done.
  simpl. destruct (heed_get_cases env t Ht decode c k) as [->|(Hn & _)]; [|by destruct Hn; split; [exists t|]].
  destruct (env_contents env c !! k) as [bs|]; simpl; rewrite ?Hcommit; [|done].
  by destruct (decode bs); simpl.
Qed.

(** The environment and the state opened on it are those of [m]. *)
Definition heed_in_step (env : Env) (self : HeedState) (m : InMemoryState ()) : Prop :=
  Created env ∧ on_disk (env_contents env "trie"%string)
    (env_contents env "trie_root"%string !! u64_key HEED_ROOT_KEY)
    (hs_resolver self) (hs_state_root self) m.

Lemma heed_from_opt_root_ref env self m t : heed_in_step env self m →
  heed_from_opt_root env (hs_state_root self) = Done t → StateTree.tree m = Done t.
Proof.
  intros [_ [Hn Hr _ _ _]]. unfold heed_from_opt_root, heed_try_from_opt_root, StateTree.tree.
  rewrite Hr, <- Hn. destruct (current_state_root m) as [r|]; [|done].
  destruct (env_open_reads env "trie") as [nodes|e] eqn:Ho; [|done].
  apply env_open_reads_ok in Ho as ->. simpl. by destruct (trie_from _ r).
Qed.

Lemma heed_from_opt_root_readable env self m : heed_in_step env self m → readable_tries env →
  heed_from_opt_root env (hs_state_root self) = StateTree.tree m.
Proof.
  intros [_ [Hn Hr _ _ _]] (_ & Ho & _). unfold heed_from_opt_root, heed_try_from_opt_root, StateTree.tree.
  rewrite Hr, <- Hn. destruct (current_state_root m) as [r|]; [|done]. rewrite Ho. simpl.
  by destruct (trie_from _ r).
Qed.

Lemma zip_map_to_list (diff : Nodes) : zip (map_to_list diff).*1 (map_to_list diff).*2 = map_to_list diff.
Proof. apply zip_fst_snd. Qed.

(** The writes of a commit of the state trie. *)
Lemma heed_commit_writes env env1 env2 diff root :
  heed_trie_insert_batch env (map_to_list diff).*1 (map_to_list diff).*2 = Done (Ok env1) →
  heed_put_root env1 root = Done (Ok env2) →
  env_contents env2 "trie"%string = diff ∪ env_contents env "trie"%string
  ∧ env_contents env2 "trie_root"%string !! u64_key HEED_ROOT_KEY = Some root
  ∧ (∀ c, env_has env2 c = env_has env c)
  ∧ ∀ c, c ≠ "trie"%string → c ≠ "trie_root"%string → env_contents env2 c = env_contents env c.
Proof.
  unfold heed_trie_insert_batch, heed_put_root. rewrite zip_map_to_list.
  intros A1%write_all_after A2%write_all_after.
  destruct (put_all_union "trie" (env_contents env) (map_to_list diff)) as [P1 P2];
    [apply NoDup_fst_map_to_list|]. rewrite list_to_map_to_list in P1.
  split_and!.
  - rewrite (proj1 (A2 _)). simpl. by rewrite put_ne, (proj1 (A1 _)), P1.
  - rewrite (proj1 (A2 _)). simpl. by rewrite put_eq, lookup_insert_eq.
  - intros c. by rewrite (proj2 (A2 c)), (proj2 (A1 c)).
  - intros c N1 N2. rewrite (proj1 (A2 _)). simpl. by rewrite put_ne, (proj1 (A1 _)), P2.
Qed.

Context (commit_root_size : ∀ t, length (trie_commit t).1 = 32%nat).

Lemma heed_committed env self m t env1 env2 : heed_in_step env self m →
  trie_nodes t = StateTree.db m →
  heed_trie_insert_batch env (map_to_list (trie_commit t).2).*1 (map_to_list (trie_commit t).2).*2
    = Done (Ok env1) →
  heed_put_root env1 (trie_commit t).1 = Done (Ok env2) →
  heed_in_step env2 (MkHeedState t (Some (trie_commit t).1))
    (MkState () ((trie_commit t).2 ∪ StateTree.db m) (Some (trie_commit t).1))
  ∧ ∀ c, c ≠ "trie"%string → c ≠ "trie_root"%string → env_contents env2 c = env_contents env c.
Proof.
  intros [Ho Hd] Hn W1 W2. destruct (heed_commit_writes _ _ _ _ _ W1 W2) as (Ht & Hr & Hh & Hf).
  split; [|done]. split; [intros c Hc; rewrite Hh; by apply Ho|]. simpl. rewrite Ht, Hr.
  eapply on_disk_commit; [apply commit_root_size|exact Hd|done].
Qed.

(** One application succeeds only as the reference does. *)
Lemma heed_apply_step env self m changes env' self' : heed_in_step env self m →
  heed_state_apply env self changes = Done (Ok (env', self')) →
  ∃ m', reference_apply iteration_order m changes = Done (Ok m') ∧ heed_in_step env' self' m'
    ∧ ∀ c, c ≠ "trie"%string → c ≠ "trie_root"%string → env_contents env' c = env_contents env c.
Proof.
  intros Hs (t & Ht & Hr)%bind_Done. apply (heed_from_opt_root_ref env self m t Hs) in Ht.
  apply qbind_Ok in Hr as ([] & _ & Hr). apply bind_Done in Hr as (t' & Hins & Hr).
  unfold reference_apply, StateTree.state_apply. rewrite Ht. simpl. rewrite Hins. simpl.
  pose proof (inserted_nodes _ _ _ _ _ Ht Hins) as Hn.
  pose proof (heed_committed env self m t') as Hstep.
  destruct (trie_commit t') as [root diff] eqn:Hc. simpl in *.
  apply bind_Done in Hr as ([env1|] & Hw & Hr); [|done].
  apply bind_Done in Hr as (p & Hp & Hr). apply bind_Done in Hr as (env2 & ->%unwrap_Done & [= <- <-]).
  eexists. split; [done|]. destruct (resolver m). by apply (Hstep env1).
Qed.

(** When nothing fails on disk, it succeeds whenever the reference does. *)
Lemma heed_apply_progress env self m changes m' : HeedHealthy → heed_in_step env self m →
  reference_apply iteration_order m changes = Done (Ok m') →
  ∃ env' self', heed_state_apply env self changes = Done (Ok (env', self')) ∧ heed_in_step env' self' m'.
Proof.
  intros Hh Hs Hr. pose proof (proj1 (Hh env)) as Hread. unfold reference_apply, StateTree.state_apply in Hr.
  apply bind_Done in Hr as (t & Ht & Hr). apply bind_Done in Hr as (t' & Hins & Hr).
  pose proof (inserted_nodes _ _ _ _ _ Ht Hins) as Hn.
  pose proof (heed_committed env self m t') as Hstep.
  destruct (trie_commit t') as [root diff] eqn:Hc. simpl in *. injection Hr as <-.
  destruct (write_all_progress env "trie" (map_to_list diff) Hh) as [env1 W1]; [apply Hs|set_solver|].
  assert (Created env1) as Ho1.
  { intros c Hcf. rewrite (proj2 (write_all_after _ _ _ _ W1 c)). by apply Hs. }
  destruct (write_all_progress env1 "trie_root" [(u64_key HEED_ROOT_KEY, root)] Hh Ho1) as [env2 W2];
    [set_solver|].
  assert (heed_trie_insert_batch env (map_to_list diff).*1 (map_to_list diff).*2 = Done (Ok env1)) as E1
    by (unfold heed_trie_insert_batch; by rewrite zip_map_to_list).
  exists env2, (MkHeedState t' (Some root)). split; [|destruct (resolver m); by apply (Hstep env1)].
  unfold heed_state_apply, heed_tree. rewrite (heed_from_opt_root_readable _ _ _ Hs Hread), Ht. simpl.
  destruct Hread as (_ & _ & ->). simpl. rewrite Hins. simpl. rewrite Hc, E1. simpl.
  unfold heed_persist_state_root, heed_put_root. simpl. by rewrite W2.
Qed.

(** A state opened on the environment afterwards is the state of [m]. *)
Lemma heed_reopened env self m : heed_in_step env self m → readable_tries env →
  ∃ self', heed_state_new env = Done self' ∧ heed_in_step env self' m
    ∧ heed_state_root self' = StateTree.state_root m
    ∧ ∀ k, trie_get (hs_resolver self') k = trie_get (hs_resolver self) k.
Proof.
  intros Hs Hr. pose proof (heed_from_opt_root_readable _ _ _ Hs Hr) as Ht.
  destruct Hs as [Ho [Hn Hroot Hw Hsz (t & Htr & Hg)]]. unfold trie_of in Htr. rewrite Htr, Hroot in Ht.
  exists (MkHeedState t (current_state_root m)). split; [|split; [split; [done|]; split; try done; by exists t|]].
  - unfold heed_state_new, heed_trie_root. rewrite read_one_readable by (apply Hr || done || set_solver).
    rewrite Hw. destruct (current_state_root m) as [r|] eqn:Hm; [rewrite decode_b256_ok by by apply Hsz|];
      cbn [unwrap mbind exec_bind fmap result_fmap]; by rewrite Ht.
  - split; [done|]. intros k. by rewrite Hg.
Qed.

(** ** Every state stays readable *)

(** The changes of every transaction go to the state and then to the storage tries
    of the accounts, before the next is executed; a failure of either panics.
    Source: app/src/command.rs 246-255 [execute_transactions] *)
Fixpoint heed_execute (env : Env) (self : HeedState)
    (changes : list (ChangeSet * list (Address * StorageTrieChanges))) : exec (Env * HeedState) :=
  match changes with
  | [] => Done (env, self)
  | (move_vm, evm) :: changes =>
    applied ← heed_state_apply env self move_vm;
    '(env, self) ← unwrap applied;
    '(env, stored) ← heed_repository_apply env evm;
    unwrap stored;;
    heed_execute env self changes
  end.

(** A state whose nodes are those of its root, under their hashes, and are still
    among [nodes]. *)
Definition kept (nodes : Nodes) (m : InMemoryState ()) : Prop :=
  StateTree.db m ⊆ nodes ∧ hashed (StateTree.db m)
  ∧ ∃ r, current_state_root m = Some r ∧ length r = 32%nat ∧ opens_at (StateTree.db m) r.

Lemma kept_mono nodes nodes' m : nodes ⊆ nodes' → kept nodes m → kept nodes' m.
Proof. intros Hs [Hd Hk]. split; [by etrans|done]. Qed.

(** The states [ms] of a run that ends in [m]. *)
Record heed_run (env : Env) (self : HeedState) (ms : list (InMemoryState ())) (m : InMemoryState ()) : Prop := {
  run_step : heed_in_step env self m;
  run_pushed : heed_pushed env (StateTree.state_root <$> tail (ms ++ [m]));
  run_kept : Forall (kept (env_contents env "trie"%string)) (ms ++ [m]);
}.

Lemma reference_apply_kept m changes m' : NoNodeCollision → kept (StateTree.db m) m →
  reference_apply iteration_order m changes = Done (Ok m') →
  StateTree.db m ⊆ StateTree.db m' ∧ kept (StateTree.db m') m'.
Proof.
  intros Hnc (_ & Hh & r & Hr & _ & t & Ht) Ha. unfold reference_apply, StateTree.state_apply in Ha.
  apply bind_Done in Ha as (t0 & Ht0 & Ha). apply bind_Done in Ha as (t1 & Hins & Ha).
  pose proof (inserted_nodes _ _ _ _ _ Ht0 Hins) as Hn.
  assert (hashed (trie_commit t1).2) as Hd by (intros k v; apply trie_commit_hashed).
  destruct (trie_commit_open t1 ((trie_commit t1).2 ∪ StateTree.db m)) as (t' & Ht' & _); [by rewrite Hn|].
  pose proof (commit_root_size t1) as H32. destruct (trie_commit t1) as [root diff]. simpl in *.
  injection Ha as <-. simpl. split; [by apply nodes_agree_subseteq, hashed_agree|].
  split; [done|]. split; [by apply hashed_union|]. exists root. split; [done|]. split; [done|by exists t'].
Qed.

(** The storage tries have columns of their own. *)
Lemma heed_repository_frame changes : ∀ env env', heed_repository_apply env changes = Done (env', Ok ()) →
  heed_frame storage_columns env env'.
Proof.
  induction changes as [|[a c] changes IH]; intros env env' Hr; [by injection Hr as <-|].
  apply bind_Done in Hr as ([t|] & _ & Hr); [|done]. apply bind_Done in Hr as ([env1 r] & Ht & Hr).
  destruct r as [[]|]; [|done]. eapply heed_frame_trans; [|by apply IH]. clear Hr.
  unfold heed_storage_apply, heed_storage_insert_batch, heed_storage_put_root in Ht.
  apply bind_Done in Ht as ([env2|] & W1 & Ht); [|done]. apply bind_Done in Ht as ([env3|] & W2 & Ht); [|done].
  injection Ht as <-. apply write_all_after, after_column in W1, W2.
  eapply heed_frame_trans; (eapply heed_frame_weaken; [eassumption|decided]).
Qed.

Lemma reference_apply_all_app m l1 l2 : reference_apply_all iteration_order m (l1 ++ l2)
  = (m ←? reference_apply_all iteration_order m l1; reference_apply_all iteration_order m l2).
Proof.
  revert m. induction l1 as [|c l1 IH]; intros m; [done|]. simpl.
  destruct (reference_apply iteration_order m c) as [[m1|]|]; [|done..]. simpl. apply IH.
Qed.

Lemma heed_in_step_frame env env' self m : heed_frame (chain_columns ++ root_columns ++ storage_columns) env env' →
  heed_in_step env self m → heed_in_step env' self m.
Proof.
  intros [Hc Hf] [Ho Hd]. split; [intros c Hcol; rewrite Hc; by apply Ho|]. by rewrite !Hf by decided.
Qed.

(** Executing transactions succeeds only as applying their changes in memory does. *)
Lemma heed_execute_step l : ∀ env self m env' self', NoNodeCollision →
  heed_in_step env self m → kept (StateTree.db m) m → heed_execute env self l = Done (env', self') →
  ∃ m', reference_apply_all iteration_order m l.*1 = Done (Ok m') ∧ heed_in_step env' self' m'
    ∧ StateTree.db m ⊆ StateTree.db m' ∧ kept (StateTree.db m') m'
    ∧ ∀ c, c ∉ state_columns ++ storage_columns → env_contents env' c = env_contents env c.
Proof.
  induction l as [|[c evm] l IH]; intros env self m env' self' Hnc Hs Hk Hx.
  { injection Hx as <- <-. by exists m. }
  apply bind_Done in Hx as (r & Ha & Hx). apply bind_Done in Hx as ([env1 self1] & ->%unwrap_Done & Hx).
  apply bind_Done in Hx as ([env2 r2] & He & Hx). apply bind_Done in Hx as ([] & ->%unwrap_Done & Hx).
  destruct (heed_apply_step _ _ _ _ _ _ Hs Ha) as (m1 & Hm1 & Hs1 & Hf1).
  destruct (reference_apply_kept m c m1 Hnc Hk Hm1) as [Hsub Hk1].
  apply heed_repository_frame in He.
  assert (heed_in_step env2 self1 m1) as Hs2.
  { eapply heed_in_step_frame; [|exact Hs1]. eapply heed_frame_weaken; [exact He|decided]. }
  destruct (IH env2 self1 m1 env' self' Hnc Hs2 Hk1 Hx) as (m' & Hm' & Hs' & Hsub' & Hk' & Hf').
  exists m'. split; [cbn [fmap list_fmap fst reference_apply_all]; by rewrite Hm1|].
  split; [done|]. split; [by etrans|]. split; [done|].
  intros col Hcol. rewrite (Hf' col Hcol). rewrite (proj2 He) by set_solver. apply Hf1; set_solver.
Qed.

(** A kept state opens at its root among the nodes on disk. *)
Lemma kept_opens nodes m : kept nodes m →
  ∃ t t', trie_of m t' ∧ trie_from nodes (StateTree.state_root m) = Some t
    ∧ (∀ k, trie_get t k = trie_get t' k) ∧ length (StateTree.state_root m) = 32%nat.
Proof.
  intros (Hsub & _ & r & Hr & H32 & t' & Ht'). destruct (trie_from_mono _ _ _ _ Hsub Ht') as (t & Ht & Hg).
  exists t, t'. unfold trie_of, StateTree.tree, StateTree.state_root. rewrite Hr. simpl. by rewrite Ht'.
Qed.

(** A kept state is opened at the height its root is pushed for. *)
Lemma kept_at_height env self ms m root0 i x : heed_run env self ms m → readable_tries env →
  Z.of_nat (length ms) < 2 ^ 64 → (StateTree.state_root <$> ms ++ [m]) !! 0%nat = Some root0 →
  (ms ++ [m]) !! i = Some x →
  ∃ t t', heed_tree_at env root0 (Z.of_nat i) = Done (Ok t) ∧ trie_of x t' ∧ ∀ k, trie_get t k = trie_get t' k.
Proof.
  intros [Hs Hp Hk] Hread Hl H0' Hx. pose proof Hk as Hk'. rewrite Forall_lookup in Hk'.
  destruct (kept_opens _ _ (Hk' _ _ Hx)) as (t & t' & Ho & Hf & Hg & _). exists t, t'. split; [|done].
  assert (i ≤ length ms)%nat as Hi by (apply lookup_lt_Some in Hx; rewrite length_app in Hx; simpl in Hx; lia).
  assert (heed_root_by_height env root0 (Z.of_nat i) = Done (Ok (Some (StateTree.state_root x)))) as Hroot.
  { destruct (heed_root_pushed env _ root0 (Z.of_nat i) (proj1 Hs) Hp) as [->|[Hn _]].
    - apply Forall_fmap. rewrite Forall_forall. intros y Hy. rewrite Forall_forall in Hk.
      by destruct (kept_opens _ y (Hk y ltac:(destruct (ms ++ [m]); set_solver))) as (? & ? & _ & _ & _ & H32).
    - unfold uint. lia.
    - simpl. do 2 f_equal. rewrite list_lookup_fmap in H0'. destruct (Z.eqb_spec (Z.of_nat i) 0) as [E|E].
      + replace i with 0%nat in Hx by lia. rewrite Hx in H0'. by injection H0' as <-.
      + rewrite list_lookup_fmap. destruct i as [|i]; [lia|]. rewrite Nat2Z.id. simpl.
        destruct (ms ++ [m]); [done|]. simpl in *. by rewrite Hx.
    - by destruct Hread. }
  unfold heed_tree_at. rewrite Hroot. simpl. unfold heed_from_opt_root, heed_try_from_opt_root.
  destruct Hread as (_ & -> & _). simpl. by rewrite Hf.
Qed.

End HeedState.

(** ** Blocks *)

Section HeedBuilds.
Context `{EthTrie, WorldLibrary}.
Context `{!TxLibrary, EnvelopeLibrary, HeaderLibrary, !AppLibrary, Heed, !HeedReads}.
Context `{!Json ExtendedBlock, !Json ExtendedTransaction, !Json ExtendedReceipt}.
Context (iteration_order : gmap TreeKey TreeValue → list (TreeKey * TreeValue)).

(** The transactions one by one, the root of the state they leave, and the block.
    Source: app/src/command.rs 80-150 [start_block_build] *)
Definition heed_build (env : Env) (self : HeedState) (parent : ExtendedBlock)
    (attributes : Payload) (id : PayloadId) (txs : list OpTxEnvelope) (base_fee : Z)
    (header_for_execution : HeaderForExecution) (x : Executed) : exec (Env * HeedState * ExtendedBlock) :=
  '(env, self) ← heed_execute iteration_order env self (ex_changes x);
  env ← heed_on_tx_batch env self;
  let outcome := MkExecutionOutcome (ex_receipts_root x) (heed_state_root self)
    (ex_logs_bloom x) (ex_gas_used x) (ex_total_tip x) in
  let b := assemble_block parent attributes id txs base_fee header_for_execution outcome in
  env ← heed_commit env b txs (ex_receipts x);
  Done (env, self, b).

(** The builds of a run, with their blocks. *)
Fixpoint heed_builds (env : Env) (self : HeedState) (builds : list Build)
    : exec (Env * HeedState * list ExtendedBlock) :=
  match builds with
  | [] => Done (env, self, [])
  | c :: builds =>
    '(env, self, b) ← heed_build env self (bd_parent c) (bd_attributes c) (bd_id c) (bd_txs c)
      (bd_base_fee c) (bd_header c) (bd_executed c);
    '(env, self, blocks) ← heed_builds env self builds;
    Done (env, self, b :: blocks)
  end.

(** The state changes of all transactions of the builds, in order. *)
Definition changes_of (builds : list Build) : list ChangeSet :=
  builds ≫= λ c, (ex_changes (bd_executed c)).*1.

Context `{!HeedLaws, !HeedReadsLaws, !EthTrieLaws}.
Context `{!JsonLaws ExtendedBlock, !JsonLaws ExtendedTransaction, !JsonLaws ExtendedReceipt}.
Context (commit_root_size : ∀ t, length (trie_commit t).1 = 32%nat).

Lemma heed_build_step env self ms m parent attributes id txs base_fee hx x env' self' b : NoNodeCollision →
  Z.of_nat (length ms) + 1 < 2 ^ 64 → heed_run env self ms m →
  heed_build env self parent attributes id txs base_fee hx x = Done (env', self', b) →
  ∃ m', reference_apply_all iteration_order m (ex_changes x).*1 = Done (Ok m')
    ∧ heed_run env' self' (ms ++ [m]) m' ∧ h_state_root (header (block b)) = StateTree.state_root m'.
Proof.
  intros Hnc Hl [Hs Hp Hk] Hb. unfold heed_build in Hb. apply bind_Done in Hb as ([env1 self1] & Hx & Hb).
  apply bind_Done in Hb as (env2 & Hpush & Hb). apply bind_Done in Hb as (env3 & Hc & [= <- <- <-]).
  assert (kept (StateTree.db m) m) as Hkm.
  { apply Forall_app in Hk as [_ Hk]. apply Forall_inv in Hk as [_ ?]. by split. }
  destruct (heed_execute_step iteration_order commit_root_size _ env self m env1 self1 Hnc Hs Hkm Hx)
    as (m' & Hm' & Hs1 & Hsub & Hkm' & Hf1). exists m'. split; [done|].
  unfold heed_on_tx_batch in Hpush. apply bind_Done in Hpush as (r & Hpush & ->%unwrap_Done).
  assert (heed_pushed env1 (StateTree.state_root <$> tail (ms ++ [m]))) as Hp1
    by (destruct Hp as [P1 P2]; split; [|intros h Hh]; rewrite Hf1 by decided; auto).
  destruct (heed_push_step env1 _ (heed_state_root self1) env2 Hp1) as (Hp2 & Hf2 & Hc2); [|exact Hpush|].
  { rewrite length_fmap. destruct ms; simpl in *; rewrite ?length_app; simpl; lia. }
  destruct (heed_commit_frame _ _ _ _ _ Hc) as [Hc3 Hf3].
  assert (heed_in_step env3 self1 m') as Hs3.
  { eapply heed_in_step_frame; [|exact Hs1]. split; [intros c; by rewrite Hc3|].
    intros c Hcol. rewrite Hf3, Hf2; [done|set_solver..]. }
  assert (heed_state_root self1 = StateTree.state_root m') as Hroot.
  { destruct Hs1 as [_ Hd1]. unfold heed_state_root. by rewrite (disk_opened _ _ _ _ _ Hd1). }
  split; [|exact Hroot]. destruct Hs as [_ Hd]. rewrite (disk_nodes _ _ _ _ _ Hd) in Hk. split.
  - done.
  - rewrite Hroot in Hp2. destruct Hp2 as [P1 P2].
    assert (tail ((ms ++ [m]) ++ [m']) = tail (ms ++ [m]) ++ [m']) as -> by by destruct ms.
    rewrite fmap_app. split; [|intros h Hh]; rewrite Hf3 by decided; auto.
  - destruct Hs3 as [_ Hd3]. rewrite (disk_nodes _ _ _ _ _ Hd3). apply Forall_app. split; [|by constructor].
    eapply Forall_impl; [exact Hk|]. intros y Hy. by eapply kept_mono.
Qed.

Lemma heed_builds_run builds : ∀ env self ms m env' self' blocks, NoNodeCollision →
  Z.of_nat (length ms + length builds) < 2 ^ 64 →
  heed_run env self ms m → heed_builds env self builds = Done (env', self', blocks) →
  ∃ ms' m', heed_run env' self' (ms ++ ms') m' ∧ length ms' = length builds ∧ length blocks = length builds
    ∧ (∀ i, i ≤ length builds → ∃ mi, (ms' ++ [m']) !! i = Some mi
         ∧ reference_apply_all iteration_order m (changes_of (take i builds)) = Done (Ok mi)
         ∧ ∀ b, 0 < i → blocks !! pred i = Some b → h_state_root (header (block b)) = StateTree.state_root mi)%nat.
Proof.
  induction builds as [|c builds IH]; intros env self ms m env' self' blocks Hnc Hl Hrun Hb.
  - injection Hb as <- <- <-. exists [], m. rewrite app_nil_r. split; [done|]. split; [done|]. split; [done|].
    intros i Hi. simpl in Hi. replace i with 0%nat by lia. exists m. split; [done|]. split; [done|]. intros b; lia.
  - simpl in Hb, Hl. apply bind_Done in Hb as ([[env1 self1] b1] & Hb1 & Hb).
    apply bind_Done in Hb as ([[env2 self2] blocks2] & Hb & [= <- <- <-]).
    destruct (heed_build_step env self ms m (bd_parent c) (bd_attributes c) (bd_id c) (bd_txs c) (bd_base_fee c)
      (bd_header c) (bd_executed c) env1 self1 b1 Hnc) as (m1 & Hm1 & Hrun1 & Hroot); [lia|done|exact Hb1|].
    destruct (IH env1 self1 (ms ++ [m]) m1 env2 self2 blocks2) as (ms' & m' & Hrun' & Hlen & Hlenb & Hi);
      [done|rewrite length_app; simpl; lia|done..|].
    exists (m :: ms'), m'. rewrite <- app_assoc in Hrun'. split; [done|]. split; [simpl; lia|]. split; [simpl; lia|].
    intros [|i] Hi'.
    { exists m. split; [done|]. split; [done|]. intros b; lia. }
    destruct (Hi i) as (mi & Hl' & Hr & Hrb); [simpl in Hi'; lia|]. exists mi. split; [done|]. split.
    + unfold changes_of. cbn [take]. rewrite bind_cons, reference_apply_all_app, Hm1. exact Hr.
    + intros b _ Hlb. simpl in Hlb. destruct i as [|i]; [|by apply Hrb; [lia|]].
      injection Hlb as <-. rewrite Hroot. simpl in Hr. congruence.
Qed.

(** C32 (safety): every state stays readable on LMDB.  A node starts from a genesis
    state on disk and builds any blocks: the changes of each transaction, any
    number of them, go to the state and then to the storage tries, the root of the
    state is pushed, and the receipts, the transactions and the block are written.
    Then at every height up to the head the trie the queries open has the content
    the state had after the transactions of that many blocks, in the reference
    that keeps the state in memory, and the root in the header of that block is
    that of this state; the state a restart opens is that of the head. *)
Theorem heed_keeps_every_state env self m builds env' self' blocks :
  NoNodeCollision → Z.of_nat (length builds) < 2 ^ 64 →
  heed_run env self [] m → heed_builds env self builds = Done (env', self', blocks) →
  readable_tries env' →
  (∀ i, (i ≤ length builds)%nat → ∃ mi t t',
    reference_apply_all iteration_order m (changes_of (take i builds)) = Done (Ok mi)
    ∧ heed_tree_at env' (StateTree.state_root m) (Z.of_nat i) = Done (Ok t)
    ∧ trie_of mi t' ∧ (∀ k, trie_get t k = trie_get t' k)
    ∧ ∀ b, (0 < i)%nat → blocks !! pred i = Some b → h_state_root (header (block b)) = StateTree.state_root mi)
  ∧ length blocks = length builds
  ∧ ∃ m' self'', reference_apply_all iteration_order m (changes_of builds) = Done (Ok m')
    ∧ heed_state_new env' = Done self'' ∧ heed_state_root self'' = StateTree.state_root m'
    ∧ ∀ k, trie_get (hs_resolver self'') k = trie_get (hs_resolver self') k.
Proof.
  intros Hnc Hl Hrun Hb Hread.
  destruct (heed_builds_run builds env self [] m env' self' blocks)
    as (ms & m' & Hrun' & Hlen & Hlenb & Hi); [done..|].
  simpl in Hrun'. destruct (Hi 0%nat) as (m0 & H0' & [= <-] & _); [lia|]. split; [|split; [done|]].
  - intros i Hle. destruct (Hi i Hle) as (mi & Hmi & Href & Hroots).
    destruct (kept_at_height commit_root_size env' self' ms m' (StateTree.state_root m) i mi) as (t & t' & Ht & Htr & Hg);
      [done|done|lia|by rewrite list_lookup_fmap, H0'|done|].
    by exists mi, t, t'.
  - destruct (Hi (length builds)) as (mi & Hmi & Href & _); [done|]. rewrite firstn_all in Href.
    assert (mi = m') as -> by (rewrite <- Hlen, list_lookup_middle in Hmi by done; congruence).
    destruct (heed_reopened commit_root_size env' self' m' (run_step _ _ _ _ Hrun') Hread) as (self'' & Hn & _ & Hr & Hg).
    by exists m', self''.
Qed.

End HeedBuilds.

(** ** The queries *)

Section HeedQueries.
Context `{EvMap, StateReading, EthTrie, !EvmStateLibrary}.
Context `{!VmTypes, !MoveVm, !WorldState, !ExecutionLibrary, Heed, !HeedReads}.
Context (get_proof : Trie → bytes → option (list bytes)) (as_state : Trie → MoveState).

(** Source: storage/heed/src/state.rs 182-191 [HeedStateQueries::balance_at] *)
Definition heed_balance_at (env : Env) (genesis_state_root : B256) (evm_storage : EvmStorage)
    (account : AccountAddress) (height : Z) : exec (option Z) :=
  resolver ← heed_resolver env genesis_state_root height;
  match resolver with
  | Err _ => Done None
  | Ok tree => Some <$> quick_get_eth_balance account (as_state tree) evm_storage
  end.

(** Source: storage/heed/src/state.rs 193-202 [HeedStateQueries::nonce_at] *)
Definition heed_nonce_at (env : Env) (genesis_state_root : B256) (evm_storage : EvmStorage)
    (account : AccountAddress) (height : Z) : exec (option Z) :=
  resolver ← heed_resolver env genesis_state_root height;
  match resolver with
  | Err _ => Done None
  | Ok tree => Some <$> quick_get_nonce account (as_state tree) evm_storage
  end.

(** Source: storage/heed/src/state.rs 204-221 [HeedStateQueries::proof_at] *)
Definition heed_proof_at (env : Env) (genesis_state_root : B256)
    (account : AccountAddress) (storage_slots : list Z) (height : Z) : exec (option ProofResponse) :=
  let address := to_eth_address account in
  if negb (in_l2_range address) then Done None else
  tree ← heed_tree_at env genesis_state_root height;
  match tree with
  | Err _ => Done None
  | Ok tree =>
    resolver ← heed_resolver env genesis_state_root height;
    match resolver with
    | Err _ => Done None
    | Ok _ =>
      proof_from_trie_and_resolver get_proof address storage_slots tree (λ address root,
        Done (ok (heed_for_account_with_root env address root)))
    end
  end.

End HeedQueries.

(** Witnesses: two blocks on the environment of [HeedWitness]. *)
Module HeedStateWitness.
Import EvMap.Model Envelope.Witness BlockWitness ChainWitness EvmStateWitness RocksWitness HeedWitness.
#[local] Existing Instance unit_errors.
#[local] Existing Instance tx_library.
#[local] Existing Instance envelopes.
#[local] Existing Instance long_headers.
#[local] Existing Instance WorldWitness.world_library.
#[local] Existing Instance WorldWitness.app_library.
#[local] Existing Instance plain_heed.
#[local] Existing Instance plain_heed_laws.

(** Roots of 32 numbers, one for each node. *)
Definition wide_hash (v : bytes) : B256 := Z.pos (encode v) :: replicate 31 0.
#[local] Instance wide_trie : EthTrie := StorageWitness.trie_with wide_hash.
#[local] Instance wide_trie_laws : EthTrieLaws := StorageWitness.trie_with_laws wide_hash.

#[local] Instance plain_heed_reads : HeedReads := {|
  env_open_reads := λ env c, Ok (env_contents env c); env_walk_reads := λ _ _, Ok () |}.
#[local] Instance plain_heed_reads_laws : HeedReadsLaws.
Proof. by intros env c nodes [= <-]. Qed.

Lemma wide_root_size (t : Trie) : length (trie_commit t).1 = 32%nat.
Proof. done. Qed.

Lemma wide_no_collision : NoNodeCollision.
Proof. intros v w Hvw. injection Hvw as Hvw. by apply (inj encode). Qed.

Lemma plain_readable_env (env : Env) : readable_tries env.
Proof.
  split; [|by split]. split; [by exists env|]. intros t _. split; [done|]. intros c.
  split; [by eexists|]. split; [apply RocksWitness.last_entry_ok|]. intros k. by eexists.
Qed.

Definition account_change (b : Z) : ChangeSet := WorldWitness.account_change b.

(** A node whose genesis state was applied to empty databases. *)
Definition nothing : Env := λ _ : string, ∅.
Definition genesis_done : option (Env * HeedState) :=
  match heed_state_apply map_to_list nothing (MkHeedState (trie_new ∅) None) (account_change 1) with
  | Done (Ok x) => Some x | _ => None end.
Definition genesis_env : Env := from_option fst nothing genesis_done.
Definition genesis_heed : HeedState := from_option snd (MkHeedState (trie_new ∅) None) genesis_done.
Definition genesis_memory : InMemoryState () :=
  match reference_apply map_to_list (MkState () ∅ None) (account_change 1) with
  | Done (Ok m) => m | _ => MkState () ∅ None end.

Ltac computed := match goal with |- ?m = _ =>
  assert (match m with Done (Ok _) => true | _ => false end = true) by (vm_compute; reflexivity);
  destruct m as [[[]|]|]; done end.

Lemma genesis_applied :
  heed_state_apply map_to_list nothing (MkHeedState (trie_new ∅) None) (account_change 1)
    = Done (Ok (genesis_env, genesis_heed)).
Proof. unfold genesis_env, genesis_heed, genesis_done. computed. Qed.

Lemma nothing_in_step : heed_in_step nothing (MkHeedState (trie_new ∅) None) (MkState () ∅ None).
Proof.
  split; [intros c Hc; by apply bool_decide_eq_true_2|]. split; try done. exists (trie_new ∅). split; done.
Qed.

Lemma genesis_run : heed_run genesis_env genesis_heed [] genesis_memory.
Proof.
  destruct (heed_apply_step map_to_list wide_root_size nothing _ _ (account_change 1) genesis_env genesis_heed
    nothing_in_step genesis_applied) as (m' & Hm' & Hs & Hc).
  assert (m' = genesis_memory) as -> by (unfold genesis_memory; rewrite Hm'; done).
  split; [done|split|].
  - by rewrite Hc.
  - intros h Hh. rewrite Hc by done. by destruct (h =? 0).
  - constructor; [|done]. destruct Hs as [_ [-> _ _ _ _]]. split; [done|]. split.
    + intros k v Hk. vm_compute in Hk.
      assert (({[ wide_hash [Z.pos (encode ({[ [7] := [1] ]} : gmap bytes bytes))] :=
        [Z.pos (encode ({[ [7] := [1] ]} : gmap bytes bytes))] ]} : Nodes) !! k = Some v) as Hk' by exact Hk.
      by apply lookup_singleton_Some in Hk' as [<- <-].
    + eexists. split; [reflexivity|]. split; [done|]. vm_compute. by eexists.
Qed.

(** A block of two transactions, the first of which writes a slot of a contract
    too, and a block of one on top of it. *)
Definition slot_changes : list (Address * StorageTrieChanges) :=
  [(replicate 20 7, storage_commit (trie_insert [1] [5] (trie_new ∅)))].
Definition first_yields : Executed :=
  MkExecuted [(account_change 2, slot_changes); (account_change 3, [])] executed1.2 [] [] 0 0.
Definition second_yields : Executed := MkExecuted [(account_change 4, slot_changes)] [] [] [] 0 0.

(** The state root that changes leave on the genesis state. *)
Definition root_of (l : list (ChangeSet * list (Address * StorageTrieChanges))) : B256 :=
  match heed_execute map_to_list genesis_env genesis_heed l with
  | Done (_, self) => heed_state_root self | Panic => [] end.

Definition hx2 : HeaderForExecution := MkHeaderForExecution 2 24 [3].
Definition first_block : ExtendedBlock := assemble_block g32 attributes 1 [legacy_tx; legacy_tx] 1 hx0
  (MkExecutionOutcome [] (root_of (ex_changes first_yields)) [] 0 0).
Definition second_block : ExtendedBlock := assemble_block first_block attributes 2 [legacy_tx] 1 hx2
  (MkExecutionOutcome [] (root_of (ex_changes first_yields ++ ex_changes second_yields)) [] 0 0).
Definition two_builds : list Build :=
  [MkBuild g32 attributes 1 [legacy_tx; legacy_tx] 1 hx0 first_yields;
   MkBuild first_block attributes 2 [legacy_tx] 1 hx2 second_yields].

#[local] Instance two_json_blocks : Json ExtendedBlock := table_json [first_block; second_block].
#[local] Instance two_json_txs : Json ExtendedTransaction := table_json
  (extended_transactions first_block [legacy_tx; legacy_tx] ++ extended_transactions second_block [legacy_tx]).
#[local] Instance two_json_receipts : Json ExtendedReceipt :=
  table_json (Receipts.with_block_hash (hash first_block) <$> executed1.2).
#[local] Instance two_json_blocks_laws : JsonLaws ExtendedBlock := table_json_laws _.
#[local] Instance two_json_txs_laws : JsonLaws ExtendedTransaction := table_json_laws _.
#[local] Instance two_json_receipts_laws : JsonLaws ExtendedReceipt := table_json_laws _.

Definition head_done : option (Env * HeedState * list ExtendedBlock) :=
  match heed_builds map_to_list genesis_env genesis_heed two_builds with
  | Done x => Some x | Panic => None end.
Definition head_env : Env := from_option (λ x, x.1.1) nothing head_done.
Definition head_heed : HeedState := from_option (λ x, x.1.2) genesis_heed head_done.

Lemma head_built :
  heed_builds map_to_list genesis_env genesis_heed two_builds
    = Done (head_env, head_heed, [first_block; second_block]).
Proof.
  unfold head_env, head_heed, head_done.
  assert (match heed_builds map_to_list genesis_env genesis_heed two_builds with
    | Done (_, l) => bool_decide (l = [first_block; second_block]) | Panic => false end = true) as Hrun
    by (vm_compute; reflexivity).
  destruct (heed_builds _ _ _ _) as [[[? ?] l]|]; [|discriminate Hrun].
  apply bool_decide_eq_true in Hrun. by rewrite Hrun.
Qed.

Lemma heed_keeps_every_state_witness :
  (∀ i, (i ≤ 2)%nat → ∃ mi t t',
    reference_apply_all map_to_list genesis_memory (changes_of (take i two_builds)) = Done (Ok mi)
    ∧ heed_tree_at head_env (StateTree.state_root genesis_memory) (Z.of_nat i) = Done (Ok t)
    ∧ trie_of mi t' ∧ (∀ k, trie_get t k = trie_get t' k)
    ∧ ∀ b, (0 < i)%nat → [first_block; second_block] !! pred i = Some b →
        h_state_root (header (block b)) = StateTree.state_root mi)
  ∧ length [first_block; second_block] = length two_builds
  ∧ ∃ m' self'', reference_apply_all map_to_list genesis_memory (changes_of two_builds) = Done (Ok m')
    ∧ heed_state_new head_env = Done self'' ∧ heed_state_root self'' = StateTree.state_root m'
    ∧ ∀ k, trie_get (hs_resolver self'') k = trie_get (hs_resolver head_heed) k.
Proof.
  apply (heed_keeps_every_state map_to_list wide_root_size genesis_env genesis_heed genesis_memory two_builds
    head_env head_heed _ wide_no_collision);
    [done|apply genesis_run|apply head_built|apply plain_readable_env].
Defined.

(** The heights differ: each opens to the account its last transaction wrote. *)
Example heights_differ :
  (λ h, match heed_tree_at head_env (StateTree.state_root genesis_memory) h with
        | Done (Ok t) => trie_get t [7] | _ => None end) <$> [0; 1; 2] = [Some [1]; Some [3]; Some [4]].
Proof. vm_compute. done. Qed.

End HeedStateWitness.
