(* ===== verification/Crash.v ===== *)
(** A node on RocksDB that stops in the middle of a block ([app/src/command.rs]
    over [storage/rocksdb/src]).  A build reaches the disk in many batches: the
    nodes, root and storage tries of every transaction, the state root of the
    block, then its receipts, its transactions, the block and its payload id.  Each
    batch is atomic and the build is not, so what a crash leaves is one of the disks
    between two batches.  [recording] is a database that keeps all of them. *)
From S2P Require Import Prelude Primitives MoveTypes Errors Envelope EvMap.
From S2P Require Import Transactions Fees BaseFee Receipts Payloads Blocks Application Chain.
From S2P Require Import MoveVm EthToken ToyVm Nonces Events TagValidation Execution.
From S2P Require Import Storage StateTree EvmState StateQueries World Publication Columns RocksDb RocksState HeedState.

Local Open Scope Z_scope.

(** ** A build on the database *)

Section RocksBuild.
Context `{EthTrie, WorldLibrary}.
Context `{!TxLibrary, EnvelopeLibrary, HeaderLibrary, EvMap, !Executor, !AppLibrary}.
Context {D : RocksDb} `{!TrieReads}.
Context `{!Json ExtendedBlock, !Json ExtendedTransaction, !Json ExtendedReceipt}.
Context (iteration_order : gmap TreeKey TreeValue → list (TreeKey * TreeValue)).

(** The changes of every transaction go to the disk before the next is executed.
    Source: app/src/command.rs 246-255 [execute_transactions] *)
Fixpoint rocks_execute (db : Db) (self : RocksDbState)
    (changes : list (ChangeSet * list (Address * StorageTrieChanges))) : exec (Db * RocksDbState) :=
  match changes with
  | [] => Done (db, self)
  | (move_vm, evm) :: changes =>
    applied ← rocks_state_apply iteration_order db self move_vm;
    '(db, self) ← unwrap applied;
    '(db, stored) ← rocks_repository_apply db evm;
    unwrap stored;;
    rocks_execute db self changes
  end.

(** Source: app/src/command.rs 80-150 [start_block_build] *)
Definition rocks_build (db : Db) (self : RocksDbState) (parent : ExtendedBlock)
    (attributes : Payload) (id : PayloadId) (txs : list OpTxEnvelope) (base_fee : Z)
    (header_for_execution : HeaderForExecution) (x : Executed)
    : exec (Db * RocksDbState * ExtendedBlock) :=
  '(db, self) ← rocks_execute db self (ex_changes x);
  db ← rocks_on_tx_batch db self;
  let outcome := MkExecutionOutcome (ex_receipts_root x) (rocks_state_root self)
    (ex_logs_bloom x) (ex_gas_used x) (ex_total_tip x) in
  let b := assemble_block parent attributes id txs base_fee header_for_execution outcome in
  db ← rocks_commit db b txs (ex_receipts x);
  Done (db, self, b).

(** Source: app/src/command.rs 59-63 [start_block_build] *)
Fixpoint rocks_unprocessed (db : Db) (txs : list TxWithMetadata) : exec (list TxWithMetadata) :=
  match txs with
  | [] => Done []
  | (tx_hash, tx) :: txs =>
    found ← receipt_contains db tx_hash;
    processed ← unwrap found;
    rest ← rocks_unprocessed db txs;
    Done (if processed : bool then rest else (tx_hash, tx) :: rest)
  end.

(** [execution] is what executing the transactions of the block yields; the
    memory pool is drained.
    Source: app/src/command.rs 34-150 [start_block_build] *)
Definition rocks_start_block_build (db : Db) (self : RocksDbState) (gas_fee : Eip1559GasFee)
    (mem_pool : gmap B256 (OpTxEnvelope * L1GasFeeInput)) (attributes : Payload) (id : PayloadId)
    (execution : list TxWithMetadata → Z → HeaderForExecution → exec Executed)
    : exec (Db * RocksDbState * gmap B256 (OpTxEnvelope * L1GasFeeInput)) :=
  found ← payload_by_id db id;
  found ← unwrap found;
  if decide (is_Some found) then Done (db, self, mem_pool) else
  transactions_with_metadata ←
    rocks_unprocessed db (omap attribute_tx (p_transactions attributes) ++ drain_order mem_pool);
  latest ← block_repo_latest db;
  latest ← unwrap latest;
  parent ← expect latest;
  let h := header (block parent) in
  base_fee ← base_fee_per_gas gas_fee (h_gas_limit h) (h_gas_used h) (default 0 (h_base_fee_per_gas h));
  let header_for_execution := execution_header parent attributes in
  let txs := (λ t, t.2.1) <$> transactions_with_metadata in
  x ← execution transactions_with_metadata base_fee header_for_execution;
  '(db, self, _) ← rocks_build db self parent attributes id txs base_fee header_for_execution x;
  Done (db, self, ∅).

End RocksBuild.

(** ** What a batch changes *)

Section Writes.
Context {D : RocksDb} `{!RocksDbLaws}.

(** The two disks have the same columns, and all but those of [cs] are equal. *)
Definition same_but (cs : list string) (db db' : Db) : Prop :=
  (∀ c, has_column db' c = has_column db c) ∧ ∀ c, c ∉ cs → contents db' c = contents db c.

Lemma same_but_refl cs db : same_but cs db db.
Proof. done. Qed.
Lemma same_but_trans cs db1 db2 db3 : same_but cs db1 db2 → same_but cs db2 db3 → same_but cs db1 db3.
Proof. intros [K1 C1] [K2 C2]. split; intros c; [by rewrite K2|]. intros Hc. by rewrite C2, C1. Qed.
Lemma same_but_weaken cs cs' db db' : same_but cs db db' → cs ⊆ cs' → same_but cs' db db'.
Proof. intros [K C] Hs. split; [done|]. intros c Hc. apply C. intros Hin. by apply Hc, Hs. Qed.
Lemma same_but_opened cs db db' : same_but cs db db' → Opened db → Opened db'.
Proof. intros [K _] Ho c Hc. rewrite K. by apply Ho. Qed.

Lemma write_same_but db ws db' : db_write db ws = Ok db' → same_but ws.*1 db db'.
Proof.
  intros Hw. destruct (db_write_ok _ _ _ Hw) as [W K]. split; [done|]. intros c. rewrite W. clear.
  generalize (contents db). induction ws as [|[c' [k v]] ws IH]; intros cols Hc; [done|].
  apply not_elem_of_cons in Hc as [Hne Hc]. simpl in *. rewrite IH by done. by apply put_ne.
Qed.

(** One column. *)
Lemma write_column db (c : string) (ws : list (bytes * bytes)) db' : db_write db (pair c <$> ws) = Ok db' →
  same_but [c] db db'.
Proof.
  intros Hw. eapply same_but_weaken; [by eapply write_same_but|]. intros c' Hc.
  apply list_elem_of_fmap in Hc as ([c0 w] & -> & Hin). apply list_elem_of_fmap in Hin as (? & [= -> ->] & _).
  apply list_elem_of_here.
Qed.

Lemma write_union (db : Db) (c : string) (nodes : gmap bytes bytes) (db' : Db) : db_write db (pair c <$> map_to_list nodes) = Ok db' →
  contents db' c = nodes ∪ contents db c ∧ same_but [c] db db'.
Proof.
  intros Hw. split; [|by eapply write_column]. rewrite (proj1 (db_write_ok _ _ _ Hw)).
  destruct (put_all_union c (contents db) (map_to_list nodes)) as [-> _];
    [apply NoDup_fst_map_to_list|]. by rewrite list_to_map_to_list.
Qed.

End Writes.

(** ** The disks of a build

    [Good] is what is shown of every disk: it must hold again after a batch whose
    outcome satisfies [Q]. *)

(** Disjoint lists of columns. *)
Definition apart (cs cs' : list string) : Prop := Forall (λ c, c ∉ cs') cs.
Lemma apart_in cs cs' c : apart cs cs' → c ∈ cs → c ∉ cs'.
Proof. unfold apart. rewrite Forall_forall. auto. Qed.

Section Points.
Context `{EthTrie, !EthTrieLaws, WorldLibrary}.
Context `{!TxLibrary, EnvelopeLibrary, HeaderLibrary, EvMapLaws, !Executor, !AppLibrary}.
Context {D : RocksDb} `{!RocksDbLaws, !TrieReads, !TrieReadsLaws}.
Context `{!Json ExtendedBlock, !Json ExtendedTransaction, !Json ExtendedReceipt}.

(** The chain of [g], [log] and perhaps [e] as the columns show it when [s] of the
    four batches of its commit are written. *)
Record ChainAt (g : Entry) (log : list Entry) (e : Entry) (s : nat) (db : Db) : Prop := {
  ca_receipts : Holds Receipts.transaction_hash json_written (contents db "receipt"%string)
    ((g :: upto 0 s log e) ≫= en_receipts);
  ca_txs : Holds et_hash json_written (contents db "transaction"%string)
    ((g :: upto 1 s log e) ≫= en_txs);
  ca_blocks : Holds hash json_written (contents db "block"%string) (en_block <$> g :: upto 2 s log e);
  ca_heights : Holds (λ b, u64_key (number b)) hash_written (contents db "height"%string)
    (en_block <$> g :: upto 2 s log e);
  ca_payloads : Holds (λ b, u64_key (payload_id b)) hash_written (contents db "payload"%string)
    (en_block <$> upto 3 s log e);
}.

(** The state column opens at [root] and still has the nodes of [nodes]. *)
Record StateAt (nodes : Nodes) (root : B256) (db : Db) : Prop := {
  sa_hashed : hashed (contents db "trie"%string);
  sa_nodes : nodes ⊆ contents db "trie"%string;
  sa_root : contents db "trie_root"%string !! ROOT_KEY = Some root;
  sa_size : length root = 32%nat;
  sa_opens : opens_at (contents db "trie"%string) root;
}.

(** Every account still has the storage nodes it has in [nodes]. *)
Definition storage_hashed (nodes : Nodes) : Prop :=
  ∀ a, length a = 20%nat → hashed (account_nodes a nodes).
Definition storage_grown (nodes nodes' : Nodes) : Prop :=
  ∀ a, length a = 20%nat → account_nodes a nodes ⊆ account_nodes a nodes'.
Record StoresAt (nodes : Nodes) (db : Db) : Prop := {
  st_hashed : storage_hashed (contents db "evm_storage_trie"%string);
  st_grown : storage_grown nodes (contents db "evm_storage_trie"%string);
}.

Lemma chain_frame cs g log e s db db' : same_but cs db db' → apart chain_columns cs →
  ChainAt g log e s db → ChainAt g log e s db'.
Proof.
  intros [_ F] Hc [Hr Ht Hb Hh Hp].
    split; rewrite F by (apply (apart_in _ _ _ Hc); decided); done.
Qed.
Lemma state_frame cs nodes root db db' : same_but cs db db' → apart state_columns cs →
  StateAt nodes root db → StateAt nodes root db'.
Proof.
  intros [_ F] Hc [Hh Hn Hr Hs Ho]. 
  split; rewrite ?F by (apply (apart_in _ _ _ Hc); decided); done.
Qed.
Lemma stores_frame cs nodes db db' : same_but cs db db' → apart storage_columns cs →
  StoresAt nodes db → StoresAt nodes db'.
Proof.
  intros [_ F] Hc [Hh Hg]. 
  split; rewrite F by (apply (apart_in _ _ _ Hc); decided); done.
Qed.
Lemma pushed_frame cs roots db db' : same_but cs db db' → apart root_columns cs →
  pushed db roots → pushed db' roots.
Proof.
  intros [_ F] Hc [Hk Hs]. 
  split; [|intros h Hh]; rewrite F by (apply (apart_in _ _ _ Hc); decided); auto.
Qed.

(** ** Every batch of a build *)

Context (g : Entry) (log : list Entry) (e : Entry) (roots : list B256) (nodes0 snodes0 : Nodes).

(** A disk between two batches: [s] of the commit's batches are written, the state
    root of the block is pushed after [roots] when [k] is 1, the state opens at
    [root]. *)
Record Point (s k : nat) (root : B256) (db : Db) : Prop := {
  pt_opened : Opened db;
  pt_chain : ChainAt g log e s db;
  pt_pushed : pushed db (if decide (0 < k)%nat then roots ++ [block_root e] else roots);
  pt_state : StateAt nodes0 root db;
  pt_stores : StoresAt snodes0 db;
}.
Definition CrashPoint (db : Db) : Prop :=
  ∃ s k root, (0 < s → 0 < k)%nat ∧ ((0 < k)%nat → root = block_root e) ∧ Point s k root db.

Lemma executing_point root db : Point 0 0 root db → CrashPoint db.
Proof. intros Hp. exists 0%nat, 0%nat, root. split; [lia|]. split; [lia|done]. Qed.
Lemma committing_point s db : Point s 1 (block_root e) db → CrashPoint db.
Proof. intros Hp. exists s, 1%nat, (block_root e). split; [lia|done]. Qed.

Context (Good : Db → Prop).
Context (good_write : ∀ db ws db', Good db → db_write db ws = Ok db' → CrashPoint db' → Good db').

(** *** The state *)

Lemma point_state root root' db db' : same_but state_columns db db' → StateAt nodes0 root' db' →
  Point 0 0 root db → Point 0 0 root' db'.
Proof.
  intros F Hs [Ho Hc Hp _ Hst]. split; [by eapply same_but_opened| | |done|].
  - eapply chain_frame; [exact F|decided|done].
  - eapply pushed_frame; [exact F|decided|done].
  - eapply stores_frame; [exact F|decided|done].
Qed.

(** The nodes of a commit, before its root. *)
Lemma state_batch root t (db db1 : Db) : NoNodeCollision → StateAt nodes0 root db →
  trie_nodes t = contents db "trie"%string →
  db_write db (pair "trie"%string <$> map_to_list (trie_commit t).2) = Ok db1 →
  StateAt nodes0 root db1 ∧ same_but state_columns db db1
  ∧ opens_at (contents db1 "trie"%string) (trie_commit t).1.
Proof.
  intros Hnc [Hh Hn Hr Hs Ho] Ht Hw. destruct (write_union _ _ _ _ Hw) as [Hu F].
  assert (hashed (trie_commit t).2) as Hd by (intros k v; apply trie_commit_hashed).
  assert (contents db "trie"%string ⊆ contents db1 "trie"%string) as Hsub
    by (rewrite Hu; by apply nodes_agree_subseteq, hashed_agree).
  split; [|split].
  - split; [rewrite Hu; by apply hashed_union|by etrans| |done|by eapply opens_at_mono].
    by rewrite (proj2 F) by decided.
  - eapply same_but_weaken; [exact F|decided].
  - destruct (trie_commit_open t (contents db1 "trie"%string)) as (t' & Ht' & _); [by rewrite Hu, Ht|].
    by exists t'.
Qed.

Lemma state_root_put root root' (db db2 : Db) : StateAt nodes0 root db → length root' = 32%nat →
  opens_at (contents db "trie"%string) root' → put_root db root' = Done (Ok db2) →
  StateAt nodes0 root' db2 ∧ same_but state_columns db db2
  ∧ db_write db [("trie_root"%string, (ROOT_KEY, root'))] = Ok db2.
Proof.
  intros [Hh Hn _ _ _] Hs Ho (c & ->%cf_Done & [= Hw])%bind_Done.
  pose proof (write_same_but _ _ _ Hw) as F. simpl in F.
  destruct (db_write_ok _ _ _ Hw) as [W _]. split; [|split; [|done]].
  - split; rewrite ?(proj2 F "trie"%string) by decided; try done.
    rewrite W. simpl. by rewrite put_eq, lookup_insert_eq.
  - eapply same_but_weaken; [exact F|decided].
Qed.

Context (iteration_order : gmap TreeKey TreeValue → list (TreeKey * TreeValue)).
Context (commit_root_size : ∀ t, length (trie_commit t).1 = 32%nat) (collision : NoNodeCollision).

Lemma rocks_tree_nodes db self t : rocks_tree db self = Done t → trie_nodes t = contents db "trie"%string.
Proof.
  intros (r & Hr & Ht)%bind_Done. apply bind_Done in Hr as (c & ->%cf_Done & Hr).
  destruct (rs_state_root self) as [root|].
  - destruct (open_reads db "trie") as [nodes|] eqn:Ho; [|by injection Hr as <-].
    apply open_reads_ok in Ho as ->. injection Hr as <-.
    destruct (trie_from _ root) as [t0|] eqn:Hf; [|done]. injection Ht as ->. by eapply trie_from_nodes.
  - injection Hr as <-. injection Ht as <-. apply trie_new_nodes.
Qed.

(** A transaction's changes of the state: two batches, a good disk after each. *)
Lemma state_apply_point root db self changes db' self' : Good db → Point 0 0 root db →
  rocks_state_apply iteration_order db self changes = Done (Ok (db', self')) →
  ∃ root', Good db' ∧ Point 0 0 root' db' ∧ rs_state_root self' = Some root'
    ∧ same_but state_columns db db'.
Proof.
  intros Hg Hp (t & Ht%rocks_tree_nodes & Hr)%bind_Done.
  apply qbind_Ok in Hr as ([] & _ & Hr). apply bind_Done in Hr as (t' & (values & _ & [= <-])%bind_Done & Hr).
  pose proof (insert_values_nodes (iteration_order values) t) as Hn. rewrite Ht in Hn.
  pose proof (λ db1, state_batch root _ db db1 collision (pt_state _ _ _ _ Hp) Hn) as Hbatch.
  pose proof (commit_root_size (insert_values t (iteration_order values))) as H32.
  destruct (trie_commit _) as [root' diff]. simpl in *.
  apply bind_Done in Hr as (w & (c & ->%cf_Done & [= <-])%bind_Done & Hr).
  destruct (db_write db _) as [db1|] eqn:W1; [|done]. destruct (Hbatch db1 eq_refl) as (S1 & F1 & O1).
  apply bind_Done in Hr as (p & Hput & Hr). apply bind_Done in Hr as (db2 & ->%unwrap_Done & [= <- <-]).
  destruct (state_root_put root root' db1 db2 S1 H32 O1 Hput) as (S2 & F2 & W2).
  pose proof (point_state _ _ _ _ F1 S1 Hp) as P1. pose proof (point_state _ _ _ _ F2 S2 P1) as P2.
  assert (Good db1) as G1 by (by eapply good_write, executing_point).
  exists root'. split; [by eapply good_write, executing_point|]. split; [done|]. split; [done|].
  by eapply same_but_trans.
Qed.

(** *** The storage of the accounts *)

Lemma point_stores root db db' : same_but storage_columns db db' → StoresAt snodes0 db' →
  Point 0 0 root db → Point 0 0 root db'.
Proof.
  intros F Hst [Ho Hc Hp Hs _]. split; [by eapply same_but_opened| | | |done].
  - eapply chain_frame; [exact F|decided|done].
  - eapply pushed_frame; [exact F|decided|done].
  - eapply state_frame; [exact F|decided|done].
Qed.

(** The changes of an account are the commit of a trie. *)
Definition committed (changes : list (Address * StorageTrieChanges)) : Prop :=
  ∀ a c, (a, c) ∈ changes → length a = 20%nat ∧ hashed (trie_diff c).

Lemma storage_batch_grows (a : Address) (diff : Nodes) (db db1 : Db) : length a = 20%nat → hashed diff →
  StoresAt snodes0 db →
  db_write db ((λ (e : bytes * bytes), let '(key, value) := e in
    ("evm_storage_trie"%string, (unique_key a key, value))) <$> map_to_list diff) = Ok db1 →
  StoresAt snodes0 db1 ∧ same_but storage_columns db db1.
Proof.
  intros Ha Hd [Hh Hgr] Hw. destruct (storage_batch_view _ _ _ _ Hw) as (V & N & C). split; [split|].
  - intros a' Ha'. destruct (decide (a' = a)) as [->|Hne]; [|rewrite N by congruence; by apply Hh].
    rewrite V. by apply hashed_union, Hh.
  - intros a' Ha'. etrans; [by apply Hgr|]. destruct (decide (a' = a)) as [->|Hne]; [|by rewrite N by congruence].
    rewrite V. apply nodes_agree_subseteq, hashed_agree; [done|done|by apply Hh].
  - split; [apply (db_write_ok _ _ _ Hw)|]. intros c Hc. apply C. unfold storage_columns in Hc. set_solver.
Qed.

Lemma trie_apply_point root db a c db' r : length a = 20%nat → hashed (trie_diff c) → Good db →
  Point 0 0 root db → rocks_trie_apply db a c = Done (db', r) →
  Good db' ∧ Point 0 0 root db' ∧ same_but storage_columns db db'.
Proof.
  intros Ha Hd Hg Hp (w & (c1 & ->%cf_Done & [= <-])%bind_Done & Hr)%bind_Done.
  destruct (db_write db _) as [db1|] eqn:W1; [|by injection Hr as <- _].
  destruct (storage_batch_grows _ _ _ _ Ha Hd (pt_stores _ _ _ _ Hp) W1) as [S1 F1].
  pose proof (point_stores _ _ _ F1 S1 Hp) as P1.
  assert (Good db1) as G1 by (by eapply good_write, executing_point).
  apply bind_Done in Hr as (w & (c2 & ->%cf_Done & [= <-])%bind_Done & Hr).
  destruct (db_write db1 _) as [db2|] eqn:W2; [|by injection Hr as <- _]. injection Hr as <- _.
  pose proof (write_same_but _ _ _ W2) as F2. simpl in F2.
  assert (StoresAt snodes0 db2) as S2
    by (destruct S1; split; rewrite (proj2 F2 "evm_storage_trie"%string) by decided; done).
  assert (same_but storage_columns db1 db2) as F2'
    by (eapply same_but_weaken; [exact F2|decided]).
  pose proof (point_stores _ _ _ F2' S2 P1) as P2.
  split; [by eapply good_write, executing_point|]. split; [done|by eapply same_but_trans].
Qed.

Lemma repository_apply_point changes : ∀ root db db' r, committed changes → Good db →
  Point 0 0 root db → rocks_repository_apply db changes = Done (db', r) →
  Good db' ∧ Point 0 0 root db' ∧ same_but storage_columns db db'.
Proof.
  induction changes as [|[a c] changes IH]; intros root db db' r Hc Hg Hp Hr.
  { injection Hr as <- _. done. }
  destruct (Hc a c) as [Ha Hd]; [apply list_elem_of_here|].
  apply bind_Done in Hr as ([t|] & _ & Hr); [|by injection Hr as <- _].
  apply bind_Done in Hr as ([db1 r1] & Ht & Hr).
  destruct (trie_apply_point _ _ _ _ _ _ Ha Hd Hg Hp Ht) as (G1 & P1 & F1).
  destruct r1; [|by injection Hr as <- _].
  destruct (IH root db1 db' r) as (G2 & P2 & F2); [|done..|].
  { intros a' c' Hin. apply Hc. by apply list_elem_of_further. }
  split; [done|]. split; [done|by eapply same_but_trans].
Qed.

(** All the transactions. *)
Lemma execute_point changes : ∀ root db self db' self', Forall (λ c, committed c.2) changes →
  Good db → Point 0 0 root db → rs_state_root self = Some root →
  rocks_execute iteration_order db self changes = Done (db', self') →
  ∃ root', Good db' ∧ Point 0 0 root' db' ∧ rs_state_root self' = Some root'
    ∧ same_but (state_columns ++ storage_columns) db db'.
Proof.
  induction changes as [|[move_vm evm] changes IH]; intros root db self db' self' Hc Hg Hp Hs Hr.
  { injection Hr as <- <-. by exists root. }
  apply Forall_cons in Hc as [Hc Hcs].
  apply bind_Done in Hr as (applied & Ha & Hr). apply bind_Done in Hr as ([db1 self1] & ->%unwrap_Done & Hr).
  apply bind_Done in Hr as ([db2 stored] & Hst & Hr). apply bind_Done in Hr as ([] & ->%unwrap_Done & Hr).
  destruct (state_apply_point _ _ _ _ _ _ Hg Hp Ha) as (root1 & G1 & P1 & S1 & F1).
  destruct (repository_apply_point _ _ _ _ _ Hc G1 P1 Hst) as (G2 & P2 & F2).
  destruct (IH root1 db2 self1 db' self' Hcs G2 P2 S1 Hr) as (root' & G' & P' & S' & F').
  exists root'. split; [done|]. split; [done|]. split; [done|].
  eapply same_but_trans; [eapply same_but_weaken; [exact F1|decided]|].
  eapply same_but_trans; [eapply same_but_weaken; [exact F2|decided]|exact F'].
Qed.

(** *** The state root of the block *)

Lemma push_writes (db : Db) root db' : push_state_root db root = Done (Ok db') → ∃ ws, db_write db ws = Ok db'.
Proof.
  intros (h & _ & Hr)%qbind_Ok. apply bind_Done in Hr as (c1 & _ & Hr).
  apply bind_Done in Hr as (c2 & _ & [= Hw]). eauto.
Qed.

Lemma push_point db db' : Z.of_nat (length roots) + 1 < 2 ^ 64 → Good db → Point 0 0 (block_root e) db →
  push_state_root db (block_root e) = Done (Ok db') → Good db' ∧ Point 0 1 (block_root e) db'.
Proof.
  intros Hl Hg [Ho Hc Hp Hs Hst] Hr. destruct (push_writes _ _ _ Hr) as [ws Hw].
  destruct (push_step db _ (block_root e) db' Hp) as (Hp' & F & K); [done..|].
  assert (same_but root_columns db db') as Hf.
  { split; [done|]. intros c Hne. unfold root_columns in Hne. apply F; set_solver. }
  assert (Point 0 1 (block_root e) db') as P'; [|by split; [eapply good_write, committing_point|]].
  split.
  - by eapply same_but_opened.
  - eapply chain_frame; [exact Hf|decided|done].
  - done.
  - eapply state_frame; [exact Hf|decided|done].
  - eapply stores_frame; [exact Hf|decided|done].
Qed.

(** *** The commit *)

Context `{!JsonLaws ExtendedBlock, !JsonLaws ExtendedTransaction, !JsonLaws ExtendedReceipt}.

(** A batch of the commit. *)
Lemma commit_point cs s db ws db' : Good db → Point s 1 (block_root e) db →
  db_write db ws = Ok db' → same_but cs db db' →
  apart (root_columns ++ state_columns ++ storage_columns) cs →
  ChainAt g log e (S s) db' → Good db' ∧ Point (S s) 1 (block_root e) db'.
Proof.
  intros Hg [Ho _ Hp Hs Hst] Hw F (H1' & (H2' & H3')%Forall_app)%Forall_app Hc.
  assert (Point (S s) 1 (block_root e) db') as P'; [|by split; [eapply good_write, committing_point|]].
  split; [by eapply same_but_opened|done| | |].
  - eapply pushed_frame; [exact F|done|done].
  - eapply state_frame; [exact F|done|done].
  - eapply stores_frame; [exact F|done|done].
Qed.

Lemma upto_bind {A} (f : Entry → list A) i s : (i < s)%nat →
  (g :: upto i s log e) ≫= f = ((g :: log) ≫= f) ++ f e.
Proof. intros Hi. by rewrite upto_new, app_comm_cons, bind_snoc by done. Qed.
Lemma upto_blocks i s : (i < s)%nat →
  en_block <$> g :: upto i s log e = (en_block <$> g :: log) ++ [en_block e].
Proof. intros Hi. by rewrite upto_new, app_comm_cons, fmap_app by done. Qed.

Lemma extend_writes (db : Db) rs db' : receipt_extend db rs = Done (Ok db') → ∃ ws, db_write db ws = Ok db'.
Proof. intros (c & _ & Hr)%bind_Done. apply bind_Done in Hr as (ws & _ & [= Hw]). eauto. Qed.

Lemma receipts_point db db' : Good db → Point 0 1 (block_root e) db →
  receipt_extend db (en_receipts e) = Done (Ok db') → Good db' ∧ Point 1 1 (block_root e) db'.
Proof.
  intros Hg Hp (c & ->%cf_Done & Hr)%bind_Done. apply bind_Done in Hr as (ws & Hws & [= Hw]).
  destruct (pt_chain _ _ _ _ Hp) as [Cr Ct Cb Ch Cp].
  destruct (write_records _ _ _ _ _ _ _ Cr Hws Hw) as (R & N & K).
  eapply (commit_point ["receipt"%string]); [done|done|exact Hw| |decided|].
  { split; [done|]. intros c Hc. apply N. set_solver. }
  split; [|by rewrite N..]. by rewrite upto_bind by lia.
Qed.

Lemma txs_point db db' : Good db → Point 1 1 (block_root e) db →
  transaction_extend db (en_txs e) = Done (Ok db') → Good db' ∧ Point 2 1 (block_root e) db'.
Proof.
  intros Hg Hp (c & ->%cf_Done & Hr)%bind_Done. apply bind_Done in Hr as (ws & Hws & [= Hw]).
  destruct (pt_chain _ _ _ _ Hp) as [Cr Ct Cb Ch Cp].
  destruct (write_records _ _ _ _ _ _ _ Ct Hws Hw) as (R & N & K).
  eapply (commit_point ["transaction"%string]); [done|done|exact Hw| |decided|].
  { split; [done|]. intros c Hc. apply N. set_solver. }
  split; [by rewrite N| |by rewrite N..]. by rewrite upto_bind by lia.
Qed.

Lemma block_point db db' : Good db → Point 2 1 (block_root e) db →
  block_add db (en_block e) = Done (Ok db') → Good db' ∧ Point 3 1 (block_root e) db'.
Proof.
  intros Hg Hp Hr. destruct (block_add_spec _ _ _ Hr) as (v & Hv & B & E & N & K).
  apply bind_Done in Hr as (c1 & _ & Hr). apply bind_Done in Hr as (v' & _ & Hr).
  apply bind_Done in Hr as (c2 & _ & [= Hw]).
  destruct (pt_chain _ _ _ _ Hp) as [Cr Ct Cb Ch Cp].
  eapply (commit_point ["block"; "height"]%string); [done|done|exact Hw| |decided|].
  { split; [done|]. intros c Hc. apply N; set_solver. }
  split; rewrite ?B, ?E, ?N by done; try done; rewrite upto_blocks by lia.
  - by apply (holds_snoc hash).
  - by apply (holds_snoc (λ b, u64_key (number b)) hash_written).
Qed.

Lemma payload_point db db' : Good db → Point 3 1 (block_root e) db →
  add_block_hash db (payload_id (en_block e)) (hash (en_block e)) = Done (Ok db') →
  Good db' ∧ Point 4 1 (block_root e) db'.
Proof.
  intros Hg Hp Hr. destruct (add_block_hash_spec _ _ _ _ Hr) as (P & N & K).
  apply bind_Done in Hr as (c1 & _ & [= Hw]). destruct (pt_chain _ _ _ _ Hp) as [Cr Ct Cb Ch Cp].
  eapply (commit_point ["payload"%string]); [done|done|exact Hw| |decided|].
  { split; [done|]. intros c Hc. apply N. set_solver. }
  split; try by rewrite N. rewrite P, upto_new, fmap_app by lia.
  by apply (holds_snoc (λ b, u64_key (payload_id b)) hash_written).
Qed.

(** What a commit does after its receipts. *)
Definition commit_rest (db : Db) (b : ExtendedBlock) (txs : list OpTxEnvelope) : exec Db :=
  r ← transaction_extend db (extended_transactions b txs);
  db ← unwrap r;
  r ← block_add db b;
  db ← unwrap r;
  on_payload db (payload_id b) (hash b).

Lemma rest_point db b txs db' : Good db → Point 1 1 (block_root e) db →
  en_block e = b → en_txs e = extended_transactions b txs → commit_rest db b txs = Done db' →
  Good db' ∧ Point 4 1 (block_root e) db'.
Proof.
  intros G3 P3 Eb Et Hr.
  apply bind_Done in Hr as (r4 & K4 & Hr). apply bind_Done in Hr as (db4 & ->%unwrap_Done & Hr).
  apply bind_Done in Hr as (r5 & K5 & Hr). apply bind_Done in Hr as (db5 & ->%unwrap_Done & Hr).
  apply bind_Done in Hr as (r6 & K6 & ->%unwrap_Done). rewrite <- Et in K4. rewrite <- Eb in K5, K6.
  destruct (txs_point _ _ G3 P3 K4) as [G4 P4], (block_point _ _ G4 P4 K5) as [G5 P5].
  by destruct (payload_point _ _ G5 P5 K6).
Qed.

(** The commit of [e], from its receipts. *)
Lemma commits_point db b txs rs db' : Good db → Point 0 1 (block_root e) db →
  rocks_commit db b txs rs = Done db' → block_entry b txs rs = e →
  ∃ db3, (∃ ws, db_write db ws = Ok db3) ∧ Good db3 ∧ Point 1 1 (block_root e) db3
    ∧ commit_rest db3 b txs = Done db' ∧ Good db' ∧ Point 4 1 (block_root e) db'.
Proof.
  intros G2 P2 Hr He.
  assert (Eb : en_block e = b) by by rewrite <- He.
  assert (Et : en_txs e = extended_transactions b txs) by by rewrite <- He.
  assert (Er : en_receipts e = Receipts.with_block_hash (hash b) <$> rs) by by rewrite <- He.
  apply bind_Done in Hr as (r3 & K3 & Hr). apply bind_Done in Hr as (db3 & ->%unwrap_Done & Hr).
  rewrite <- Er in K3. destruct (receipts_point _ _ G2 P2 K3) as [G3 P3].
  exists db3. split; [by eapply extend_writes|]. split; [done|]. split; [done|]. split; [done|].
  by eapply rest_point.
Qed.

(** A build up to its commit: the state root is pushed, nothing of the block is
    written. *)
Lemma pushed_point root db self parent attributes id txs base_fee hx x db' self' b :
  Z.of_nat (length roots) + 1 < 2 ^ 64 → Forall (λ c, committed c.2) (ex_changes x) →
  Good db → Point 0 0 root db → rs_state_root self = Some root →
  rocks_build iteration_order db self parent attributes id txs base_fee hx x = Done (db', self', b) →
  block_entry b txs (ex_receipts x) = e →
  ∃ db1 db2, Good db1 ∧ push_state_root db1 (block_root e) = Done (Ok db2) ∧ Good db2
    ∧ Point 0 1 (block_root e) db2 ∧ rocks_commit db2 b txs (ex_receipts x) = Done db'
    ∧ rs_state_root self' = Some (block_root e).
Proof.
  intros Hl Hc Hg Hp Hs Hr He. apply bind_Done in Hr as ([db1 self1] & Hx & Hr).
  destruct (execute_point _ _ _ _ _ _ Hc Hg Hp Hs Hx) as (root1 & G1 & P1 & S1 & _).
  apply bind_Done in Hr as (db2 & (r & Hpush & ->%unwrap_Done)%bind_Done & Hr).
  apply bind_Done in Hr as (db6 & Hcommit & [= -> -> Hb]).
  assert (root1 = block_root e) as ->.
  { rewrite <- He, <- Hb. unfold block_root. simpl. unfold rocks_state_root. by rewrite S1. }
  unfold rocks_state_root in Hpush, Hcommit, Hb. rewrite S1 in Hpush, Hcommit, Hb. simpl in Hpush, Hcommit, Hb.
  destruct (push_point _ _ Hl G1 P1 Hpush) as [G2 P2]. rewrite Hb in Hcommit.
  exists db1, db2. by split_and!.
Qed.

(** The disk after a build, and before it every disk on the way, is good. *)
Lemma build_point root db self parent attributes id txs base_fee hx x db' self' b :
  Z.of_nat (length roots) + 1 < 2 ^ 64 → Forall (λ c, committed c.2) (ex_changes x) →
  Good db → Point 0 0 root db → rs_state_root self = Some root →
  rocks_build iteration_order db self parent attributes id txs base_fee hx x = Done (db', self', b) →
  block_entry b txs (ex_receipts x) = e →
  Good db' ∧ Point 4 1 (block_root e) db' ∧ rs_state_root self' = Some (block_root e).
Proof.
  intros Hl Hc Hg Hp Hs Hr He.
  destruct (pushed_point _ _ _ _ _ _ _ _ _ _ _ _ _ Hl Hc Hg Hp Hs Hr He)
    as (db1 & db2 & _ & _ & G2 & P2 & Hcommit & Hs').
  by destruct (commits_point _ _ _ _ _ G2 P2 Hcommit He) as (db3 & _ & _ & _ & _ & G & P).
Qed.

End Points.

(** ** Reading a disk of a crash *)

Lemma holds_found {A} (key : A → bytes) written m l a : Holds key written m l → NoDup (key <$> l) → a ∈ l →
  ∃ v, m !! key a = Some v ∧ written a v.
Proof.
  intros Hm Hnd Ha. specialize (Hm (key a)). by rewrite (latest_with_unique key (key a) l a) in Hm.
Qed.

Lemma NoDup_prefix_bind {A B C} (f : B → C) (h : A → list B) l l' :
  l `prefix_of` l' → NoDup (f <$> (l' ≫= h)) → NoDup (f <$> (l ≫= h)).
Proof. intros [k ->]. rewrite bind_app, fmap_app. by intros [? _]%NoDup_app. Qed.

Section Reading.
Context `{EthTrie, !EthTrieLaws, WorldLibrary}.
Context `{!TxLibrary, EnvelopeLibrary, HeaderLibrary, EvMapLaws, !Executor, !AppLibrary}.
Context {D : RocksDb} `{!RocksDbLaws, !TrieReads, !TrieReadsLaws}.
Context `{!Json ExtendedBlock, !Json ExtendedTransaction, !Json ExtendedReceipt}.

(** The disk answers for the chain of [g] and [log]: its head is the last block,
    every block is found at its height with its transactions, its receipts and its
    state, and a state opens on it.  Whatever opens on the nodes [nodes] and the
    storage nodes [snodes] still has its content. *)
Record Answers (g : Entry) (log : list Entry) (nodes snodes : Nodes) (db : Db) : Prop := {
  an_height : latest_height db = Done (Ok (Some (Z.of_nat (length log))));
  an_head (x : Entry) : (g :: log) !! length log = Some x →
    block_repo_latest db = Done (Ok (Some (en_block x)));
  an_block i (x : Entry) : (g :: log) !! i = Some x →
    block_by_height db (Z.of_nat i) true
      = (Ok ∘ Some) <$> from_block_with_transactions (en_block x) (en_txs x);
  an_receipt (x : Entry) r : x ∈ g :: log → r ∈ en_receipts x →
    receipt_by_transaction_hash db (Receipts.transaction_hash r) = (Ok ∘ Some) <$> to_rpc_receipt r;
  an_state i (x : Entry) : (g :: log) !! i = Some x →
    ∃ t, tree_at db (block_root g) (Z.of_nat i) = Done (Ok t)
      ∧ trie_from (contents db "trie"%string) (block_root x) = Some t
      ∧ ∀ t0, trie_from nodes (block_root x) = Some t0 → ∀ k, trie_get t k = trie_get t0 k;
  an_storage a root t0 : length a = 20%nat → trie_from (account_nodes a snodes) root = Some t0 →
    ∃ t, rocks_for_account_with_root db a root = Done (Ok t) ∧ ∀ k, trie_get t k = trie_get t0 k;
  an_opens : ∃ self, rocks_state_new db = Done self;
}.

Lemma answers_mono g log nodes nodes' snodes snodes' db : nodes ⊆ nodes' →
  (∀ a, length a = 20%nat → account_nodes a snodes ⊆ account_nodes a snodes') →
  Answers g log nodes' snodes' db → Answers g log nodes snodes db.
Proof.
  intros Hn Hsn [K1 K2 K3 K4 K5 K6 K7]. split; try done.
  - intros i x Hi. destruct (K5 i x Hi) as (t & Ht & Hf & Hg). exists t. split; [done|]. split; [done|].
    intros t0 H0' k. destruct (trie_from_mono _ _ _ _ Hn H0') as (t1 & Ht1 & Hg1).
    by rewrite <- Hg1, (Hg t1 Ht1).
  - intros a root t0 Ha H0'. destruct (trie_from_mono _ _ _ _ (Hsn a Ha) H0') as (t1 & Ht1 & Hg1).
    destruct (K6 a root t1 Ha Ht1) as (t & Ht & Hg). exists t. split; [done|]. intros k. by rewrite Hg, Hg1.
Qed.

(** A chain of well-formed blocks without a repeated key. *)
Record GoodChain (g : Entry) (log : list Entry) : Prop := {
  gc_linked : Linked (en_block <$> g :: log);
  gc_wf : Forall entry_wf (g :: log);
  gc_distinct : Distinct g log;
  gc_typed : Forall block_typed (en_block <$> g :: log);
  gc_length : Z.of_nat (length (g :: log)) < 2 ^ 64;
}.

Lemma good_chain_prefix g log log' : GoodChain g log' → log `prefix_of` log' → GoodChain g log.
Proof.
  intros [Hl Hw [Dh Di Dt Dr] Ht Hlen] [k ->]. rewrite app_comm_cons in *. split.
  - eapply linked_prefix; [exact Hl|]. rewrite fmap_app. by apply prefix_app_r.
  - by apply Forall_app in Hw as [? _].
  - split; [rewrite !fmap_app in Dh; by apply NoDup_app in Dh as [? _]
      |rewrite !fmap_app in Di; by apply NoDup_app in Di as [? _]
      |eapply NoDup_prefix_bind; [|exact Dt]; by apply prefix_app_r
      |eapply NoDup_prefix_bind; [|exact Dr]; by apply prefix_app_r].
  - rewrite fmap_app in Ht. by apply Forall_app in Ht as [? _].
  - rewrite length_app in Hlen. lia.
Qed.

Section Disk.
Context (g : Entry) (log : list Entry) (e : Entry) (s : nat) (db : Db).
Context (Ho : Opened db) (Hr : readable db) (Hx : GoodChain g (upto 0 s log e)) (Hc : ChainAt g log e s db).

Lemma upto_prefix i : g :: upto i s log e `prefix_of` g :: upto 0 s log e.
Proof. apply prefix_cons, upto_anti. lia. Qed.

Lemma upto_in i x : x ∈ g :: upto i s log e → x ∈ g :: upto 0 s log e.
Proof. intros Hin. by eapply elem_of_prefix, upto_prefix. Qed.

Lemma upto_typed x : x ∈ g :: upto 2 s log e → block_typed (en_block x).
Proof.
  intros Hin%upto_in. pose proof (gc_typed _ _ Hx) as Ht. rewrite Forall_forall in Ht.
  by apply Ht, list_elem_of_fmap_2.
Qed.

Lemma upto_linked : Linked (en_block <$> g :: upto 2 s log e).
Proof.
  eapply linked_prefix; [apply (gc_linked _ _ Hx)|]. destruct (upto_prefix 2) as [k ->].
  rewrite fmap_app. by apply prefix_app_r.
Qed.

Lemma disk_block x : x ∈ g :: upto 2 s log e →
  ∃ v, contents db "block"%string !! hash (en_block x) = Some v ∧ json_written (en_block x) v.
Proof.
  intros Hin. eapply (holds_found hash); [apply (ca_blocks _ _ _ _ _ Hc)| |by apply list_elem_of_fmap_2].
  pose proof (distinct_hashes _ _ (gc_distinct _ _ Hx)) as Hd. destruct (upto_prefix 2) as [k Hk].
  rewrite Hk, !fmap_app in Hd. by apply NoDup_app in Hd as [? _].
Qed.

Lemma disk_height i x : (g :: upto 2 s log e) !! i = Some x → number (en_block x) = Z.of_nat i
  ∧ contents db "height"%string !! u64_key (Z.of_nat i) = Some (hash (en_block x)).
Proof.
  intros Hi. assert (x ∈ g :: upto 2 s log e) as Hin by by eapply list_elem_of_lookup_2.
  assert (number (en_block x) = Z.of_nat i) as Hn by (apply upto_linked; by rewrite list_lookup_fmap, Hi).
  split; [done|]. rewrite <- Hn.
  destruct (holds_found (λ b, u64_key (number b)) _ _ _ (en_block x) (ca_heights _ _ _ _ _ Hc))
    as (v & Hv & ->); [|by apply list_elem_of_fmap_2|done].
  rewrite (list_fmap_compose number u64_key). apply NoDup_fmap_2_strong; [|apply linked_numbers, upto_linked].
  intros n n' Hn1 Hn2. apply u64_key_inj.
  - apply list_elem_of_fmap in Hn1 as (b & -> & (y & -> & Hy)%list_elem_of_fmap). by apply typed_number, upto_typed.
  - apply list_elem_of_fmap in Hn2 as (b & -> & (y & -> & Hy)%list_elem_of_fmap). by apply typed_number, upto_typed.
Qed.

Lemma disk_transactions x t : x ∈ g :: upto 1 s log e → t ∈ en_txs x →
  ∃ v, contents db "transaction"%string !! et_hash t = Some v ∧ json_written t v.
Proof.
  intros Hin Ht. eapply (holds_found et_hash); [apply (ca_txs _ _ _ _ _ Hc)| |].
  - eapply NoDup_prefix_bind; [apply upto_prefix|]. apply (distinct_txs _ _ (gc_distinct _ _ Hx)).
  - apply list_elem_of_bind. eauto.
Qed.

Lemma disk_receipts x r : x ∈ g :: upto 0 s log e → r ∈ en_receipts x →
  ∃ v, contents db "receipt"%string !! Receipts.transaction_hash r = Some v ∧ json_written r v.
Proof.
  intros Hin Ht. eapply (holds_found Receipts.transaction_hash); [apply (ca_receipts _ _ _ _ _ Hc)| |].
  - eapply NoDup_prefix_bind; [apply upto_prefix|]. apply (distinct_receipts _ _ (gc_distinct _ _ Hx)).
  - apply list_elem_of_bind. eauto.
Qed.

Lemma upto_earlier i x : (i ≤ 2)%nat → x ∈ g :: upto 2 s log e → x ∈ g :: upto i s log e.
Proof.
  intros Hi Hin. eapply elem_of_prefix; [exact Hin|]. apply prefix_cons. by apply upto_anti.
Qed.

Lemma found_transactions txs :
  (∀ t, t ∈ txs → ∃ v, contents db "transaction"%string !! et_hash t = Some v ∧ json_written t v) →
  get_transactions db "transaction" (et_hash <$> txs) = Done (Ok txs).
Proof.
  induction txs as [|t txs IH]; [done|]. intros Hin. cbn [get_transactions fmap list_fmap].
  destruct (Hin t) as (v & Hv & Hj); [apply list_elem_of_here|].
  rewrite (readable_get _ _ _ Hr), Hv. cbn. rewrite (from_value_json _ _ Hj). cbn [mbind exec_bind].
  rewrite IH; [done|]. intros t' Ht'. apply Hin. by apply list_elem_of_further.
Qed.

Lemma answers_by_height i x : (g :: upto 2 s log e) !! i = Some x →
  block_by_height db (Z.of_nat i) true
    = (Ok ∘ Some) <$> from_block_with_transactions (en_block x) (en_txs x).
Proof.
  intros Hi. assert (x ∈ g :: upto 2 s log e) as Hin by by eapply list_elem_of_lookup_2.
  destruct (disk_height i x Hi) as [_ Hh], (disk_block x Hin) as (v & Hv & Hj).
  unfold block_by_height, block_by_hash. rewrite !(cf_opened db) by (done || decided). cbn [mbind exec_bind].
  rewrite (readable_get _ _ _ Hr), Hh. cbn [mbind exec_bind qbind].
  rewrite b256_from_ok by by apply typed_hash, upto_typed. cbn [mbind exec_bind].
  rewrite (readable_get _ _ _ Hr), Hv. cbn [mbind exec_bind qbind].
  rewrite (from_value_json _ _ Hj). cbn [mbind exec_bind].
  pose proof (gc_wf _ _ Hx) as Hwf. rewrite Forall_forall in Hwf.
  rewrite (wf_hashes _ (Hwf x (upto_in _ _ Hin))), found_transactions.
  - cbn. by destruct (from_block_with_transactions _ _).
  - intros t Ht. eapply disk_transactions; [|done]. by apply upto_earlier; [lia|].
Qed.

(** Also those of a block that is not written yet. *)
Lemma receipt_answered x r : x ∈ g :: upto 0 s log e → r ∈ en_receipts x →
  is_Some (contents db "receipt"%string !! Receipts.transaction_hash r)
  ∧ receipt_by_transaction_hash db (Receipts.transaction_hash r) = (Ok ∘ Some) <$> to_rpc_receipt r.
Proof.
  intros Hin Hrx. destruct (disk_receipts x r) as (v & Hv & Hj); [done|done|]. split; [by eexists|].
  unfold receipt_by_transaction_hash. rewrite (cf_opened db) by (done || decided). cbn [mbind exec_bind].
  rewrite (readable_get _ _ _ Hr), Hv. cbn [mbind exec_bind qbind].
  rewrite (from_value_json _ _ Hj). cbn. by destruct (to_rpc_receipt r).
Qed.

Lemma upto_length i : (length (upto i s log e) ≤ length (upto 0 s log e))%nat.
Proof. apply prefix_length, upto_anti. lia. Qed.

(** The greatest entry of the heights is that of the last block. *)
Lemma last_height : ∃ x, (g :: upto 2 s log e) !! length (upto 2 s log e) = Some x
  ∧ db_last db "height" = Ok (Some (u64_key (Z.of_nat (length (upto 2 s log e))), hash (en_block x))).
Proof.
  set (n := length (upto 2 s log e)).
  destruct (lookup_lt_is_Some_2 (g :: upto 2 s log e) n) as [x Hi]; [simpl; lia|]. exists x. split; [done|].
  destruct (disk_height n x Hi) as [Hn Hh]. destruct Hr as ((_ & Hl) & _). destruct (Hl "height"%string) as [w Hw].
  pose proof (db_last_ok _ _ _ Hw) as Hgr. rewrite Hw. f_equal. pose proof (gc_length _ _ Hx) as Hlen.
  pose proof (upto_length 2) as Hup. fold n in Hup. simpl in Hlen.
  destruct w as [[k v]|]; simpl in Hgr; [|by rewrite Hgr, lookup_empty in Hh].
  destruct Hgr as [Hk Hmax]. pose proof (Hmax (u64_key (Z.of_nat n)) ltac:(by eexists)) as Hle.
  destruct (holds_lookup _ _ _ _ _ _ (ca_heights _ _ _ _ _ Hc) Hk) as (b & Hb & ->).
  apply latest_with_Some in Hb as [Hb <-]. apply list_elem_of_lookup in Hb as [j Hj].
  pose proof (proj1 upto_linked _ _ Hj) as Hnj. apply lookup_lt_Some in Hj as Hlt.
  rewrite length_fmap in Hlt. simpl in Hlt. fold n in Hlt.
  rewrite Hnj, u64_key_le in Hle by (unfold uint; lia). apply Z.leb_le in Hle.
  assert (j = n) as -> by lia. rewrite list_lookup_fmap, Hi in Hj. injection Hj as <-. by rewrite Hnj.
Qed.

Lemma answers_head : latest_height db = Done (Ok (Some (Z.of_nat (length (upto 2 s log e)))))
  ∧ ∀ x, (g :: upto 2 s log e) !! length (upto 2 s log e) = Some x →
      block_repo_latest db = Done (Ok (Some (en_block x))).
Proof.
  destruct last_height as (x & Hi & Hl). pose proof (gc_length _ _ Hx) as Hlen.
  pose proof (upto_length 2) as Hup. simpl in Hlen.
  assert (x ∈ g :: upto 2 s log e) as Hin by by eapply list_elem_of_lookup_2.
  unfold latest_height, block_repo_latest, block_repo_by_hash. rewrite !(cf_opened db) by (done || decided).
  cbn [mbind exec_bind]. rewrite Hl. cbn [mbind exec_bind qbind]. split.
  - by rewrite u64_from_to_key by (unfold uint; lia).
  - intros x' Hx'. rewrite Hi in Hx'. injection Hx' as <-. destruct (disk_block x Hin) as (v & Hv & Hj).
    rewrite b256_from_ok by by apply typed_hash, upto_typed. cbn [mbind exec_bind].
    rewrite (readable_get _ _ _ Hr), Hv. cbn [mbind exec_bind qbind]. by rewrite (from_value_json _ _ Hj).
Qed.

Context (nodes snodes : Nodes) (root : B256) (k : nat).
Context (Hp : Point g log e (block_root <$> log) nodes snodes s k root db).
Context (Hsk : (0 < s → 0 < k)%nat) (Hk : (0 < k)%nat → root = block_root e).
Context (Hopen : ∀ x, x ∈ g :: log → opens_at nodes (block_root x)).
Context (Hsize : Forall (λ x, length (block_root x) = 32%nat) log).

Lemma pushed_at : pushed db (block_root <$> upto 0 k log e)
  ∧ Forall (λ r, length r = 32%nat) (block_root <$> upto 0 k log e).
Proof.
  destruct Hp as [_ _ Hpu Hst _]. unfold upto. case_decide as Hlt; [|by split; [|apply Forall_fmap]].
  rewrite fmap_app. split; [done|]. apply Forall_app. split; [by apply Forall_fmap|].
  apply Forall_singleton. rewrite <- (Hk Hlt). apply (sa_size _ _ _ Hst).
Qed.

Lemma opens_on_disk x : x ∈ g :: upto 2 s log e → opens_at (contents db "trie"%string) (block_root x).
Proof.
  destruct Hp as [_ _ _ Hst _]. intros Hin.
  assert (x ∈ g :: log ∨ ((2 < s)%nat ∧ x = e)) as [Hold|[Hlt ->]].
  { unfold upto in Hin. case_decide; [|by left]. rewrite app_comm_cons in Hin.
    apply elem_of_app in Hin as [?|?%list_elem_of_singleton]; [by left|by right]. }
  - eapply opens_at_mono; [apply (sa_nodes _ _ _ Hst)|]. by apply Hopen.
  - rewrite <- Hk by lia. apply (sa_opens _ _ _ Hst).
Qed.

(** Block number [i] shown on the disk has its root at height [i]. *)
Lemma root_shown i x : (g :: upto 2 s log e) !! i = Some x →
  (if Z.of_nat i =? 0 then Some (block_root g)
   else (block_root <$> upto 0 k log e) !! pred (Z.to_nat (Z.of_nat i))) = Some (block_root x).
Proof.
  intros Hi. destruct i as [|j]; [by injection Hi as ->|]. rewrite Nat2Z.id.
  destruct (Z.eqb_spec (Z.of_nat (S j)) 0); [lia|]. simpl in *. rewrite list_lookup_fmap.
  assert (upto 0 k log e !! j = Some x) as ->; [|done].
  revert Hi. unfold upto. repeat case_decide; intros Hi; try lia; try done. by apply lookup_app_l_Some.
Qed.

Lemma answers_state i x : (g :: upto 2 s log e) !! i = Some x →
  ∃ t, tree_at db (block_root g) (Z.of_nat i) = Done (Ok t)
    ∧ trie_from (contents db "trie"%string) (block_root x) = Some t
    ∧ ∀ t0, trie_from nodes (block_root x) = Some t0 → ∀ k, trie_get t k = trie_get t0 k.
Proof.
  intros Hi. destruct (opens_on_disk x) as [t Ht]; [by eapply list_elem_of_lookup_2|].
  destruct pushed_at as [Hpu H32]. exists t. split; [|split; [done|]].
  - pose proof (gc_length _ _ Hx) as Hlen. pose proof (upto_length 2) as Hup.
    apply lookup_lt_Some in Hi as Hlt. simpl in Hlen, Hlt.
    rewrite (tree_at_pushed db _ _ _ Ho Hr Hpu H32) by (unfold uint; lia).
    rewrite (root_shown i x Hi). by rewrite Ht.
  - intros t0 H0' k'. destruct Hp as [_ _ _ Hst _].
    destruct (trie_from_mono _ _ _ _ (sa_nodes _ _ _ Hst) H0') as (t1 & Ht1 & Hg).
    rewrite Ht in Ht1. injection Ht1 as <-. by rewrite Hg.
Qed.

Lemma answers_storage a r t0 : length a = 20%nat → trie_from (account_nodes a snodes) r = Some t0 →
  ∃ t, rocks_for_account_with_root db a r = Done (Ok t) ∧ ∀ k, trie_get t k = trie_get t0 k.
Proof.
  intros Ha H0'. destruct Hp as [_ _ _ _ Hst], Hr as (_ & Hreads & _).
  destruct (trie_from_mono _ _ _ _ (st_grown _ _ Hst a Ha) H0') as (t & Ht & Hg). exists t. split; [|done].
  unfold rocks_for_account_with_root. rewrite (cf_opened db) by (done || decided).
  cbn [mbind exec_bind]. rewrite Hreads. cbn. by rewrite Ht.
Qed.

(** The state opens at the root on the disk. *)
Lemma disk_state : ∃ self, rocks_state_new db = Done self ∧ rs_state_root self = Some root.
Proof.
  destruct Hp as [_ _ _ [_ _ Hroot Hsz [t Ht]] _], Hr as (_ & Hreads & _).
  exists (MkRocksState t (Some root)). split; [|done].
  unfold rocks_state_new, trie_root. rewrite (cf_opened db) by (done || decided). cbn [mbind exec_bind].
  rewrite (readable_get _ _ _ Hr), Hroot. cbn [mbind exec_bind qbind]. rewrite b256_from_ok by done.
  unfold from_opt_root, try_from_opt_root. rewrite (cf_opened db) by (done || decided).
  cbn. rewrite Hreads. cbn. by rewrite Ht.
Qed.

Lemma disk_answers : Answers g (upto 2 s log e) nodes snodes db.
Proof.
  destruct answers_head as [Hh Hl]. split; try done.
  - apply answers_by_height.
  - intros x r Hin. apply receipt_answered. by apply upto_earlier; [lia|].
  - apply answers_state.
  - apply answers_storage.
  - destruct disk_state as (self & Hs & _). by exists self.
Qed.

End Disk.
End Reading.

(** ** The disks a run goes through *)

Section Recording.
Context {D : RocksDb}.

(** The database, and every content its disk has had. *)
Record Recorded := MkRecorded { current : Db; disks : list Db }.

Definition recording : RocksDb := {|
  RocksDb.Db := Recorded;
  RocksDb.DbError := DbError;
  has_column r := has_column (current r);
  db_get r := db_get (current r);
  db_write r ws :=
    match db_write (current r) ws with
    | Ok db => Ok (MkRecorded db (disks r ++ [db]))
    | Err e => Err e
    end;
  db_last r := db_last (current r);
  contents r := contents (current r);
|}.

Definition recorded (db : Db) : @Db recording := MkRecorded db [db].

#[export] Instance recording_laws `{!RocksDbLaws} : @RocksDbLaws recording.
Proof.
  split; simpl.
  - intros r c k v. apply db_get_ok.
  - intros r ws r' Hw. destruct (db_write (current r) ws) as [db|] eqn:E; [|done]. injection Hw as <-.
    by apply db_write_ok.
  - intros r c e. apply db_last_ok.
Qed.

Definition recording_reads `{!TrieReads} : @TrieReads recording := {|
  open_reads (r : @Db recording) c := open_reads (current r) c;
  walk_reads (r : @Db recording) c := walk_reads (current r) c;
|}.
#[export] Instance recording_reads_laws `{!TrieReads, !TrieReadsLaws} :
  @TrieReadsLaws recording recording_reads.
Proof. intros r c nodes. exact (open_reads_ok (H:=D) (current r) c nodes). Qed.

Lemma recorded_write (r r' : @Db recording) ws : db_write r ws = Ok r' →
  db_write (current r) ws = Ok (current r') ∧ disks r' = disks r ++ [current r'].
Proof. simpl. destruct (db_write (current r) ws); [|done]. by intros [= <-]. Qed.

End Recording.
#[global] Arguments Recorded : clear implicits.
#[global] Arguments recording : clear implicits.

Section Run.
Context `{EthTrie, WorldLibrary}.
Context `{!TxLibrary, EnvelopeLibrary, HeaderLibrary, EvMap, !Executor, !AppLibrary}.
Context {D : RocksDb} `{!TrieReads}.
Context `{!Json ExtendedBlock, !Json ExtendedTransaction, !Json ExtendedReceipt}.
Context (iteration_order : gmap TreeKey TreeValue → list (TreeKey * TreeValue)).

Definition run_build (db : Db) (self : RocksDbState) (c : Build) : exec (Db * RocksDbState * Entry) :=
  '(db, self, b) ← rocks_build iteration_order db self (bd_parent c) (bd_attributes c) (bd_id c)
    (bd_txs c) (bd_base_fee c) (bd_header c) (bd_executed c);
  Done (db, self, block_entry b (bd_txs c) (ex_receipts (bd_executed c))).

(** The builds of a run, with the blocks they appended. *)
Fixpoint rocks_builds (db : Db) (self : RocksDbState) (builds : list Build)
    : exec (Db * RocksDbState * list Entry) :=
  match builds with
  | [] => Done (db, self, [])
  | c :: builds =>
    '(db, self, e) ← run_build db self c;
    '(db, self, log) ← rocks_builds db self builds;
    Done (db, self, e :: log)
  end.

Lemma single_build db self c db' self' e :
  rocks_builds db self [c] = Done (db', self', [e]) → run_build db self c = Done (db', self', e).
Proof. intros ([[db1 self1] e1] & -> & [= -> -> ->])%bind_Done. done. Qed.

(** The storage changes of a build are commits of tries of accounts. *)
Definition build_committed (c : Build) : Prop :=
  Forall (λ x, committed x.2) (ex_changes (bd_executed c)).

(** A disk between two builds: it has the chain of [g] and [log], whose states
    open, and the state of its head is the current one. *)
Record AtHead (g : Entry) (log : list Entry) (root : B256) (db : Db) : Prop := {
  hd_opened : Opened db;
  hd_chain : Persisted (contents db) g log;
  hd_pushed : pushed db (block_root <$> log);
  hd_state : StateAt ∅ root db;
  hd_stores : storage_hashed (contents db "evm_storage_trie"%string);
  hd_opens x : x ∈ g :: log → opens_at (contents db "trie"%string) (block_root x);
  hd_sizes : Forall (λ x, length (block_root x) = 32%nat) log;
}.

End Run.

Section Runs.
Context `{EthTrie, !EthTrieLaws, WorldLibrary}.
Context `{!TxLibrary, EnvelopeLibrary, HeaderLibrary, EvMapLaws, !Executor, !AppLibrary}.
Context {D : RocksDb} `{!RocksDbLaws, !TrieReads, !TrieReadsLaws}.
Context `{!Json ExtendedBlock, !Json ExtendedTransaction, !Json ExtendedReceipt}.
Context `{!JsonLaws ExtendedBlock, !JsonLaws ExtendedTransaction, !JsonLaws ExtendedReceipt}.
Context (iteration_order : gmap TreeKey TreeValue → list (TreeKey * TreeValue)).
Context (commit_root_size : ∀ t, length (trie_commit t).1 = 32%nat) (collision : NoNodeCollision).

Lemma start_point g log e root db : AtHead g log root db →
  Point g log e (block_root <$> log) (contents db "trie"%string) (contents db "evm_storage_trie"%string)
    0 0 root db.
Proof.
  intros [Ho [Cb Ch Ct Cr Cp] Hp [? _ ? ? ?] Hs _ _]. split; [done| |done|by split|].
  - by split; rewrite upto_old by lia.
  - split; [done|by intros a Ha].
Qed.

Lemma end_point g log e nodes snodes db : (∀ x, x ∈ g :: log → opens_at nodes (block_root x)) →
  Forall (λ x, length (block_root x) = 32%nat) log →
  Point g log e (block_root <$> log) nodes snodes 4 1 (block_root e) db →
  AtHead g (log ++ [e]) (block_root e) db.
Proof.
  intros Hopen Hsz [Ho [Cr Ct Cb Ch Cp] Hp [Sh Sn Sr Ss So] [Hs _]].
  rewrite upto_new in Cr, Ct, Cb, Ch, Cp by lia.
  split; try done.
  - by rewrite fmap_app.
  - split; try done. apply map_empty_subseteq.
  - intros x. rewrite app_comm_cons. intros [Hx|Hx]%elem_of_app.
    + eapply opens_at_mono; [exact Sn|]. by apply Hopen.
    + by apply list_elem_of_singleton in Hx as ->.
  - apply Forall_app. split; [done|]. by apply Forall_singleton.
Qed.

(** A disk of a run that appends [full] to [log] block by block. *)
Definition on_the_way (g : Entry) (log full : list Entry) (nodes snodes : Nodes) (db : Db) : Prop :=
  ∃ l e nodes' snodes', log `prefix_of` l ∧ l ++ [e] `prefix_of` full
    ∧ nodes ⊆ nodes' ∧ storage_grown snodes snodes'
    ∧ (∀ x, x ∈ g :: l → opens_at nodes' (block_root x))
    ∧ Forall (λ x, length (block_root x) = 32%nat) l
    ∧ CrashPoint g l e (block_root <$> l) nodes' snodes' db.

Lemma builds_good (Good : Db → Prop) g log full nodes snodes builds :
  (∀ db ws db', Good db → db_write db ws = Ok db' → on_the_way g log full nodes snodes db' → Good db') →
  Z.of_nat (length (g :: full)) < 2 ^ 64 → Forall build_committed builds →
  ∀ l root db self db' self' log2, Good db → AtHead g l root db → rs_state_root self = Some root →
  log `prefix_of` l → nodes ⊆ contents db "trie"%string →
  storage_grown snodes (contents db "evm_storage_trie"%string) →
  rocks_builds iteration_order db self builds = Done (db', self', log2) → l ++ log2 = full →
  Good db' ∧ ∃ root', AtHead g full root' db' ∧ rs_state_root self' = Some root'.
Proof.
  intros Hw Hlen Hc. induction Hc as [|c builds Hcc Hc IH]; intros l root db self db' self' log2 Hg Hh Hs Hl Hn Hsn Hr Hf.
  { injection Hr as <- <- <-. rewrite app_nil_r in Hf. subst l. split; [done|]. by exists root. }
  apply bind_Done in Hr as ([[db1 self1] e] & Hb & Hr). apply bind_Done in Hr as ([[db2 self2] log3] & Hr & [= <- <- <-]).
  apply bind_Done in Hb as ([[db1' self1'] b] & Hb & [= -> -> He]).
  assert (Z.of_nat (length (block_root <$> l)) + 1 < 2 ^ 64) as Hl1.
  { rewrite length_fmap. subst full. simpl in Hlen. rewrite length_app in Hlen. simpl in Hlen. lia. }
  assert (∀ dbx ws dby, Good dbx → db_write dbx ws = Ok dby → CrashPoint g l e (block_root <$> l)
    (contents db "trie"%string) (contents db "evm_storage_trie"%string) dby → Good dby) as Hgw.
  { intros dbx ws dby Hgx Hwx Hcp. eapply Hw; [exact Hgx|exact Hwx|].
    exists l, e, (contents db "trie"%string), (contents db "evm_storage_trie"%string).
    split; [done|]. split; [exists log3; subst full; by rewrite <- app_assoc|]. destruct Hh. by split_and!. }
  destruct (build_point g l e (block_root <$> l) _ _ Good Hgw iteration_order commit_root_size collision
    root db self (bd_parent c) (bd_attributes c) (bd_id c) (bd_txs c) (bd_base_fee c) (bd_header c)
    (bd_executed c) db1 self1 b Hl1 Hcc Hg (start_point _ _ _ _ _ Hh) Hs Hb He) as (G1 & P1 & S1).
  pose proof (pt_state _ _ _ _ _ _ _ _ _ _ P1) as St1. pose proof (pt_stores _ _ _ _ _ _ _ _ _ _ P1) as Ss1.
  apply (IH (l ++ [e]) (block_root e) db1 self1 db2 self2 log3); try done.
  - eapply end_point; [apply (hd_opens _ _ _ _ Hh)|apply (hd_sizes _ _ _ _ Hh)|exact P1].
  - etrans; [exact Hl|]. by apply prefix_app_r.
  - etrans; [exact Hn|]. apply (sa_nodes _ _ _ St1).
  - intros a Ha. etrans; [by apply Hsn|]. by apply (st_grown _ _ Ss1).
  - subst full. by rewrite <- app_assoc.
Qed.

(** A disk of the run answers for a prefix of its chain. *)
Definition answers_prefix (g : Entry) (log more : list Entry) (nodes snodes : Nodes) (db : Db) : Prop :=
  ∃ n, (n ≤ length more)%nat ∧ Answers g (log ++ take n more) nodes snodes db.

Lemma point_answers g log e nodes snodes s k root db : GoodChain g (upto 0 s log e) →
  (∀ x, x ∈ g :: log → opens_at nodes (block_root x)) →
  Forall (λ x, length (block_root x) = 32%nat) log → readable db →
  (0 < s → 0 < k)%nat → ((0 < k)%nat → root = block_root e) →
  Point g log e (block_root <$> log) nodes snodes s k root db →
  Answers g (upto 2 s log e) nodes snodes db.
Proof.
  intros Hx Ho Hs Hr Hsk Hk Hp. pose proof (pt_opened _ _ _ _ _ _ _ _ _ _ Hp).
  pose proof (pt_chain _ _ _ _ _ _ _ _ _ _ Hp). by eapply disk_answers.
Qed.

Lemma head_answers g log root db : GoodChain g log → AtHead g log root db → readable db →
  Answers g log (contents db "trie"%string) (contents db "evm_storage_trie"%string) db.
Proof.
  intros Hx Hh Hr. pose proof (start_point g log g root db Hh) as Hp. destruct Hh.
  by apply (point_answers g log g _ _ 0 0 root db Hx) in Hp; try lia.
Qed.

Lemma on_the_way_answers g log more nodes snodes db : GoodChain g (log ++ more) → readable db →
  on_the_way g log (log ++ more) nodes snodes db → answers_prefix g log more nodes snodes db.
Proof.
  intros Hx Hr (l & e & nodes' & snodes' & Hl & Hle & Hn & Hsn & Ho & Hs & s & k & root & Hsk & Hk & Hp).
  assert (∀ i, log `prefix_of` upto i s l e ∧ upto i s l e `prefix_of` log ++ more) as Hup.
  { intros i. unfold upto. case_decide; (split; [|]); try done.
    - etrans; [exact Hl|]. by apply prefix_app_r.
    - etrans; [|exact Hle]. by apply prefix_app_r. }
  apply point_answers in Hp; try done; [|by eapply good_chain_prefix; [|apply Hup]].
  destruct (Hup 2%nat) as [[l2 Hl2] H2']. rewrite Hl2 in Hp, H2'. apply prefix_app_inv in H2'.
  destruct H2' as [l3 Hl3]. exists (length l2). subst more. rewrite length_app, take_app_length.
  split; [lia|]. by eapply answers_mono.
Qed.

End Runs.

(** ** Crashes *)

(** A genesis block on a disk without a chain. *)
Lemma genesis_persists `{RocksDb, !RocksDbLaws, ErrorTypes, !TxLibrary, EnvelopeLibrary, HeaderLibrary,
    EvMapLaws} `{!Json ExtendedBlock, !Json ExtendedTransaction, !Json ExtendedReceipt}
    `{!JsonLaws ExtendedBlock} db b db' :
  (∀ c, c ∈ chain_columns → contents db c = ∅) → block_add db b = Done (Ok db') →
  Persisted (contents db') (MkEntry b [] []) [].
Proof.
  intros He (v & Hv & B & E & N & C)%block_add_spec.
  split; simpl; rewrite ?B, ?E, ?N by done; rewrite He by decided; try apply holds_empty.
  - apply (holds_snoc hash json_written ∅ []); [apply holds_empty|done].
  - apply (holds_snoc (λ b, u64_key (number b)) hash_written ∅ []); [apply holds_empty|done].
Qed.

Section Crashes.
Context `{EthTrie, !EthTrieLaws, WorldLibrary}.
Context `{!TxLibrary, EnvelopeLibrary, HeaderLibrary, EvMapLaws, !Executor, !AppLibrary}.
Context {D : RocksDb} `{!RocksDbLaws, !TrieReads, !TrieReadsLaws}.
Context `{!Json ExtendedBlock, !Json ExtendedTransaction, !Json ExtendedReceipt}.
Context `{!JsonLaws ExtendedBlock, !JsonLaws ExtendedTransaction, !JsonLaws ExtendedReceipt}.
Context (iteration_order : gmap TreeKey TreeValue → list (TreeKey * TreeValue)).
Context (commit_root_size : ∀ t, length (trie_commit t).1 = 32%nat) (collision : NoNodeCollision).

#[local] Existing Instance recording_reads.

Lemma point_current g log e roots nodes snodes s k root (r : @Db (recording D)) :
  Point (D := recording D) g log e roots nodes snodes s k root r →
  Point (D := D) g log e roots nodes snodes s k root (current r).
Proof. intros [? [? ? ? ? ?] [? ?] [? ? ? ? ?] [? ?]]. by repeat split. Qed.

Lemma recorded_head g log root db : AtHead g log root db →
  AtHead (D := recording D) g log root (recorded db).
Proof. intros [? [? ? ? ? ?] [? ?] [? ? ? ? ?] ? ? ?]. by repeat split. Qed.

(** C21 (safety): a crash at any moment of any run leaves a whole chain.  [builds] append the
    blocks [more] to the chain of [g] and [log]; the process may stop after any of
    the batches it wrote, so on any of [disks].  There the chain is a prefix of the
    whole one that has [log]: its head is the last block, and every block is
    answered at its height with its transactions, receipts and state; every
    storage trie that opened before still does, and the state opens. *)
Theorem crash_keeps_chain g log root db self builds r self' more :
  AtHead g log root db → rs_state_root self = Some root → Forall build_committed builds →
  rocks_builds (D := recording D) iteration_order (recorded db) self builds = Done (r, self', more) →
  GoodChain g (log ++ more) →
  ∀ d, d ∈ disks r → readable d →
    ∃ n, (n ≤ length more)%nat
      ∧ Answers g (log ++ take n more) (contents db "trie"%string)
          (contents db "evm_storage_trie"%string) d.
Proof.
  intros Hh Hs Hc Hr Hx.
  set (Good := λ m : @Db (recording D), ∀ d, d ∈ disks m → readable d →
    answers_prefix g log more (contents db "trie"%string) (contents db "evm_storage_trie"%string) d).
  cut (Good r); [done|].
  cut (Good r); [intros HG; apply HG|].
  eapply (builds_good (D := recording D) iteration_order commit_root_size collision Good g log
    (log ++ more) (contents db "trie"%string) (contents db "evm_storage_trie"%string) builds) with
    (l := log) (root := root) (db := recorded db) (self := self) (self' := self') (log2 := more);
    [|apply (gc_length _ _ Hx)|done| |by apply recorded_head|done|done|done| |exact Hr|done].
  - intros m ws m' Hm Hw Hway d Hd Hread. destruct (recorded_write _ _ _ Hw) as [_ Hdisks].
    rewrite Hdisks in Hd. apply elem_of_app in Hd as [Hd| ->%list_elem_of_singleton]; [by apply Hm|].
    apply on_the_way_answers; [done|done|].
    destruct Hway as (l & e & n' & sn' & K1 & K2 & K3 & K4 & K5 & K6 & s & k & root' & Hsk & Hk & Hp).
    exists l, e, n', sn'. split_and!; try done. exists s, k, root'. split_and!; try done.
    by apply point_current.
  - intros d ->%list_elem_of_singleton Hread. exists 0%nat. split; [lia|]. rewrite app_nil_r.
    eapply head_answers; [|done|done]. eapply good_chain_prefix; [exact Hx|]. by apply prefix_app_r.
  - by intros a Ha.
Qed.

(** Two of the disks of a build: after the state root of the block is pushed and
    after its receipts are written. *)
Lemma lost_disks g log root db self c r self' e :
  AtHead g log root db → rs_state_root self = Some root → build_committed c →
  run_build (D := recording D) iteration_order (recorded db) self c = Done (r, self', e) →
  GoodChain g (log ++ [e]) →
  ∃ d d', d ∈ disks r ∧ d' ∈ disks r
  ∧ Point g log e (block_root <$> log) (contents db "trie"%string)
      (contents db "evm_storage_trie"%string) 0 1 (block_root e) d
  ∧ Point g log e (block_root <$> log) (contents db "trie"%string)
      (contents db "evm_storage_trie"%string) 1 1 (block_root e) d'.
Proof.
  intros Hh Hs Hc ([[m' self1] b] & Hb & [= -> -> He])%bind_Done Hx.
  pose proof (recorded_head _ _ _ _ Hh) as Hhr. pose proof (gc_length _ _ Hx) as Hlen.
  simpl in Hlen. rewrite length_app in Hlen. simpl in Hlen.
  destruct (pushed_point (D := recording D) g log e (block_root <$> log) _ _ (λ _, True)
    (λ _ _ _ _ _ _, I) iteration_order commit_root_size collision
    root (recorded db) self (bd_parent c) (bd_attributes c) (bd_id c) (bd_txs c) (bd_base_fee c) (bd_header c)
    (bd_executed c) r self' b ltac:(rewrite length_fmap; lia) Hc I
    (start_point (D := recording D) _ _ _ _ _ Hhr) Hs Hb He) as (m1 & m2 & _ & Hpush & _ & P2 & Hcommit & _).
  destruct (commits_point (D := recording D) g log e (block_root <$> log) _ _ (λ _, True)
    (λ _ _ _ _ _ _, I) commit_root_size collision _ _ _ _ _ I P2 Hcommit He)
    as (m3 & [ws3 [_ Hw3]%recorded_write] & _ & P3 & Hrest & _).
  exists (current m2), (current m3).
  destruct (push_writes _ _ _ Hpush) as [ws2 [_ Hw2]%recorded_write].
  set (Good := λ m : @Db (recording D), current m2 ∈ disks m ∧ current m3 ∈ disks m).
  assert (∀ m ws m', Good m → @db_write (recording D) m ws = Ok m' →
    CrashPoint (D := recording D) g log e (block_root <$> log) (contents db "trie"%string)
      (contents db "evm_storage_trie"%string) m' → Good m') as Hgrow.
  { intros m ws m' [G2 G3] [_ Hd]%recorded_write _. unfold Good. rewrite Hd. set_solver. }
  assert (Good m3) as HG by (unfold Good; rewrite Hw3, Hw2; set_solver).
  assert (en_block e = b ∧ en_txs e = extended_transactions b (bd_txs c)) as [Eb Et] by by rewrite <- He.
  destruct (rest_point (D := recording D) g log e (block_root <$> log) _ _ Good Hgrow commit_root_size
    collision _ _ _ _ HG P3 Eb Et Hrest) as [[G2 G3] _].
  split; [done|]. split; [done|]. by apply point_current in P2, P3.
Qed.

(** The chain of [g], [log] and the next block [e2] on a disk whose state roots
    are one ahead: at the height of [e2] is the root [lost]. *)
Lemma shifted_roots g log e2 lost nodes snodes db : GoodChain g (log ++ [e2]) → readable db →
  Forall (λ x, length (block_root x) = 32%nat) log → length lost = 32%nat →
  Point g log e2 ((block_root <$> log) ++ [lost]) nodes snodes 4 1 (block_root e2) db →
  block_repo_latest db = Done (Ok (Some (en_block e2)))
  ∧ rocks_root_by_height db (block_root g) (number (en_block e2)) = Done (Ok (Some lost))
  ∧ rocks_root_by_height db (block_root g) (number (en_block e2) + 1) = Done (Ok (Some (block_root e2))).
Proof.
  intros Hx Hr Hs Hl [Ho Hc Hp Hst _]. pose proof (gc_length _ _ Hx) as Hlen. simpl in Hlen.
  rewrite length_app in Hlen. simpl in Hlen. pose proof (sa_size _ _ _ Hst) as H32.
  assert (number (en_block e2) = Z.of_nat (S (length log))) as Hn.
  { apply (gc_linked _ _ Hx). rewrite list_lookup_fmap. simpl. by rewrite list_lookup_middle. }
  assert (Forall (λ r, length r = 32%nat) (((block_root <$> log) ++ [lost]) ++ [block_root e2])) as Hroots.
  { rewrite !Forall_app, !Forall_singleton. split_and!; [by apply Forall_fmap|done..]. }
  simpl in Hp. split; [|split].
  - destruct (answers_head g log e2 4 db Ho Hr Hx Hc) as [_ Hh]. apply Hh.
    rewrite upto_new, length_app by lia. simpl. rewrite Nat.add_1_r. simpl. by rewrite list_lookup_middle.
  - rewrite (rocks_root_pushed db _ _ _ Ho Hr Hp Hroots), Hn by (unfold uint; lia).
    destruct (Z.eqb_spec (Z.of_nat (S (length log))) 0); [lia|]. rewrite Nat2Z.id. simpl.
    rewrite <- app_assoc, lookup_app_r; rewrite length_fmap; [|lia]. by rewrite Nat.sub_diag.
  - rewrite (rocks_root_pushed db _ _ _ Ho Hr Hp Hroots), Hn by (unfold uint; lia).
    destruct (Z.eqb_spec (Z.of_nat (S (length log)) + 1) 0); [lia|].
    replace (pred (Z.to_nat _)) with (length ((block_root <$> log) ++ [lost]))
      by (rewrite length_app, length_fmap; simpl; lia).
    by rewrite list_lookup_middle.
Qed.

(** C22 (error): a crash after the state root of a block is pushed and before the block is
    written shifts the states of the chain for good.  On the disk it leaves the
    chain is the old one, but the state that opens is that of the lost block, on
    which the next block executes; and once the next block is built, the state at
    its height is that of the lost block and its own state is one height above. *)
Theorem crash_shifts_states g log root db self c r self' e :
  AtHead g log root db → rs_state_root self = Some root → build_committed c →
  run_build (D := recording D) iteration_order (recorded db) self c = Done (r, self', e) →
  GoodChain g (log ++ [e]) →
  ∃ d, d ∈ disks r ∧ (readable d →
    Answers g log (contents db "trie"%string) (contents db "evm_storage_trie"%string) d
    ∧ ∃ self1, rocks_state_new d = Done self1 ∧ rocks_state_root self1 = block_root e
    ∧ ∀ c2 db2 self2 e2, build_committed c2 →
        run_build iteration_order d self1 c2 = Done (db2, self2, e2) →
        GoodChain g (log ++ [e2]) → readable db2 →
        block_repo_latest db2 = Done (Ok (Some (en_block e2)))
        ∧ rocks_root_by_height db2 (block_root g) (number (en_block e2)) = Done (Ok (Some (block_root e)))
        ∧ rocks_root_by_height db2 (block_root g) (number (en_block e2) + 1)
            = Done (Ok (Some (block_root e2)))).
Proof.
  intros Hh Hs Hc Hb Hx. destruct (lost_disks _ _ _ _ _ _ _ _ _ Hh Hs Hc Hb Hx) as (d & _ & Hd & _ & P & _).
  exists d. split; [done|]. intros Hr. pose proof Hh as [_ _ _ _ _ Hopen Hsz].
  pose proof P as [Ho Hch Hp Hst Hsto]. pose proof (sa_size _ _ _ Hst) as H32.
  split; [|].
  { apply (point_answers g log e _ _ 0 1 (block_root e) d); try done; [|lia].
    eapply good_chain_prefix; [exact Hx|]. by apply prefix_app_r. }
  destruct (disk_state g log e 0 d Ho Hr _ _ _ _ P) as (self1 & Hnew & Hs1).
  exists self1. split; [done|]. split; [unfold rocks_state_root; by rewrite Hs1|].
  intros c2 db2 self2 e2 Hc2 ([[db2' self2'] b2] & Hb2 & [= -> -> He2])%bind_Done Hx2 Hr2.
  pose proof (gc_length _ _ Hx2) as Hlen. simpl in Hlen. rewrite length_app in Hlen. simpl in Hlen.
  assert (Point g log e2 ((block_root <$> log) ++ [block_root e]) ∅ ∅ 0 0 (block_root e) d) as P2.
  { destruct Hch as [Cr Ct Cb Ch Cp], Hst as [Sh _ Sr Ss So]. split; [done|by split|done| |].
    - split; try done. apply map_empty_subseteq.
    - destruct Hsto as [Hh' _]. split; [done|]. intros a Ha. apply map_subseteq_spec. intros k v.
      by rewrite account_nodes_lookup, lookup_empty. }
  destruct (build_point g log e2 ((block_root <$> log) ++ [block_root e]) ∅ ∅ (λ _, True) (λ _ _ _ _ _ _, I) iteration_order commit_root_size
    collision (block_root e) d self1 (bd_parent c2) (bd_attributes c2) (bd_id c2) (bd_txs c2)
    (bd_base_fee c2) (bd_header c2) (bd_executed c2) db2 self2 b2
    ltac:(rewrite length_app, length_fmap; simpl; lia) Hc2 I P2 Hs1 Hb2 He2) as (_ & P3 & _).
  by eapply shifted_roots.
Qed.

(** ** The handler after a crash *)

Lemma unprocessed_dropped d (txs : list TxWithMetadata) : Opened d → readable d →
  (∀ t, t ∈ txs → is_Some (contents d "receipt"%string !! t.1)) → rocks_unprocessed d txs = Done [].
Proof.
  intros Ho Hr. induction txs as [|[h tx] txs IH]; intros Hin; [done|]. cbn [rocks_unprocessed].
  unfold receipt_contains. rewrite (cf_opened d) by (done || decided). cbn [mbind exec_bind].
  rewrite (readable_get _ _ _ Hr). cbn [mbind exec_bind qbind unwrap].
  rewrite IH by (intros t Ht; apply Hin; by apply list_elem_of_further). cbn.
  rewrite bool_decide_true by (apply (Hin (h, tx)), list_elem_of_here). done.
Qed.

Lemma unknown_payload g log e s d id : Opened d → readable d → ChainAt g log e s d → (s ≤ 3)%nat →
  Forall block_typed (en_block <$> log) → uint 64 id → id ∉ payload_id <$> (en_block <$> log) →
  payload_by_id d id = Done (Ok None).
Proof.
  intros Ho Hr Hc Hs Hty Hid Hni. unfold payload_by_id. rewrite (cf_opened d) by (done || decided).
  cbn [mbind exec_bind]. rewrite (readable_get _ _ _ Hr). pose proof (ca_payloads _ _ _ _ _ Hc) as Hp.
  rewrite upto_old in Hp by done. destruct (contents d "payload"%string !! u64_key id) as [v|] eqn:Hv; [|done].
  destruct (holds_lookup _ _ _ _ _ _ Hp Hv) as (b & Hb & _). apply latest_with_Some in Hb as [Hb Hk].
  destruct Hni. apply list_elem_of_fmap. exists b. split; [|done]. rewrite Forall_forall in Hty.
  symmetry. apply u64_key_inj; [by apply typed_payload, Hty|done|done].
Qed.

(** What the handler does with a payload it does not know. *)
Lemma start_build_inv db self gas_fee mem_pool attributes id execution db' self' pool' :
  payload_by_id db id = Done (Ok None) →
  rocks_start_block_build iteration_order db self gas_fee mem_pool attributes id execution
    = Done (db', self', pool') →
  ∃ txs parent base_fee x b,
    rocks_unprocessed db (omap attribute_tx (p_transactions attributes) ++ drain_order mem_pool) = Done txs
    ∧ block_repo_latest db = Done (Ok (Some parent))
    ∧ execution txs base_fee (execution_header parent attributes) = Done x
    ∧ rocks_build iteration_order db self parent attributes id ((λ t, t.2.1) <$> txs) base_fee
        (execution_header parent attributes) x = Done (db', self', b).
Proof.
  intros Hid Hr. unfold rocks_start_block_build in Hr. rewrite Hid in Hr. cbn [mbind exec_bind unwrap] in Hr.
  rewrite decide_False in Hr by (by intros [??]).
  apply bind_Done in Hr as (txs & Htxs & Hr). apply bind_Done in Hr as (l & Hl & Hr).
  apply bind_Done in Hr as (l' & ->%unwrap_Done & Hr). apply bind_Done in Hr as (parent & Hpar%expect_Done & Hr).
  subst l'. apply bind_Done in Hr as (base_fee & _ & Hr). apply bind_Done in Hr as (x & Hx & Hr).
  apply bind_Done in Hr as ([[d s] b] & Hb & [= <- <- <-]). by exists txs, parent, base_fee, x, b.
Qed.

(** C23 (error): a crash after the receipts of a block are written and before the block is
    drops its transactions.  On the disk it leaves the chain is the old one, yet
    the receipts of the lost block are answered; and a build that is given its
    transactions again takes them for processed, and builds a block without them. *)
Theorem crash_drops_transactions g log root db self c r self' e :
  AtHead g log root db → rs_state_root self = Some root → build_committed c →
  run_build (D := recording D) iteration_order (recorded db) self c = Done (r, self', e) →
  GoodChain g (log ++ [e]) →
  ∃ d, d ∈ disks r ∧ (readable d →
    Answers g log (contents db "trie"%string) (contents db "evm_storage_trie"%string) d
    ∧ (∀ rx, rx ∈ en_receipts e → receipt_by_transaction_hash d (Receipts.transaction_hash rx)
         = (Ok ∘ Some) <$> to_rpc_receipt rx)
    ∧ ∀ head self1 gas_fee mem_pool attributes id execution d2 self2 pool2,
        (g :: log) !! length log = Some head → uint 64 id → id ∉ payload_id <$> (en_block <$> log) →
        (∀ t, t ∈ omap attribute_tx (p_transactions attributes) ++ drain_order mem_pool →
          t.1 ∈ Receipts.transaction_hash <$> en_receipts e) →
        rocks_start_block_build iteration_order d self1 gas_fee mem_pool attributes id execution
          = Done (d2, self2, pool2) →
        ∃ base_fee x b, execution [] base_fee (execution_header (en_block head) attributes) = Done x
          ∧ rocks_build iteration_order d self1 (en_block head) attributes id [] base_fee
              (execution_header (en_block head) attributes) x = Done (d2, self2, b)).
Proof.
  intros Hh Hs Hc Hb Hx. destruct (lost_disks _ _ _ _ _ _ _ _ _ Hh Hs Hc Hb Hx) as (_ & d & _ & Hd & _ & P).
  exists d. split; [done|]. intros Hr. destruct Hh as [_ _ _ _ _ Hopen Hsz].
  pose proof P as [Ho Hch _ _ _].
  assert (Answers g log (contents db "trie"%string) (contents db "evm_storage_trie"%string) d) as Ha.
  { by apply (point_answers g log e _ _ 1 1 (block_root e) d). }
  assert (∀ rx, rx ∈ en_receipts e → is_Some (contents d "receipt"%string !! Receipts.transaction_hash rx)
    ∧ receipt_by_transaction_hash d (Receipts.transaction_hash rx) = (Ok ∘ Some) <$> to_rpc_receipt rx) as Hrec.
  { intros rx Hrx. apply (receipt_answered g log e 1 d Ho Hr Hx Hch e rx); [set_solver|done]. }
  split; [done|]. split.
  - intros rx Hrx. apply (Hrec rx Hrx).
  - intros head self1 gas_fee mem_pool attributes id execution d2 self2 pool2 Hhead Hid Hni Hin Hst.
    apply start_build_inv in Hst as (txs & parent & base_fee & x & b & Htxs & Hpar & Hex & Hbuild).
    + rewrite (unprocessed_dropped d _ Ho Hr) in Htxs; [injection Htxs as <-|].
      * rewrite (an_head _ _ _ _ _ Ha head Hhead) in Hpar. injection Hpar as <-. by exists base_fee, x, b.
      * intros t Ht. apply Hin in Ht. apply list_elem_of_fmap in Ht as (rx & -> & Hrx).
        apply (Hrec rx Hrx).
    + eapply (unknown_payload g log e 1); try done; [lia|]. pose proof (gc_typed _ _ Hx) as Hty.
      rewrite fmap_cons, fmap_app in Hty. by apply Forall_cons in Hty as [_ [? _]%Forall_app].
Qed.

End Crashes.

(** Witnesses: a genesis state and block on the plain database, and the build of a
    block with one transaction. *)
Module CrashWitness.
Import EvMap.Model Envelope.Witness BlockWitness ChainWitness EvmStateWitness RocksWitness RocksStateWitness.
#[local] Existing Instance unit_errors.
#[local] Existing Instance tx_library.
#[local] Existing Instance envelopes.
#[local] Existing Instance long_headers.
#[local] Existing Instance plain_db.
#[local] Existing Instance plain_db_laws.
#[local] Existing Instance plain_reads.
#[local] Existing Instance plain_reads_laws.
#[local] Existing Instance HeedStateWitness.wide_trie.
#[local] Existing Instance HeedStateWitness.wide_trie_laws.
#[local] Existing Instance WorldWitness.world_library.
#[local] Existing Instance WorldWitness.app_library.
#[local] Existing Instance recording_reads.

Definition opened0 : RocksDbState := MkRocksState (trie_new ∅) None.
Definition state0 : @Db plain_db * RocksDbState :=
  match rocks_state_apply map_to_list no_columns opened0 (account_change 1) with
  | Done (Ok x) => x | _ => (no_columns, opened0) end.
Definition root0 : B256 := rocks_state_root state0.2.
Definition genesis_block : ExtendedBlock := MkExtendedBlock (be_bytes 32 0) 0 0
  (MkBlock (with_execution_outcome (MkExecutionOutcome [] root0 [] 0 0) h0) []).
Definition genesis_entry : Entry := MkEntry genesis_block [] [].

(** The transaction writes the state and a slot of a contract. *)
Definition slot_changes : list (Address * StorageTrieChanges) :=
  [(contract, storage_commit (trie_insert [1] [5] (trie_new ∅)))].
Definition yields (b : Z) (receipts : list ExtendedReceipt) : Executed :=
  MkExecuted [(account_change b, slot_changes)] receipts [] [] 0 0.
Definition root_after (b : Z) : B256 :=
  match rocks_execute map_to_list state0.1 state0.2 (ex_changes (yields b [])) with
  | Done (_, self) => rocks_state_root self | Panic => [] end.
Definition block_of (b : Z) (txs : list OpTxEnvelope) : ExtendedBlock :=
  assemble_block genesis_block attributes 1 txs 1 hx0 (MkExecutionOutcome [] (root_after b) [] 0 0).
Definition lost : ExtendedBlock := block_of 2 [legacy_tx].
Definition next : ExtendedBlock := block_of 3 [].
Definition receipts1 : list ExtendedReceipt := executed1.2.
Definition lost_entry : Entry := block_entry lost [legacy_tx] receipts1.

#[local] Instance json_blocks : Json ExtendedBlock := table_json [genesis_block; lost; next].
#[local] Instance json_txs : Json ExtendedTransaction := table_json (en_txs lost_entry).
#[local] Instance json_receipts : Json ExtendedReceipt := table_json (en_receipts lost_entry).
#[local] Instance json_blocks_laws : JsonLaws ExtendedBlock := table_json_laws _.
#[local] Instance json_txs_laws : JsonLaws ExtendedTransaction := table_json_laws _.
#[local] Instance json_receipts_laws : JsonLaws ExtendedReceipt := table_json_laws _.

Definition start_disk : @Db plain_db :=
  match block_add state0.1 genesis_block with Done (Ok db) => db | _ => no_columns end.
Definition build1 : Build :=
  MkBuild genesis_block attributes 1 [legacy_tx] 1 hx0 (yields 2 receipts1).

Definition ran : option (@Db (recording plain_db) * RocksDbState * list Entry) :=
  match rocks_builds (D := recording plain_db) map_to_list (recorded start_disk) state0.2 [build1] with
  | Done x => Some x | Panic => None end.

(** The ten disks of the build. *)
Example ran_disks : length <$> (disks <$> (fst <$> (fst <$> ran))) = Some 10%nat.
Proof. vm_compute. done. Qed.

#[local] Instance entry_eq : EqDecision Entry.
Proof. solve_decision. Defined.

Definition ran_disk : @Db (recording plain_db) := from_option (λ x, x.1.1) (recorded start_disk) ran.
Definition ran_state : RocksDbState := from_option (λ x, x.1.2) opened0 ran.

Ltac run_done := match goal with |- ?m = _ =>
  assert (match m with Done (_, l) => bool_decide (l = [lost_entry]) | Panic => false end = true) as Hrun
    by (vm_compute; reflexivity);
  destruct m as [[[]]|]; [apply bool_decide_eq_true in Hrun; rewrite Hrun; reflexivity|discriminate Hrun] end.

Lemma ran_done : rocks_builds (D := recording plain_db) map_to_list (recorded start_disk) state0.2 [build1]
  = Done (ran_disk, ran_state, [lost_entry]).
Proof. unfold ran_disk, ran_state, ran. run_done. Qed.

Lemma ran_build : run_build (D := recording plain_db) map_to_list (recorded start_disk) state0.2 build1
  = Done (ran_disk, ran_state, lost_entry).
Proof.
  apply (single_build (D := recording plain_db)), ran_done.
Qed.

Lemma start_added : block_add state0.1 genesis_block = Done (Ok start_disk).
Proof.
  assert (match block_add state0.1 genesis_block with Done (Ok _) => true | _ => false end = true) as Hadd
    by (vm_compute; reflexivity).
  unfold start_disk. destruct (block_add state0.1 genesis_block) as [[]|]; [reflexivity|discriminate Hadd..].
Qed.

Lemma start_persisted : Persisted (contents start_disk) genesis_entry [].
Proof.
  apply (genesis_persists state0.1); [|apply start_added]. intros c Hc.
  repeat (apply elem_of_cons in Hc as [->|Hc]; [reflexivity|]). by apply not_elem_of_nil in Hc.
Qed.

Definition genesis_node : bytes := StorageWitness.toy_node {[ [7] := [1] ]}.

Lemma start_nodes : start_disk "trie"%string = {[ HeedStateWitness.wide_hash genesis_node := genesis_node ]}.
Proof. apply (bool_decide_unpack _). vm_compute. exact I. Qed.

Lemma genesis_opens : opens_at (start_disk "trie"%string) root0.
Proof. rewrite start_nodes. vm_compute. by eexists. Qed.

Lemma start_head : AtHead genesis_entry [] root0 start_disk.
Proof.
  split.
  - apply plain_opened.
  - apply start_persisted.
  - split; [reflexivity|]. intros h Hh. by destruct (h =? 0).
  - split; [|apply map_empty_subseteq|by vm_compute|reflexivity|apply genesis_opens].
    intros k v Hk. change (start_disk "trie"%string !! k = Some v) in Hk. rewrite start_nodes in Hk.
    by apply lookup_singleton_Some in Hk as [<- <-].
  - intros a _ k v. rewrite account_nodes_lookup.
    assert (contents start_disk "evm_storage_trie"%string = ∅) as -> by reflexivity.
    by rewrite lookup_empty.
  - intros x ->%list_elem_of_singleton. apply genesis_opens.
  - constructor.
Qed.

Lemma genesis_wf : entry_wf genesis_entry.
Proof.
  split; [done|by intros i tx Hi| |by intros r Hr%not_elem_of_nil].
  exists {| hx_number := 0; hx_timestamp := h_timestamp (header (block genesis_block)); hx_prev_randao := [] |}.
  split; [|done]. by intros i r Hr.
Qed.

Lemma lost_chain : GoodChain genesis_entry ([] ++ [lost_entry]).
Proof.
  split.
  - apply (linked_snoc [] genesis_block lost); [|by vm_compute|by vm_compute]. split.
    + intros i x Hx. apply list_lookup_singleton_Some in Hx as [-> <-]. done.
    + intros i x y _ Hy. apply list_lookup_singleton_Some in Hy as [? _]. done.
  - constructor; [apply genesis_wf|]. constructor; [|constructor].
    apply (block_entry_wf genesis_block attributes 1 [legacy_tx] 1
      (MkExecutionOutcome [] (root_after 2) [] 0 0) receipts1).
    intros [|i] r Hr; [|done]. injection Hr as <-. vm_compute. done.
  - split; apply (bool_decide_unpack _); vm_compute; done.
  - repeat constructor; vm_compute; done.
  - done.
Qed.

Lemma build1_committed : build_committed build1.
Proof.
  constructor; [|constructor]. intros a c [= -> ->]%list_elem_of_singleton. split; [done|].
  intros k v. apply trie_commit_hashed.
Qed.

(** The disks of the run, in order. *)
Definition disk_at (n : nat) : @Db plain_db := default start_disk (disks ran_disk !! n).

Lemma disk_at_in n : (n < 10)%nat → disk_at n ∈ disks ran_disk.
Proof.
  intros Hn. unfold disk_at. assert (length (disks ran_disk) = 10%nat) as Hl by (vm_compute; reflexivity).
  destruct (lookup_lt_is_Some_2 (disks ran_disk) n) as [d Hd]; [by rewrite Hl|]. rewrite Hd.
  by eapply list_elem_of_lookup_2.
Qed.

(** The disk after the receipts. *)
Lemma crash_keeps_chain_witness :
  ∃ n, (n ≤ 1)%nat
    ∧ Answers genesis_entry ([] ++ take n [lost_entry]) (start_disk "trie"%string)
        (start_disk "evm_storage_trie"%string) (disk_at 6).
Proof.
  apply (crash_keeps_chain map_to_list HeedStateWitness.wide_root_size HeedStateWitness.wide_no_collision
    genesis_entry [] root0 start_disk state0.2 [build1] ran_disk ran_state [lost_entry]);
    [apply start_head|reflexivity|constructor; [apply build1_committed|constructor]|apply ran_done
    |apply lost_chain|apply disk_at_in; lia|apply plain_readable].
Defined.

Lemma crash_shifts_states_witness :
  ∃ d, d ∈ disks ran_disk ∧ (readable d →
    Answers genesis_entry [] (start_disk "trie"%string) (start_disk "evm_storage_trie"%string) d
    ∧ ∃ self1, rocks_state_new d = Done self1 ∧ rocks_state_root self1 = block_root lost_entry
    ∧ ∀ c2 db2 self2 e2, build_committed c2 →
        run_build map_to_list d self1 c2 = Done (db2, self2, e2) →
        GoodChain genesis_entry ([] ++ [e2]) → readable db2 →
        block_repo_latest db2 = Done (Ok (Some (en_block e2)))
        ∧ rocks_root_by_height db2 (block_root genesis_entry) (number (en_block e2))
            = Done (Ok (Some (block_root lost_entry)))
        ∧ rocks_root_by_height db2 (block_root genesis_entry) (number (en_block e2) + 1)
            = Done (Ok (Some (block_root e2)))).
Proof.
  apply (crash_shifts_states map_to_list HeedStateWitness.wide_root_size HeedStateWitness.wide_no_collision
    genesis_entry [] root0 start_disk state0.2 build1 ran_disk ran_state lost_entry);
    [apply start_head|reflexivity|apply build1_committed|apply ran_build|apply lost_chain].
Defined.

Lemma crash_drops_transactions_witness :
  ∃ d, d ∈ disks ran_disk ∧ (readable d →
    Answers genesis_entry [] (start_disk "trie"%string) (start_disk "evm_storage_trie"%string) d
    ∧ (∀ rx, rx ∈ en_receipts lost_entry → receipt_by_transaction_hash d (Receipts.transaction_hash rx)
         = (Ok ∘ Some) <$> to_rpc_receipt rx)
    ∧ ∀ head self1 gas_fee mem_pool attributes id execution d2 self2 pool2,
        [genesis_entry] !! 0%nat = Some head → uint 64 id → id ∉ [] →
        (∀ t, t ∈ omap attribute_tx (p_transactions attributes) ++ drain_order mem_pool →
          t.1 ∈ Receipts.transaction_hash <$> en_receipts lost_entry) →
        rocks_start_block_build map_to_list d self1 gas_fee mem_pool attributes id execution
          = Done (d2, self2, pool2) →
        ∃ base_fee x b, execution [] base_fee (execution_header (en_block head) attributes) = Done x
          ∧ rocks_build map_to_list d self1 (en_block head) attributes id [] base_fee
              (execution_header (en_block head) attributes) x = Done (d2, self2, b)).
Proof.
  apply (crash_drops_transactions map_to_list HeedStateWitness.wide_root_size HeedStateWitness.wide_no_collision
    genesis_entry [] root0 start_disk state0.2 build1 ran_disk ran_state lost_entry);
    [apply start_head|reflexivity|apply build1_committed|apply ran_build|apply lost_chain].
Defined.

(** The disk of the sixth batch (the state root is pushed) and of the seventh (the
    receipts are written), and the next block built on the sixth: block 1 has the
    lost state at its height. *)
Definition rebuilt : option (@Db plain_db) :=
  match rocks_state_new (disk_at 5) with
  | Done self =>
    match rocks_build map_to_list (disk_at 5) self genesis_block attributes 1 [] 1 hx0 (yields 3 []) with
    | Done (db, _, b) => if decide (b = next) then Some db else None
    | Panic => None
    end
  | Panic => None
  end.

Example lost_state_at_next :
  latest_height (disk_at 5) = Done (Ok (Some 0)) ∧ latest_height (disk_at 6) = Done (Ok (Some 0))
  ∧ receipt_contains (disk_at 5) [9] = Done (Ok false) ∧ receipt_contains (disk_at 6) [9] = Done (Ok true)
  ∧ root_after 2 ≠ root_after 3
  ∧ match rebuilt with
    | Some db => latest_height db = Done (Ok (Some 1))
        ∧ rocks_root_by_height db root0 1 = Done (Ok (Some (root_after 2)))
        ∧ rocks_root_by_height db root0 2 = Done (Ok (Some (root_after 3)))
    | None => False
    end.
Proof. vm_compute. done. Qed.

End CrashWitness.
