(* ===== verification/RocksNode.v ===== *)
(** A node on RocksDB refines the node in memory.  The block builder of
    [app/src/command.rs] runs on the world a database is ([rocks_world]), and what
    its execution yields is what the build of [Crash] writes.  When the database
    does not fail, every command the node in memory handles the node on disk
    handles, and what the disk holds stays what the memory holds. *)
From S2P Require Import Prelude Primitives MoveTypes Errors Envelope EvMap.
From S2P Require Import Transactions Fees BaseFee Receipts Payloads Blocks Application Chain.
From S2P Require Import MoveVm EthToken ToyVm Nonces Events TagValidation Execution.
From S2P Require Import Storage StateTree EvmState StateQueries World Simulation.
From S2P Require Import Columns RocksDb RocksState HeedState Crash.

Local Open Scope Z_scope.

(** ** The world on the database *)

Section RocksWorld.
Context `{EthTrie, WorldLibrary}.
Context `{!TxLibrary, EnvelopeLibrary, HeaderLibrary, EvMap, !AppLibrary}.
Context {D : RocksDb} `{!TrieReads}.
Context `{!Json ExtendedBlock, !Json ExtendedTransaction, !Json ExtendedReceipt}.

(** The state and the storage tries of the accounts are in one database; the
    changes a build has applied, in order, are kept beside it. *)
Record DiskState := MkDiskState {
  ds_db : Db;
  ds_state : RocksDbState;
  ds_changes : list (ChangeSet * list (Address * StorageTrieChanges));
}.

(** A transaction's changes are applied to the state and then to the storage
    tries; a failure of either panics.
    Source: app/src/command.rs 246-255 [execute_transactions] *)
Definition rocks_apply_changes (s : DiskState) (c : ChangeSet * StorageTriesChanges)
    : exec (result () DiskState) :=
  let x := (c.1, storage_changes_order (tries c.2)) in
  '(db, self) ← rocks_execute tree_values_order (ds_db s) (ds_state s) [x];
  Done (Ok (MkDiskState db self (ds_changes s ++ [x]))).

(** The state and the storage tries of an application on RocksDB, in one.
    Source: server/src/dependency/rocksdb.rs 37-39 [RocksDbDependencies] *)
Definition rocks_world : WorldState := {|
  MoveState := DiskState;
  MoveChanges := ChangeSet * StorageTriesChanges;
  EvmStorage := ();
  EvmChanges := ();
  StorageError := ();
  Application.state_apply := rocks_apply_changes;
  Application.state_root s := rocks_state_root (ds_state s);
  storage_apply _ _ := Ok ();
|}.
#[local] Existing Instance rocks_world.

(** A read that fails is no hash.  A panic would stop the node; here it is no hash
    either, and [hash_found] shows that a disk that holds a chain gives none.
    Source: app/src/block_hash.rs 30-36 [StorageBasedProvider::hash_by_number] *)
Definition rocks_hash_by_number (db : Db) (number : Z) : option B256 :=
  match block_by_height db number false with
  | Done (Ok (Some b)) => Some (br_hash b)
  | _ => None
  end.

(** The hashes a transaction asks for are looked up in the database.
    Source: app/src/command.rs 204-234 [execute_transactions] *)
Definition rocks_input (i : TransactionExecutionInput) : TransactionExecutionInput :=
  match i with
  | DepositInput i => DepositInput
      {| d_tx := d_tx i; d_tx_hash := d_tx_hash i; d_state := d_state i;
         d_storage_trie := d_storage_trie i; d_block_header := d_block_header i;
         d_block_hash_lookup := rocks_hash_by_number (ds_db (d_state i)) |}
  | CanonicalInput i => CanonicalInput
      {| c_tx := c_tx i; c_tx_hash := c_tx_hash i; c_state := c_state i;
         c_storage_trie := c_storage_trie i; c_l1_cost := c_l1_cost i; c_l2_fee := c_l2_fee i;
         c_l2_input := c_l2_input i; c_block_header := c_block_header i;
         c_block_hash_lookup := rocks_hash_by_number (ds_db (c_state i)) |}
  end.

Context (vm : TransactionExecutionInput → exec (result Error TransactionExecutionOutcome)).

Definition rocks_executor : Executor := λ i, vm (rocks_input i).

Definition rocks_application (db : Db) (self : RocksDbState) (gas_fee : Eip1559GasFee) : Application :=
  MkApplication ∅ gas_fee ev_new shared_memory_new (MkDiskState db self []) ().

(** What the execution of a block's transactions on the database yields.
    Source: app/src/command.rs 84-90 [start_block_build] *)
Definition rocks_execution (db : Db) (self : RocksDbState) (gas_fee : Eip1559GasFee)
    (txs : list TxWithMetadata) (base_fee : Z) (hx : HeaderForExecution) : exec Executed :=
  '(app, o, receipts) ← execute_transactions (H6 := rocks_executor) (H8 := in_memory_callbacks)
    (rocks_application db self gas_fee) txs base_fee hx;
  Done (MkExecuted (ds_changes (state app)) receipts (o_receipts_root o) (o_logs_bloom o)
    (o_gas_used o) (o_total_tip o)).

(** ** The actor on the database *)

(** Source: app/src/dependency.rs 59-84 [Application] *)
Record RocksNode := MkRocksNode {
  rn_db : Db;
  rn_state : RocksDbState;
  rn_gas_fee : Eip1559GasFee;
  rn_mem_pool : gmap B256 (OpTxEnvelope * L1GasFeeInput);
}.

(** Source: app/src/actor.rs 40-49 [CommandActor::handle_command] *)
Definition rocks_handle_command (n : RocksNode) (msg : Command) : exec RocksNode :=
  match msg with
  | StartBlockBuild payload_attributes payload_id =>
    '(db, self, mem_pool) ← rocks_start_block_build tree_values_order (rn_db n) (rn_state n)
      (rn_gas_fee n) (rn_mem_pool n) payload_attributes payload_id
      (rocks_execution (rn_db n) (rn_state n) (rn_gas_fee n));
    Done (MkRocksNode db self (rn_gas_fee n) mem_pool)
  | AddTransaction tx =>
    op_tx ← expect (try_from_eth_envelope tx);
    Done (MkRocksNode (rn_db n) (rn_state n) (rn_gas_fee n)
      (<[eth_tx_hash tx := (op_tx, l1_input_from (eth_encode tx))]> (rn_mem_pool n)))
  | GenesisUpdate block =>
    added ← block_add (rn_db n) block;
    db ← unwrap added;
    Done (MkRocksNode db (rn_state n) (rn_gas_fee n) (rn_mem_pool n))
  end.

(** Source: app/src/actor.rs 28-32 [CommandActor::work] *)
Fixpoint rocks_work (n : RocksNode) (msgs : list Command) : exec RocksNode :=
  match msgs with
  | [] => Done n
  | msg :: msgs => n ← rocks_handle_command n msg; rocks_work n msgs
  end.

End RocksWorld.

(** ** What memory and disk share *)

Section Agreement.
Context `{EthTrie, !EthTrieLaws, WorldLibrary}.
Context {D : RocksDb} `{!RocksDbLaws, !TrieReads, !TrieReadsLaws}.
Context (commit_root_size : ∀ t, length (trie_commit t).1 = 32%nat) (healthy : AlwaysHealthy).

(** A state without the VM's cache. *)
Definition forget (s : InMemoryState VmResolver) : InMemoryState () :=
  MkState () (StateTree.db s) (current_state_root s).

Lemma forget_apply s c s' :
  StateTree.state_apply tree_values_order vm_resolver_apply s c = Done (Ok s') →
  reference_apply tree_values_order (forget s) c = Done (Ok (forget s'))
  ∧ ∃ t t1, trie_of s t ∧ insert_change_set_into_merkle_trie tree_values_order t c = Done t1
      ∧ vm_resolver_apply (resolver s) c = Ok (resolver s')
      ∧ StateTree.db s' = (trie_commit t1).2 ∪ StateTree.db s
      ∧ current_state_root s' = Some (trie_commit t1).1.
Proof.
  intros (t & Ht & Hr)%bind_Done. apply bind_Done in Hr as (t1 & Ht1 & Hr).
  assert (StateTree.tree (forget s) = Done t) as Hf by exact Ht.
  unfold reference_apply, StateTree.state_apply. rewrite Hf. cbn [mbind exec_bind]. rewrite Ht1.
  cbn [mbind exec_bind]. destruct (trie_commit t1) as [root diff] eqn:Hc.
  simpl in Hr. destruct (vm_resolver_apply _ c) as [r|] eqn:Hv; [|done]. injection Hr as <-.
  split; [done|]. exists t, t1. rewrite Hc. by split_and!.
Qed.

(** The storage tries of the accounts, in memory and on disk. *)
Definition stores_agree (s : InMemoryStorageTrieRepository) (db : Db) : Prop :=
  ∀ a, length a = 20%nat →
    memory (repository_db s a) = ∅ ∧ inner_root (repository_db s a) = (storage_view db a).1
    ∧ inner (repository_db s a) = (storage_view db a).2
    ∧ ∀ r, inner_root (repository_db s a) = Some r → length r = 32%nat.

Definition typed_changes (l : list (Address * StorageTrieChanges)) : Prop :=
  Forall (λ x, length x.1 = 20%nat ∧ length (Storage.root x.2) = 32%nat) l.

Lemma agree_account s db a : Opened db → stores_agree s db → length a = 20%nat →
  ∀ t, for_account s a = Some t → rocks_for_account db a = Done (Ok t).
Proof.
  intros Ho Hs Ha t. destruct (Hs a Ha) as (Hm & Hr & Hn & H32). unfold for_account, staged.
  rewrite Hm, Hn, (left_id_L ∅ (∪)). rewrite Hr in *. intros Ht.
  rewrite (for_account_readable db a Ho (proj1 (healthy db)) H32).
  destruct (storage_view db a).1; [by rewrite Ht|]. by injection Ht as <-.
Qed.

Lemma agree_account_root s db a r : Opened db → stores_agree s db → length a = 20%nat →
  ∀ t, for_account_with_root s a r = Some t → rocks_for_account_with_root db a r = Done (Ok t).
Proof.
  intros Ho Hs Ha t. destruct (Hs a Ha) as (Hm & Hr & Hn & _). unfold for_account_with_root, staged.
  rewrite Hm, Hn, (left_id_L ∅ (∪)). intros Ht. unfold rocks_for_account_with_root.
  rewrite (cf_opened db) by (done || decided). cbn [mbind exec_bind].
  destruct (healthy db) as [(_ & Hreads & _) _]. rewrite Hreads. cbn. simpl in Ht. by rewrite Ht.
Qed.

(** A transaction's changes of one account. *)
Lemma agree_apply s db a c s' : Opened db → stores_agree s db → length a = 20%nat →
  length (Storage.root c) = 32%nat → apply_account s a c = Some s' →
  ∃ db', rocks_trie_apply db a c = Done (db', Ok ()) ∧ stores_agree s' db' ∧ Opened db'.
Proof.
  intros Ho Hs Ha H32 (t & _ & [= <-])%bind_Some.
  destruct (proj2 (healthy db) ((λ (e : bytes * bytes), let '(key, value) := e in
    ("evm_storage_trie"%string, (unique_key a key, value))) <$> map_to_list (trie_diff c))) as [db1 W1].
  destruct (proj2 (healthy db1) [("evm_storage_trie_root"%string, (a, Storage.root c))]) as [db2 W2].
  pose proof (write_same_but _ _ _ W1) as F1. pose proof (write_same_but _ _ _ W2) as F2.
  assert (Opened db1) as Ho1 by (by eapply same_but_opened).
  assert (rocks_trie_apply db a c = Done (db2, Ok ())) as Hap.
  { unfold rocks_trie_apply, storage_db_insert_batch. rewrite (cf_opened db) by (done || decided).
    cbn [mbind exec_bind]. rewrite W1. unfold storage_put_root.
    rewrite (cf_opened db1) by (done || decided). cbn [mbind exec_bind]. by rewrite W2. }
  exists db2. split; [done|]. split; [|by eapply same_but_opened].
  destruct (trie_apply_view _ _ _ _ Hap) as (V & N & _).
  intros a' Ha'. unfold repository_db. cbn [accounts]. destruct (decide (a' = a)) as [->|Hne].
  - rewrite lookup_insert_eq, V. simpl. destruct (Hs a Ha) as (Hm & _ & Hn & _).
    unfold repository_db in Hm, Hn. rewrite Hm, Hn. split_and!; [done..|]. by intros r [= <-].
  - rewrite lookup_insert_ne by done. rewrite N by congruence. by apply Hs.
Qed.

Lemma agree_apply_all l : ∀ s db s', Opened db → stores_agree s db → typed_changes l →
  repository_apply s l = Some s' →
  ∃ db', rocks_repository_apply db l = Done (db', Ok ()) ∧ stores_agree s' db' ∧ Opened db'.
Proof.
  induction l as [|[a c] l IH]; intros s db s' Ho Hs Ht Hr.
  { injection Hr as <-. by exists db. }
  apply Forall_cons in Ht as [[Ha H32] Ht]. simpl in Ha, H32.
  apply bind_Some in Hr as (s1 & M1 & Hr).
  destruct (agree_apply s db a c s1 Ho Hs Ha H32 M1) as (db1 & D1 & Hs1 & Ho1).
  destruct (IH s1 db1 s' Ho1 Hs1 Ht Hr) as (db' & D' & Hs' & Ho').
  exists db'. split; [|done]. cbn [rocks_repository_apply].
  apply bind_Some in M1 as (t & Hf & _). rewrite (agree_account s db a Ho Hs Ha t Hf). cbn [mbind exec_bind].
  rewrite D1. exact D'.
Qed.

Lemma repository_apply_frame changes : ∀ db db', rocks_repository_apply db changes = Done (db', Ok ()) →
  ∀ col, col ∉ storage_columns → contents db' col = contents db col.
Proof.
  induction changes as [|[a c] changes IH]; intros db db' Hr col Hcol; [by injection Hr as <-|].
  apply bind_Done in Hr as ([t|] & _ & Hr); [|done]. apply bind_Done in Hr as ([db1 r] & Ht & Hr).
  destruct r as [[]|]; [|done]. destruct (trie_apply_view _ _ _ _ Ht) as (_ & _ & N).
  rewrite (IH db1 db' Hr col Hcol). apply N; intros ->; apply Hcol; decided.
Qed.

(** A transaction's changes, on both sides. *)
Lemma agree_changes st s db self c l st' s' : in_step db self (forget st) → stores_agree s db →
  StateTree.state_apply tree_values_order vm_resolver_apply st c = Done (Ok st') →
  repository_apply s l = Some s' → typed_changes l →
  ∃ db' self', rocks_execute tree_values_order db self [(c, l)] = Done (db', self')
    ∧ in_step db' self' (forget st') ∧ stores_agree s' db'
    ∧ ∀ col, col ∉ state_columns ++ storage_columns → contents db' col = contents db col.
Proof.
  intros Hst Hs Hc Hl Ht. destruct (forget_apply _ _ _ Hc) as [Hf _].
  destruct (rocks_apply_progress tree_values_order commit_root_size db self (forget st) c (forget st') healthy Hst Hf)
    as (db1 & self1 & E1 & Hst1).
  destruct (rocks_apply_step tree_values_order commit_root_size db self (forget st) c db1 self1 Hst E1)
    as (_ & _ & _ & N1).
  assert (stores_agree s db1) as Hs1.
  { intros a Ha. unfold storage_view. rewrite !N1 by done. by apply Hs. }
  destruct (agree_apply_all l s db1 s' (step_opened _ _ _ Hst1) Hs1 Ht Hl) as (db2 & E2 & Hs2 & Ho2).
  assert (∀ col, col ∉ storage_columns → contents db2 col = contents db1 col) as N2.
  { intros col Hcol. by apply (repository_apply_frame l _ _ E2). }
  exists db2, self1. split; [|split; [|split; [done|]]].
  - cbn [rocks_execute]. rewrite E1. cbn. rewrite E2. done.
  - destruct Hst1 as [_ Hd]. split; [done|]. by rewrite !N2 by decided.
  - intros col Hcol. rewrite N2, N1; set_solver.
Qed.

End Agreement.

(** ** Writes that do not fail *)

Section Progress.
Context `{ErrorTypes, !TxLibrary, EnvelopeLibrary, HeaderLibrary}.
Context `{EthTrie, StateReading}.
Context {D : RocksDb} `{!RocksDbLaws, !TrieReads}.
Context `{!Json ExtendedBlock, !Json ExtendedTransaction, !Json ExtendedReceipt}.
Context (healthy : AlwaysHealthy).

(** The values have a JSON text. *)
Definition writes_json {A} `{!Json A} (l : list A) : Prop := Forall (λ a, is_Some (to_json a)) l.

(** A block, its transactions and its receipts have one. *)
Definition entry_json (e : Entry) : Prop :=
  writes_json [en_block e] ∧ writes_json (en_txs e) ∧ writes_json (en_receipts e).

Lemma opened_write (db : Db) ws : Opened db → ∃ db', db_write db ws = Ok db' ∧ Opened db'.
Proof.
  intros Ho. destruct (proj2 (healthy db) ws) as [db' Hw]. exists db'. split; [done|].
  eapply same_but_opened; [by eapply write_same_but|done].
Qed.

Lemma push_progress db roots root : Opened db → pushed db roots → Z.of_nat (length roots) < 2 ^ 64 →
  ∃ db', push_state_root db root = Done (Ok db') ∧ Opened db'.
Proof.
  intros Ho [Hk _] Hl. set (ws := [("state"%string, (u64_key (wrap 64 (Z.of_nat (length roots) + 1)), root));
    ("state_height"%string, (HEIGHT_KEY, u64_key (wrap 64 (Z.of_nat (length roots) + 1))))]).
  destruct (opened_write db ws Ho) as (db' & Hw & Ho'). exists db'. split; [|done].
  unfold push_state_root, state_height. rewrite !(cf_opened db) by (done || decided). cbn [mbind exec_bind].
  rewrite (readable_get db _ _ (proj1 (healthy db))), Hk. destruct roots as [|r0 roots]; cbn [qbind mbind exec_bind].
  - exact (f_equal Done Hw).
  - rewrite u64_from_to_key by (unfold uint; lia). cbn [qbind mbind exec_bind]. exact (f_equal Done Hw).
Qed.

Lemma json_progress {A} `{!Json A} c (key : A → bytes) l : writes_json l → ∃ ws, json_writes c key l = Done ws.
Proof.
  induction 1 as [|a l [v Hv] _ [ws IH]]; [by eexists|]. exists ((c, (key a, v)) :: ws). unfold json_writes in *. cbn [exec_map].
  rewrite IH. unfold to_value. by rewrite Hv.
Qed.

(** Writing records of one kind. *)
Lemma records_progress {A} `{!Json A} db c (key : A → bytes) l : Opened db → writes_json l →
  ∃ ws db', json_writes c key l = Done ws ∧ db_write db ws = Ok db' ∧ Opened db'.
Proof.
  intros Ho Hj. destruct (json_progress c key l Hj) as [ws Hws].
  destruct (opened_write db ws Ho) as (db' & Hw & Ho'). by exists ws, db'.
Qed.

Lemma commit_progress db b txs rs : Opened db → entry_json (block_entry b txs rs) →
  ∃ db', rocks_commit db b txs rs = Done db'.
Proof.
  intros Ho (json_block & json_txs & json_receipts). unfold rocks_commit.
  cbn [block_entry en_txs en_receipts] in json_txs, json_receipts.
  destruct (records_progress db "receipt"%string Receipts.transaction_hash _ Ho json_receipts)
    as (ws1 & db1 & J1 & W1 & O1).
  destruct (records_progress db1 "transaction"%string et_hash _ O1 json_txs) as (ws2 & db2 & J2 & W2 & O2).
  apply Forall_singleton in json_block as [v Hv]. simpl in Hv.
  destruct (opened_write db2 [("block"%string, (hash b, v)); ("height"%string, (u64_key (number b), hash b))] O2)
    as (db3 & W3 & O3).
  destruct (opened_write db3 [("payload"%string, (u64_key (payload_id b), hash b))] O3) as (db4 & W4 & _).
  exists db4. unfold receipt_extend. rewrite (cf_opened db) by (done || decided). cbn [mbind exec_bind].
  rewrite J1. cbn [mbind exec_bind]. rewrite W1. cbn [unwrap mbind exec_bind].
  unfold transaction_extend. rewrite (cf_opened db1) by (done || decided). cbn [mbind exec_bind].
  rewrite J2. cbn [mbind exec_bind]. rewrite W2. cbn [unwrap mbind exec_bind].
  unfold block_add, to_value. rewrite !(cf_opened db2) by (done || decided). rewrite Hv. cbn [expect mbind exec_bind].
  rewrite W3. cbn [unwrap mbind exec_bind]. unfold on_payload, add_block_hash.
  rewrite (cf_opened db3) by (done || decided). cbn [mbind exec_bind]. by rewrite W4.
Qed.

End Progress.

(** ** Refinement *)

Section Refinement.
Context `{EthTrie, !EthTrieLaws, WorldLibrary}.
Context `{!TxLibrary, EnvelopeLibrary, HeaderLibrary, EvMapLaws, !AppLibrary}.
Context (E1 : @Executor _ moved_world).
Context {D : RocksDb} `{!RocksDbLaws, !TrieReads, !TrieReadsLaws}.
Context `{!Json ExtendedBlock, !Json ExtendedTransaction, !Json ExtendedReceipt}.
Context `{!JsonLaws ExtendedBlock, !JsonLaws ExtendedTransaction, !JsonLaws ExtendedReceipt}.
Context (vm : TransactionExecutionInput (H := rocks_world) →
  exec (result Error (TransactionExecutionOutcome (H0 := rocks_world)))).

#[local] Existing Instance moved_world.
#[local] Existing Instance E1.
#[local] Existing Instance in_memory_callbacks.

Local Abbreviation MemApp := (Application (H5 := moved_world)).
Local Abbreviation DiskApp := (Application (H5 := rocks_world)).

(** The resolver of the VM in memory has the content of the state trie: it does
    from the start, and applying changes keeps it. *)
Context (mirrors : VmResolver → Trie → Prop).
Context (mirrors_same : ∀ r t t', (∀ k, trie_get t k = trie_get t' k) → mirrors r t → mirrors r t').
Context (mirrors_apply : ∀ r t c r' t', mirrors r t → vm_resolver_apply r c = Ok r' →
  insert_change_set_into_merkle_trie tree_values_order t c = Done t' → mirrors r' t').
Definition vm_mirrors (s : InMemoryState VmResolver) : Prop := ∃ t, trie_of s t ∧ mirrors (resolver s) t.

(** All that an execution reads is the same in memory and on disk: the state, the
    storage tries of the accounts and the hashes of the blocks. *)
Record reads_alike (app : MemApp) (d : DiskState) : Prop := {
  ra_state : ∃ t, trie_of (state app) t ∧ mirrors (resolver (state app)) t
    ∧ ∀ k, trie_get (rs_resolver (ds_state d)) k = trie_get t k;
  ra_storage a t : length a = 20%nat → for_account (evm_storage app) a = Some t →
    rocks_for_account (ds_db d) a = Done (Ok t);
  ra_storage_root a r t : length a = 20%nat → for_account_with_root (evm_storage app) a r = Some t →
    rocks_for_account_with_root (ds_db d) a r = Done (Ok t);
  ra_hashes n : uint 64 n → rocks_hash_by_number (ds_db d) n = hash_by_number (storage app) n;
}.

Definition same_changes (c1 : Changes (H := moved_world)) (c2 : Changes (H := rocks_world)) : Prop :=
  move_vm c2 = (move_vm c1, evm c1) ∧ typed_changes (storage_changes_order (tries (evm c1))).

(** The VM is the same on both sides: what it does depends on what it reads. *)
Definition vm_reads_only : Prop := ∀ (app : MemApp) (dapp : DiskApp), reads_alike app (state dapp) →
  ∀ normalized_tx tx_hash l1 l1_input l2 base_fee hx,
    simulates
      (execute_transaction (Executor := E1)
        (execution_input app normalized_tx tx_hash l1 l1_input l2 base_fee hx))
      (vm (rocks_input (execution_input dapp normalized_tx tx_hash l1 l1_input l2 base_fee hx)))
      (same_result moved_world rocks_world same_changes).

(** A node on disk and a node in memory with the same chain, state and pool. *)
Record NodesAgree (g : Entry) (log : list Entry) (app : MemApp) (n : RocksNode) : Prop := {
  na_history : History app (g :: log);
  na_persisted : Persisted (contents (rn_db n)) g log;
  na_pushed : pushed (rn_db n) (block_root <$> log);
  na_state : in_step (rn_db n) (rn_state n) (forget (state app));
  na_vm : vm_mirrors (state app);
  na_storage : stores_agree (evm_storage app) (rn_db n);
  na_gas_fee : rn_gas_fee n = gas_fee app;
  na_mem_pool : rn_mem_pool n = mem_pool app;
}.

Context (commit_root_size : ∀ t, length (trie_commit t).1 = 32%nat).
Context (healthy : AlwaysHealthy) (vm_same : vm_reads_only) (gas : GasTyped).

(** *** The execution of a block *)

(** During a build that started on [db0] and [self0]: the disk has changed by the
    changes that are kept, in the columns of the state and the storage. *)
Record Executing (db0 : Db) (self0 : RocksDbState) (mem : SharedMemory) (app : MemApp) (dapp : DiskApp)
    : Prop := {
  xc_storage : storage app = mem;
  xc_state : in_step (ds_db (state dapp)) (ds_state (state dapp)) (forget (state app));
  xc_vm : vm_mirrors (state app);
  xc_stores : stores_agree (evm_storage app) (ds_db (state dapp));
  xc_frame col : col ∉ state_columns ++ storage_columns →
    contents (ds_db (state dapp)) col = contents db0 col;
  xc_replay : rocks_execute tree_values_order db0 self0 (ds_changes (state dapp))
    = Done (ds_db (state dapp), ds_state (state dapp));
}.

Lemma rocks_execute_app db self l1 l2 :
  rocks_execute tree_values_order db self (l1 ++ l2)
  = '(db, self) ← rocks_execute tree_values_order db self l1; rocks_execute tree_values_order db self l2.
Proof.
  revert db self. induction l1 as [|[c l] l1 IH]; intros db self; [done|]. simpl.
  destruct (rocks_state_apply _ _ _ _) as [[[db1 self1]|]|]; [|done..]. simpl.
  destruct (rocks_repository_apply db1 l) as [[db2 [[]|]]|]; [|done..]. simpl. apply IH.
Qed.

Lemma apply_executing db0 self0 mem app dapp c1 c2 : Executing db0 self0 mem app dapp → same_changes c1 c2 →
  simulates (apply_changes app c1) (apply_changes dapp c2) (Executing db0 self0 mem).
Proof.
  intros [Xm Xs Xv Xst Xf Xr] [Hc Ht] app' Happ. unfold apply_changes in Happ.
  apply bind_Done in Happ as (r & Hr & Happ). apply bind_Done in Happ as (st' & ->%unwrap_Done & Happ).
  apply bind_Done in Happ as (s' & Hs'%unwrap_Done & [= <-]). simpl in Hr, Hs'.
  destruct (StateTree.state_apply _ _ _ _) as [[st1|]|] eqn:Hap; simplify_eq/=.
  destruct (repository_apply _ _) as [s1|] eqn:Hrep; simplify_eq/=.
  destruct (agree_changes commit_root_size healthy _ _ _ _ _ _ _ _ Xs Xst Hap Hrep Ht)
    as (db' & self' & Hex & Hst' & Hs1 & Hf).
  eexists. split.
  { unfold apply_changes. rewrite Hc. cbn [Application.state_apply rocks_world].
    unfold rocks_apply_changes. cbn [fst snd]. rewrite Hex. reflexivity. }
  split; simpl; try done.
  - destruct (forget_apply _ _ _ Hap) as (_ & t & t1 & Htr & Hins & Hv & Hdb & Hroot).
    destruct Xv as (t0 & Ht0 & Hm). unfold trie_of in *. rewrite Htr in Ht0. injection Ht0 as <-.
    destruct (trie_commit_open t1 (StateTree.db st')) as (t' & Hf' & Hg).
    { rewrite Hdb. by rewrite (inserted_nodes tree_values_order (forget (state app)) (move_vm c1) t t1). }
    exists t'. unfold trie_of, StateTree.tree. rewrite Hroot, Hf'. split; [done|].
    eapply mirrors_same; [intros k; symmetry; apply Hg|]. by eapply mirrors_apply.
  - intros col Hcol. rewrite Hf by done. by apply Xf.
  - rewrite rocks_execute_app, Xr. cbn [mbind exec_bind]. by rewrite Hex.
Qed.

Lemma agrees_healthy {A} (db : Db) (m : exec (result DbError A)) q : RocksDb.agrees db m q → m = Ok <$> q.
Proof. intros [?|[Hn _]]; [done|]. destruct Hn. by destruct (healthy db) as [[Hr _] _]. Qed.

Lemma persisted_frame cols cols' g log : (∀ c, c ∈ chain_columns → cols' c = cols c) →
  Persisted cols g log → Persisted cols' g log.
Proof. intros Hf [? ? ? ? ?]. split; by rewrite Hf by decided. Qed.

(** The blocks, transactions and receipts are found as in memory. *)
Lemma hash_found db app g log n : Opened db → History app (g :: log) → Persisted (contents db) g log →
  GoodChain g log → uint 64 n → rocks_hash_by_number db n = hash_by_number (storage app) n.
Proof.
  intros Ho [Hb Ht Hr Hl _ _] Hp [_ _ Hd Hty _] Hn. unfold rocks_hash_by_number.
  rewrite (agrees_healthy _ _ _ (block_by_height_agrees db (storage app) (receipt_memory app) g log
    Ho Hb Ht Hr Hl Hp Hd Hty n false Hn)).
  unfold query_by_height, block_query, hash_by_number. by destruct (by_height _ n).
Qed.

Lemma executing_reads db0 self0 app0 g log app dapp :
  History app0 (g :: log) → Persisted (contents db0) g log → GoodChain g log →
  Executing db0 self0 (storage app0) app dapp → reads_alike app (state dapp).
Proof.
  intros Hh Hp Hx [Xm Xs Xv Xst Xf _]. pose proof (step_opened _ _ _ Xs) as Ho. split.
  - destruct Xv as (t & Ht & Hm). destruct (disk_resolver _ _ _ _ _ (step_disk _ _ _ Xs)) as (t' & Ht' & Hg).
    assert (StateTree.tree (forget (state app)) = Done t) as Ht2 by exact Ht.
    unfold trie_of in Ht'. rewrite Ht2 in Ht'. injection Ht' as <-. by exists t.
  - intros a t Ha Ht. by eapply agree_account.
  - intros a r t Ha Ht. by eapply agree_account_root.
  - intros n Hn. rewrite Xm. apply (hash_found _ app0 g log); try done.
    eapply persisted_frame; [|exact Hp]. intros c Hc. apply Xf.
    repeat (apply elem_of_cons in Hc as [->|Hc]; [decided|]). by apply not_elem_of_nil in Hc.
Qed.

(** *** A build *)

Lemma unprocessed_same db app g log (txs : list TxWithMetadata) :
  Opened db → History app (g :: log) → Persisted (contents db) g log → GoodChain g log →
  rocks_unprocessed db txs = Done (filter (λ '(tx_hash, _), contains (receipt_memory app) tx_hash = false) txs).
Proof.
  intros Ho [Hb Ht Hr Hl _ _] Hp [_ _ Hd Hty _].
  induction txs as [|[h tx] txs IH]; [done|]. cbn [rocks_unprocessed].
  rewrite (agrees_healthy _ _ _ (proj1 (receipt_agrees db (storage app) (receipt_memory app) g log
    Ho Hb Ht Hr Hl Hp Hd Hty h))). cbn [fmap exec_fmap mbind exec_bind unwrap].
  rewrite IH. cbn [mbind exec_bind]. rewrite filter_cons.
  case_decide as Hc; simpl in Hc; [by rewrite Hc|]. apply not_false_is_true in Hc. by rewrite Hc.
Qed.

(** The entry a build appends, if it is not of a payload that is known. *)
Definition entry_of_build (app : MemApp) (attributes : Payload) (id : PayloadId) : exec (option Entry) :=
  if decide (is_Some (Payloads.payload_by_id (storage app) id)) then Done None else
  parent ← expect (repository_latest (storage app));
  base_fee ← next_base_fee app parent;
  let hx := execution_header parent attributes in
  let ts := block_transactions app attributes in
  let txs := (λ t, t.2.1) <$> ts in
  '(_, o, receipts) ← execute_transactions (set_mem_pool ∅ app) ts base_fee hx;
  Done (Some (block_entry (assemble_block parent attributes id txs base_fee hx o) txs receipts)).

Lemma in_step_frame (db db' : Db) self m : Opened db' →
  (∀ c, c ∈ state_columns → contents db' c = contents db c) → in_step db self m → in_step db' self m.
Proof. intros Ho Hf [_ Hd]. split; [done|]. by rewrite !Hf by decided. Qed.

Lemma stores_frame_agree s (db db' : Db) : (∀ c, c ∈ storage_columns → contents db' c = contents db c) →
  stores_agree s db → stores_agree s db'.
Proof. intros Hf Hs a Ha. unfold storage_view. rewrite !Hf by decided. by apply Hs. Qed.

(** The commit of a block on the disk its execution left. *)
Lemma commit_on_disk g log db self m b txs rs : Opened db → Persisted (contents db) g log →
  pushed db (block_root <$> log) → in_step db self m → Z.of_nat (length log) + 1 < 2 ^ 64 →
  h_state_root (header (block b)) = rocks_state_root self → entry_json (block_entry b txs rs) →
  ∃ db1 db2, push_state_root db (rocks_state_root self) = Done (Ok db1)
    ∧ rocks_commit db1 b txs rs = Done db2
    ∧ Persisted (contents db2) g (log ++ [block_entry b txs rs])
    ∧ pushed db2 (block_root <$> log ++ [block_entry b txs rs]) ∧ Opened db2
    ∧ ∀ c, c ∈ state_columns ++ storage_columns → contents db2 c = contents db c.
Proof.
  intros Ho Hp Hpu Hst Hl Hb Hj.
  destruct (push_progress healthy db _ (rocks_state_root self) Ho Hpu) as (db1 & E & O1);
    [rewrite length_fmap; lia|].
  destruct (push_step db _ _ db1 Hpu ltac:(rewrite length_fmap; lia) E) as (Pu1 & F1 & _).
  assert (Persisted (contents db1) g log) as P1.
  { eapply persisted_frame; [|exact Hp]. intros c Hc. apply F1; intros ->; revert Hc; decided. }
  destruct (commit_progress healthy db1 b txs rs O1 Hj) as [db2 C].
  destruct (rocks_commit_step db1 g log b txs rs db2 O1 P1 C) as (O2 & P2 & F2).
  exists db1, db2. split; [done|]. split; [done|]. split; [done|]. split; [|split; [done|]].
  - rewrite fmap_app. cbn [fmap list_fmap]. unfold block_root at 2. cbn [en_block block_entry]. rewrite Hb.
    destruct Pu1 as [K1 K2]. split; [|intros h Hh]; rewrite F2 by decided; auto.
  - intros c Hc. rewrite F2, F1; [done|intros ->; revert Hc; decided..|].
    repeat (apply elem_of_cons in Hc as [->|Hc]; [decided|]). by apply not_elem_of_nil in Hc.
Qed.

Lemma execution_simulates g log app n ts base_fee hx appx o rs :
  NodesAgree g log app n → GoodChain g log →
  execute_transactions (set_mem_pool ∅ app) ts base_fee hx = Done (appx, o, rs) →
  ∃ x db self, rocks_execution vm (rn_db n) (rn_state n) (rn_gas_fee n) ts base_fee hx = Done x
    ∧ rocks_execute tree_values_order (rn_db n) (rn_state n) (ex_changes x) = Done (db, self)
    ∧ ex_receipts x = rs ∧ in_step db self (forget (state appx)) ∧ vm_mirrors (state appx)
    ∧ stores_agree (evm_storage appx) db
    ∧ (∀ c, c ∉ state_columns ++ storage_columns → contents db c = contents (rn_db n) c)
    ∧ MkExecutionOutcome (ex_receipts_root x) (rocks_state_root self) (ex_logs_bloom x) (ex_gas_used x)
        (ex_total_tip x) = o.
Proof.
  intros [Nh Np Npu Nst Nvm Ns Nf Npool] Hx Hex.
  destruct (execute_transactions_simulates moved_world rocks_world E1 (rocks_executor vm) same_changes
    (Executing (rn_db n) (rn_state n) (storage app))) with (app1 := set_mem_pool ∅ app)
    (app2 := rocks_application (rn_db n) (rn_state n) (rn_gas_fee n)) (txs := ts) (base_fee := base_fee)
    (hx := hx) (x1 := (appx, o, rs)) as ([[dapp o2] rs2] & Hd & Hsame).
  - intros app1 app2 HR. apply vm_same. by eapply executing_reads.
  - intros app1 app2 c1 c2. apply apply_executing.
  - by split.
  - exact Hex.
  - destruct Hsame as ([_ Xs Xv Xst Xf Xr] & Hrs & H1' & H2' & H3' & H4' & H5'). simpl in *.
    eexists _, (ds_db (state dapp)), (ds_state (state dapp)). split.
    { unfold rocks_execution. rewrite Hd. reflexivity. }
    simpl. split_and!; try done. destruct o. simpl in *. f_equal; try done. rewrite H5'.
    unfold rocks_state_root. by rewrite (step_root _ _ _ Xs).
Qed.

Lemma build_on_disk g log app n attributes id parent base_fee ts hx appx o rs :
  NodesAgree g log app n → GoodChain g log → Z.of_nat (length log) + 1 < 2 ^ 64 →
  execute_transactions (set_mem_pool ∅ app) ts base_fee hx = Done (appx, o, rs) →
  let txs := (λ t, t.2.1) <$> ts in
  let b := assemble_block parent attributes id txs base_fee hx o in
  entry_json (block_entry b txs rs) →
  ∃ x db self, rocks_execution vm (rn_db n) (rn_state n) (rn_gas_fee n) ts base_fee hx = Done x
    ∧ rocks_build tree_values_order (rn_db n) (rn_state n) parent attributes id txs base_fee hx x
        = Done (db, self, b)
    ∧ in_step db self (forget (state appx)) ∧ vm_mirrors (state appx) ∧ stores_agree (evm_storage appx) db
    ∧ Persisted (contents db) g (log ++ [block_entry b txs rs])
    ∧ pushed db (block_root <$> log ++ [block_entry b txs rs]).
Proof.
  intros Hn Hx Hl Hex txs b Hj.
  destruct (execution_simulates g log app n ts base_fee hx appx o rs Hn Hx Hex)
    as (x & db1 & self & Hr & Hrun & <- & Hst & Hvm & Hs & Hf & Ho).
  destruct Hn as [_ Np Npu _ _ _ _ _].
  assert (h_state_root (header (block b)) = rocks_state_root self) as Hroot by (unfold b; by rewrite <- Ho).
  destruct (commit_on_disk g log db1 self (forget (state appx)) b txs (ex_receipts x))
    as (db2 & db3 & Hpush & Hcommit & P3 & Pu3 & O3 & F3);
    [by eapply step_opened| |  |exact Hst|done|done|done|].
  { eapply persisted_frame; [|exact Np]. intros c Hc. apply Hf.
    repeat (apply elem_of_cons in Hc as [->|Hc]; [decided|]). by apply not_elem_of_nil in Hc. }
  { destruct Npu as [K1 K2]. split; [|intros h Hh]; rewrite Hf by decided; auto. }
  exists x, db3, self. split; [done|]. split; [|split; [|split; [done|split; [|done]]]].
  - unfold rocks_build. rewrite Hrun. cbn [mbind exec_bind]. unfold rocks_on_tx_batch. rewrite Hpush.
    cbn [mbind exec_bind unwrap]. rewrite Ho. fold b. rewrite Hcommit. reflexivity.
  - eapply in_step_frame; [exact O3| |exact Hst]. intros c Hc. apply F3. by apply elem_of_app; left.
  - eapply stores_frame_agree; [|exact Hs]. intros c Hc. apply F3. by apply elem_of_app; right.
Qed.

(** What the node in memory does with a payload it does not know. *)
Lemma new_build_history g log app attributes id app' :
  History app (g :: log) → Z.of_nat (length (g :: log)) < 2 ^ 64 →
  Payloads.payload_by_id (storage app) id = None → start_block_build app attributes id = Done app' →
  ∃ parent base_fee appx o rs,
    let ts := block_transactions app attributes in
    let txs := (λ t, t.2.1) <$> ts in
    let hx := execution_header parent attributes in
    let b := assemble_block parent attributes id txs base_fee hx o in
    repository_latest (storage app) = Some parent ∧ next_base_fee app parent = Done base_fee
    ∧ execute_transactions (set_mem_pool ∅ app) ts base_fee hx = Done (appx, o, rs)
    ∧ app' = commit_block appx b txs rs ∧ state app' = state appx ∧ evm_storage app' = evm_storage appx
    ∧ gas_fee app' = gas_fee app ∧ mem_pool app' = ∅
    ∧ History app' (g :: log ++ [block_entry b txs rs]).
Proof.
  intros Hh Hlen Hid Hb. assert (CallbackLaws) as Hcb by by split.
  assert (g :: log ≠ []) as Hne by done.
  destruct (exists_last Hne) as (log0 & e0 & E). rewrite E in Hh, Hlen.
  destruct (build_step app log0 e0 attributes id app' Hcb gas Hh Hlen Hb)
    as [[[p Hp] _]|(_ & Hpool & bf & appx & o & rs & txs & hx & b & Htxs & Hhx & Hbb & Hbf & Hex & Hh' & _)];
    [congruence|].
  destruct (start_block_build_inv _ _ _ _ Hid Hb)
    as (parent & bf' & appx' & o' & rs' & txs' & hx' & b' & Htxs' & Hhx' & Hb' & Hpar & Hbf' & Hex' & Happ).
  rewrite (history_latest _ _ _ Hh Hlen) in Hpar. injection Hpar as <-.
  rewrite Hbf in Hbf'. injection Hbf' as <-. subst hx' hx. rewrite Hex in Hex'. injection Hex' as <- <- <-.
  exists (en_block e0), bf, appx, o, rs. destruct (execute_transactions_stores _ _ _ _ _ _ _ Hex) as ((_ & Hf & _) & _).
  subst txs' b' txs b. split; [by apply history_latest in Hh|]. split; [done|]. split; [done|].
  rewrite app_comm_cons, E. rewrite Happ in *. by split_and!.
Qed.

Lemma build_agrees g log app n attributes id app' added :
  NodesAgree g log app n → GoodChain g log → Z.of_nat (length log) + 1 < 2 ^ 64 →
  uint 64 id → payload_id (en_block g) ≠ id →
  start_block_build app attributes id = Done app' → entry_of_build app attributes id = Done added →
  Forall entry_json (option_list added) →
  ∃ n', rocks_handle_command vm n (StartBlockBuild attributes id) = Done n'
    ∧ NodesAgree g (log ++ option_list added) app' n'.
Proof.
  intros Hn Hx Hl Hid Hgid Hb Ha Hj. pose proof Hn as [Nh Np Npu Nst Nvm Ns Nf Npool].
  pose proof (step_opened _ _ _ Nst) as Ho. pose proof Nh as [Rb Rt Rr Rl _ _].
  pose proof Hx as [_ _ Hd Hty _]. unfold rocks_handle_command, rocks_start_block_build.
  rewrite (agrees_healthy _ _ _ (payload_by_id_agrees _ _ _ g log Ho Rb Rt Rr Rl Np Hd Hty id Hid Hgid)).
  cbn [fmap exec_fmap mbind exec_bind unwrap]. unfold entry_of_build in Ha.
  destruct (Payloads.payload_by_id (storage app) id) as [p|] eqn:Hpid.
  { rewrite decide_True in Ha by eauto. injection Ha as <-. unfold start_block_build in Hb.
    rewrite Hpid, decide_True in Hb by eauto. injection Hb as <-. rewrite decide_True by eauto.
    cbn [mbind exec_bind]. eexists. split; [done|]. simpl. rewrite app_nil_r. by split. }
  rewrite decide_False in Ha by (by intros [??]). rewrite decide_False by (by intros [??]).
  rewrite (unprocessed_same _ app g log _ Ho Nh Np Hx). cbn [mbind exec_bind].
  assert (Z.of_nat (length (g :: log)) < 2 ^ 64) as Hlen by (simpl; lia).
  destruct (latest_agrees _ _ _ g log Ho Rb Rt Rr Rl Np Hd Hty Hlen) as [Hlat _].
  rewrite (agrees_healthy _ _ _ Hlat). cbn [fmap exec_fmap mbind exec_bind unwrap].
  destruct (new_build_history g log app attributes id app' Nh Hlen Hpid Hb)
    as (parent & bf & appx & o & rs & Hpar & Hbf & Hex & -> & Hst & Hes & Hfee & Hpool & Hh').
  rewrite Hpar in *. cbn [expect mbind exec_bind] in *. rewrite Hbf in Ha. cbn [mbind exec_bind] in Ha.
  rewrite Hex in Ha. injection Ha as <-. apply Forall_inv in Hj. rewrite Nf, Npool.
  change (base_fee_per_gas (gas_fee app) _ _ _) with (next_base_fee app parent). rewrite Hbf.
  cbn [mbind exec_bind]. change (filter _ _) with (block_transactions app attributes).
  destruct (build_on_disk g log app n attributes id parent bf _ _ appx o rs Hn Hx Hl Hex Hj)
    as (x & db & self & Hr & Hbuild & S1 & S2 & S3 & S4 & S5).
  rewrite <- Nf, Hr. cbn [mbind exec_bind]. rewrite Hbuild. cbn [mbind exec_bind].
  eexists. split; [done|]. split; simpl; rewrite ?Hst, ?Hes; try done. rewrite Nf. by symmetry.
Qed.

(** *** The actor *)

(** The entry a command appends. *)
Definition entry_of_command (app : MemApp) (msg : Command) : exec (option Entry) :=
  match msg with
  | StartBlockBuild attributes id => entry_of_build app attributes id
  | _ => Done None
  end.

(** [work], with the entries of the blocks it builds. *)
Fixpoint logged_work (app : MemApp) (log : list Entry) (msgs : list Command) : exec (MemApp * list Entry) :=
  match msgs with
  | [] => Done (app, log)
  | msg :: msgs =>
    app' ← handle_command app msg;
    added ← entry_of_command app msg;
    logged_work app' (log ++ option_list added) msgs
  end.

(** A command after the genesis block: the ids are 64-bit, and the genesis
    block's, which no index on disk has, is not asked for again. *)
Definition command_typed (g : Entry) (msg : Command) : Prop :=
  match msg with
  | StartBlockBuild _ id => uint 64 id ∧ payload_id (en_block g) ≠ id
  | AddTransaction _ => True
  | GenesisUpdate _ => False
  end.

Lemma entry_of_handled app msg app' : handle_command app msg = Done app' →
  ∃ added, entry_of_command app msg = Done added.
Proof.
  destruct msg as [attributes id|tx|b]; simpl; [|by eexists..]. unfold entry_of_build. intros Hb.
  destruct (Payloads.payload_by_id (storage app) id) as [p|] eqn:Hid.
  { rewrite decide_True by eauto. by eexists. }
  rewrite decide_False by (by intros [??]).
  destruct (start_block_build_inv _ _ _ _ Hid Hb)
    as (parent & bf & appx & o & rs & txs & hx & b & -> & -> & -> & -> & Hbf & Hex & _).
  cbn [expect mbind exec_bind]. rewrite Hbf. cbn [mbind exec_bind]. rewrite Hex. by eexists.
Qed.

Lemma logged_work_total msgs : ∀ app log app', work app msgs = Done app' →
  ∃ more, logged_work app log msgs = Done (app', log ++ more).
Proof.
  induction msgs as [|msg msgs IH]; intros app log app' Hw.
  { injection Hw as <-. exists []. by rewrite app_nil_r. }
  apply bind_Done in Hw as (app1 & Hh & Hw). destruct (entry_of_handled _ _ _ Hh) as [added Ha].
  destruct (IH app1 (log ++ option_list added) app' Hw) as [more Hm].
  exists (option_list added ++ more). cbn [logged_work]. rewrite Hh. cbn [mbind exec_bind]. rewrite Ha.
  cbn [mbind exec_bind]. by rewrite Hm, app_assoc.
Qed.

Lemma command_agrees g log app n msg app' added :
  NodesAgree g log app n → GoodChain g log → Z.of_nat (length log) + 1 < 2 ^ 64 → command_typed g msg →
  handle_command app msg = Done app' → entry_of_command app msg = Done added →
  Forall entry_json (option_list added) →
  ∃ n', rocks_handle_command vm n msg = Done n' ∧ NodesAgree g (log ++ option_list added) app' n'.
Proof.
  intros Hn Hx Hl Ht Hh Ha Hj. destruct msg as [attributes id|tx|b]; [|clear Hl|done].
  - destruct Ht as [Hid Hg]. by eapply build_agrees.
  - injection Ha as <-. cbn [option_list]. rewrite app_nil_r. destruct Hn as [Nh ?????? Npool].
    simpl in Hh. unfold add_transaction in Hh. apply bind_Done in Hh as (op_tx & Htx & [= <-]).
    simpl. rewrite Htx. cbn [mbind exec_bind]. eexists. split; [done|].
    split; simpl; try done; [|by rewrite Npool]. destruct Nh. by split.
Qed.

(** What the API of a node on disk answers is what memory has. *)
Record answers_alike (g : Entry) (app : MemApp) (n : RocksNode) : Prop := {
  aa_root : rocks_state_root (rn_state n) = state_root (state app);
  aa_latest : latest_height (rn_db n) = Done (Ok (query_latest (storage app)));
  aa_block h full : block_by_hash (rn_db n) h full = Ok <$> query_by_hash (storage app) h full;
  aa_height i full : uint 64 i →
    block_by_height (rn_db n) i full = Ok <$> query_by_height (storage app) i full;
  aa_receipt h : receipt_by_transaction_hash (rn_db n) h
    = Ok <$> query_by_transaction_hash (receipt_memory app) h;
  aa_payload id : uint 64 id → payload_id (en_block g) ≠ id →
    payload_by_id (rn_db n) id = Done (Ok (Payloads.payload_by_id (storage app) id));
}.

Lemma agree_answers g log app n : NodesAgree g log app n → GoodChain g log → answers_alike g app n.
Proof.
  intros [[Rb Rt Rr Rl _ _] Np _ Nst _ _ _ _] [_ _ Hd Hty Hlen].
  pose proof (step_opened _ _ _ Nst) as Ho. split.
  - unfold rocks_state_root. by rewrite (step_root _ _ _ Nst).
  - exact (agrees_healthy _ _ _ (proj2 (latest_agrees _ _ _ g log Ho Rb Rt Rr Rl Np Hd Hty Hlen))).
  - intros h full.
    exact (agrees_healthy _ _ _ (block_by_hash_agrees _ _ _ g log Ho Rb Rt Rr Rl Np Hd Hty h full)).
  - intros i full Hi.
    exact (agrees_healthy _ _ _ (block_by_height_agrees _ _ _ g log Ho Rb Rt Rr Rl Np Hd Hty i full Hi)).
  - intros h. exact (agrees_healthy _ _ _ (proj2 (receipt_agrees _ _ _ g log Ho Rb Rt Rr Rl Np Hd Hty h))).
  - intros id Hid Hg.
    exact (agrees_healthy _ _ _ (payload_by_id_agrees _ _ _ g log Ho Rb Rt Rr Rl Np Hd Hty id Hid Hg)).
Qed.

Lemma logged_prefix msgs : ∀ app log app' log', logged_work app log msgs = Done (app', log') →
  log `prefix_of` log'.
Proof.
  induction msgs as [|msg msgs IH]; intros app log app' log' Hw; [by injection Hw as _ <-|].
  apply bind_Done in Hw as (app1 & _ & Hw). apply bind_Done in Hw as (added & _ & Hw).
  etrans; [by apply prefix_app_r|]. by eapply IH.
Qed.

Lemma work_agrees g msgs : Forall (command_typed g) msgs → ∀ log app n app' log',
  NodesAgree g log app n → logged_work app log msgs = Done (app', log') → GoodChain g log' →
  Forall entry_json log' →
  ∃ n', rocks_work vm n msgs = Done n' ∧ NodesAgree g log' app' n'.
Proof.
  induction 1 as [|msg msgs Ht _ IH]; intros log app n app' log' Hn Hw Hx Hj.
  { injection Hw as <- <-. by exists n. }
  apply bind_Done in Hw as (app1 & Hh & Hw). apply bind_Done in Hw as (added & Ha & Hw).
  pose proof (logged_prefix _ _ _ _ _ Hw) as [more Hlog].
  assert (log `prefix_of` log') as Hpre.
  { rewrite Hlog, <- app_assoc. by apply prefix_app_r. }
  destruct (command_agrees g log app n msg app1 added) as (n1 & D1 & Hn1); try done.
  { by eapply good_chain_prefix. }
  { destruct Hx as [_ _ _ _ Hl]. apply prefix_length in Hpre. simpl in Hl. lia. }
  { rewrite Hlog in Hj. apply Forall_app in Hj as [[_ Hj]%Forall_app _]. done. }
  destruct (IH _ _ _ _ _ Hn1 Hw Hx Hj) as (n' & D' & Hn'). exists n'. split; [|done].
  cbn [rocks_work]. by rewrite D1.
Qed.

Lemma logged_history g msgs : Forall (command_typed g) msgs → ∀ log app app' log',
  History app (g :: log) → logged_work app log msgs = Done (app', log') →
  Z.of_nat (length (g :: log')) < 2 ^ 64 → History app' (g :: log').
Proof.
  induction 1 as [|msg msgs Ht _ IH]; intros log app app' log' Hh Hw Hl; [by injection Hw as <- <-|].
  apply bind_Done in Hw as (app1 & Hm & Hw). apply bind_Done in Hw as (added & Ha & Hw).
  apply (IH (log ++ option_list added) app1 app' log'); [|exact Hw|exact Hl].
  assert (Z.of_nat (length (g :: log)) < 2 ^ 64) as Hlen.
  { apply logged_prefix in Hw as [more ->]. simpl in Hl |- *. rewrite !length_app in Hl. lia. }
  destruct msg as [attributes id|tx|b]; simpl in Hm, Ha; [|injection Ha as <-|done].
  - unfold entry_of_build in Ha. destruct (Payloads.payload_by_id (storage app) id) as [p|] eqn:Hid.
    + rewrite decide_True in Ha by eauto. injection Ha as <-. unfold start_block_build in Hm.
      rewrite Hid, decide_True in Hm by eauto. injection Hm as <-. by rewrite app_nil_r.
    + rewrite decide_False in Ha by (by intros [??]).
      destruct (new_build_history g log app attributes id app1 Hh Hlen Hid Hm)
        as (parent & bf & appx & o & rs & Hpar & Hbf & Hex & _ & _ & _ & _ & _ & Hh').
      rewrite Hpar in Ha. cbn [expect mbind exec_bind] in Ha. rewrite Hbf in Ha. cbn [mbind exec_bind] in Ha.
      rewrite Hex in Ha. injection Ha as <-. exact Hh'.
  - cbn [option_list]. rewrite app_nil_r. apply bind_Done in Hm as (op_tx & _ & [= <-]).
    destruct Hh. by split.
Qed.

(** The blocks, transactions and payloads of a chain are told apart by their keys. *)
Definition keys_distinct (g : Entry) (log : list Entry) : Prop :=
  Distinct g log ∧ Forall block_typed (en_block <$> g :: log) ∧ Z.of_nat (length (g :: log)) < 2 ^ 64.

(** C20 (refinement): a node on RocksDB refines the node in memory.  When the
    database does not fail, whatever commands the actor in memory handles, with
    payload ids that are 64-bit and not the genesis block's, the actor on disk
    handles too: from a disk that holds what the memory holds, every transaction
    is executed against the state, the storage tries and the block hashes that
    the disk holds, the changes, the block, its transactions and receipts are
    written, and the disk holds again what the memory holds.  So both have the
    same state root, and the disk answers for the latest height, for every block
    by hash and by height, for every receipt and for every payload what memory
    answers; as long as no two blocks, transactions or payloads of the chain
    share a hash or an id. *)
Theorem disk_node_refines_memory g log app n msgs app' :
  NodesAgree g log app n → Forall (command_typed g) msgs → work app msgs = Done app' →
  ∃ more, logged_work app log msgs = Done (app', log ++ more)
    ∧ (keys_distinct g (log ++ more) → Forall entry_json (log ++ more) →
        ∃ n', rocks_work vm n msgs = Done n' ∧ NodesAgree g (log ++ more) app' n' ∧ answers_alike g app' n').
Proof.
  intros Hn Ht Hw. destruct (logged_work_total msgs app log app' Hw) as [more Hm]. exists more.
  split; [done|]. intros (Hd & Hty & Hl) Hj.
  destruct (logged_history g msgs Ht _ _ _ _ (na_history _ _ _ _ Hn) Hm Hl) as [_ _ _ Hlinked Hwf _].
  assert (GoodChain g (log ++ more)) as Hx by by split.
  destruct (work_agrees g msgs Ht _ _ _ _ _ Hn Hm Hx Hj) as (n' & Hr & Hn').
  exists n'. split; [done|]. split; [done|]. by eapply agree_answers.
Qed.

End Refinement.

(** Witness: a node whose genesis state has one account is given a transaction and
    builds a block with it.  The transaction writes the account and a slot of a
    contract, and what it is charged depends on a block hash. *)
Module RocksNodeWitness.
Import EvMap.Model Envelope.Witness BlockWitness ChainWitness EvmStateWitness RocksWitness RocksStateWitness.
#[local] Existing Instance unit_errors.
#[local] Existing Instance tx_library.
#[local] Existing Instance envelopes.
#[local] Existing Instance long_headers.
#[local] Existing Instance plain_db.
#[local] Existing Instance plain_db_laws.
#[local] Existing Instance plain_reads.
#[local] Existing Instance plain_reads_laws.
#[local] Existing Instance HeedStateWitness.wide_trie.
#[local] Existing Instance HeedStateWitness.wide_trie_laws.
#[local] Existing Instance WorldWitness.world_library.
#[local] Existing Instance WorldWitness.app_library.

Definition account : Address := replicate 20 7.
Definition slot_changes : StorageTriesChanges :=
  MkTriesChanges {[ account := storage_commit (trie_insert [1] [5] (trie_new ∅)) ]}.

Definition looked_up `{WorldState} (i : TransactionExecutionInput) : option B256 :=
  match i with
  | DepositInput i => d_block_hash_lookup i 0
  | CanonicalInput i => c_block_hash_lookup i 0
  end.
Definition charged (h : option B256) : Z := if h then 7 else 8.

Section DiskVm.
#[local] Existing Instance rocks_world | 0.
Definition disk_vm (i : TransactionExecutionInput) : exec (result Error TransactionExecutionOutcome) :=
  Done (Ok {| vm_outcome := Ok (); changes := {| move_vm := (account_change 2, slot_changes); evm := () |};
    gas_used := charged (looked_up i); l2_price := 1; logs := []; deployment := None |}).
End DiskVm.

#[local] Existing Instance moved_world.
#[local] Existing Instance in_memory_callbacks.
#[local] Instance memory_vm : Executor := λ i,
  Done (Ok {| vm_outcome := Ok (); changes := {| move_vm := account_change 2; evm := slot_changes |};
    gas_used := charged (looked_up i); l2_price := 1; logs := []; deployment := None |}).

Definition genesis_memory : InMemoryState () :=
  match reference_apply map_to_list (MkState () ∅ None) (account_change 1) with
  | Done (Ok m) => m | _ => MkState () ∅ None end.
Definition root0 : B256 := StateTree.state_root genesis_memory.
Definition genesis_block : ExtendedBlock := MkExtendedBlock (be_bytes 32 0) 0 0
  (MkBlock (with_execution_outcome (MkExecutionOutcome [] root0 [] 0 0) h0) []).
Definition genesis_entry : Entry := MkEntry genesis_block [] [].
Definition memory_node : Application :=
  genesis_update (MkApplication ∅ (MkEip1559GasFee 6 50) ev_new shared_memory_new genesis_memory
    (MkRepository ∅)) genesis_block.

Definition commands : list Command :=
  [AddTransaction (EthLegacy (MkSigned (MkTxLegacy None 0 1 21000 (Call someone) 5 []) someone));
   StartBlockBuild attributes 1].
Definition ran : Application * list Entry :=
  match logged_work memory_vm memory_node [] commands with Done x => x | Panic => (memory_node, []) end.
Definition built_block : Entry := default genesis_entry (ran.2 !! 0%nat).

Example one_block : length ran.2 = 1%nat ∧ length (en_txs built_block) = 1%nat
  ∧ (Receipts.gas_used <$> en_receipts built_block) = [7].
Proof. vm_compute. done. Qed.

#[local] Instance json_blocks : Json ExtendedBlock := table_json [genesis_block; en_block built_block].
#[local] Instance json_txs : Json ExtendedTransaction := table_json (en_txs built_block).
#[local] Instance json_receipts : Json ExtendedReceipt := table_json (en_receipts built_block).
#[local] Instance json_blocks_laws : JsonLaws ExtendedBlock := table_json_laws _.
#[local] Instance json_txs_laws : JsonLaws ExtendedTransaction := table_json_laws _.
#[local] Instance json_receipts_laws : JsonLaws ExtendedReceipt := table_json_laws _.

Definition disk_genesis : @Db plain_db * RocksDbState :=
  match rocks_state_apply map_to_list no_columns (MkRocksState (trie_new ∅) None) (account_change 1) with
  | Done (Ok x) => x | _ => (no_columns, MkRocksState (trie_new ∅) None) end.
Definition disk_start : @Db plain_db :=
  match block_add disk_genesis.1 genesis_block with Done (Ok db) => db | _ => no_columns end.
Definition disk_node : RocksNode := MkRocksNode disk_start disk_genesis.2 (MkEip1559GasFee 6 50) ∅.

Lemma memory_genesis_done :
  reference_apply map_to_list (MkState () ∅ None) (account_change 1) = Done (Ok genesis_memory).
Proof.
  unfold genesis_memory.
  assert (match reference_apply map_to_list (MkState () ∅ None) (account_change 1) with
    | Done (Ok _) => true | _ => false end = true) as Hd by (vm_compute; reflexivity).
  by destruct (reference_apply _ _ _) as [[]|].
Qed.

Lemma disk_genesis_in_step : in_step disk_genesis.1 disk_genesis.2 genesis_memory.
Proof.
  destruct (rocks_apply_progress map_to_list HeedStateWitness.wide_root_size no_columns
    (MkRocksState (trie_new ∅) None) (MkState () ∅ None) (account_change 1) genesis_memory)
    as (db & self & Hr & Hs); [apply plain_healthy| |apply memory_genesis_done|].
  - split; [apply plain_opened|]. split; try done. by exists (trie_new ∅).
  - unfold disk_genesis. by rewrite Hr.
Qed.

Lemma disk_start_added : block_add disk_genesis.1 genesis_block = Done (Ok disk_start).
Proof.
  unfold disk_start.
  assert (match block_add disk_genesis.1 genesis_block with Done (Ok _) => true | _ => false end = true) as Hd
    by (vm_compute; reflexivity).
  by destruct (block_add _ _) as [[]|].
Qed.

Lemma memory_history : History memory_node [genesis_entry].
Proof. by apply history_genesis. Qed.

Lemma disk_frame c : c ∉ ["block"; "height"]%string → contents disk_start c = contents disk_genesis.1 c.
Proof.
  intros Hc. destruct (block_add_spec _ _ _ disk_start_added) as (v & _ & _ & _ & F & _).
  apply F; intros ->; apply Hc; decided.
Qed.

Lemma nodes_agree : NodesAgree (λ _ _, True) genesis_entry [] memory_node disk_node.
Proof.
  split; try done.
  - apply memory_history.
  - apply (genesis_persists disk_genesis.1); [|apply disk_start_added]. intros c Hc.
    repeat (apply elem_of_cons in Hc as [->|Hc]; [reflexivity|]). by apply not_elem_of_nil in Hc.
  - eapply (in_step_frame disk_genesis.1 disk_start); [apply plain_opened| |apply disk_genesis_in_step].
    intros c Hc. apply disk_frame. clear -Hc. set_solver.
  - exists (match StateTree.tree genesis_memory with Done t => t | Panic => trie_new ∅ end).
    split; [by vm_compute|done].
Qed.

Lemma slots_typed : typed_changes (storage_changes_order (tries slot_changes)).
Proof.
  apply Forall_forall. intros [a c] Hac%elem_of_map_to_list.
  unfold slot_changes in Hac. cbn [tries] in Hac. by apply lookup_singleton_Some in Hac as [<- <-].
Qed.

Lemma looked_up_same (app : Application) (dapp : Application (H5 := rocks_world)) :
  reads_alike (λ _ _, True) app (state dapp) →
  ∀ nt h l1 l1_input l2 base_fee hx,
    looked_up (execution_input app nt h l1 l1_input l2 base_fee hx)
    = looked_up (rocks_input (execution_input dapp nt h l1 l1_input l2 base_fee hx)).
Proof. intros [_ _ _ Hh] nt h l1 l1_input l2 base_fee hx. by destruct nt; symmetry; apply Hh. Qed.

Lemma vm_reads : vm_reads_only memory_vm disk_vm (λ _ _, True).
Proof.
  intros app dapp Ha nt h l1 l1_input l2 base_fee hx. apply sim_ret. unfold same_result.
  rewrite (looked_up_same app dapp Ha). split; try done. split; [done|]. apply slots_typed.
Qed.

Lemma charged_gas_typed : GasTyped.
Proof. intros i o [= <-]. simpl. unfold charged. by case_match. Qed.

Lemma built_distinct : keys_distinct genesis_entry ([] ++ [built_block]).
Proof.
  split; [split; apply (bool_decide_unpack _); vm_compute; done|].
  split; [repeat constructor; vm_compute; done|done].
Qed.

Lemma ran_log : logged_work memory_vm memory_node [] commands = Done (ran.1, [built_block]).
Proof.
  assert (match logged_work memory_vm memory_node [] commands with
    | Done (_, l) => bool_decide (length l = 1%nat) | Panic => false end = true) as Hd
    by (vm_compute; reflexivity).
  unfold built_block, ran. destruct (logged_work _ _ _ _) as [[app [|e [|]]]|]; simplify_eq/=; done.
Qed.

Lemma built_json : Forall entry_json ([] ++ [built_block]).
Proof. unfold entry_json, writes_json. decided. Qed.

Lemma memory_works : ∃ app, work memory_node commands = Done app.
Proof.
  assert (match work memory_node commands with Done _ => true | Panic => false end = true) as Hd
    by (vm_compute; reflexivity).
  destruct (work memory_node commands) as [app|]; [by exists app|discriminate Hd].
Qed.

Lemma Done_pair {A B} (a c : A) (b d : B) : Done (a, b) = Done (c, d) → a = c ∧ b = d.
Proof. by intros [= -> ->]. Qed.

Lemma memory_ran : work memory_node commands = Done ran.1.
Proof.
  destruct memory_works as [app Hw]. rewrite Hw.
  destruct (logged_work_total memory_vm commands memory_node [] app Hw) as [more Hm].
  pose proof ran_log as Hr. rewrite Hm in Hr. apply Done_pair in Hr as [Hr _]. exact (f_equal Done Hr).
Qed.

Lemma commands_typed : Forall (command_typed genesis_entry) commands.
Proof. repeat constructor; vm_compute; done. Qed.

Lemma disk_node_refines_memory_witness :
  logged_work memory_vm memory_node [] commands = Done (ran.1, [built_block])
  ∧ ∃ n', rocks_work disk_vm disk_node commands = Done n'
    ∧ NodesAgree (λ _ _, True) genesis_entry ([] ++ [built_block]) ran.1 n'
    ∧ answers_alike genesis_entry ran.1 n'.
Proof.
  split; [apply ran_log|].
  destruct (disk_node_refines_memory memory_vm disk_vm (λ _ _, True) (λ _ _ _ _ _, I) (λ _ _ _ _ _ _ _ _, I)
    HeedStateWitness.wide_root_size plain_healthy vm_reads charged_gas_typed genesis_entry [] memory_node disk_node
    commands ran.1 nodes_agree commands_typed memory_ran) as (more & Hm & Hall).
  assert ([] ++ more = [] ++ [built_block]) as Hmore
    by (pose proof ran_log as Hr; rewrite Hm in Hr; apply (Done_pair _ _ _ _ Hr)).
  rewrite Hmore in Hall. exact (Hall built_distinct built_json).
Defined.

End RocksNodeWitness.
