(* ===== verification/Rpc.v ===== *)
(** The JSON-RPC layer ([api/src/json_utils.rs], [jsonrpc.rs], [method_name.rs]):
    JSON values, the parameters of a request, errors and responses, the names of
    the methods, and the hexadecimal texts of quantities.

    [serde_json] is third-party code: [Value] is its data type, and reading a value
    of a type is the class [FromValue]. *)
From Stdlib Require Import Ascii.
From S2P Require Import Prelude.

Local Open Scope Z_scope.

Class JsonNumbers := { Number : Type; number_of : Z → Number }.

Inductive Value `{JsonNumbers} :=
| Null
| Bool (b : bool)
| Num (n : Number)
| Str (s : string)
| Arr (l : list Value)
| Obj (fields : list (string * Value)).

(** The name of a type and [serde_json::from_value], which fails with a message. *)
Record FromValue `{JsonNumbers} (A : Type) := MkFromValue {
  type_name : string;
  from_value : Value → result string A;
}.
Arguments MkFromValue {_ _} _ _.
Arguments type_name {_ _} _.
Arguments from_value {_ _} _ _.

Section Rpc.
Context `{JsonNumbers}.

(** ** Errors and responses *)

(** Source: api/src/jsonrpc.rs 3-8 [JsonRpcError] *)
Record JsonRpcError := MkRpcError { code : Z; data : Value; message : string }.

(** Source: api/src/jsonrpc.rs 11-17 [JsonRpcError::without_data] *)
Definition without_data (code : Z) (message : string) : JsonRpcError := MkRpcError code Null message.

(** Source: api/src/jsonrpc.rs 19-25 [JsonRpcError::parse_error] *)
Definition parse_error (request : Value) (message : string) : JsonRpcError :=
  MkRpcError (-32602) request message.

(** Source: api/src/jsonrpc.rs 27-29 [JsonRpcError::block_not_found] *)
Definition block_not_found (block_number : string) : JsonRpcError :=
  without_data (-32001) ("Block not found: " +:+ block_number).

(** Source: api/src/jsonrpc.rs 32-40 [JsonRpcResponse] *)
Record JsonRpcResponse := MkRpcResponse {
  rpc_id : Value;
  rpc_jsonrpc : Value;
  rpc_result : option Value;
  rpc_error : option JsonRpcError;
}.

(** ** Parameters *)

Definition as_object (x : Value) : option (list (string * Value)) :=
  match x with Obj o => Some o | _ => None end.
Definition as_array (x : Value) : option (list Value) :=
  match x with Arr a => Some a | _ => None end.
Definition as_str (x : Value) : option string :=
  match x with Str s => Some s | _ => None end.

(** Source: api/src/json_utils.rs 7-12 [get_field] *)
Definition get_field (x : Value) (name : string) : Value :=
  default Null (o ← as_object x; assoc name o).

(** Source: api/src/json_utils.rs 14-20 [get_params_list] *)
Definition get_params_list (x : Value) : list Value :=
  default [] (o ← as_object x; v ← assoc "params"%string o; as_array v).

(** Source: api/src/json_utils.rs 22-28 [deserialize] *)
Definition deserialize {T} (c : FromValue T) (x : Value) : result JsonRpcError T :=
  map_err (λ e, MkRpcError (-32602) x ("Failed to parse type " +:+ type_name c +:+ ": " +:+ e))
    (from_value c x).

(** Source: api/src/json_utils.rs 30-32 [transaction_error] *)
Definition transaction_error (e : string) : JsonRpcError :=
  without_data 3 ("Execution reverted: " +:+ e).

(** Source: api/src/json_utils.rs 34-40 [parse_params_0] *)
Definition parse_params_0 (request : Value) : result JsonRpcError () :=
  match get_params_list request with
  | [] => Ok ()
  | _ => Err (parse_error request "Too many params")
  end.

(** Source: api/src/json_utils.rs 42-49 [parse_params_1] *)
Definition parse_params_1 {T} (c : FromValue T) (request : Value) : result JsonRpcError T :=
  match get_params_list request with
  | [] => Err (parse_error request "Not enough params")
  | [x] => deserialize c x
  | _ => Err (parse_error request "Too many params")
  end.

(** Source: api/src/json_utils.rs 51-62 [parse_params_2] *)
Definition parse_params_2 {T1 T2} (c1 : FromValue T1) (c2 : FromValue T2) (request : Value)
    : result JsonRpcError (T1 * T2) :=
  match get_params_list request with
  | [] | [_] => Err (parse_error request "Not enough params")
  | [a; b] => x ← deserialize c1 a; y ← deserialize c2 b; Ok (x, y)
  | _ => Err (parse_error request "Too many params")
  end.

(** Source: api/src/json_utils.rs 64-76 [parse_params_3] *)
Definition parse_params_3 {T1 T2 T3} (c1 : FromValue T1) (c2 : FromValue T2) (c3 : FromValue T3)
    (request : Value) : result JsonRpcError (T1 * T2 * T3) :=
  match get_params_list request with
  | [] | [_] | [_; _] => Err (parse_error request "Not enough params")
  | [a; b; c] => x ← deserialize c1 a; y ← deserialize c2 b; z ← deserialize c3 c; Ok (x, y, z)
  | _ => Err (parse_error request "Too many params")
  end.

(** ** Method names *)

(** Source: api/src/method_name.rs 4-22 [MethodName] *)
Inductive MethodName :=
| ForkChoiceUpdatedV3 | GetPayloadV3 | NewPayloadV3 | SendRawTransaction | ChainId | GetBalance
| GetBlockByHash | GetBlockByNumber | GetTransactionByHash | GetNonce | BlockNumber | FeeHistory
| EstimateGas | Call | TransactionReceipt | GetProof | GasPrice.

(** Source: api/src/method_name.rs 29-34 [MethodName::is_engine_api] *)
Definition is_engine_api (self : MethodName) : bool :=
  match self with ForkChoiceUpdatedV3 | GetPayloadV3 | NewPayloadV3 => true | _ => false end.

(** Source: api/src/method_name.rs 25-27 [MethodName::is_non_engine_api] *)
Definition is_non_engine_api (self : MethodName) : bool := negb (is_engine_api self).

(** Source: api/src/method_name.rs 40-66 [MethodName::from_str] *)
Definition from_str (s : string) : result JsonRpcError MethodName :=
  if decide (s = "engine_forkchoiceUpdatedV3") then Ok ForkChoiceUpdatedV3
  else if decide (s = "engine_getPayloadV3") then Ok GetPayloadV3
  else if decide (s = "engine_newPayloadV3") then Ok NewPayloadV3
  else if decide (s = "eth_chainId") then Ok ChainId
  else if decide (s = "eth_getBalance") then Ok GetBalance
  else if decide (s = "eth_getTransactionCount") then Ok GetNonce
  else if decide (s = "eth_getTransactionByHash") then Ok GetTransactionByHash
  else if decide (s = "eth_getBlockByHash") then Ok GetBlockByHash
  else if decide (s = "eth_getBlockByNumber") then Ok GetBlockByNumber
  else if decide (s = "eth_feeHistory") then Ok FeeHistory
  else if decide (s = "eth_blockNumber") then Ok BlockNumber
  else if decide (s = "eth_sendRawTransaction") then Ok SendRawTransaction
  else if decide (s = "eth_estimateGas") then Ok EstimateGas
  else if decide (s = "eth_call") then Ok Call
  else if decide (s = "eth_getTransactionReceipt") then Ok TransactionReceipt
  else if decide (s = "eth_getProof") then Ok GetProof
  else if decide (s = "eth_gasPrice") then Ok GasPrice
  else Err (without_data (-32601) ("Unsupported method: " +:+ s)).

End Rpc.

(** ** Hexadecimal quantities *)

Definition hex_digit (d : Z) : Ascii.ascii :=
  default "0"%char (String.get (Z.to_nat d) "0123456789abcdef").

(** The [n] low hexadecimal digits of [z]. *)
Fixpoint hex_n (n : nat) (z : Z) : string :=
  match n with
  | O => ""
  | S n => hex_n n (z / 16) +:+ String (hex_digit (z mod 16)) ""
  end.

Definition hex_len (z : Z) : nat := if z =? 0 then 1 else S (Z.to_nat (Z.log2 z / 4)).

(** The formats [{:x}] and [0x{:x}]. *)
Definition hex (z : Z) : string := hex_n (hex_len z) z.
Definition hex_0x (z : Z) : string := "0x" +:+ hex z.

Definition hex_value (c : Ascii.ascii) : option Z :=
  let n := Z.of_N (Ascii.N_of_ascii c) in
  if bool_decide (48 ≤ n ≤ 57) then Some (n - 48)
  else if bool_decide (97 ≤ n ≤ 102) then Some (n - 87)
  else if bool_decide (65 ≤ n ≤ 70) then Some (n - 55)
  else None.

(** The digits of a [u64]; it fails on the first digit that overflows. *)
Fixpoint parse_digits (acc : Z) (s : string) : option Z :=
  match s with
  | "" => Some acc
  | String c s =>
    d ← hex_value c;
    if 16 * acc + d <? 2 ^ 64 then parse_digits (16 * acc + d) s else None
  end.

(** [u64::from_str_radix(s, 16)]: a leading plus sign is allowed. *)
Definition u64_from_str_radix_16 (s : string) : option Z :=
  match s with
  | "" => None
  | String "+"%char "" => None
  | String "+"%char s => parse_digits 0 s
  | s => parse_digits 0 s
  end.

(** [s.trim_start_matches("0x")]: the prefix may be repeated. *)
Fixpoint trim_0x (s : string) : string :=
  match s with
  | String "0"%char (String "x"%char s') => trim_0x s'
  | s => s
  end.

Lemma hex_value_digit d : 0 ≤ d < 16 → hex_value (hex_digit d) = Some d.
Proof.
  intros Hd. assert (d ∈ seqZ 0 16) as Hin by (apply elem_of_seqZ; lia).
  assert (Forall (λ d, hex_value (hex_digit d) = Some d) (seqZ 0 16)) as Hall
    by (apply (bool_decide_unpack _); vm_compute; done).
  rewrite Forall_forall in Hall. by apply Hall.
Qed.

Lemma parse_digits_app s1 s2 acc :
  parse_digits acc (s1 +:+ s2) = a ← parse_digits acc s1; parse_digits a s2.
Proof.
  revert acc. induction s1 as [|c s1 IH]; intros acc; [done|]. simpl.
  destruct (hex_value c); simpl; [|done]. case_match; [apply IH|done].
Qed.

Lemma pow16 n : 16 ^ Z.of_nat (S n) = 16 * 16 ^ Z.of_nat n.
Proof. rewrite Nat2Z.inj_succ, Z.pow_succ_r by lia. done. Qed.

Lemma parse_hex_n n z acc : 0 ≤ acc → 0 ≤ z → acc * 16 ^ Z.of_nat n + z mod 16 ^ Z.of_nat n < 2 ^ 64 →
  parse_digits acc (hex_n n z) = Some (acc * 16 ^ Z.of_nat n + z mod 16 ^ Z.of_nat n).
Proof.
  revert z acc. induction n as [|n IH]; intros z acc Ha Hz Hb.
  { simpl. f_equal. rewrite Z.mod_1_r. lia. }
  rewrite pow16 in *. simpl. rewrite parse_digits_app.
  assert (0 < 16 ^ Z.of_nat n) as Hpos by (apply Z.pow_pos_nonneg; lia).
  pose proof (Z.mod_pos_bound z 16 ltac:(lia)) as Hm.
  rewrite (Z.rem_mul_r z 16) in * by lia.
  pose proof (Z.mod_pos_bound (z / 16) (16 ^ Z.of_nat n) Hpos).
  rewrite IH; [|done|by apply Z.div_pos; lia|nia]. simpl.
  rewrite hex_value_digit by done. simpl.
  assert (16 * (acc * 16 ^ Z.of_nat n + (z / 16) mod 16 ^ Z.of_nat n) + z mod 16
    = acc * (16 * 16 ^ Z.of_nat n) + (z mod 16 + 16 * ((z / 16) mod 16 ^ Z.of_nat n))) as -> by lia.
  by rewrite (proj2 (Z.ltb_lt _ _)).
Qed.

Lemma hex_len_enough z : 0 ≤ z → z < 16 ^ Z.of_nat (hex_len z).
Proof.
  intros Hz. unfold hex_len. destruct (Z.eqb_spec z 0) as [->|Hne]; [done|].
  rewrite Nat2Z.inj_succ, Z2Nat.id by (apply Z.div_pos; [apply Z.log2_nonneg|lia]).
  apply Z.lt_le_trans with (2 ^ Z.succ (Z.log2 z)); [apply Z.log2_spec; lia|].
  change 16 with (2 ^ 4). rewrite <- Z.pow_mul_r by (pose proof (Z.div_pos (Z.log2 z) 4); pose proof (Z.log2_nonneg z); lia).
  apply Z.pow_le_mono_r; [lia|]. pose proof (Z.div_mod (Z.log2 z) 4). pose proof (Z.mod_pos_bound (Z.log2 z) 4). lia.
Qed.

(** Every character is a hexadecimal digit. *)
Fixpoint all_hex (s : string) : Prop :=
  match s with "" => True | String c s => is_Some (hex_value c) ∧ all_hex s end.

Lemma all_hex_app s1 s2 : all_hex s1 → all_hex s2 → all_hex (s1 +:+ s2).
Proof. induction s1; simpl; naive_solver. Qed.

Lemma all_hex_n n z : all_hex (hex_n n z).
Proof.
  revert z. induction n as [|n IH]; intros z; [done|]. simpl. apply all_hex_app; [done|].
  split; [|done]. rewrite hex_value_digit by (apply Z.mod_pos_bound; lia). done.
Qed.

Lemma trim_0x_all_hex s : all_hex s → trim_0x s = s.
Proof.
  destruct s as [|a [|b s]]; simpl; [done| |].
  - intros _. by destruct a as [[] [] [] [] [] [] [] []].
  - intros (_ & [v Hb] & _). destruct a as [[] [] [] [] [] [] [] []]; try done.
    by destruct b as [[] [] [] [] [] [] [] []].
Qed.

Lemma from_str_radix_all_hex s : s ≠ "" → all_hex s → u64_from_str_radix_16 s = parse_digits 0 s.
Proof.
  destruct s as [|a s]; [done|]. intros _ [[v Ha] _].
  by destruct a as [[] [] [] [] [] [] [] []].
Qed.

Lemma hex_n_nonempty n z : hex_n (S n) z ≠ "".
Proof. simpl. by destruct (hex_n n (z / 16)). Qed.

(** A [u64] is read back from its hexadecimal text. *)
Lemma hex_roundtrip z : uint 64 z →
  u64_from_str_radix_16 (trim_0x (hex_0x z)) = Some z ∧ u64_from_str_radix_16 (trim_0x (hex z)) = Some z.
Proof.
  intros [H0' H1']. assert (all_hex (hex z)) as Hall by apply all_hex_n.
  assert (hex z ≠ "") as Hne.
  { unfold hex, hex_len. destruct (z =? 0); apply hex_n_nonempty. }
  assert (u64_from_str_radix_16 (trim_0x (hex z)) = Some z) as Hr.
  { rewrite trim_0x_all_hex, from_str_radix_all_hex by done. unfold hex.
    pose proof (hex_len_enough z H0'). rewrite parse_hex_n; rewrite ?Z.mod_small; try lia. done. }
  split; [|done]. exact Hr.
Qed.

Lemma hex_n_length n z : String.length (hex_n n z) = n.
Proof.
  revert z. induction n as [|n IH]; intros z; [done|]. simpl.
  assert (∀ s1 s2, String.length (s1 +:+ s2) = (String.length s1 + String.length s2)%nat) as Happ
    by (induction s1; simpl; auto).
  rewrite Happ, IH. simpl. lia.
Qed.

(** The same with leading zeros. *)
Lemma hex_padded_roundtrip n : uint 64 n →
  String.length ("0x" +:+ hex_n 16 n) = 18%nat
  ∧ u64_from_str_radix_16 (trim_0x ("0x" +:+ hex_n 16 n)) = Some n.
Proof.
  intros [H0' H1']. split.
  { change (S (S (String.length (hex_n 16 n))) = 18%nat). by rewrite hex_n_length. }
  change (trim_0x ("0x" +:+ hex_n 16 n)) with (trim_0x (hex_n 16 n)).
  rewrite trim_0x_all_hex by apply all_hex_n.
  rewrite from_str_radix_all_hex by (apply all_hex_n || apply hex_n_nonempty).
  rewrite parse_hex_n; change (16 ^ Z.of_nat 16) with (2 ^ 64); rewrite ?Z.mod_small; try done; lia.
Qed.

Section BlockCount.
Context `{JsonNumbers} (string_value : FromValue string).

(** Source: api/src/methods/fee_history.rs 61-69 [parse_block_count] *)
Definition parse_block_count (value : Value) : result JsonRpcError Z :=
  block_count ← deserialize string_value value;
  ok_or (u64_from_str_radix_16 (trim_0x block_count))
    (MkRpcError (-32602) (Num (number_of 0)) "Block count parsing error").

End BlockCount.
