(* ===== verification/BridgedTokens.v ===== *)
(** The bridged tokens of the genesis state ([genesis/src/bridged_tokens.rs]): the
    entries of a token list that are bridged, and the deployment of each with the
    factory contract.

    The files are the argument [TokenList]; reading JSON, an address and a number
    are parameters ([TokenLibrary]). *)
From S2P Require Import Prelude Primitives MoveTypes Errors Envelope EthToken Application MoveVm Events.
From S2P Require Import Storage StateTree GenesisImage EvmState EvmCalls SolidityAbi Rpc.
Import Addresses Words.

Local Open Scope Z_scope.

Class TokenLibrary `{JsonNumbers} := {
  (** [anyhow::Error]. *)
  AnyError : Type;
  anyhow : string → AnyError;
  (** [serde_json::from_str], [Value::as_u64], [Address::from_str]. *)
  json_from_str : string → result AnyError Value;
  number_as_u64 : Number → option Z;
  parse_address : string → result AnyError Address;
}.

(** What is at a path: a file or a directory, as far as they can be read.  An
    entry of a directory says whether it is one itself and what its [data.json]
    holds. *)
Record Entry `{TokenLibrary} := MkEntry {
  en_is_dir : result AnyError bool; en_data : result AnyError string }.
Inductive TokenList `{TokenLibrary} :=
| TokenFile (data : result AnyError string)
| TokenDir (entries : result AnyError (list (result AnyError Entry))).

Definition as_bool `{JsonNumbers} (v : Value) : option bool :=
  match v with Bool b => Some b | _ => None end.
Definition as_u64 `{TokenLibrary} (v : Value) : option Z :=
  match v with Num n => number_as_u64 n | _ => None end.

Abbreviation Object := (list (string * Value)).

(** Source: genesis/src/bridged_tokens.rs 39-45 [BridgedToken] *)
Record BridgedToken := MkToken {
  bt_name : string; bt_symbol : string; bt_decimals : Z; bt_ethereum_address : Address }.

Section Parse.
Context `{TokenLibrary}.

(** Source: genesis/src/bridged_tokens.rs 220-231 [has_ethereum_bridge_override] *)
Definition has_ethereum_bridge_override (ethereum : Object) : option bool :=
  overrides ← assoc "overrides"%string ethereum;
  overrides ← as_object overrides;
  bridge ← assoc "bridge"%string overrides;
  bridge ← as_object bridge;
  Some (bool_decide (is_Some (assoc "optimism"%string bridge))).

(** Source: genesis/src/bridged_tokens.rs 233-242 [has_optimism_bridge_override] *)
Definition has_optimism_bridge_override (optimism : Object) : option bool :=
  overrides ← assoc "overrides"%string optimism;
  overrides ← as_object overrides;
  Some (bool_decide (is_Some (assoc "bridge"%string overrides))).

(** Source: genesis/src/bridged_tokens.rs 142-147 [parse_json] *)
Definition is_flagged (object : Object) (flag : string) : bool :=
  match assoc flag object with
  | Some v => default true (as_bool v)
  | None => false
  end.

(** A field that the overrides of the token on Optimism may replace.
    Source: genesis/src/bridged_tokens.rs 195-206 [parse_json] *)
Definition overridden {A} (read : Value → option A) (optimism : Object) (field : string) (own : A) : A :=
  match assoc "overrides"%string optimism ≫= as_object with
  | Some overrides => default own (assoc field overrides ≫= read)
  | None => own
  end.

(** Source: genesis/src/bridged_tokens.rs 137-218 [parse_json] *)
Definition parse_json (json : Value) : result AnyError (option BridgedToken) :=
  object ← ok_or (as_object json) (anyhow "Must be object");
  if is_flagged object "nonstandard" || is_flagged object "nobridge" then Ok None else
  name ← ok_or (assoc "name"%string object ≫= as_str) (anyhow "Name must be a string");
  symbol ← ok_or (assoc "symbol"%string object ≫= as_str) (anyhow "Symbol must be a string");
  decimals ← ok_or (assoc "decimals"%string object ≫= as_u64) (anyhow "Decimals must be a number");
  tokens ← ok_or (assoc "tokens"%string object ≫= as_object) (anyhow "Tokens must be an object");
  match assoc "ethereum"%string tokens ≫= as_object with None => Ok None | Some ethereum =>
  match assoc "optimism"%string tokens ≫= as_object with None => Ok None | Some optimism =>
  if default false (has_ethereum_bridge_override ethereum)
    || default false (has_optimism_bridge_override optimism) then Ok None else
  ethereum_address ← ok_or (assoc "address"%string ethereum ≫= as_str)
    (anyhow "Ethereum address must be a string");
  ethereum_address ← parse_address ethereum_address;
  if bool_decide (ethereum_address = replicate 20 0) then Ok None else
  let name := overridden as_str optimism "name" name in
  let symbol := overridden as_str optimism "symbol" symbol in
  let decimals := overridden as_u64 optimism "decimals" decimals in
  if umax 8 <? decimals then Err (anyhow "Invalid value for token decimals") else
  Ok (Some (MkToken name symbol (wrap 8 decimals) ethereum_address))
  end end.

(** Source: genesis/src/bridged_tokens.rs 131-135 [parse_single_data_file] *)
Definition parse_single_data_file (data : result AnyError string) : result AnyError (option BridgedToken) :=
  data ← data;
  json ← json_from_str data;
  parse_json json.

(** Source: genesis/src/bridged_tokens.rs 60-64 [parse_token_list] *)
Fixpoint parse_values (array : list Value) : result AnyError (list BridgedToken) :=
  match array with
  | [] => Ok []
  | value :: array =>
    token ← parse_json value;
    rest ← parse_values array;
    Ok (option_list token ++ rest)
  end.

(** Source: genesis/src/bridged_tokens.rs 68-75 [parse_token_list] *)
Fixpoint parse_entries (entries : list (result AnyError Entry)) : result AnyError (list BridgedToken) :=
  match entries with
  | [] => Ok []
  | maybe_entry :: entries =>
    entry ← maybe_entry;
    is_dir ← en_is_dir entry;
    token ← (if is_dir : bool then parse_single_data_file (en_data entry) else Ok None);
    rest ← parse_entries entries;
    Ok (option_list token ++ rest)
  end.

(** Source: genesis/src/bridged_tokens.rs 47-77 [parse_token_list] *)
Definition parse_token_list (path : TokenList) : result AnyError (list BridgedToken) :=
  match path with
  | TokenFile data =>
    data ← data;
    json ← json_from_str data;
    array ← ok_or (as_array json) (anyhow "Single file must contain an array");
    parse_values array
  | TokenDir entries => entries ← entries; parse_entries entries
  end.

End Parse.

(** ** Deployment *)

(** Source: genesis/src/bridged_tokens.rs 35 [FACTORY_ADDRESS] *)
Definition FACTORY_ADDRESS : Address := [66] ++ replicate 18 0 ++ [18].
(** [createOptimismMintableERC20WithDecimals].
    Source: genesis/src/bridged_tokens.rs 36-37 [SELECTOR] *)
Definition SELECTOR : bytes := [140; 240; 98; 156].

(** Source: genesis/src/bridged_tokens.rs 117-129 [encode_params] *)
Definition encode_params `{SolCodec} (token : BridgedToken) : bytes :=
  SELECTOR ++ sol_encode_params (STuple [SAddress (bt_ethereum_address token);
    SString (string_bytes (bt_name token)); SString (string_bytes (bt_symbol token));
    SUint (bt_decimals token) 8]).

(** [CacheDB::new] over a resolver and storage, and the
    errors of the libraries as [anyhow] errors. *)
Class DeployLibrary `{Revm, TokenLibrary} := {
  squash_error : AnyError;
  storage_error : AnyError;
  cache_db_new : Resolver → InMemoryStorageTrieRepository → CacheDB;
}.

Section Deploy.
Context `{StateKeys, ErrorTypes, !EvmStateLibrary, !ChangeSetLibrary, !EthTrie, !Revm}.
Context `{!EffectsOps, !JsonNumbers, !TokenLibrary, !DeployLibrary, !SolCodec}.

(** Source: genesis/src/bridged_tokens.rs 244-281 [ChangesBasedResolver] *)
Definition changes_based_resolver (changes : ChangeSet) : Resolver := {|
  get_module := λ address name,
    Done (Ok (account ← assoc address changes; op ← assoc name (ac_modules account); op_ok op));
  get_resource := λ address struct_tag,
    let bytes := account ← assoc address changes; op ← assoc struct_tag (ac_resources account); op_ok op in
    Done (Ok (bytes, Z.of_nat (length (default [] bytes)))) |}.

(** Source: genesis/src/bridged_tokens.rs 92-108 [deploy_bridged_tokens] *)
Fixpoint deploy_tokens (ctx : NativeEVMContext) (tokens : list BridgedToken) : result AnyError NativeEVMContext :=
  match tokens with
  | [] => Ok ctx
  | token :: tokens =>
    let data := encode_params token in
    let '(outcome, ctx) :=
      evm_transact_with_native ctx (replicate 20 0) (Envelope.Call FACTORY_ADDRESS) 0 data (umax 64) in
    outcome ← map_err (λ _, anyhow "Bridged token deployment failed: evm_transact_with_native") outcome;
    if negb (er_is_success (rs_result outcome)) then
      Err (anyhow "Bridged token deployment failed: EVM outcome")
    else deploy_tokens ctx tokens
  end.

(** The storage changes are added account by account.
    Source: genesis/src/bridged_tokens.rs 111-113 [deploy_bridged_tokens] *)
Definition add_storage (storage : StorageTriesChanges) (changes : list (Address * StorageTrieChanges))
    : StorageTriesChanges :=
  fold_left (λ storage '(address, trie_changes), with_trie_changes storage address trie_changes)
    changes storage.

(** Source: genesis/src/bridged_tokens.rs 79-115 [deploy_bridged_tokens] *)
Definition deploy_bridged_tokens (l2_changes : SessionChanges) (tokens : list BridgedToken)
    : exec (result AnyError SessionChanges) :=
  let resolver := changes_based_resolver (sc_accounts l2_changes) in
  trie_storage ←? Done (ok_or (repository_apply (MkRepository ∅) (map_to_list (tries (sc_storage l2_changes))))
    storage_error);
  let block_header := MkHeaderForExecution 0 0 (replicate 32 0) in
  let ctx := MkNativeContext (MkLogger [] []) (cache_db_new resolver trie_storage) [] block_header in
  ctx ←? Done (deploy_tokens ctx tokens);
  new_changes ← extract_evm_changes_from_native resolver trie_storage (nc_state_changes ctx);
  accounts ←? Done (ok_or (cs_squash (sc_accounts l2_changes) (sc_accounts new_changes)) squash_error);
  Done (Ok (MkSessionChanges accounts
    (add_storage (sc_storage l2_changes) (map_to_list (tries (sc_storage new_changes)))))).

End Deploy.

(** ** The tokens that are bridged *)

Section Listed.
Context `{TokenLibrary}.

(** The value found by following the fields of objects. *)
Fixpoint at_path (path : list string) (v : Value) : option Value :=
  match path with
  | [] => Some v
  | field :: path => object ← as_object v; v ← assoc field object; at_path path v
  end.

(** The value of a field that the token on Optimism overrides. *)
Definition field_of {A} (read : Value → option A) (field : string) (v : Value) (a : A) : Prop :=
  match at_path ["tokens"; "optimism"; "overrides"; field]%string v ≫= read with
  | Some b => a = b
  | None => at_path [field] v ≫= read = Some a
  end.

(** A list entry that is bridged, and the token it is bridged as: an object that
    is not flagged as non-standard or not to be bridged, whose token exists on
    Ethereum and Optimism, where neither names a bridge of its own, with a
    non-zero address on Ethereum, and with the name, symbol and decimals the token
    has on Optimism. *)
Record Listed (v : Value) (t : BridgedToken) : Prop := {
  listed_unflagged flag : flag ∈ ["nonstandard"; "nobridge"]%string →
    at_path [flag] v = None ∨ at_path [flag] v = Some (Bool false);
  listed_own field : field ∈ ["name"; "symbol"]%string → ∃ s, at_path [field] v = Some (Str s);
  listed_own_decimals : is_Some (at_path ["decimals"]%string v ≫= as_u64);
  listed_chain chain : chain ∈ ["ethereum"; "optimism"]%string →
    is_Some (at_path ["tokens"; chain]%string v ≫= as_object);
  listed_ethereum_bridge : at_path ["tokens"; "ethereum"; "overrides"; "bridge"; "optimism"]%string v = None;
  listed_optimism_bridge : at_path ["tokens"; "optimism"; "overrides"; "bridge"]%string v = None;
  listed_address : ∃ s, at_path ["tokens"; "ethereum"; "address"]%string v = Some (Str s)
    ∧ parse_address s = Ok (bt_ethereum_address t);
  listed_nonzero : bt_ethereum_address t ≠ replicate 20 0;
  listed_name : field_of as_str "name" v (bt_name t);
  listed_symbol : field_of as_str "symbol" v (bt_symbol t);
  listed_decimals : ∃ d, field_of as_u64 "decimals" v d ∧ d ≤ umax 8 ∧ bt_decimals t = wrap 8 d;
}.

Lemma is_flagged_false o flag : is_flagged o flag = false ↔
  assoc flag o = None ∨ assoc flag o = Some (Bool false).
Proof.
  unfold is_flagged. destruct (assoc flag o) as [[|[]| | | |]|]; simpl; naive_solver.
Qed.

(** The fields of the overrides, and the bridges. *)
Lemma at_path_overrides optimism field :
  at_path ["overrides"; field]%string (Obj optimism)
  = (assoc "overrides"%string optimism ≫= as_object) ≫= assoc field.
Proof.
  simpl. destruct (assoc "overrides"%string optimism) as [[]|]; simpl; try done.
  by destruct (assoc field fields).
Qed.

Lemma overridden_spec {A} (read : Value → option A) optimism field (own : A) :
  overridden read optimism field own
  = default own (at_path ["overrides"; field]%string (Obj optimism) ≫= read).
Proof.
  rewrite at_path_overrides. unfold overridden.
  by destruct (assoc "overrides"%string optimism ≫= as_object).
Qed.

Lemma optimism_bridge_spec optimism :
  default false (has_optimism_bridge_override optimism) = false
  ↔ at_path ["overrides"; "bridge"]%string (Obj optimism) = None.
Proof.
  rewrite at_path_overrides. unfold has_optimism_bridge_override.
  destruct (assoc "overrides"%string optimism) as [[]|]; simpl; try done.
  rewrite bool_decide_eq_false, <- not_eq_None_Some. split; [intros Hn; by apply dec_stable|naive_solver].
Qed.

Lemma ethereum_bridge_spec ethereum :
  default false (has_ethereum_bridge_override ethereum) = false
  ↔ at_path ["overrides"; "bridge"; "optimism"]%string (Obj ethereum) = None.
Proof.
  unfold has_ethereum_bridge_override. simpl.
  destruct (assoc "overrides"%string ethereum) as [[]|]; simpl; try done.
  destruct (assoc "bridge"%string fields) as [[]|]; simpl; try done.
  rewrite bool_decide_eq_false, <- not_eq_None_Some.
  destruct (assoc "optimism"%string fields0); simpl; naive_solver.
Qed.

Lemma ok_or_Ok {E A} (o : option A) (e : E) a : ok_or o e = Ok a ↔ o = Some a.
Proof. destruct o; simpl; naive_solver. Qed.

(** The token an entry with the given parts is bridged as. *)
Definition bridged_as (optimism : Object) (name symbol : string) (decimals : Z) (a : Address) : BridgedToken :=
  MkToken (overridden as_str optimism "name" name) (overridden as_str optimism "symbol" symbol)
    (wrap 8 (overridden as_u64 optimism "decimals" decimals)) a.

(** The branches of [parse_json] that yield a token. *)
Record Accepted (o : Object) (name symbol : string) (decimals : Z) (tokens ethereum optimism : Object)
    (text : string) (a : Address) : Prop := {
  acc_flag1 : is_flagged o "nonstandard" = false;
  acc_flag2 : is_flagged o "nobridge" = false;
  acc_name : assoc "name"%string o ≫= as_str = Some name;
  acc_symbol : assoc "symbol"%string o ≫= as_str = Some symbol;
  acc_decimals : assoc "decimals"%string o ≫= as_u64 = Some decimals;
  acc_tokens : assoc "tokens"%string o ≫= as_object = Some tokens;
  acc_ethereum : assoc "ethereum"%string tokens ≫= as_object = Some ethereum;
  acc_optimism : assoc "optimism"%string tokens ≫= as_object = Some optimism;
  acc_bridge1 : default false (has_ethereum_bridge_override ethereum) = false;
  acc_bridge2 : default false (has_optimism_bridge_override optimism) = false;
  acc_text : assoc "address"%string ethereum ≫= as_str = Some text;
  acc_address : parse_address text = Ok a;
  acc_nonzero : a ≠ replicate 20 0;
  acc_small : overridden as_u64 optimism "decimals" decimals ≤ umax 8;
}.

Lemma parse_json_accepted v t : parse_json v = Ok (Some t) ↔
  ∃ o name symbol decimals tokens ethereum optimism text a, v = Obj o
    ∧ Accepted o name symbol decimals tokens ethereum optimism text a
    ∧ t = bridged_as optimism name symbol decimals a.
Proof.
  split.
  - destruct v as [| | | | |o]; try done. cbn [parse_json as_object ok_or mbind result_bind].
    destruct (is_flagged o "nonstandard") eqn:E1; [done|].
    destruct (is_flagged o "nobridge") eqn:E2; [done|]. cbn [orb].
    intros (name & E3 & Hp)%bind_Ok. revert Hp.
    intros (symbol & E4 & Hp)%bind_Ok. revert Hp. intros (decimals & E5 & Hp)%bind_Ok. revert Hp.
    intros (tokens & E6 & Hp)%bind_Ok. revert Hp.
    destruct (assoc "ethereum"%string tokens ≫= as_object) as [ethereum|] eqn:E7; [|done].
    destruct (assoc "optimism"%string tokens ≫= as_object) as [optimism|] eqn:E8; [|done].
    destruct (default false (has_ethereum_bridge_override ethereum)) eqn:E9; [done|].
    destruct (default false (has_optimism_bridge_override optimism)) eqn:E10; [done|]. cbn [orb].
    intros (text & E11 & Hp)%bind_Ok. revert Hp. intros (a & E12 & Hp)%bind_Ok. revert Hp.
    case_bool_decide as E13; [done|].
    destruct (Z.ltb_spec (umax 8) (overridden as_u64 optimism "decimals" decimals)) as [|E14]; [done|].
    intros [= <-]. apply ok_or_Ok in E3, E4, E5, E6, E11. by exists o, name, symbol, decimals, tokens, ethereum, optimism, text, a.
  - intros (o & name & symbol & decimals & tokens & ethereum & optimism & text & a & -> & [] & ->).
    cbn [parse_json as_object ok_or mbind result_bind]. rewrite acc_flag3, acc_flag4. cbn [orb].
    rewrite acc_name0, acc_symbol0, acc_decimals0, acc_tokens0. cbn [ok_or mbind result_bind].
    rewrite acc_ethereum0, acc_optimism0, acc_bridge3, acc_bridge4. cbn [orb].
    rewrite acc_text0. cbn [ok_or mbind result_bind]. rewrite acc_address0. cbn [mbind result_bind].
    rewrite bool_decide_false by done. by rewrite (proj2 (Z.ltb_ge _ _)).
Qed.

Lemma at_path_obj field path o : at_path (field :: path) (Obj o) = assoc field o ≫= at_path path.
Proof. done. Qed.
Lemma at_path_one field o : at_path [field] (Obj o) = assoc field o.
Proof. simpl. by destruct (assoc field o). Qed.

Lemma object_Some x o : x ≫= as_object = Some o ↔ x = Some (Obj o).
Proof. destruct x as [[]|]; simpl; naive_solver. Qed.
Lemma str_Some x s : x ≫= as_str = Some s ↔ x = Some (Str s).
Proof. destruct x as [[]|]; simpl; naive_solver. Qed.

(** A field the token on Optimism overrides, from the two objects that hold it. *)
Lemma field_of_spec {A} (read : Value → option A) field o tokens optimism own a :
  assoc "tokens"%string o = Some (Obj tokens) → assoc "optimism"%string tokens = Some (Obj optimism) →
  assoc field o ≫= read = Some own →
  field_of read field (Obj o) a ↔ a = overridden read optimism field own.
Proof.
  intros Ht Hopt Hown. unfold field_of. rewrite overridden_spec, (at_path_obj "tokens"), Ht. cbn [mbind option_bind].
  rewrite (at_path_obj "optimism"), Hopt. cbn [mbind option_bind]. rewrite at_path_one, Hown.
  destruct (at_path ["overrides"%string; field] (Obj optimism) ≫= read); simpl; split; congruence.
Qed.

Lemma accepted_listed o name symbol decimals tokens ethereum optimism text a :
  Accepted o name symbol decimals tokens ethereum optimism text a →
  Listed (Obj o) (bridged_as optimism name symbol decimals a).
Proof.
  intros Hacc.
  destruct Hacc as [F1 F2 N%str_Some S%str_Some D T%object_Some E%object_Some O%object_Some B1 B2 X%str_Some A Z0 L].
  apply ethereum_bridge_spec in B1. apply optimism_bridge_spec in B2. apply is_flagged_false in F1, F2.
  assert (∀ p, at_path ("tokens" :: "ethereum" :: p)%string (Obj o) = at_path p (Obj ethereum)) as Pe
    by (intros p; rewrite at_path_obj, T; cbn [mbind option_bind]; by rewrite at_path_obj, E).
  assert (∀ p, at_path ("tokens" :: "optimism" :: p)%string (Obj o) = at_path p (Obj optimism)) as Po
    by (intros p; rewrite at_path_obj, T; cbn [mbind option_bind]; by rewrite at_path_obj, O).
  split; simpl bt_ethereum_address; simpl bt_name; simpl bt_symbol; rewrite ?Pe, ?Po; try done.
  - intros flag [->| ->%list_elem_of_singleton]%elem_of_cons; by rewrite at_path_one.
  - intros field [->| ->%list_elem_of_singleton]%elem_of_cons; rewrite at_path_one; eauto.
  - rewrite at_path_one, D. by eexists.
  - intros chain [->| ->%list_elem_of_singleton]%elem_of_cons; rewrite ?Pe, ?Po; by eexists.
  - exists text. by rewrite at_path_one.
  - apply (field_of_spec as_str "name" o tokens optimism name); [done|done|by apply str_Some|done].
  - apply (field_of_spec as_str "symbol" o tokens optimism symbol); [done|done|by apply str_Some|done].
  - eexists. split; [by apply (field_of_spec as_u64 "decimals" o tokens optimism decimals)|done].
Qed.

Lemma listed_accepted v t : Listed v t →
  ∃ o name symbol decimals tokens ethereum optimism text a, v = Obj o
    ∧ Accepted o name symbol decimals tokens ethereum optimism text a
    ∧ t = bridged_as optimism name symbol decimals a.
Proof.
  intros [F N [decimals D] C B1 B2 (text & X & A) Z0 Hn Hs (d & Hd & L & W)].
  destruct v as [| | | | |o]; try by destruct (N "name"%string ltac:(by left)).
  destruct (C "ethereum"%string ltac:(by left)) as [ethereum E].
  destruct (C "optimism"%string ltac:(by right; left)) as [optimism O].
  apply object_Some in E, O. rewrite at_path_obj in E, O, X, B1, B2.
  destruct (assoc "tokens"%string o) as [tokens|] eqn:T; [|done]. cbn [mbind option_bind] in *.
  destruct tokens as [| | | | |tokens]; try done. rewrite at_path_obj in E, O, X, B1, B2.
  destruct (assoc "ethereum"%string tokens) as [e|] eqn:T1; [|done].
  destruct (assoc "optimism"%string tokens) as [p|] eqn:T2; [|done].
  cbn [mbind option_bind] in *. injection E as ->. injection O as ->. rewrite at_path_one in X.
  destruct (N "name"%string ltac:(by left)) as [name Nn].
  destruct (N "symbol"%string ltac:(by right; left)) as [symbol Ns].
  rewrite at_path_one in Nn, Ns, D.
  apply (field_of_spec as_str "name" o tokens optimism name) in Hn; [|done|done|by rewrite Nn].
  apply (field_of_spec as_str "symbol" o tokens optimism symbol) in Hs; [|done|done|by rewrite Ns].
  apply (field_of_spec as_u64 "decimals" o tokens optimism decimals) in Hd; [|done..]. subst d.
  exists o, name, symbol, decimals, tokens, ethereum, optimism, text, (bt_ethereum_address t).
  split; [done|]. split; [|by destruct t; unfold bridged_as; simpl in *; subst].
  split; rewrite ?Nn, ?Ns, ?T, ?T1, ?T2, ?X; try done.
  - apply is_flagged_false. rewrite <- at_path_one. apply F. by left.
  - apply is_flagged_false. rewrite <- at_path_one. apply F. by right; left.
  - by apply ethereum_bridge_spec.
  - by apply optimism_bridge_spec.
Qed.

(** Exactly the listed tokens are bridged.  An entry of a token
    list yields a token, and that token, when it is [Listed] as it, whatever else
    the entry holds; a token never has more decimals than a byte. *)
Lemma parse_json_listed v t : parse_json v = Ok (Some t) ↔ Listed v t.
Proof.
  rewrite parse_json_accepted. split; [|apply listed_accepted].
  intros (o & name & symbol & decimals & tokens & ethereum & optimism & text & a & -> & Hacc & ->).
  by eapply accepted_listed.
Qed.

End Listed.

(** ** One deployment for each token *)

Lemma deploy_tokens_changes `{Revm, !JsonNumbers, !TokenLibrary, !SolCodec}
    (ctx : NativeEVMContext) tokens ctx' : deploy_tokens ctx tokens = Ok ctx' →
  ∃ states, nc_state_changes ctx' = nc_state_changes ctx ++ states ∧ length states = length tokens.
Proof.
  revert ctx. induction tokens as [|token tokens IH]; intros ctx Hd.
  - injection Hd as <-. exists []. by rewrite app_nil_r.
  - cbn [deploy_tokens] in Hd. unfold evm_transact_with_native in Hd.
    destruct (revm_execute _ _ _) as [[frame|e] db]; [|done].
    destruct (post_execution _ frame) as [[outcome|e] logs]; [|done].
    cbn [map_err mbind result_bind] in Hd. destruct (negb _); [done|].
    destruct (IH _ Hd) as (states & Hs & Hl). simpl in Hs.
    exists (rs_state outcome :: states). rewrite Hs, <- app_assoc. simpl. by rewrite Hl.
Qed.

(** Entries in the form of the Superchain token list. *)
Module BridgedTokensWitness.
#[local] Instance numbers : JsonNumbers := {| Number := Z; number_of := id |}.
#[local] Instance token_library : TokenLibrary := {|
  AnyError := string; anyhow := id; json_from_str := λ _, Err "no file"%string;
  number_as_u64 := λ n, if decide (0 ≤ n < 2 ^ 64) then Some n else None;
  parse_address := λ s, if decide (s = "0x00"%string) then Ok (replicate 20 0) else Ok (replicate 20 1) |}.

Definition entry (ethereum optimism : Object) : Value := Obj [
  ("name", Str "USD Coin"); ("symbol", Str "USDC"); ("decimals", Num 6);
  ("tokens", Obj [("ethereum", Obj (("address", Str "0x11") :: ethereum)); ("optimism", Obj optimism)])]%string.

Example token_as_is : parse_json (entry [] []) = Ok (Some (MkToken "USD Coin" "USDC" 6 (replicate 20 1))).
Proof. reflexivity. Qed.
Example token_renamed :
  parse_json (entry [] [("overrides", Obj [("name", Str "Bridged USDC"); ("decimals", Num 256)])])%string
    = Err "Invalid value for token decimals"%string
  ∧ parse_json (entry [] [("overrides", Obj [("name", Str "Bridged USDC")])])%string
    = Ok (Some (MkToken "Bridged USDC" "USDC" 6 (replicate 20 1))).
Proof. split; reflexivity. Qed.
Example token_with_bridge :
  parse_json (entry [("overrides", Obj [("bridge", Obj [("optimism", Str "0x22")])])] [])%string = Ok None
  ∧ parse_json (entry [] [("overrides", Obj [("bridge", Null)])])%string = Ok None.
Proof. split; reflexivity. Qed.

End BridgedTokensWitness.
