(* ===== verification/Engine.v ===== *)
(** The Engine API ([api/src/schema/engine.rs] and the methods
    [forkchoice_updated], [get_payload] and [new_payload] of [api/src/methods]):
    the types of the protocol and their conversions, the request to build a block,
    the retrieval of its payload and the validation of a payload.

    The JSON of the protocol's leaf types is written by [serde], third-party code:
    [EngineJson] has its readers and writers. *)
From S2P Require Import Prelude Primitives MoveTypes Errors Envelope EvMap.
From S2P Require Import Transactions Fees BaseFee Receipts Payloads Blocks Application Chain.
From S2P Require Import MoveVm EthToken ToyVm Nonces Events TagValidation Execution.
From S2P Require Import Storage StateTree EvmState StateQueries World Queries Rpc.
Import Addresses Words.

Local Open Scope Z_scope.

(** ** The types of the protocol *)

(** Source: api/src/schema/engine.rs 15-22 [WithdrawalV1] *)
Record WithdrawalV1 := MkWithdrawalV1 {
  v1_index : Z; v1_validator_index : Z; v1_address : Address; v1_amount : Z }.

(** Source: api/src/schema/engine.rs 24-44 [ExecutionPayloadV3] *)
Record ExecutionPayloadV3 := MkExecutionPayloadV3 {
  v3_parent_hash : B256;
  v3_fee_recipient : Address;
  v3_state_root : B256;
  v3_receipts_root : B256;
  v3_logs_bloom : bytes;
  v3_prev_randao : B256;
  v3_block_number : Z;
  v3_gas_limit : Z;
  v3_gas_used : Z;
  v3_timestamp : Z;
  v3_extra_data : bytes;
  v3_base_fee_per_gas : Z;
  v3_block_hash : B256;
  v3_transactions : list bytes;
  v3_withdrawals : list WithdrawalV1;
  v3_blob_gas_used : Z;
  v3_excess_blob_gas : Z;
}.

(** Source: api/src/schema/engine.rs 46-52 [ForkchoiceStateV1] *)
Record ForkchoiceStateV1 := MkForkchoiceState {
  head_block_hash : B256; safe_block_hash : B256; finalized_block_hash : B256 }.

(** Source: api/src/schema/engine.rs 54-64 [PayloadAttributesV3] *)
Record PayloadAttributesV3 := MkPayloadAttributes {
  pa_timestamp : Z;
  pa_prev_randao : B256;
  pa_suggested_fee_recipient : Address;
  pa_withdrawals : list WithdrawalV1;
  pa_parent_beacon_block_root : B256;
  pa_transactions : list bytes;
  pa_gas_limit : Z;
}.

(** Source: api/src/schema/engine.rs 66-68 [PayloadId] *)
Record SchemaPayloadId := MkSchemaPayloadId { u64_of_id : Z }.

(** Source: api/src/schema/engine.rs 121-129 [Status] *)
Inductive Status := Valid | Invalid | Syncing | Accepted | InvalidBlockHash.

(** Source: api/src/schema/engine.rs 112-119 [PayloadStatusV1] *)
Record PayloadStatusV1 := MkPayloadStatus {
  ps_status : Status; latest_valid_hash : option B256; validation_error : option string }.

(** Source: api/src/schema/engine.rs 131-136 [BlobsBundleV1] *)
Record BlobsBundleV1 := MkBlobsBundleV1 {
  b1_commitments : list bytes; b1_proofs : list bytes; b1_blobs : list bytes }.

(** Source: api/src/schema/engine.rs 138-143 [ForkchoiceUpdatedResponseV1] *)
Record ForkchoiceUpdatedResponseV1 := MkForkchoiceUpdatedResponse {
  fr_payload_status : PayloadStatusV1; fr_payload_id : option SchemaPayloadId }.

(** Source: api/src/schema/engine.rs 145-153 [GetPayloadResponseV3] *)
Record GetPayloadResponseV3 := MkGetPayloadResponse {
  gp_execution_payload : ExecutionPayloadV3;
  gp_block_value : Z;
  gp_blobs_bundle : BlobsBundleV1;
  gp_should_override_builder : bool;
  gp_parent_beacon_block_root : B256;
}.

(** ** Conversions *)

(** [Uint::saturating_to] of a 64-bit word to a [u64].
    Source: api/src/schema/engine.rs 249-258 [From<WithdrawalV1> for Withdrawal] *)
Definition withdrawal_from_v1 (value : WithdrawalV1) : Withdrawal :=
  MkWithdrawal (sat_to 64 (v1_index value)) (sat_to 64 (v1_validator_index value))
    (v1_address value) (sat_to 64 (v1_amount value)).

(** Source: api/src/schema/engine.rs 260-269 [From<Withdrawal> for WithdrawalV1] *)
Definition withdrawal_into_v1 (value : Withdrawal) : WithdrawalV1 :=
  MkWithdrawalV1 (w_index value) (w_validator_index value) (w_address value) (w_amount value).

(** Source: api/src/schema/engine.rs 199-221 [From<ExecutionPayloadV3> for ExecutionPayload] *)
Definition execution_payload_from_v3 (value : ExecutionPayloadV3) : ExecutionPayload :=
  {| ep_parent_hash := v3_parent_hash value;
     ep_fee_recipient := v3_fee_recipient value;
     ep_state_root := v3_state_root value;
     ep_receipts_root := v3_receipts_root value;
     ep_logs_bloom := v3_logs_bloom value;
     ep_prev_randao := v3_prev_randao value;
     ep_block_number := v3_block_number value;
     ep_gas_limit := v3_gas_limit value;
     ep_gas_used := v3_gas_used value;
     ep_timestamp := v3_timestamp value;
     ep_extra_data := v3_extra_data value;
     ep_base_fee_per_gas := v3_base_fee_per_gas value;
     ep_block_hash := v3_block_hash value;
     ep_transactions := v3_transactions value;
     ep_withdrawals := withdrawal_from_v1 <$> v3_withdrawals value;
     ep_blob_gas_used := v3_blob_gas_used value;
     ep_excess_blob_gas := v3_excess_blob_gas value |}.

(** Source: api/src/schema/engine.rs 224-246 [From<ExecutionPayload> for ExecutionPayloadV3] *)
Definition execution_payload_into_v3 (value : ExecutionPayload) : ExecutionPayloadV3 :=
  {| v3_parent_hash := ep_parent_hash value;
     v3_fee_recipient := ep_fee_recipient value;
     v3_state_root := ep_state_root value;
     v3_receipts_root := ep_receipts_root value;
     v3_logs_bloom := ep_logs_bloom value;
     v3_prev_randao := ep_prev_randao value;
     v3_block_number := ep_block_number value;
     v3_gas_limit := ep_gas_limit value;
     v3_gas_used := ep_gas_used value;
     v3_timestamp := ep_timestamp value;
     v3_extra_data := ep_extra_data value;
     v3_base_fee_per_gas := ep_base_fee_per_gas value;
     v3_block_hash := ep_block_hash value;
     v3_transactions := ep_transactions value;
     v3_withdrawals := withdrawal_into_v1 <$> ep_withdrawals value;
     v3_blob_gas_used := ep_blob_gas_used value;
     v3_excess_blob_gas := ep_excess_blob_gas value |}.

(** Source: api/src/schema/engine.rs 179-187 [From<BlobsBundleV1> for BlobsBundle] *)
Definition blobs_bundle_from_v1 (value : BlobsBundleV1) : BlobsBundle :=
  MkBlobsBundle (b1_commitments value) (b1_proofs value) (b1_blobs value).

(** Source: api/src/schema/engine.rs 189-197 [From<BlobsBundle> for BlobsBundleV1] *)
Definition blobs_bundle_into_v1 (value : BlobsBundle) : BlobsBundleV1 :=
  MkBlobsBundleV1 (commitments value) (proofs value) (blobs value).

(** Source: api/src/schema/engine.rs 155-165 [From<GetPayloadResponseV3> for PayloadResponse] *)
Definition payload_response_from_v3 (value : GetPayloadResponseV3) : PayloadResponse :=
  MkPayloadResponse (execution_payload_from_v3 (gp_execution_payload value)) (gp_block_value value)
    (blobs_bundle_from_v1 (gp_blobs_bundle value)) (gp_should_override_builder value)
    (gp_parent_beacon_block_root value).

(** Source: api/src/schema/engine.rs 167-177 [From<PayloadResponse> for GetPayloadResponseV3] *)
Definition payload_response_into_v3 (value : PayloadResponse) : GetPayloadResponseV3 :=
  MkGetPayloadResponse (execution_payload_into_v3 (execution_payload value)) (block_value value)
    (blobs_bundle_into_v1 (blobs_bundle value)) (should_override_builder value)
    (parent_beacon_block_root value).

(** Source: api/src/schema/engine.rs 271-283 [From<PayloadAttributesV3> for Payload] *)
Definition payload_from_attributes (value : PayloadAttributesV3) : Payload :=
  {| p_timestamp := pa_timestamp value;
     p_prev_randao := pa_prev_randao value;
     p_suggested_fee_recipient := pa_suggested_fee_recipient value;
     p_withdrawals := withdrawal_from_v1 <$> pa_withdrawals value;
     p_parent_beacon_block_root := pa_parent_beacon_block_root value;
     p_transactions := pa_transactions value;
     p_gas_limit := pa_gas_limit value |}.

#[export] Instance withdrawal_v1_eq : EqDecision WithdrawalV1.
Proof. solve_decision. Defined.

(** The amounts of a withdrawal are words of 64 bits on both sides. *)
Definition withdrawal_typed (w : Withdrawal) : Prop :=
  uint 64 (w_index w) ∧ uint 64 (w_validator_index w) ∧ uint 64 (w_amount w).

Lemma withdrawal_roundtrip w : withdrawal_typed w → withdrawal_from_v1 (withdrawal_into_v1 w) = w.
Proof.
  destruct w as [i v a x]. intros (Hi & Hv & Hx). unfold withdrawal_from_v1. simpl.
  by rewrite !sat_to_exact by (unfold uint in *; simpl in *; lia).
Qed.

Lemma withdrawals_roundtrip ws : Forall withdrawal_typed ws →
  withdrawal_from_v1 <$> (withdrawal_into_v1 <$> ws) = ws.
Proof.
  intros Hw. rewrite <- list_fmap_compose. induction Hw as [|w l Hw _ IH]; [done|].
  rewrite fmap_cons, IH. unfold compose. by rewrite withdrawal_roundtrip.
Qed.

(** A payload response survives its conversion to the types of
    the Engine API and back: no field is lost or exchanged. *)
Lemma payload_response_roundtrip p :
  Forall withdrawal_typed (ep_withdrawals (execution_payload p)) →
  payload_response_from_v3 (payload_response_into_v3 p) = p.
Proof.
  intros Hw. apply withdrawals_roundtrip in Hw. destruct p as [[] ? [] ? ?].
  unfold payload_response_from_v3, payload_response_into_v3, execution_payload_from_v3,
    execution_payload_into_v3 in *. simpl in *. by rewrite Hw.
Qed.

(** ** The JSON of the protocol *)

Class EngineJson `{JsonNumbers} := {
  fc_state_value : FromValue ForkchoiceStateV1;
  attributes_value : FromValue (option PayloadAttributesV3);
  payload_v3_value : FromValue ExecutionPayloadV3;
  hashes_value : FromValue (list B256);
  hash_value : FromValue B256;
  payload_id_value : FromValue SchemaPayloadId;
  hash_json : B256 → Value;
  u256_json : Z → Value;
  payload_v3_json : ExecutionPayloadV3 → Value;
  blobs_bundle_json : BlobsBundleV1 → Value;
}.

(** What [serde] documents: a value is read back from what was written. *)
Class EngineJsonLaws `{EngineJson} : Prop := {
  hash_json_read h : bytes_len 32 h → from_value hash_value (hash_json h) = Ok h;
  payload_v3_json_read p : from_value payload_v3_value (payload_v3_json p) = Ok p;
  hashes_json_empty : from_value hashes_value (Arr []) = Ok [];
  (** The text of a payload id, with its leading zeros. *)
  payload_id_read n : uint 64 n →
    from_value payload_id_value (Str ("0x" +:+ hex_n 16 n)) = Ok (MkSchemaPayloadId n);
}.

Section Engine.
Context `{EthTrie, WorldLibrary, !TxLibrary, EnvelopeLibrary, HeaderLibrary, EvMapLaws}.
Context `{!AppLibrary, !StateReading, !EvmStateLibrary, !VmTypes, !MoveVm, !ExecutionLibrary}.
Context `{EngineJson}.

(** Source: api/src/schema/engine.rs 105-110 [From<PayloadId> for String] *)
Definition payload_id_json (value : SchemaPayloadId) : Value :=
  Str ("0x" +:+ hex_n 16 (u64_of_id value)).

(** Source: api/src/schema/engine.rs 121-129 [Status] *)
Definition status_json (s : Status) : Value :=
  Str match s with
      | Valid => "VALID" | Invalid => "INVALID" | Syncing => "SYNCING" | Accepted => "ACCEPTED"
      | InvalidBlockHash => "INVALID_BLOCK_HASH"
      end.

Definition option_json {A} (f : A → Value) (o : option A) : Value :=
  match o with Some a => f a | None => Null end.

(** Source: api/src/schema/engine.rs 112-119 [PayloadStatusV1] *)
Definition payload_status_json (s : PayloadStatusV1) : Value :=
  Obj [("status", status_json (ps_status s)); ("latestValidHash", option_json hash_json (latest_valid_hash s));
       ("validationError", option_json Str (validation_error s))]%string.

(** Source: api/src/schema/engine.rs 138-143 [ForkchoiceUpdatedResponseV1] *)
Definition forkchoice_response_json (r : ForkchoiceUpdatedResponseV1) : Value :=
  Obj [("payloadStatus", payload_status_json (fr_payload_status r));
       ("payloadId", option_json payload_id_json (fr_payload_id r))]%string.

(** Source: api/src/schema/engine.rs 145-153 [GetPayloadResponseV3] *)
Definition get_payload_response_json (r : GetPayloadResponseV3) : Value :=
  Obj [("executionPayload", payload_v3_json (gp_execution_payload r));
       ("blockValue", u256_json (gp_block_value r));
       ("blobsBundle", blobs_bundle_json (gp_blobs_bundle r));
       ("shouldOverrideBuilder", Bool (gp_should_override_builder r));
       ("parentBeaconBlockRoot", hash_json (gp_parent_beacon_block_root r))]%string.

(** ** engine_forkchoiceUpdatedV3 *)

(** Source: api/src/methods/forkchoice_updated.rs 24-50 [parse_params_v3] *)
Definition forkchoice_parse_params (request : Value)
    : result JsonRpcError (ForkchoiceStateV1 * option PayloadAttributesV3) :=
  match get_params_list request with
  | [] => Err (parse_error request "Not enough params")
  | [x] => fc_state ← deserialize fc_state_value x; Ok (fc_state, None)
  | [x; y] =>
    fc_state ← deserialize fc_state_value x;
    payload_attributes ← deserialize attributes_value y;
    Ok (fc_state, payload_attributes)
  | _ => Err (parse_error request "Too many params")
  end.

(** The response, and the commands sent to the queue.  [new_id] is the payload id
    generator of the server.
    Source: api/src/methods/forkchoice_updated.rs 52-90 [inner_execute_v3] *)
Definition forkchoice_inner (new_id : NewPayloadIdInput → PayloadId) (forkchoice_state : ForkchoiceStateV1)
    (payload_attributes : option PayloadAttributesV3) : ForkchoiceUpdatedResponseV1 * list Command :=
  let payload_status := MkPayloadStatus Valid (Some (head_block_hash forkchoice_state)) None in
  match payload_attributes with
  | Some attrs =>
    let payload_attributes := payload_from_attributes attrs in
    let payload_id := new_id (to_payload_id_input payload_attributes (head_block_hash forkchoice_state)) in
    (MkForkchoiceUpdatedResponse payload_status (Some (MkSchemaPayloadId payload_id)),
     [StartBlockBuild payload_attributes payload_id])
  | None => (MkForkchoiceUpdatedResponse payload_status None, [])
  end.

(** Source: api/src/methods/forkchoice_updated.rs 13-22 [execute_v3] *)
Definition forkchoice_execute (new_id : NewPayloadIdInput → PayloadId) (request : Value)
    : result JsonRpcError Value * list Command :=
  match forkchoice_parse_params request with
  | Err e => (Err e, [])
  | Ok (forkchoice_state, payload_attributes) =>
    let '(response, sent) := forkchoice_inner new_id forkchoice_state payload_attributes in
    (Ok (forkchoice_response_json response), sent)
  end.

(** ** engine_getPayloadV3 *)

(** Source: api/src/methods/get_payload.rs 10-27 [execute_v3] *)
Definition get_payload_execute (request : Value) (app : ApplicationReader) : result JsonRpcError Value :=
  payload_id ← parse_params_1 payload_id_value request;
  response ← ok_or (payload_response_into_v3 <$> payload app (u64_of_id payload_id))
    (MkRpcError (-38001) (payload_id_json payload_id) "Unknown payload");
  Ok (get_payload_response_json response).

(** ** engine_newPayloadV3 *)

Definition invalid (error : string) : PayloadStatusV1 := MkPayloadStatus Invalid None (Some error).

(** Source: api/src/methods/new_payload.rs 55-149 [validate_payload] *)
Definition validate_payload (execution_payload : ExecutionPayloadV3)
    (expected_blob_versioned_hashes : list B256) (parent_beacon_block_root : B256)
    (known_payload : GetPayloadResponseV3) : PayloadStatusV1 :=
  let known := gp_execution_payload known_payload in
  if bool_decide (v3_block_number execution_payload ≠ v3_block_number known) then
    invalid "Incorrect block height"
  else if bool_decide (v3_extra_data execution_payload ≠ v3_extra_data known) then
    invalid "Incorrect extra data"
  else if bool_decide (v3_fee_recipient execution_payload ≠ v3_fee_recipient known) then
    invalid "Incorrect fee recipient"
  else if bool_decide (v3_gas_limit execution_payload ≠ v3_gas_limit known) then
    invalid "Incorrect gas limit"
  else if bool_decide (v3_parent_hash execution_payload ≠ v3_parent_hash known) then
    invalid "Incorrect parent hash"
  else if bool_decide (v3_prev_randao execution_payload ≠ v3_prev_randao known) then
    invalid "Incorrect prev randao"
  else if bool_decide (v3_timestamp execution_payload ≠ v3_timestamp known) then
    invalid "Incorrect timestamp"
  else if bool_decide (v3_withdrawals execution_payload ≠ v3_withdrawals known) then
    invalid "Incorrect withdraws"
  else if bool_decide (expected_blob_versioned_hashes ≠ []) then
    invalid "Unexpected blob hashes"
  else if bool_decide (parent_beacon_block_root ≠ gp_parent_beacon_block_root known_payload) then
    invalid "Incorrect parent beacon block root"
  else MkPayloadStatus Valid (Some (v3_block_hash execution_payload)) None.

(** Source: api/src/methods/new_payload.rs 27-53 [inner_execute_v3] *)
Definition new_payload_inner (execution_payload : ExecutionPayloadV3)
    (expected_blob_versioned_hashes : list B256) (parent_beacon_block_root : B256)
    (app : ApplicationReader) : result JsonRpcError PayloadStatusV1 :=
  response ← ok_or (payload_response_into_v3 <$> payload_by_block_hash app (v3_block_hash execution_payload))
    (MkRpcError (-1) (hash_json (v3_block_hash execution_payload)) "Unknown block hash");
  Ok (validate_payload execution_payload expected_blob_versioned_hashes parent_beacon_block_root response).

(** Source: api/src/methods/new_payload.rs 11-25 [execute_v3] *)
Definition new_payload_execute (request : Value) (app : ApplicationReader) : result JsonRpcError Value :=
  '(execution_payload, expected_blob_versioned_hashes, parent_beacon_block_root)
    ← parse_params_3 payload_v3_value hashes_value hash_value request;
  response ← new_payload_inner execution_payload expected_blob_versioned_hashes
    parent_beacon_block_root app;
  Ok (payload_status_json response).

(** ** Correctness *)

(** What makes a payload valid.  The status is VALID, with the
    payload's block hash, exactly when the height, extra data, fee recipient, gas
    limit, parent, randomness, time, withdrawals and beacon root are those of the
    known payload and no blob hash is expected; otherwise it is INVALID with an
    error and no hash.  Nothing else is looked at: the roots, the gas used, the
    base fee, the blobs' gas and the transactions may be anything. *)
Lemma validate_payload_spec x hashes root known :
  let k := gp_execution_payload known in let v := validate_payload x hashes root known in
  (ps_status v = Valid ↔
     v3_block_number x = v3_block_number k ∧ v3_extra_data x = v3_extra_data k
     ∧ v3_fee_recipient x = v3_fee_recipient k ∧ v3_gas_limit x = v3_gas_limit k
     ∧ v3_parent_hash x = v3_parent_hash k ∧ v3_prev_randao x = v3_prev_randao k
     ∧ v3_timestamp x = v3_timestamp k ∧ v3_withdrawals x = v3_withdrawals k
     ∧ hashes = [] ∧ root = gp_parent_beacon_block_root known)
  ∧ (v = MkPayloadStatus Valid (Some (v3_block_hash x)) None ∨ ∃ error, v = invalid error).
Proof.
  cbv zeta. unfold validate_payload.
  repeat (case_bool_decide; [split; [split; [done|naive_solver]|right; by eexists]|]).
  split; [|by left]. split; [|done]. intros _. repeat split; match goal with |- ?a = ?b => destruct (decide (a = b)); [done|by exfalso; auto] end.
Qed.

Lemma validate_known known : validate_payload (gp_execution_payload known) []
  (gp_parent_beacon_block_root known) known
  = MkPayloadStatus Valid (Some (v3_block_hash (gp_execution_payload known))) None.
Proof. unfold validate_payload. by rewrite !bool_decide_eq_false_2 by (by intros []). Qed.

Context `{!EngineJsonLaws, !Callbacks, !Executor}.

(** Block hashes do not collide. *)
Definition unique_hashes (app : Application) : Prop :=
  ∀ log, History app log → NoDup ((λ e, hash (en_block e)) <$> log).

Lemma history_by_hash app log e : History app log → unique_hashes app → e ∈ log →
  by_hash (block_memory (storage app)) (hash (en_block e)) = Some (en_block e).
Proof.
  intros Hh Hu He. specialize (Hu log Hh). destruct (hist_blocks _ _ Hh) as (Hi & _ & _).
  apply (Indexed_get_one_unique hash _ _ _ _ Hi); [by apply list_elem_of_fmap_2|done|].
  intros b (e' & -> & He')%list_elem_of_fmap Heq. f_equal.
  apply list_elem_of_lookup in He as [i Hi1], He' as [j Hj].
  assert (i = j) as ->; [|congruence].
  apply (NoDup_lookup _ _ _ (hash (en_block e)) Hu); rewrite list_lookup_fmap, ?Hi1, ?Hj; simpl; congruence.
Qed.

(** A payload that is known is valid, as it was sent. *)
Lemma new_payload_of_known app log e rd request :
  History app log → unique_hashes app → e ∈ log → Reads rd app →
  let p := payload_response_into_v3 (block_into_payload (storage app) (en_block e)) in
  bytes_len 32 (gp_parent_beacon_block_root p) →
  get_params_list request = [payload_v3_json (gp_execution_payload p); Arr [];
    hash_json (gp_parent_beacon_block_root p)] →
  new_payload_execute request rd
    = Ok (payload_status_json (MkPayloadStatus Valid (Some (hash (en_block e))) None)).
Proof.
  intros Hh Hu He [Hs _] p Hroot Hp. unfold new_payload_execute, parse_params_3. rewrite Hp.
  unfold deserialize. rewrite payload_v3_json_read, hashes_json_empty, hash_json_read by done. cbn [map_err mbind result_bind].
  unfold new_payload_inner, payload_by_block_hash, payload_by_hash. rewrite Hs.
  change (v3_block_hash (gp_execution_payload p)) with (hash (en_block e)).
  rewrite (history_by_hash app log e Hh Hu He). cbn [fmap option_fmap option_map ok_or mbind result_bind].
  fold p. by rewrite validate_known.
Qed.

Lemma forkchoice_with_attributes new_id r1 fc attrs :
  forkchoice_parse_params r1 = Ok (fc, Some attrs) →
  let id := new_id (to_payload_id_input (payload_from_attributes attrs) (head_block_hash fc)) in
  forkchoice_execute new_id r1 =
    (Ok (forkchoice_response_json (MkForkchoiceUpdatedResponse
       (MkPayloadStatus Valid (Some (head_block_hash fc)) None) (Some (MkSchemaPayloadId id)))),
     [StartBlockBuild (payload_from_attributes attrs) id]).
Proof. intros Hr id. unfold forkchoice_execute. by rewrite Hr. Qed.

(** C3 (functional): the engine's conversation.  A forkchoice update with payload
    attributes whose id is new answers VALID with that id and sends exactly one
    command, the build of a block with these attributes under that id;
    once the build is done, the payload served under the id is that of a block on
    the last one, with the attributes' time, randomness, recipient, gas limit and
    beacon root; and that payload, sent back as a new payload, is VALID. *)
Theorem engine_conversation app log e new_id r1 fc attrs app' rd :
  CallbackLaws → GasTyped → History app (log ++ [e]) → Z.of_nat (length (log ++ [e])) < 2 ^ 64 →
  forkchoice_parse_params r1 = Ok (fc, Some attrs) →
  let id := new_id (to_payload_id_input (payload_from_attributes attrs) (head_block_hash fc)) in
  uint 64 id → payload_by_id (storage app) id = None →
  bytes_len 32 (pa_parent_beacon_block_root attrs) →
  work app (forkchoice_execute new_id r1).2 = Done app' → Reads rd app' → unique_hashes app' →
  forkchoice_execute new_id r1 = (Ok (forkchoice_response_json (MkForkchoiceUpdatedResponse
    (MkPayloadStatus Valid (Some (head_block_hash fc)) None) (Some (MkSchemaPayloadId id)))),
    [StartBlockBuild (payload_from_attributes attrs) id])
  ∧ ∃ p, let x := gp_execution_payload p in
      (∀ r2, get_params_list r2 = [Str ("0x" +:+ hex_n 16 id)] →
        get_payload_execute r2 rd = Ok (get_payload_response_json p))
      ∧ v3_parent_hash x = hash (en_block e) ∧ v3_block_number x = number (en_block e) + 1
      ∧ v3_timestamp x = to_u64 (pa_timestamp attrs) ∧ v3_prev_randao x = pa_prev_randao attrs
      ∧ v3_fee_recipient x = pa_suggested_fee_recipient attrs
      ∧ v3_gas_limit x = to_u64 (pa_gas_limit attrs)
      ∧ gp_parent_beacon_block_root p = pa_parent_beacon_block_root attrs
      ∧ ∀ r3, get_params_list r3 = [get_field (get_payload_response_json p) "executionPayload"; Arr [];
                get_field (get_payload_response_json p) "parentBeaconBlockRoot"] →
          new_payload_execute r3 rd
            = Ok (payload_status_json (MkPayloadStatus Valid (Some (v3_block_hash x)) None)).
Proof.
  intros Hcb Hg Hh Hlen Hr1 id Hid Hnew Hroot Hw Hrd Hu.
  rewrite (forkchoice_with_attributes new_id r1 fc attrs Hr1) in *. fold id in Hw.
  cbn [fst snd work] in *. split; [done|].
  apply bind_Done in Hw as (app1 & Hb & [= ->]).
  destruct (build_step app log e _ id app' Hcb Hg Hh Hlen Hb) as [[[p Hp] _]|Hstep]; [congruence|].
  destruct Hstep as (_ & _ & bf & appx & o & rs & txs & hx & b & _ & _ & Hbl & _ & _ & Hh' & Hn & Hph).
  pose proof (history_payload_None _ _ _ Hh Hnew) as Hne.
  assert (payload_id b = id) as Hbid by by subst b.
  pose proof (history_by_payload_id app' (log ++ [e]) (block_entry b txs rs) Hh') as Hby.
  simpl in Hby. rewrite Hbid in Hby. specialize (Hby Hne).
  exists (payload_response_into_v3 (block_into_payload (storage app') b)). cbv zeta.
  split_and!; try by subst b.
  - intros r2 Hr2. unfold get_payload_execute, parse_params_1. rewrite Hr2.
    unfold deserialize. rewrite payload_id_read by done. simpl. destruct Hrd as [Hs _].
    unfold payload, payload_by_id. by rewrite Hs, Hby.
  - intros r3 Hr3. eapply (new_payload_of_known app' _ (block_entry b txs rs) rd r3 Hh' Hu);
      [set_solver|done| |exact Hr3]. by subst b.
Qed.

End Engine.

(** Witnesses: the chain of [WorldWitness] and a build asked for over JSON. *)
Module EngineWitness.
Import EvMap.Model Envelope.Witness BlockWitness ChainWitness EvmStateWitness WorldWitness QueriesWitness.
#[local] Existing Instance unit_errors.
#[local] Existing Instance tx_library.
#[local] Existing Instance envelopes.
#[local] Existing Instance headers.
#[local] Existing Instance in_memory_callbacks.
#[local] Existing Instance WorldWitness.trie.
#[local] Existing Instance WorldWitness.trie_laws.
#[local] Existing Instance WorldWitness.world_library.
#[local] Existing Instance WorldWitness.block_executor.
#[local] Existing Instance WorldWitness.app_library.

#[local] Instance numbers : JsonNumbers := {| Number := Z; number_of := id |}.

Definition withdrawal_tuple (w : WithdrawalV1) :=
  (v1_index w, v1_validator_index w, v1_address w, v1_amount w).
#[local] Instance withdrawal_countable : Countable WithdrawalV1.
Proof.
  refine (inj_countable' withdrawal_tuple (λ '(a, b, c, d), MkWithdrawalV1 a b c d) _). by intros [].
Defined.

Definition payload_tuple (p : ExecutionPayloadV3) :=
  ((v3_parent_hash p, v3_fee_recipient p, v3_state_root p, v3_receipts_root p, v3_logs_bloom p,
    v3_prev_randao p, v3_block_number p, v3_gas_limit p, v3_gas_used p),
   (v3_timestamp p, v3_extra_data p, v3_base_fee_per_gas p, v3_block_hash p, v3_transactions p,
    v3_withdrawals p, v3_blob_gas_used p, v3_excess_blob_gas p)).
#[local] Instance payload_eq : EqDecision ExecutionPayloadV3.
Proof. solve_decision. Defined.
#[local] Instance payload_countable : Countable ExecutionPayloadV3.
Proof.
  refine (inj_countable' payload_tuple (λ '((a, b, c, d, e, f, g, h, i), (j, k, l, m, n, o, p, q)),
    MkExecutionPayloadV3 a b c d e f g h i j k l m n o p q) _). by intros [].
Defined.

Definition count_json {A} `{Countable A} (a : A) : Value := Num (Z.pos (encode a) : Number).
Definition count_value {A} `{Countable A} : FromValue A := MkFromValue "" (λ v,
  match v with Num (Z.pos p) => ok_or (decode p) "" | _ => Err ""%string end).

Definition fc0 : ForkchoiceStateV1 := MkForkchoiceState [7] [7] [7].
Definition attrs0 : PayloadAttributesV3 :=
  MkPayloadAttributes 12 [3] [4] [] (replicate 32 5) [[2]] 30000000.

#[local] Instance engine_json : EngineJson := {|
  fc_state_value := MkFromValue "" (λ _, Ok fc0);
  attributes_value := MkFromValue "" (λ _, Ok (Some attrs0));
  payload_v3_value := count_value;
  hashes_value := MkFromValue "" (λ v, match v with Arr [] => Ok [] | _ => Err ""%string end);
  hash_value := count_value;
  payload_id_value := MkFromValue "" (λ v, match v with
    | Str s => MkSchemaPayloadId <$> ok_or (u64_from_str_radix_16 (trim_0x s)) ""%string
    | _ => Err ""%string end);
  hash_json := count_json; u256_json := λ z, Num (z : Number); payload_v3_json := count_json;
  blobs_bundle_json := λ _, Null |}.

#[local] Instance engine_json_laws : EngineJsonLaws.
Proof.
  split.
  - intros h _. simpl. by rewrite decode_encode.
  - intros p. simpl. by rewrite decode_encode.
  - done.
  - intros n Hn. unfold payload_id_value, engine_json, from_value.
    by rewrite (proj2 (hex_padded_roundtrip n Hn)).
Qed.

Definition request1 : Value := Obj [("params", Arr [Null; Null])]%string.
Definition fixed_id : NewPayloadIdInput → PayloadId := λ _, 1.
Definition asked : Application :=
  match work begin (forkchoice_execute fixed_id request1).2 with Done a => a | Panic => begin end.

Lemma asked_done : work begin (forkchoice_execute fixed_id request1).2 = Done asked.
Proof.
  assert (match work begin (forkchoice_execute fixed_id request1).2 with
    | Done _ => true | Panic => false end = true) as Hd by (vm_compute; reflexivity).
  unfold asked. by destruct (work begin _).
Qed.

Lemma asked_unique : unique_hashes asked.
Proof.
  intros log Hh. apply NoDup_alt. intros i j x Hi Hj.
  assert (∀ k e, log !! k = Some e → hash (en_block e) = [Z.of_nat k]) as Hk.
  { intros k e Hk. pose proof (by_height_history asked log (Z.of_nat k) e Hh ltac:(lia)) as Hb.
    rewrite Nat2Z.id in Hb. specialize (Hb Hk).
    destruct (decide (k < 2)%nat) as [Hlt|Hge].
    - assert (hash <$> by_height (block_memory (storage asked)) (Z.of_nat k) = Some [Z.of_nat k]) as Hc
        by (destruct k as [|[|k]]; [vm_compute; reflexivity..|lia]).
      rewrite Hb in Hc. by injection Hc.
    - destruct (lookup_lt_is_Some_2 log 2) as [e2 He2]; [apply lookup_lt_Some in Hk; lia|].
      pose proof (by_height_history asked log 2 e2 Hh ltac:(lia) He2) as Hb2.
      assert (by_height (block_memory (storage asked)) 2 = None) as Hc by (vm_compute; reflexivity).
      congruence. }
  rewrite list_lookup_fmap in Hi, Hj. destruct (log !! i) eqn:Ei, (log !! j) eqn:Ej; simplify_eq/=.
  apply Hk in Ei, Ej. assert ([Z.of_nat i] = [Z.of_nat j]) as E by congruence. injection E. lia.
Qed.

Lemma engine_conversation_witness :
  forkchoice_execute fixed_id request1 = (Ok (forkchoice_response_json (MkForkchoiceUpdatedResponse
    (MkPayloadStatus Valid (Some [7]) None) (Some (MkSchemaPayloadId 1)))),
    [StartBlockBuild (payload_from_attributes attrs0) 1])
  ∧ ∃ p, let x := gp_execution_payload p in
      (∀ r2, get_params_list r2 = [Str ("0x" +:+ hex_n 16 1)] →
        get_payload_execute r2 (reader asked) = Ok (get_payload_response_json p))
      ∧ v3_parent_hash x = hash (en_block genesis_entry)
      ∧ v3_block_number x = number (en_block genesis_entry) + 1
      ∧ v3_timestamp x = to_u64 12 ∧ v3_prev_randao x = [3] ∧ v3_fee_recipient x = [4]
      ∧ v3_gas_limit x = to_u64 30000000
      ∧ gp_parent_beacon_block_root p = replicate 32 5
      ∧ ∀ r3, get_params_list r3 = [get_field (get_payload_response_json p) "executionPayload"; Arr [];
                get_field (get_payload_response_json p) "parentBeaconBlockRoot"] →
          new_payload_execute r3 (reader asked)
            = Ok (payload_status_json (MkPayloadStatus Valid (Some (v3_block_hash x)) None)).
Proof.
  apply (engine_conversation begin [] genesis_entry fixed_id request1 fc0 attrs0 asked (reader asked));
    [by split|apply block_gas_typed|apply begin_history|done|done|done|vm_compute; reflexivity
    |split; [done|by repeat constructor]|apply asked_done|done|apply asked_unique].
Defined.

Definition known_payload : PayloadResponse :=
  MkPayloadResponse (MkExecutionPayload [1] [2] [3] [4] [5] [6] 7 8 9 10 [] 11 [12] [[13]]
    [MkWithdrawal 1 2 [3] 4] 0 0) 5 (MkBlobsBundle [] [] []) false [14].
Lemma payload_response_roundtrip_witness :
  payload_response_from_v3 (payload_response_into_v3 known_payload) = known_payload.
Proof. apply (payload_response_roundtrip known_payload). by repeat constructor. Defined.

End EngineWitness.
