(* ===== verification/Api.v ===== *)
(** The methods of the JSON-RPC server ([api/src/methods]) and the dispatch of a
    request to them ([api/src/request.rs]).

    A method reads the application through its reader and may send commands to the
    queue; it is a function to its answer and the commands it sent. *)
From Stdlib Require Import SpecFloat.
From S2P Require Import Prelude Primitives MoveTypes Errors Envelope EvMap.
From S2P Require Import Transactions Fees BaseFee Receipts Payloads Blocks Application Chain.
From S2P Require Import MoveVm EthToken ToyVm Nonces Events TagValidation Execution.
From S2P Require Import Storage StateTree EvmState StateQueries World Queries Rpc Engine.
Import Addresses Words.

Local Open Scope Z_scope.

(** IEEE 754 numbers of 64 bits. *)
Abbreviation f64 := spec_float.
Definition f64_zero : f64 := S754_zero false.
Definition f64_hundred : f64 := S754_finite false 7036874417766400 (-46).

(** Readers and writers of the JSON of the methods' types, and the texts of
    values in error messages. *)
Class ApiJson `{EngineJson, ErrorTypes} := {
  address_value : FromValue Address;
  tag_value : FromValue BlockNumberOrTag;
  block_id_value : FromValue BlockId;
  bool_value : FromValue bool;
  slots_value : FromValue (list Z);
  string_value : FromValue string;
  percentiles_value : FromValue (list f64);
  bytes_value : FromValue bytes;
  request_value : FromValue TransactionRequest;
  block_json : BlockResponse → Value;
  transaction_json : TransactionResponse → Value;
  receipt_json : Receipts.TransactionReceipt → Value;
  proof_json : ProofResponse → Value;
  (** The answer [FeeHistory::default()]. *)
  default_fee_history_json : Value;
  display_tag : BlockNumberOrTag → string;
  display_block_id : BlockId → string;
  debug_error : Error → string;
  (** [TxEnvelope::decode] on a slice, with the debug text of its error. *)
  decode_envelope : bytes → result string (TxEnvelope * bytes);
}.

Section Api.
Context `{EthTrie, WorldLibrary, !TxLibrary, EnvelopeLibrary, HeaderLibrary, EvMapLaws}.
Context `{!AppLibrary, !StateReading, !EvmStateLibrary, !VmTypes, !MoveVm, !ExecutionLibrary}.
Context `{!Bcs SerializableTransactionData, !Bcs ScriptOrDeployment}.
Context `{JsonNumbers, !EngineJson, !ApiJson}.
Context (get_proof : Trie → bytes → option (list bytes)) (as_state : Trie → MoveState).

(** The clock and the random source an estimate runs with. *)
Record Surroundings := MkSurroundings { now : Z; random_randao : B256; random_hash : B256 }.

(** ** Methods that read *)

(** Source: api/src/methods/block_number.rs 6-16 [execute] *)
Definition block_number_execute (request : Value) (app : ApplicationReader)
    : exec (result JsonRpcError Value) :=
  match parse_params_0 request with
  | Err e => Done (Err e)
  | Ok _ => response ← Queries.block_number app; Done (Ok (Str (hex_0x response)))
  end.

(** A list of bytes is written as the array of its numbers.
    Source: api/src/methods/call.rs 9-20 [execute] *)
Definition call_execute (request : Value) (app : ApplicationReader)
    : exec (result JsonRpcError Value) :=
  match parse_params_2 request_value tag_value request with
  | Err e => Done (Err e)
  | Ok (transaction, block_number) =>
    response ← Queries.call as_state app transaction block_number;
    Done match response with
      | Err e => Err (transaction_error (debug_error e))
      | Ok response => Ok (Arr ((λ b, Num (number_of b)) <$> response))
      end
  end.

(** Source: api/src/methods/chain_id.rs 6-12 [execute] *)
Definition chain_id_execute (app : ApplicationReader) : result JsonRpcError Value :=
  Ok (Str (hex_0x (reader_chain_id app))).

(** Source: api/src/methods/estimate_gas.rs 7-7 [BASE_FEE] *)
Definition BASE_FEE : Z := 21000.

(** A method whose last parameter, a block, may be left out.
    Source: api/src/methods/estimate_gas.rs 25-50 [parse_params] *)
Definition estimate_gas_parse_params (request : Value)
    : result JsonRpcError (TransactionRequest * BlockNumberOrTag) :=
  match get_params_list request with
  | [] => Err (parse_error request "Not enough params")
  | [a] => transaction ← deserialize request_value a; Ok (transaction, Latest)
  | [a; b] =>
    transaction ← deserialize request_value a;
    block_number ← deserialize tag_value b;
    Ok (transaction, block_number)
  | _ => Err (parse_error request "Too many params")
  end.

(** Source: api/src/methods/estimate_gas.rs 9-23 [execute] *)
Definition estimate_gas_execute (around : Surroundings) (request : Value) (app : ApplicationReader)
    : exec (result JsonRpcError Value) :=
  match estimate_gas_parse_params request with
  | Err e => Done (Err e)
  | Ok (transaction, block_number) =>
    estimate ← Queries.estimate_gas as_state app transaction block_number (now around)
      (random_randao around) (random_hash around);
    Done match estimate with
      | Err e => Err (transaction_error (debug_error e))
      | Ok gas => Ok (Str (hex_0x (Z.max gas BASE_FEE)))
      end
  end.

Definition incorrect_percentile (reward : f64) : bool :=
  SFltb reward f64_zero || SFltb f64_hundred reward.

(** Source: api/src/methods/fee_history.rs 18-59 [parse_params] *)
Definition fee_history_parse_params (request : Value)
    : result JsonRpcError (Z * BlockNumberOrTag * option (list f64)) :=
  match get_params_list request with
  | [] | [_] => Err (parse_error request "Not enough params")
  | [a; b] =>
    block_count ← parse_block_count string_value a;
    block_number ← deserialize tag_value b;
    Ok (block_count, block_number, None)
  | [a; b; c] =>
    block_count ← parse_block_count string_value a;
    block_number ← deserialize tag_value b;
    reward_percentiles ← deserialize percentiles_value c;
    if existsb incorrect_percentile reward_percentiles then
      Err (MkRpcError (-32602) (Num (number_of 0)) "Incorrect reward percentile")
    else Ok (block_count, block_number, Some reward_percentiles)
  | _ => Err (parse_error request "Too many params")
  end.

(** Source: app/src/query.rs 69-77 [ApplicationReader::fee_history] *)
Definition fee_history (_self : ApplicationReader) (_block_count : Z) (_block_number : BlockNumberOrTag)
    (_reward_percentiles : option (list f64)) : Value :=
  default_fee_history_json.

(** Source: api/src/methods/fee_history.rs 7-16 [execute] *)
Definition fee_history_execute (request : Value) (app : ApplicationReader) : result JsonRpcError Value :=
  '(block_count, block_number, reward_percentiles) ← fee_history_parse_params request;
  Ok (fee_history app block_count block_number reward_percentiles).

(** Source: api/src/methods/gas_price.rs 3-5 [execute] *)
Definition gas_price_execute : result JsonRpcError Value := Ok (Str "0x3b9aca00").

(** Source: api/src/methods/get_balance.rs 6-18 [execute] *)
Definition get_balance_execute (request : Value) (app : ApplicationReader)
    : exec (result JsonRpcError Value) :=
  match parse_params_2 address_value tag_value request with
  | Err e => Done (Err e)
  | Ok (address, block_number) =>
    response ← balance_by_height as_state app address block_number;
    Done match response with
      | None => Err (block_not_found (display_tag block_number))
      | Some response => Ok (Str (hex_0x response))
      end
  end.

(** Source: api/src/methods/get_block_by_hash.rs 6-17 [execute] *)
Definition get_block_by_hash_execute (request : Value) (app : ApplicationReader)
    : exec (result JsonRpcError Value) :=
  match parse_params_2 hash_value bool_value request with
  | Err e => Done (Err e)
  | Ok (block_hash, include_transactions) =>
    response ← Queries.block_by_hash app block_hash include_transactions;
    Done (Ok (option_json block_json response))
  end.

(** Source: api/src/methods/get_block_by_number.rs 6-17 [execute] *)
Definition get_block_by_number_execute (request : Value) (app : ApplicationReader)
    : exec (result JsonRpcError Value) :=
  match parse_params_2 tag_value bool_value request with
  | Err e => Done (Err e)
  | Ok (number, include_transactions) =>
    response ← Queries.block_by_height app number include_transactions;
    Done (Ok (option_json block_json response))
  end.

(** Source: api/src/methods/get_nonce.rs 22-45 [parse_params] *)
Definition get_nonce_parse_params (request : Value) : result JsonRpcError (Address * BlockNumberOrTag) :=
  match get_params_list request with
  | [] => Err (parse_error request "Not enough params")
  | [a] => address ← deserialize address_value a; Ok (address, Latest)
  | [a; b] =>
    address ← deserialize address_value a;
    block_number ← deserialize tag_value b;
    Ok (address, block_number)
  | _ => Err (parse_error request "Too many params")
  end.

(** Source: api/src/methods/get_nonce.rs 7-20 [execute] *)
Definition get_nonce_execute (request : Value) (app : ApplicationReader)
    : exec (result JsonRpcError Value) :=
  match get_nonce_parse_params request with
  | Err e => Done (Err e)
  | Ok (address, block_number) =>
    response ← nonce_by_height as_state app address block_number;
    Done match response with
      | None => Err (block_not_found (display_tag block_number))
      | Some response => Ok (Str (hex_0x response))
      end
  end.

(** Source: api/src/methods/get_proof.rs 28-59 [parse_params] *)
Definition get_proof_parse_params (request : Value)
    : result JsonRpcError (Address * list Z * BlockId) :=
  match get_params_list request with
  | [] | [_] => Err (parse_error request "Not enough params")
  | [a; b] =>
    address ← deserialize address_value a;
    storage_slots ← deserialize slots_value b;
    Ok (address, storage_slots, IdNumber Latest)
  | [a; b; c] =>
    address ← deserialize address_value a;
    storage_slots ← deserialize slots_value b;
    block_number ← deserialize block_id_value c;
    Ok (address, storage_slots, block_number)
  | _ => Err (parse_error request "Too many params")
  end.

(** Source: api/src/methods/get_proof.rs 13-26 [execute] *)
Definition get_proof_execute (request : Value) (app : ApplicationReader)
    : exec (result JsonRpcError Value) :=
  match get_proof_parse_params request with
  | Err e => Done (Err e)
  | Ok (address, storage_slots, block_number) =>
    response ← proof get_proof app address storage_slots block_number;
    Done match response with
      | None => Err (block_not_found (display_block_id block_number))
      | Some response => Ok (proof_json response)
      end
  end.

(** Source: api/src/methods/get_transaction_by_hash.rs 6-17 [execute] *)
Definition get_transaction_by_hash_execute (request : Value) (app : ApplicationReader)
    : exec (result JsonRpcError Value) :=
  match parse_params_1 hash_value request with
  | Err e => Done (Err e)
  | Ok tx_hash =>
    response ← Queries.transaction_by_hash app tx_hash;
    Done (Ok (option_json transaction_json response))
  end.

(** Source: api/src/methods/get_transaction_receipt.rs 6-15 [execute] *)
Definition get_transaction_receipt_execute (request : Value) (app : ApplicationReader)
    : exec (result JsonRpcError Value) :=
  match parse_params_1 hash_value request with
  | Err e => Done (Err e)
  | Ok tx_hash =>
    response ← transaction_receipt app tx_hash;
    Done (Ok (option_json receipt_json response))
  end.

(** ** eth_sendRawTransaction *)

(** The bytes left over after the transaction are not looked at.
    Source: api/src/methods/send_raw_transaction.rs 17-41 [parse_params] *)
Definition send_raw_parse_params (request : Value) : result JsonRpcError TxEnvelope :=
  match get_params_list request with
  | [] => Err (parse_error request "Not enough params")
  | [x] =>
    bytes ← deserialize bytes_value x;
    match decode_envelope bytes with
    | Ok (tx, _) => Ok tx
    | Err e => Err (MkRpcError (-32602) request ("RLP decode failed: " +:+ e))
    end
  | _ => Err (parse_error request "Too many params")
  end.

(** Source: api/src/methods/send_raw_transaction.rs 43-50 [inner_execute] *)
Definition send_raw_inner (tx : TxEnvelope) : B256 * list Command := (eth_tx_hash tx, [AddTransaction tx]).

(** Source: api/src/methods/send_raw_transaction.rs 8-15 [execute] *)
Definition send_raw_execute (request : Value) : result JsonRpcError Value * list Command :=
  match send_raw_parse_params request with
  | Err e => (Err e, [])
  | Ok tx => let '(tx_hash, sent) := send_raw_inner tx in (Ok (hash_json tx_hash), sent)
  end.

(** ** Requests *)

Definition reads (m : exec (result JsonRpcError Value)) : exec (result JsonRpcError Value * list Command) :=
  r ← m; Done (r, []).

(** Source: api/src/request.rs 54-73 [inner_handle_request] *)
Definition execute_method (around : Surroundings) (new_id : NewPayloadIdInput → PayloadId)
    (method : MethodName) (request : Value) (app : ApplicationReader)
    : exec (result JsonRpcError Value * list Command) :=
  match method with
  | ForkChoiceUpdatedV3 => Done (forkchoice_execute new_id request)
  | GetPayloadV3 => reads (Done (get_payload_execute request app))
  | NewPayloadV3 => reads (Done (new_payload_execute request app))
  | SendRawTransaction => Done (send_raw_execute request)
  | ChainId => reads (Done (chain_id_execute app))
  | GetBalance => reads (get_balance_execute request app)
  | GetNonce => reads (get_nonce_execute request app)
  | GetTransactionByHash => reads (get_transaction_by_hash_execute request app)
  | GetBlockByHash => reads (get_block_by_hash_execute request app)
  | GetBlockByNumber => reads (get_block_by_number_execute request app)
  | BlockNumber => reads (block_number_execute request app)
  | FeeHistory => reads (Done (fee_history_execute request app))
  | EstimateGas => reads (estimate_gas_execute around request app)
  | Rpc.Call => reads (call_execute request app)
  | Rpc.TransactionReceipt => reads (get_transaction_receipt_execute request app)
  | GetProof => reads (get_proof_execute request app)
  | GasPrice => reads (Done gas_price_execute)
  end.

Definition missing_method : JsonRpcError := without_data (-32601) "Invalid/missing method".

(** Source: api/src/request.rs 36-74 [inner_handle_request] *)
Definition inner_handle_request (around : Surroundings) (new_id : NewPayloadIdInput → PayloadId)
    (is_allowed : MethodName → bool) (request : Value) (app : ApplicationReader)
    : exec (result JsonRpcError Value * list Command) :=
  match as_str (get_field request "method") with
  | None => Done (Err missing_method, [])
  | Some name =>
    match from_str name with
    | Err e => Done (Err e, [])
    | Ok method =>
      if is_allowed method then execute_method around new_id method request app
      else Done (Err missing_method, [])
    end
  end.

(** Source: api/src/request.rs 11-34 [handle] *)
Definition handle (around : Surroundings) (new_id : NewPayloadIdInput → PayloadId)
    (is_allowed : MethodName → bool) (request : Value) (app : ApplicationReader)
    : exec (JsonRpcResponse * list Command) :=
  let id := get_field request "id" in
  let jsonrpc := get_field request "jsonrpc" in
  '(r, sent) ← inner_handle_request around new_id is_allowed request app;
  Done (match r with
        | Ok r => MkRpcResponse id jsonrpc (Some r) None
        | Err e => MkRpcResponse id jsonrpc None (Some e)
        end, sent).

(** ** Correctness *)

Lemma reads_Done m r sent : reads m = Done (r, sent) → sent = [].
Proof. unfold reads. intros (r' & _ & [= _ <-])%bind_Done. done. Qed.

Lemma forkchoice_sends new_id request :
  match forkchoice_execute new_id request with
  | (Err _, sent) => sent = []
  | (Ok _, sent) => sent = [] ∨ ∃ attrs id, sent = [StartBlockBuild attrs id]
  end.
Proof.
  unfold forkchoice_execute. destruct (forkchoice_parse_params request) as [[fc [attrs|]]|e]; simpl; eauto.
Qed.

Lemma send_raw_sends request :
  match send_raw_execute request with
  | (Err _, sent) => sent = []
  | (Ok _, sent) => ∃ tx, sent = [AddTransaction tx]
  end.
Proof. unfold send_raw_execute. destruct (send_raw_parse_params request); simpl; eauto. Qed.

(** What a method may send to the queue. *)
Lemma execute_method_sends around new_id method request app r sent :
  execute_method around new_id method request app = Done (r, sent) →
  (∀ e, r = Err e → sent = [])
  ∧ (sent = [] ∨ (method = SendRawTransaction ∧ ∃ tx, sent = [AddTransaction tx])
     ∨ (method = ForkChoiceUpdatedV3 ∧ ∃ attrs id, sent = [StartBlockBuild attrs id])).
Proof.
  destruct method; cbn [execute_method]; try (intros ->%reads_Done; by eauto).
  - intros Hr. pose proof (forkchoice_sends new_id request) as Hs. injection Hr as Hr. rewrite Hr in Hs.
    destruct r; [split; [done|destruct Hs as [->|?]; eauto]|subst; eauto].
  - intros Hr. pose proof (send_raw_sends request) as Hs. injection Hr as Hr. rewrite Hr in Hs.
    destruct r; [split; [done|eauto]|subst; eauto].
Qed.

(** The text of the request's method. *)
Definition asks (request : Value) (name : string) : Prop := get_field request "method" = Str name.

Lemma from_str_sender name method : from_str name = Ok method →
  (method = SendRawTransaction → name = "eth_sendRawTransaction"%string)
  ∧ (method = ForkChoiceUpdatedV3 → name = "engine_forkchoiceUpdatedV3"%string)
  ∧ (is_engine_api method = true ↔ String.prefix "engine_" name = true).
Proof. unfold from_str. repeat (case_decide; [subst; intros [= <-]; done|]). done. Qed.

(** What a request may send, and when. *)
Lemma inner_request_sends around new_id is_allowed request app r s :
  inner_handle_request around new_id is_allowed request app = Done (r, s) →
  (∀ e, r = Err e → s = []) ∧ (s = []
     ∨ (asks request "eth_sendRawTransaction" ∧ ∃ tx, s = [AddTransaction tx])
     ∨ (asks request "engine_forkchoiceUpdatedV3" ∧ is_allowed ForkChoiceUpdatedV3 = true
        ∧ ∃ attrs id, s = [StartBlockBuild attrs id]))
  ∧ ∀ name, asks request name → String.prefix "engine_" name = true →
      (∀ m, is_engine_api m = true → is_allowed m = false) →
      s = [] ∧ ∃ e, r = Err e ∧ code e = -32601.
Proof.
  intros Hi. unfold inner_handle_request, asks in *.
  destruct (get_field request "method") as [| | |name| |]; simpl in Hi;
    try (injection Hi as <- <-; split; [done|]; split; [by left|]; by intros name' [=]).
  destruct (from_str name) as [method|e] eqn:Hname.
  2:{ injection Hi as <- <-. split; [done|]. split; [by left|]. intros _ _ _ _. split; [done|].
      exists e. split; [done|]. revert Hname. unfold from_str. repeat (case_decide; [done|]). by intros [= <-]. }
  apply from_str_sender in Hname as (N1 & N2 & N3). destruct (is_allowed method) eqn:Ha.
  - apply execute_method_sends in Hi as [He Hs]. split; [done|]. split.
    + destruct Hs as [->|[[-> Hs]|[-> Hs]]]; [by left|right; left|right; right].
      * by rewrite N1.
      * by rewrite N2.
    + intros name' [= <-] Hp Hno. apply N3 in Hp. by rewrite (Hno method Hp) in Ha.
  - injection Hi as <- <-. split; [done|]. split; [by left|]. intros _ _ _ _. split; [done|]. by eexists.
Qed.

Lemma handle_inner around new_id is_allowed request app response sent :
  handle around new_id is_allowed request app = Done (response, sent) →
  ∃ r, inner_handle_request around new_id is_allowed request app = Done (r, sent)
    ∧ response = match r with
        | Ok r => MkRpcResponse (get_field request "id") (get_field request "jsonrpc") (Some r) None
        | Err e => MkRpcResponse (get_field request "id") (get_field request "jsonrpc") None (Some e)
        end.
Proof. intros ([r s] & Hi & Hr)%bind_Done. simpl in Hr. exists r. by injection Hr as <- <-. Qed.

(** What a request can do.  The response carries the request's id
    and version and either a result or an error.  At most one command is sent, and
    none when the answer is an error: a transaction, only by
    eth_sendRawTransaction, or a block build, only by engine_forkchoiceUpdatedV3
    where the engine methods are allowed; on a port that refuses them every
    engine method is answered with the error of an unknown method. *)
Lemma requests_send_only around new_id is_allowed request app response sent :
  handle around new_id is_allowed request app = Done (response, sent) →
  rpc_id response = get_field request "id" ∧ rpc_jsonrpc response = get_field request "jsonrpc"
  ∧ (is_Some (rpc_result response) ↔ rpc_error response = None)
  ∧ (rpc_error response ≠ None → sent = [])
  ∧ (sent = []
     ∨ (asks request "eth_sendRawTransaction" ∧ ∃ tx, sent = [AddTransaction tx])
     ∨ (asks request "engine_forkchoiceUpdatedV3" ∧ is_allowed ForkChoiceUpdatedV3 = true
        ∧ ∃ attrs id, sent = [StartBlockBuild attrs id]))
  ∧ ∀ name, asks request name → String.prefix "engine_" name = true →
      (∀ m, is_engine_api m = true → is_allowed m = false) →
      sent = [] ∧ ∃ e, rpc_error response = Some e ∧ code e = -32601.
Proof.
  intros (r & Hi & ->)%handle_inner.
  destruct (inner_request_sends _ _ _ _ _ _ _ Hi) as (He & Hs & Heng).
  destruct r as [v|e]; simpl;
    (split; [done|]; split; [done|]; split;
     [split; intros Hx; [by destruct Hx|by (discriminate Hx || eexists)]|]; split;
     [try done; intros _; by eapply He|]; split; [done|]); intros name Hask Hp Hno.
  - destruct (Heng name Hask Hp Hno) as (_ & e & ? & _). done.
  - destruct (Heng name Hask Hp Hno) as (-> & e' & [= <-] & Hc). split; [done|]. by exists e.
Qed.

(** The texts of quantities read back.  The block number and the
    chain id are answered as hexadecimal texts of exactly the head's number and of
    the configured id, in the form the server itself parses; so is the payload id. *)
Lemma quantities_read_back app log rd request :
  Reads rd app → History app log → log ≠ [] → Z.of_nat (length log) < 2 ^ 64 →
  get_params_list request = [] → uint 64 (g_chain_id (rd_genesis_config rd)) →
  (∃ s, block_number_execute request rd = Done (Ok (Str s))
     ∧ u64_from_str_radix_16 (trim_0x s) = Some (Z.of_nat (length log) - 1))
  ∧ (∃ s, chain_id_execute rd = Ok (Str s)
     ∧ u64_from_str_radix_16 (trim_0x s) = Some (g_chain_id (rd_genesis_config rd)))
  ∧ ∀ id, uint 64 id → ∃ s, payload_id_json (MkSchemaPayloadId id) = Str s
      ∧ String.length s = 18%nat ∧ u64_from_str_radix_16 (trim_0x s) = Some id.
Proof.
  intros [Hs _] Hh Hne Hlen Hp Hid. split; [|split].
  - exists (hex_0x (Z.of_nat (length log) - 1)). split.
    + unfold block_number_execute, parse_params_0. rewrite Hp. unfold Queries.block_number.
      by rewrite Hs, (query_latest_history app log).
    + apply hex_roundtrip. destruct log; [done|]. unfold uint. simpl in *. lia.
  - eexists. split; [reflexivity|]. by apply hex_roundtrip.
  - intros id Hi. eexists. split; [reflexivity|]. by apply hex_padded_roundtrip.
Qed.

End Api.
