(* ===== verification/Server.v ===== *)
(** The server ([server/src/lib.rs], [geth_genesis.rs]), the queue between it and
    the actor ([app/src/queue.rs], [app/src/actor.rs]), and the application of the
    genesis state ([genesis/src/lib.rs]): how a node of requests and commands runs.

    HTTP, the proxy to op-geth, compression and JSON Web Tokens are third-party
    code: [Http] is their interface.  A request is handled in one step: that the
    reads of one handler can interleave with the actor is not modelled. *)
From S2P Require Import Prelude Primitives MoveTypes Errors Envelope EvMap.
From S2P Require Import Transactions Fees BaseFee Receipts Payloads Blocks Application Chain.
From S2P Require Import MoveVm EthToken ToyVm Nonces Events TagValidation Execution.
From S2P Require Import Storage StateTree EvmState StateQueries World Queries Rpc Engine Api.
Import Addresses Words.

Local Open Scope Z_scope.

(** ** HTTP *)

Inductive HttpMethod := GET | OtherMethod (name : string).

Class Http `{JsonNumbers} := {
  Headers : Type;
  (** The parts of a response besides its body. *)
  Parts : Type;
  Rejection : Type;
  reject : Rejection;
  header_value : Headers → string → option bytes;
  (** [HeaderValue::to_str]: visible ASCII only. *)
  header_to_str : bytes → option string;
  parse_json : bytes → option Value;
  rpc_response_bytes : JsonRpcResponse → bytes;
  gunzip : bytes → option bytes;
  (** The claim [iat] of a token the secret verifies. *)
  jwt_issued_at : string → option Z;
}.

(** A block as op-geth describes it, and its JSON. *)
Record RpcBlock := MkRpcBlock { rb_header : Header; rb_hash : B256 }.

Section Server.
Context `{EthTrie, WorldLibrary, !TxLibrary, EnvelopeLibrary, HeaderLibrary, EvMapLaws}.
Context `{!AppLibrary, !StateReading, !EvmStateLibrary, !VmTypes, !MoveVm, !ExecutionLibrary}.
Context `{!Bcs SerializableTransactionData, !Bcs ScriptOrDeployment}.
Context `{JsonNumbers, !EngineJson, !ApiJson, !Http, !PayloadLibrary}.
Context (get_proof : Trie → bytes → option (list bytes)) (as_state : Trie → MoveState).
Context (rpc_block_value : FromValue RpcBlock).

(** [warp_reverse_proxy::Request]: path, query, method, headers and body. *)
Record Request := MkRequest {
  rq_path : string; rq_query : string; rq_method : HttpMethod; rq_headers : Headers; rq_body : bytes }.

Inductive Response :=
| StatusOk
| FromParts (parts : Parts) (body : bytes)
| NewBody (body : bytes).

(** ** The genesis block of op-geth *)

(** Source: server/src/geth_genesis.rs 10-18 [is_genesis_block_request] *)
Definition is_genesis_block_request (request : Value) : option bool :=
  obj ← as_object request;
  method_value ← assoc "method"%string obj;
  method ← as_str method_value;
  if decide (method ≠ "eth_getBlockByNumber"%string) then Some false else
  params ← assoc "params"%string obj;
  params ← as_array params;
  first_param ← head params;
  first_param ← as_str first_param;
  Some (bool_decide (first_param = "0x0"%string)).

(** The header is copied field by field.
    Source: server/src/geth_genesis.rs 20-54 [extract_genesis_block] *)
Definition extract_genesis_block (geth_response : Value) : option ExtendedBlock :=
  obj ← as_object geth_response;
  r ← assoc "result"%string obj;
  match from_value rpc_block_value r with
  | Err _ => None
  | Ok geth_block =>
    let h := rb_header geth_block in
    let header :=
      {| h_parent_hash := h_parent_hash h; h_ommers_hash := h_ommers_hash h;
         h_beneficiary := h_beneficiary h; h_state_root := h_state_root h;
         h_transactions_root := h_transactions_root h; h_receipts_root := h_receipts_root h;
         h_logs_bloom := h_logs_bloom h; h_difficulty := h_difficulty h; h_number := h_number h;
         h_gas_limit := h_gas_limit h; h_gas_used := h_gas_used h; h_timestamp := h_timestamp h;
         h_extra_data := h_extra_data h; h_nonce := h_nonce h;
         h_base_fee_per_gas := h_base_fee_per_gas h; h_withdrawals_root := h_withdrawals_root h;
         h_blob_gas_used := h_blob_gas_used h; h_excess_blob_gas := h_excess_blob_gas h;
         h_parent_beacon_block_root := h_parent_beacon_block_root h; h_mix_hash := h_mix_hash h;
         h_requests_hash := h_requests_hash h |} in
    Some (MkExtendedBlock (rb_hash geth_block) 0 0 (block_new header []))
  end.

(** ** Mirroring *)

(** Does a text contain another one? *)
Fixpoint contains_str (needle s : string) : bool :=
  String.prefix needle s || match s with "" => false | String _ s => contains_str needle s end.

(** A header that is not text panics.
    Source: server/src/lib.rs 240-243 [mirror] *)
Definition wants_gzip (headers : Headers) : exec bool :=
  match header_value headers "accept-encoding" with
  | Some x => s ← expect (header_to_str x); Done (contains_str "gzip" s)
  | None => Done false
  end.

(** [proxy] forwards a request to op-geth and returns its response.
    Source: server/src/lib.rs 225-303 [mirror] *)
Definition mirror (proxy : Request → string → result Rejection (Parts * bytes)) (around : Surroundings)
    (request : Request) (port : string) (is_allowed : MethodName → bool)
    (new_id : NewPayloadIdInput → PayloadId) (app : ApplicationReader)
    : exec (result Rejection Response * list Command) :=
  match rq_method request with
  | GET => Done (Ok StatusOk, [])
  | OtherMethod _ =>
    is_zipped ← wants_gzip (rq_headers request);
    let parsed : option Value := parse_json (rq_body request) in
    match proxy request port with
    | Err e => Done (Err e, [])
    | Ok (parts, raw_bytes) =>
      match (if (is_zipped : bool) then gunzip raw_bytes else Some raw_bytes) with
      | None => Done (Ok (FromParts parts raw_bytes), [])
      | Some geth_bytes =>
        match parse_json geth_bytes with
        | None => Done (Ok (FromParts parts geth_bytes), [])
        | Some parsed_geth_response =>
          request ← expect parsed;
          '(op_move_response, sent) ←
            handle get_proof as_state around new_id is_allowed request app;
          if default false (is_genesis_block_request request) then
            block ← expect (extract_genesis_block parsed_geth_response);
            Done (Ok (FromParts parts raw_bytes), sent ++ [GenesisUpdate block])
          else Done (Ok (NewBody (rpc_response_bytes op_move_response)), sent)
        end
      end
    end
  end.

(** Source: server/src/lib.rs 51-51 [JWT_VALID_DURATION_IN_SECS] *)
Definition JWT_VALID_DURATION_IN_SECS : Z := 60.

(** [s.trim_start_matches("Bearer ")]: the prefix may be repeated. *)
Fixpoint trim_bearer (fuel : nat) (s : string) : string :=
  match fuel with
  | O => s
  | S fuel =>
    if String.prefix "Bearer " s then trim_bearer fuel (String.substring 7 (String.length s - 7) s) else s
  end.

(** [now] is the clock, in seconds since the epoch.
    Source: server/src/lib.rs 200-223 [validate_jwt] *)
Definition validate_jwt (now : Z) (token : string) : result Rejection string :=
  let token := trim_bearer (String.length token) token in
  match jwt_issued_at token with
  | None => Err reject
  | Some iat =>
    if wrap 64 (iat + JWT_VALID_DURATION_IN_SECS) <? now then Err reject else Ok token
  end.

(** The public route.
    Source: server/src/lib.rs 94-111 [run] *)
Definition http_route (proxy : Request → string → result Rejection (Parts * bytes)) (around : Surroundings)
    (request : Request) (app : ApplicationReader) : exec (result Rejection Response * list Command) :=
  mirror proxy around request "9545" is_non_engine_api new_payload_id app.

(** The authenticated route; [authorization] is the header, if there is one.
    Source: server/src/lib.rs 113-132 [run] *)
Definition auth_route (proxy : Request → string → result Rejection (Parts * bytes)) (around : Surroundings)
    (now : Z) (authorization : option string) (request : Request) (app : ApplicationReader)
    : exec (result Rejection Response * list Command) :=
  match authorization with
  | None => Done (Err reject, [])
  | Some token =>
    match validate_jwt now token with
    | Err e => Done (Err e, [])
    | Ok _ => mirror proxy around request "9551" (λ _, true) new_payload_id app
    end
  end.

(** ** What the ports let through *)

(** The commands of a mirrored request are those of its handling, and the genesis
    block of op-geth when that is what was asked for. *)
Lemma mirror_sends proxy around request port is_allowed new_id app r sent :
  mirror proxy around request port is_allowed new_id app = Done (r, sent) →
  sent = [] ∨ ∃ v response s, parse_json (rq_body request) = Some v
    ∧ handle get_proof as_state around new_id is_allowed v app = Done (response, s)
    ∧ (sent = s ∨ (is_genesis_block_request v = Some true ∧ ∃ b, sent = s ++ [GenesisUpdate b])).
Proof.
  unfold mirror. destruct (rq_method request) as [|m]; [intros [= _ <-]; by left|].
  intros (z & _ & Hr)%bind_Done. destruct (proxy request port) as [[parts raw]|e]; [|injection Hr as _ <-; by left].
  destruct (if z then gunzip raw else Some raw) as [b|]; [|injection Hr as _ <-; by left].
  destruct (parse_json b) as [geth|]; [|injection Hr as _ <-; by left].
  apply bind_Done in Hr as (v & Hv%expect_Done & Hr). apply bind_Done in Hr as ([response s] & Hh & Hr).
  right. exists v, response, s. split; [done|]. split; [done|]. simpl in Hr.
  destruct (is_genesis_block_request v) as [[]|] eqn:Hg; simpl in Hr; [|injection Hr as _ <-; by left..].
  apply bind_Done in Hr as (blk & _ & [= _ <-]). right. split; [done|]. by exists blk.
Qed.

Lemma genesis_request_asks v : is_genesis_block_request v = Some true →
  asks v "eth_getBlockByNumber" ∧ head (get_params_list v) = Some (Str "0x0").
Proof.
  unfold is_genesis_block_request, asks, get_field, get_params_list, as_str.
  destruct v as [| | | | |o]; try done. simpl. destruct (assoc "method"%string o) as [[| | |m| |]|]; try done.
  simpl. case_decide as Hm; [done|]. subst m.
  destruct (assoc "params"%string o) as [[| | | |a|]|]; try done. simpl.
  destruct a as [|[| | |x| |] a]; try done. simpl. intros [= Hx%bool_decide_eq_true]. by subst.
Qed.

(** A body that is not JSON panics when op-geth answers it with JSON, as JSON-RPC
    servers do with a parse error. *)
Lemma malformed_body_panics proxy around request port is_allowed new_id app name parts raw geth :
  rq_method request = OtherMethod name → header_value (rq_headers request) "accept-encoding" = None →
  proxy request port = Ok (parts, raw) → parse_json raw = Some geth → parse_json (rq_body request) = None →
  mirror proxy around request port is_allowed new_id app = Panic.
Proof.
  intros Hm Hh Hp Hg Hb. unfold mirror, wants_gzip. rewrite Hm, Hh. simpl. by rewrite Hp, Hg, Hb.
Qed.

(** C11 (safety): the public port cannot build blocks.  What it sends to the actor
    are transactions, sent by eth_sendRawTransaction, and the genesis block, when
    block 0x0 is asked for by number: never a block build.  On the authenticated
    port nothing is sent without a token that verifies and was issued at most
    sixty seconds ago. *)
Theorem ports_are_guarded proxy around request app :
  (∀ r sent, http_route proxy around request app = Done (r, sent) → ∀ msg, msg ∈ sent →
     ∃ v, parse_json (rq_body request) = Some v
       ∧ ((∃ tx, msg = AddTransaction tx ∧ asks v "eth_sendRawTransaction")
          ∨ (∃ b, msg = GenesisUpdate b ∧ asks v "eth_getBlockByNumber"
             ∧ head (get_params_list v) = Some (Str "0x0"))))
  ∧ ∀ now authorization r sent, auth_route proxy around now authorization request app = Done (r, sent) →
      sent ≠ [] → ∃ token iat, authorization = Some token
        ∧ jwt_issued_at (trim_bearer (String.length token) token) = Some iat
        ∧ (uint 64 iat → now ≤ iat + 60).
Proof.
  split.
  - intros r sent Hr msg Hin.
    destruct (mirror_sends _ _ _ _ _ _ _ _ _ Hr) as [->|(v & response & s & Hv & Hh & Hs)];
      [by apply not_elem_of_nil in Hin|]. exists v. split; [done|].
    apply handle_inner in Hh as (r' & Hi & _). apply inner_request_sends in Hi as (_ & Hs' & _).
    assert (msg ∈ s ∨ (is_genesis_block_request v = Some true ∧ ∃ b, msg = GenesisUpdate b)) as [Hm|[Hg [b ->]]].
    { destruct Hs as [->|[Hg [b ->]]]; [by left|].
      apply elem_of_app in Hin as [Hin| ->%list_elem_of_singleton]; [by left|right; eauto]. }
    + left. destruct Hs' as [->|[[Ha [tx ->]]|(_ & Hf & _)]]; [by apply not_elem_of_nil in Hm| |done].
      apply list_elem_of_singleton in Hm as ->. eauto.
    + right. destruct (genesis_request_asks v Hg) as [Ha Hp]. eauto.
  - intros now authorization r sent Hr Hne. unfold auth_route, validate_jwt in Hr.
    destruct authorization as [token|]; [|injection Hr as _ <-; done].
    destruct (jwt_issued_at _) as [iat|] eqn:Hj; [|injection Hr as _ <-; done].
    destruct (Z.ltb_spec (wrap 64 (iat + JWT_VALID_DURATION_IN_SECS)) now) as [|Hle];
      [injection Hr as _ <-; done|].
    exists token, iat. split; [done|]. split; [done|]. intros Hu.
    unfold JWT_VALID_DURATION_IN_SECS, uint in *.
    assert (wrap 64 (iat + 60) ≤ iat + 60) as Hw by (unfold wrap; apply Z.mod_le; lia). lia.
Qed.

(** ** The genesis state *)

(** Source: genesis/src/lib.rs 60-85 [apply] *)
Definition genesis_apply (changes : ChangeSet) (evm_storage_changes : StorageTriesChanges)
    (initial_state_root : B256) (app : Application) : exec Application :=
  applied ← Application.state_apply (state app) changes;
  s ← unwrap applied;
  storage ← unwrap (storage_apply (evm_storage app) evm_storage_changes);
  let app := MkApplication (mem_pool app) (gas_fee app) (receipt_memory app) (Application.storage app)
    s storage in
  assert_or_panic (bool_decide (Application.state_root (state app) = initial_state_root));;
  Done app.

(** [build] makes the genesis changes from the framework and the L2 contracts.
    Source: server/src/lib.rs 146-183 [initialize_app] *)
Definition initialize_app (build : InMemoryStorageTrieRepository → exec (ChangeSet * StorageTriesChanges))
    (initial_state_root : B256) (app : Application) : exec Application :=
  match query_latest (Application.storage app) with
  | Some _ => Done app
  | None =>
    '(genesis_changes, evm_storage_changes) ← build (evm_storage app);
    genesis_apply genesis_changes evm_storage_changes initial_state_root app
  end.

End Server.

(** ** The queue *)

(** The buffer of the channel, whether the actor still listens, and whether the
    shutdown signal was sent.
    Source: app/src/queue.rs 7-11 [CommandQueue] *)
Record CommandQueue := MkQueue {
  q_capacity : nat; q_buffered : list Command; q_open : bool; q_shutdown : bool }.

(** A channel without room for a command panics.
    Source: app/src/factory.rs 6-14 [create] *)
Definition create (buffer : nat) : exec CommandQueue :=
  assert_or_panic (bool_decide (buffer ≠ 0%nat));;
  Done (MkQueue buffer [] true false).

(** Source: app/src/queue.rs 38-41 [CommandQueue::shutdown] *)
Definition shutdown (self : CommandQueue) : CommandQueue :=
  MkQueue (q_capacity self) (q_buffered self) (q_open self) true.

(** The queue after the call, or [None] while the call waits for room.
    Source: app/src/queue.rs 22-27 [CommandQueue::send] *)
Definition queue_send (self : CommandQueue) (msg : Command) : option CommandQueue :=
  if negb (q_open self) then Some (shutdown self)
  else if (length (q_buffered self) <? q_capacity self)%nat then
    Some (MkQueue (q_capacity self) (q_buffered self ++ [msg]) (q_open self) (q_shutdown self))
  else None.

(** The permits of the whole capacity are free when the buffer is empty.
    Source: app/src/queue.rs 29-36 [CommandQueue::wait_for_pending_commands] *)
Definition wait_for_pending_commands (self : CommandQueue) : option CommandQueue :=
  if negb (q_open self) then Some (shutdown self)
  else match q_buffered self with [] => Some self | _ => None end.

(** The actor's side of the channel: the oldest command leaves the buffer. *)
Definition queue_recv (self : CommandQueue) : option (Command * CommandQueue) :=
  match q_buffered self with
  | [] => None
  | msg :: rest => Some (msg, MkQueue (q_capacity self) rest (q_open self) (q_shutdown self))
  end.

Fixpoint queue_send_all (self : CommandQueue) (msgs : list Command) : option CommandQueue :=
  match msgs with
  | [] => Some self
  | msg :: msgs => self ← queue_send self msg; queue_send_all self msgs
  end.

Lemma queue_send_all_open q msgs q' : q_open q = true → queue_send_all q msgs = Some q' →
  q_buffered q' = q_buffered q ++ msgs ∧ q_open q' = true ∧ q_capacity q' = q_capacity q
  ∧ (length (q_buffered q) ≤ q_capacity q → length (q_buffered q') ≤ q_capacity q')%nat.
Proof.
  revert q. induction msgs as [|msg msgs IH]; intros q Ho; simpl.
  { intros [= <-]. by rewrite app_nil_r. }
  unfold queue_send. rewrite Ho. simpl. destruct (Nat.ltb_spec (length (q_buffered q)) (q_capacity q)); [|done].
  simpl. intros (B & O & C & L)%IH; [|done]. simpl in *. split; [by rewrite B, <- app_assoc|].
  split; [done|]. split; [done|]. intros _. apply L. rewrite length_app. simpl. lia.
Qed.

(** ** The node *)

Section Node.
Context `{EthTrie, WorldLibrary, !TxLibrary, EnvelopeLibrary, HeaderLibrary, EvMapLaws}.
Context `{!AppLibrary, !StateReading, !EvmStateLibrary, !VmTypes, !MoveVm, !ExecutionLibrary}.
Context `{!Bcs SerializableTransactionData, !Bcs ScriptOrDeployment}.
Context `{JsonNumbers, !EngineJson, !ApiJson, !Http, !PayloadLibrary, !Executor, !Callbacks}.
Context (get_proof : Trie → bytes → option (list bytes)) (as_state : Trie → MoveState).
Context (rpc_block_value : FromValue RpcBlock).
Context (proxy : Request → string → result Rejection (Parts * bytes)).
(** The handle the server reads the application through. *)
Context (reader_of : Application → ApplicationReader) (reader_reads : ∀ app, Reads (reader_of app) app).

(** What the server does with a request: on the public port, or on the
    authenticated one. *)
Definition served (app : Application) (sent : list Command) : Prop :=
  ∃ around request r,
    http_route get_proof as_state rpc_block_value proxy around request (reader_of app) = Done (r, sent)
    ∨ ∃ now authorization,
        auth_route get_proof as_state rpc_block_value proxy around now authorization request
          (reader_of app) = Done (r, sent).

(** The application, the command the actor is handling, and the queue. *)
Record NodeState := MkNode {
  nd_app : Application; nd_busy : option Command; nd_queue : CommandQueue }.

(** A request is served and its commands are sent; the actor takes a command, and
    handles it.
    Source: app/src/actor.rs 28-34 [CommandActor::work] *)
Inductive node_step : list Command → NodeState → NodeState → Prop :=
| step_request nd sent q :
    served (nd_app nd) sent → queue_send_all (nd_queue nd) sent = Some q →
    node_step sent nd (MkNode (nd_app nd) (nd_busy nd) q)
| step_recv app q msg q' :
    queue_recv q = Some (msg, q') → node_step [] (MkNode app None q) (MkNode app (Some msg) q')
| step_handle app msg q app' :
    handle_command app msg = Done app' → node_step [] (MkNode app (Some msg) q) (MkNode app' None q).

(** What is still to be handled, in order. *)
Definition pending (nd : NodeState) : list Command :=
  option_list (nd_busy nd) ++ q_buffered (nd_queue nd).

Definition not_genesis (msg : Command) : Prop := is_genesis_update msg = false.

(** A step whose request is not for the genesis block. *)
Definition quiet_step (nd nd' : NodeState) : Prop := ∃ sent, Forall not_genesis sent ∧ node_step sent nd nd'.

(** The node has a chain that extends [log], and works in order. *)
Record node_inv (log : list Entry) (nd : NodeState) (log' : list Entry) : Prop := {
  inv_history : History (nd_app nd) log';
  inv_steps : rtc chain_step log log';
  inv_prefix : log `prefix_of` log';
  inv_nonempty : ∃ l e, log' = l ++ [e];
  inv_pending : Forall not_genesis (pending nd);
  inv_open : q_open (nd_queue nd) = true;
  inv_room : (length (q_buffered (nd_queue nd)) ≤ q_capacity (nd_queue nd))%nat;
}.

Lemma quiet_step_inv `{!CallbackLaws} log nd log1 nd' : GasTyped → Z.of_nat (length log1) < 2 ^ 64 →
  node_inv log nd log1 → quiet_step nd nd' →
  ∃ log2, node_inv log nd' log2 ∧ (length log2 ≤ S (length log1))%nat.
Proof.
  intros Hg Hlen [Hh Hs Hp Hne Hpend Ho Hroom] (sent & Hq & Hstep). destruct Hstep as [nd sent q Hsrv Hsend|app q msg q' Hrecv|app msg q app' Hhandle].
  - destruct (queue_send_all_open _ _ _ Ho Hsend) as (B & O & C & L). exists log1. split; [|lia].
    split; simpl; try done; [|by apply L]. unfold pending in *. simpl. rewrite B, app_assoc.
    by apply Forall_app.
  - exists log1. split; [|lia]. unfold queue_recv in Hrecv. unfold pending in *. simpl in *.
    destruct (q_buffered q) as [|m rest] eqn:Hb; [done|]. injection Hrecv as -> <-.
    split; simpl; try done. simpl in Hroom. lia.
  - unfold pending in *. simpl in *. apply Forall_cons in Hpend as [Hm Hpend].
    destruct Hne as (l & e & ->).
    destruct (handle_command_step app l e msg app' Hg Hm Hh Hlen Hhandle) as (log2 & Hh2 & Hs2).
    destruct (chain_step_snoc _ _ _ Hs2) as (l2 & e2 & -> & Hl2 & Hpre). exists (l2 ++ [e2]).
    split; [|done]. split; simpl; try done; [by eapply rtc_r|by etrans|by eexists _, _].
Qed.

(** Waiting for the pending commands ends when the actor has taken the last one,
    which may not have been handled yet. *)
Lemma wait_ends_while_busy app q msg : q_open q = true → q_buffered q = [msg] →
  ∃ q', node_step [] (MkNode app None q) (MkNode app (Some msg) q')
    ∧ wait_for_pending_commands q' = Some q' ∧ pending (MkNode app (Some msg) q') = [msg].
Proof.
  intros Ho Hq. exists (MkQueue (q_capacity q) [] (q_open q) (q_shutdown q)). split; [|split; [|done]].
  - apply step_recv. unfold queue_recv. by rewrite Hq.
  - unfold wait_for_pending_commands. simpl. by rewrite Ho.
Qed.

Lemma query_latest_new : query_latest shared_memory_new = None.
Proof.
  unfold query_latest, height, shared_memory_new. simpl.
  pose proof (Indexed_new (V:=ExtendedBlock) number) as Hi.
  by rewrite (Indexed_len number _ _ Hi) by constructor.
Qed.

(** How a node starts.  An empty application gets the genesis
    state, or the start panics: its root is the configured one.  The genesis block
    of op-geth then starts the chain, from which [node_keeps_chain] follows, and a
    second initialisation changes nothing. *)
Lemma node_starts build root app app' b :
  initialize_app build root app = Done app' → Fresh app → number b = 0 → transactions (block b) = [] →
  Application.state_root (state app') = root
  ∧ work app' [GenesisUpdate b] = Done (genesis_update app' b)
  ∧ History (genesis_update app' b) [MkEntry b [] []]
  ∧ ∀ build' root', initialize_app build' root' (genesis_update app' b) = Done (genesis_update app' b).
Proof.
  unfold initialize_app at 1. intros Hi [Hs Hr] Hn Ht. rewrite Hs, query_latest_new in Hi.
  apply bind_Done in Hi as ([changes evm_changes] & _ & Hi).
  apply bind_Done in Hi as (applied & _ & Hi). apply bind_Done in Hi as (s & _ & Hi).
  apply bind_Done in Hi as (store & _ & Hi). unfold assert_or_panic in Hi. simpl in Hi.
  case_bool_decide as Hroot; [|done]. injection Hi as <-.
  set (app' := MkApplication _ _ _ _ _ _).
  assert (History (genesis_update app' b) [MkEntry b [] []]) as Hh by by apply history_genesis.
  split; [done|]. split; [done|]. split; [done|]. intros build' root'. unfold initialize_app.
  by rewrite (query_latest_history _ _ Hh) by done.
Qed.

(** C10 (invariant): the node keeps its chain whatever it is asked.  From a history
    that has its genesis block, after any number of requests on both ports and any
    progress of the actor, interleaved in any way, the stores hold a history that
    extends the first by steps that only append well-formed blocks; and the queue
    holds no more than its capacity.  (Requests for the genesis block, which
    send it to the application again, are apart.) *)
Theorem node_keeps_chain log e nd n nd' :
  CallbackLaws → GasTyped → History (nd_app nd) (log ++ [e]) →
  nd_busy nd = None → q_buffered (nd_queue nd) = [] → q_open (nd_queue nd) = true →
  nsteps quiet_step n nd nd' → Z.of_nat (length (log ++ [e]) + n) < 2 ^ 64 →
  ∃ log', History (nd_app nd') log' ∧ rtc chain_step (log ++ [e]) log' ∧ (log ++ [e]) `prefix_of` log'
    ∧ (length (q_buffered (nd_queue nd')) ≤ q_capacity (nd_queue nd'))%nat.
Proof.
  intros Hcb Hg Hh Hb Hq Ho Hn Hlen.
  assert (node_inv (log ++ [e]) nd (log ++ [e])) as Hinv.
  { split; try done; [by eexists _, _| |]; unfold pending; rewrite ?Hb, Hq; simpl; [done|lia]. }
  assert (∀ n nd nd' log1, nsteps quiet_step n nd nd' → node_inv (log ++ [e]) nd log1 →
    Z.of_nat (length log1 + n) < 2 ^ 64 → ∃ log2, node_inv (log ++ [e]) nd' log2) as Hgen.
  { clear n nd nd' Hh Hb Hq Ho Hn Hlen Hinv.
    intros n. induction n as [|n IH]; intros nd nd' log1 Hn Hinv Hlen.
    - inversion Hn; subst. eauto.
    - inversion Hn as [|? ? nd1 ? H1' Hn']; subst. clear Hn. rename Hn' into Hn.
      destruct (quiet_step_inv _ nd log1 nd1 Hg ltac:(lia) Hinv H1') as (log2 & Hinv2 & Hl2).
      apply (IH nd1 nd' log2 Hn Hinv2). lia. }
  destruct (Hgen n nd nd' _ Hn Hinv Hlen) as (log' & [? ? ? ? ? ? ?]). exists log'. done.
Qed.

(** ** Progress *)

Lemma payload_known app log id : History app log →
  is_Some (payload_by_id (Application.storage app) id)
    ↔ ∃ e, e ∈ log ∧ payload_id (en_block e) = id.
Proof.
  intros Hh. destruct (hist_blocks _ _ Hh) as (_ & _ & Hp). unfold payload_by_id, by_payload_id.
  rewrite fmap_is_Some. destruct (ev_get_one _ id) as [b|] eqn:Hg.
  - split; [|by eauto]. intros _. destruct (Indexed_get_one payload_id _ _ _ _ Hp Hg) as [Hin Hb].
    apply list_elem_of_fmap in Hin as (e & -> & He). by exists e.
  - split; [by intros []|]. intros (e & He & Hid). exfalso.
    eapply (Indexed_get_one_None payload_id _ _ _ Hp); [exact Hg| |exact Hid]. by apply list_elem_of_fmap_2.
Qed.

(** Every build of a list of commands that are all handled has its payload at the end. *)
Lemma work_makes_payloads `{!CallbackLaws} msgs : ∀ app log e app', GasTyped →
  Forall not_genesis msgs → History app (log ++ [e]) →
  Z.of_nat (length (log ++ [e]) + length msgs) < 2 ^ 64 → work app msgs = Done app' →
  (∃ log', History app' log' ∧ (log ++ [e]) `prefix_of` log')
  ∧ ∀ attrs id, StartBlockBuild attrs id ∈ msgs →
      is_Some (payload_by_id (Application.storage app') id).
Proof.
  induction msgs as [|msg msgs IH]; intros app log e app' Hg Hm Hh Hlen Hw.
  - injection Hw as <-. split; [by exists (log ++ [e])|]. by intros ? ? ?%not_elem_of_nil.
  - apply bind_Done in Hw as (app1 & Hr & Hw). apply Forall_cons in Hm as [Hm Hms]. simpl in Hlen.
    destruct (handle_command_step app log e msg app1 Hg Hm Hh ltac:(lia) Hr) as (log1 & Hh1 & Hs1).
    destruct (chain_step_snoc _ _ _ Hs1) as (log2 & e2 & -> & Hl2 & Hpre).
    destruct (IH app1 log2 e2 app' Hg Hms Hh1 ltac:(lia) Hw) as ((log' & Hh' & Hpre') & Hpay).
    split; [exists log'; split; [done|by etrans]|].
    intros attrs id [<-|Hin]%elem_of_cons; [|by eapply Hpay].
    apply (payload_known app' log' id Hh'). simpl in Hr.
    assert (is_Some (payload_by_id (Application.storage app1) id)) as Hsome.
    { destruct (build_step app log e attrs id app1 _ Hg Hh ltac:(lia) Hr)
        as [[Hs ->]|(_ & _ & bf & appx & o & rs & txs & hx & b & _ & _ & Hb & _ & _ & Hhb & _)]; [done|].
      apply (payload_known app1 _ id Hhb). exists (block_entry b txs rs).
      split; [set_solver|by subst b]. }
    apply (payload_known app1 _ id Hh1) in Hsome as (x & Hx & Hid). exists x.
    split; [|done]. destruct Hpre' as [k ->]. set_solver.
Qed.

Definition actor_step (nd nd' : NodeState) : Prop := node_step [] nd nd'.

Lemma actor_drains buffered : ∀ app q app',
  q_buffered q = buffered → work app buffered = Done app' →
  nsteps actor_step (2 * length buffered) (MkNode app None q)
    (MkNode app' None (MkQueue (q_capacity q) [] (q_open q) (q_shutdown q))).
Proof.
  induction buffered as [|msg buffered IH]; intros app q app' Hq Hw.
  - injection Hw as <-. destruct q; simpl in *; subst. constructor.
  - apply bind_Done in Hw as (app1 & Hr & Hw). cbn [length].
    replace (2 * S (length buffered))%nat with (S (S (2 * length buffered))) by lia.
    set (q1 := MkQueue (q_capacity q) buffered (q_open q) (q_shutdown q)).
    eapply nsteps_l; [apply (step_recv app q msg q1); unfold queue_recv; by rewrite Hq|].
    eapply nsteps_l; [by apply step_handle|]. by apply (IH app1 q1 app').
Qed.

(** C12 (liveness): accepted work is done.  When none of the commands still to be
    handled panics, the actor alone reaches an empty queue in at most two steps
    per command, in the state that handling them in order gives; and every block
    build among them then has a payload to serve. *)
Theorem accepted_work_completes nd log e app' :
  CallbackLaws → GasTyped → History (nd_app nd) (log ++ [e]) → Forall not_genesis (pending nd) →
  Z.of_nat (length (log ++ [e]) + length (pending nd)) < 2 ^ 64 →
  work (nd_app nd) (pending nd) = Done app' →
  (∃ n q, (n ≤ 2 * length (pending nd))%nat ∧ nsteps actor_step n nd (MkNode app' None q)
     ∧ q_buffered q = [])
  ∧ ∀ attrs id, StartBlockBuild attrs id ∈ pending nd →
      ∃ p, payload (reader_of app') id = Some p.
Proof.
  intros Hcb Hg Hh Hm Hlen Hw. split.
  - destruct nd as [app busy q]. unfold pending in *. simpl in *.
    set (q' := MkQueue (q_capacity q) [] (q_open q) (q_shutdown q)).
    destruct busy as [msg|]; simpl in *.
    + apply bind_Done in Hw as (app1 & Hr & Hw). exists (S (2 * length (q_buffered q)))%nat, q'.
      split; [lia|]. split; [|done]. eapply nsteps_l; [by apply step_handle|].
      by apply (actor_drains (q_buffered q)).
    + exists (2 * length (q_buffered q))%nat, q'. split; [done|]. split; [|done].
      by apply (actor_drains (q_buffered q)).
  - intros attrs id Hin. destruct (work_makes_payloads (pending nd) (nd_app nd) log e app' Hg Hm Hh Hlen Hw)
      as [_ Hp]. destruct (Hp attrs id Hin) as [p Hpay]. exists p.
    unfold payload. destruct (reader_reads app') as [-> _]. exact Hpay.
Qed.

End Node.

(** Witnesses: a node on the chain of [WorldWitness], asked over the authenticated
    port to build a block. *)
Module ServerWitness.
Import EvMap.Model Envelope.Witness BlockWitness ChainWitness EvmStateWitness StateQueriesWitness.
Import WorldWitness QueriesWitness EngineWitness.
#[local] Existing Instance unit_errors.
#[local] Existing Instance tx_library.
#[local] Existing Instance std_bcs.
#[local] Existing Instance sod_bcs.
#[local] Existing Instance envelopes.
#[local] Existing Instance headers.
#[local] Existing Instance in_memory_callbacks.
#[local] Existing Instance WorldWitness.trie.
#[local] Existing Instance WorldWitness.trie_laws.
#[local] Existing Instance WorldWitness.world_library.
#[local] Existing Instance WorldWitness.block_executor.
#[local] Existing Instance WorldWitness.app_library.
#[local] Existing Instance QueriesWitness.library.
#[local] Existing Instance EngineWitness.numbers.
#[local] Existing Instance EngineWitness.engine_json.
#[local] Existing Instance PayloadWitness.lib.

Definition no_value {A} : FromValue A := MkFromValue "" (λ _, Err "unsupported"%string).
#[local] Instance api_json : ApiJson := {|
  address_value := no_value; tag_value := no_value; block_id_value := no_value; bool_value := no_value;
  slots_value := no_value; string_value := no_value; percentiles_value := no_value;
  bytes_value := no_value; request_value := no_value;
  block_json := λ _, Null; transaction_json := λ _, Null; receipt_json := λ _, Null;
  proof_json := λ _, Null; default_fee_history_json := Null;
  display_tag := λ _, ""%string; display_block_id := λ _, ""%string; debug_error := λ _, ""%string;
  decode_envelope := λ _, Err ""%string |}.

Definition build_request : Value :=
  Obj [("method", Str "engine_forkchoiceUpdatedV3"); ("params", Arr [Null; Null]); ("id", Null)]%string.
#[local] Instance http : Http := {|
  Headers := (); Parts := (); Rejection := (); reject := (); header_value := λ _ _, None;
  header_to_str := λ _, None; parse_json := λ _, Some build_request;
  rpc_response_bytes := λ _, []; gunzip := λ _, None; jwt_issued_at := λ _, Some 100 |}.

Definition proxy (_ : Request) (_ : string) : result Rejection (Parts * bytes) := Ok ((), []).
Definition rpc_block : FromValue RpcBlock := no_value.
Definition post : Request := MkRequest "" "" (OtherMethod "POST") () [].
Definition around : Surroundings := MkSurroundings 0 [] [].

(** The public port refuses the request. *)
Definition refused : JsonRpcResponse :=
  MkRpcResponse Null (get_field build_request "jsonrpc") None (Some missing_method).

Lemma requests_send_only_witness :
  rpc_id refused = get_field build_request "id"
  ∧ rpc_jsonrpc refused = get_field build_request "jsonrpc"
  ∧ (is_Some (rpc_result refused) ↔ rpc_error refused = None)
  ∧ (rpc_error refused ≠ None → ([] : list Command) = [])
  ∧ (([] : list Command) = []
     ∨ (asks build_request "eth_sendRawTransaction" ∧ ∃ tx, [] = [AddTransaction tx])
     ∨ (asks build_request "engine_forkchoiceUpdatedV3"
        ∧ is_non_engine_api ForkChoiceUpdatedV3 = true ∧ ∃ attrs id, [] = [StartBlockBuild attrs id]))
  ∧ ∀ name, asks build_request name → String.prefix "engine_" name = true →
      (∀ m, is_engine_api m = true → is_non_engine_api m = false) →
      ([] : list Command) = [] ∧ ∃ e, rpc_error refused = Some e ∧ code e = -32601.
Proof.
  apply (requests_send_only proofs view around fixed_id is_non_engine_api build_request (reader begin)).
  reflexivity.
Defined.

Definition no_params : Value := Obj [].
Lemma quantities_read_back_witness :
  (∃ s, block_number_execute no_params (reader begin) = Done (Ok (Str s))
     ∧ u64_from_str_radix_16 (trim_0x s) = Some (Z.of_nat (length ([] ++ [genesis_entry])) - 1))
  ∧ (∃ s, chain_id_execute (reader begin) = Ok (Str s)
     ∧ u64_from_str_radix_16 (trim_0x s) = Some 404)
  ∧ ∀ id, uint 64 id → ∃ s, payload_id_json (MkSchemaPayloadId id) = Str s
      ∧ String.length s = 18%nat ∧ u64_from_str_radix_16 (trim_0x s) = Some id.
Proof.
  apply (quantities_read_back begin ([] ++ [genesis_entry]) (reader begin) no_params);
    [done|apply begin_history|done|done|done|done].
Defined.

(** ** A run: the request is served, and the actor builds the block *)

Definition the_id : PayloadId :=
  new_payload_id (to_payload_id_input (payload_from_attributes attrs0) (head_block_hash fc0)).
Definition build : Command := StartBlockBuild (payload_from_attributes attrs0) the_id.
Definition node0 : NodeState := MkNode begin None (MkQueue 4 [] true false).
Definition node1 : NodeState := MkNode begin None (MkQueue 4 [build] true false).
Definition node2 : NodeState := MkNode begin (Some build) (MkQueue 4 [] true false).
Definition built_app : Application := match handle_command begin build with Done a => a | Panic => begin end.
Definition node3 : NodeState := MkNode built_app None (MkQueue 4 [] true false).

Lemma built_app_done : handle_command begin build = Done built_app.
Proof.
  assert (match handle_command begin build with Done _ => true | Panic => false end = true) as Hd
    by (vm_compute; reflexivity).
  unfold built_app. by destruct (handle_command begin build).
Qed.

Lemma run_steps : nsteps (quiet_step proofs view rpc_block proxy reader) 3 node0 node3.
Proof.
  eapply nsteps_l; [|eapply nsteps_l; [|eapply nsteps_l; [|constructor]]].
  - exists [build]. split; [by constructor|].
    apply (step_request proofs view rpc_block proxy reader node0 [build]); [|done].
    exists around, post. eexists. right. exists 120, (Some ""%string). vm_compute. reflexivity.
  - exists []. split; [done|]. by apply (step_recv _ _ _ _ _ begin _ build).
  - exists []. split; [done|]. apply step_handle, built_app_done.
Qed.

Lemma node_keeps_chain_witness : ∃ log', History (nd_app node3) log'
  ∧ rtc chain_step ([] ++ [genesis_entry]) log' ∧ ([] ++ [genesis_entry]) `prefix_of` log'
  ∧ (length (q_buffered (nd_queue node3)) ≤ q_capacity (nd_queue node3))%nat.
Proof.
  apply (node_keeps_chain proofs view rpc_block proxy reader [] genesis_entry node0 3 node3);
    [by split|apply block_gas_typed|apply begin_history|done|done|done|apply run_steps|done].
Defined.

Lemma accepted_work_completes_witness :
  (∃ n q, (n ≤ 2 * length (pending node2))%nat
     ∧ nsteps (actor_step proofs view rpc_block proxy reader) n node2 (MkNode built_app None q)
     ∧ q_buffered q = [])
  ∧ ∀ attrs id, StartBlockBuild attrs id ∈ pending node2 → ∃ p, payload (reader built_app) id = Some p.
Proof.
  apply (accepted_work_completes proofs view rpc_block proxy reader (λ _, conj eq_refl eq_refl) node2 []
    genesis_entry built_app);
    [by split|apply block_gas_typed|apply begin_history|by constructor|done|].
  change (work begin [build] = Done built_app). cbn [work]. by rewrite built_app_done.
Defined.

Lemma ports_are_guarded_witness : ∃ token iat, Some ""%string = Some token
  ∧ jwt_issued_at (trim_bearer (String.length token) token) = Some iat ∧ (uint 64 iat → 120 ≤ iat + 60).
Proof.
  eapply (proj2 (ports_are_guarded proofs view rpc_block proxy around post (reader begin)) 120
    (Some ""%string) _ [build]); [vm_compute; reflexivity|done].
Defined.

(** ** A start *)

Definition fresh_app : Application :=
  MkApplication ∅ (MkEip1559GasFee 6 50) ev_new shared_memory_new (MkState () ∅ None) (MkRepository ∅).
Definition genesis_changes (_ : InMemoryStorageTrieRepository) : exec (ChangeSet * StorageTriesChanges) :=
  Done (account_change 1, tries_empty).
Definition started : Application :=
  match initialize_app genesis_changes (block_root genesis_entry) fresh_app with
  | Done a => a | Panic => fresh_app end.

Lemma node_starts_witness :
  Application.state_root (state started) = block_root genesis_entry
  ∧ work started [GenesisUpdate genesis_block] = Done (genesis_update started genesis_block)
  ∧ History (genesis_update started genesis_block) [MkEntry genesis_block [] []]
  ∧ ∀ build' root', initialize_app build' root' (genesis_update started genesis_block)
      = Done (genesis_update started genesis_block).
Proof.
  apply (node_starts genesis_changes (block_root genesis_entry) fresh_app); [|done|done|done].
  assert (match initialize_app genesis_changes (block_root genesis_entry) fresh_app with
    | Done _ => true | Panic => false end = true) as Hd by (vm_compute; reflexivity).
  unfold started. by destruct (initialize_app genesis_changes (block_root genesis_entry) fresh_app).
Defined.

End ServerWitness.
