(* ===== verification/Genesis.v ===== *)
(** The genesis state ([genesis/src/lib.rs], [framework.rs], [l2_contracts.rs],
    [config.rs]): the modules of the Aptos and Sui frameworks, the L2 contracts and
    the bridged tokens, as one change set that is applied when a node starts.

    The compiled packages are arguments.  Verifying and staging modules, and the
    sessions that initialise them, belong to the Move VM ([FrameworkLibrary]). *)
From S2P Require Import Prelude Primitives MoveTypes Errors Envelope EvMap.
From S2P Require Import Transactions Fees BaseFee Receipts Payloads Blocks Application Chain.
From S2P Require Import MoveVm EthToken Events Storage StateTree GenesisImage EvmState EvmCalls.
From S2P Require Import StateQueries World SolidityAbi Rpc BridgedTokens Engine Api Server.
Import Addresses.

Local Open Scope Z_scope.

(** ** Addresses *)

(** Source: genesis/src/framework.rs 60-68 [eth_address] *)
Definition eth_address (value : Address) : AccountAddress := replicate 12 0 ++ value.

(** Source: genesis/src/framework.rs 70-74 [small_account_address] *)
Definition small_account_address (value : Z) : AccountAddress := replicate 31 0 ++ [value].

(** Source: genesis/src/framework.rs 76-78 [small_object_id] *)
Definition small_object_id (value : Z) : bytes := replicate 31 0 ++ [value].

(** Source: genesis/src/framework.rs 31 [L2_PACKAGE_NAME] *)
Definition L2_PACKAGE_NAME : string := "L2".
(** Source: genesis/src/framework.rs 33-34 [L2_LOWEST_ADDRESS] *)
Definition L2_LOWEST_ADDRESS : AccountAddress := eth_address ([66] ++ replicate 19 0).
(** Source: genesis/src/framework.rs 35-36 [L2_HIGHEST_ADDRESS] *)
Definition L2_HIGHEST_ADDRESS : AccountAddress := eth_address ([66] ++ replicate 18 0 ++ [255]).
(** Source: genesis/src/framework.rs 37 [TOKEN_ADDRESS] *)
Definition TOKEN_ADDRESS : AccountAddress := small_account_address 19.
(** Source: genesis/src/framework.rs 38 [TOKEN_OBJECT_ADDRESS] *)
Definition TOKEN_OBJECT_ADDRESS : AccountAddress := small_account_address 20.
(** Source: genesis/src/framework.rs 39 [SUI_STDLIB_ADDRESS] *)
Definition SUI_STDLIB_ADDRESS : AccountAddress := small_account_address 33.
(** Source: genesis/src/framework.rs 40 [SUI_FRAMEWORK_ADDRESS] *)
Definition SUI_FRAMEWORK_ADDRESS : AccountAddress := small_account_address 34.
(** Source: genesis/src/framework.rs 41 [SUI_STDLIB_PACKAGE_ID] *)
Definition SUI_STDLIB_PACKAGE_ID : bytes := small_object_id 33.
(** Source: genesis/src/framework.rs 42 [SUI_FRAMEWORK_PACKAGE_ID] *)
Definition SUI_FRAMEWORK_PACKAGE_ID : bytes := small_object_id 34.

(** A package of the Aptos bundle: its name, its metadata in BCS, and its modules
    in dependency order with their ids. *)
Record ReleasePackage := MkPackage {
  package_name : string; package_metadata : option bytes; sorted_modules : list (bytes * ModuleId) }.
(** The packages of the Sui snapshot by their ids, as the bytes of their modules. *)
Abbreviation SuiPackages := (list (bytes * list bytes)).

Class FrameworkLibrary `{WorldLibrary} := {
  VMError : Type;
  (** [InMemoryStorage::new], and the resolver it is. *)
  vm_resolver_new : VmResolver;
  move_resolver : VmResolver → Resolver;
  (** [StagingModuleStorage::create] on the modules of the state, and the bundle
      it releases. *)
  stage_modules : VmResolver → AccountAddress → list bytes → result VMError (list (ModuleId * bytes));
  (** Sessions on a state. *)
  Session : Type;
  create_session : VmResolver → result VMError Session;
  execute_function : VmResolver → ModuleId → string → list bytes → Session → result VMError Session;
  finish_changes : VmResolver → Session → result VMError ChangeSet;
  (** BCS of [MoveValue::Signer]. *)
  signer_bytes : AccountAddress → option bytes;
}.

(** Staged modules are published at the account they were staged for; a session
    without a publication publishes none. *)
Class FrameworkLaws `{FrameworkLibrary, EffectsOps} : Prop := {
  stage_modules_at r a code bundle : stage_modules r a code = Ok bundle →
    Forall (λ m, module_address m.1 = a) bundle;
  finish_changes_ordered r s cs : finish_changes r s = Ok cs → changes_ordered cs;
  finish_changes_modules r s cs a n : finish_changes r s = Ok cs → key_op cs a (inl n) = None;
}.

Section Framework.
Context `{FrameworkLibrary, EthTrie, !EffectsOps}.

Abbreviation FwState := (InMemoryState VmResolver).

(** [State::apply] of the in-memory state. *)
Definition fw_apply (state : FwState) (changes : ChangeSet) : exec FwState :=
  applied ← StateTree.state_apply tree_values_order vm_resolver_apply state changes;
  unwrap applied.

(** Source: genesis/src/framework.rs 315-323 [convert_bundle_into_module_ops] *)
Fixpoint add_bundle (bundle : list (ModuleId * bytes)) (writes : ChangeSet) : exec ChangeSet :=
  match bundle with
  | [] => Done writes
  | (module_id, bytes) :: bundle =>
    writes ← expect (cs_add_module_op (module_address module_id) (module_name module_id) (ChNew bytes) writes);
    add_bundle bundle writes
  end.
Definition convert_bundle_into_module_ops (bundle : list (ModuleId * bytes)) : exec ChangeSet :=
  add_bundle bundle [].

(** Source: genesis/src/framework.rs 116-139 [initialize_eth_token] *)
Definition initialize_eth_token (state : FwState) : exec (result VMError ChangeSet) :=
  session ←? Done (create_session (resolver state));
  arg ← expect (signer_bytes FRAMEWORK_ADDRESS);
  session ←? Done (execute_function (resolver state) (MkModuleId FRAMEWORK_ADDRESS "eth_token") "init_module"
    [arg] session);
  Done (finish_changes (resolver state) session).

(** Source: genesis/src/framework.rs 141-167 [initialize_package] *)
Definition initialize_package (state : FwState) (addr : AccountAddress) (package : ReleasePackage)
    (session : Session) : exec Session :=
  framework ← expect (signer_bytes FRAMEWORK_ADDRESS);
  signer ← expect (signer_bytes addr);
  metadata ← expect (package_metadata package);
  unwrap (execute_function (resolver state) (MkModuleId FRAMEWORK_ADDRESS "code") "initialize"
    [framework; signer; metadata] session).

(** The modules of the L2 package, each at its own address.
    Source: genesis/src/framework.rs 182-196 [deploy_aptos_framework] *)
Fixpoint l2_package_writes (state : FwState) (modules : list (bytes * ModuleId)) (l2_writes : ChangeSet)
    : exec (result VMError ChangeSet) :=
  match modules with
  | [] => Done (Ok l2_writes)
  | (code, id) :: modules =>
    let sender := module_address id in
    assert_or_panic (bytes_le L2_LOWEST_ADDRESS sender && bytes_le sender L2_HIGHEST_ADDRESS);;
    bundle ←? Done (stage_modules (resolver state) sender [code]);
    single ← convert_bundle_into_module_ops bundle;
    l2_writes ← expect (cs_squash l2_writes single);
    l2_package_writes state modules l2_writes
  end.

(** The other packages, at the address of their first module.
    Source: genesis/src/framework.rs 197-222 [deploy_aptos_framework] *)
Definition framework_package_writes (state : FwState) (modules : list (bytes * ModuleId))
    : exec (result VMError ChangeSet) :=
  first ← expect (head modules);
  let sender := module_address first.2 in
  assert_or_panic (bool_decide (sender = FRAMEWORK_ADDRESS) || bool_decide (sender = TOKEN_ADDRESS)
    || bool_decide (sender = TOKEN_OBJECT_ADDRESS));;
  bundle ←? Done (stage_modules (resolver state) sender modules.*1);
  writes ← convert_bundle_into_module_ops bundle;
  Done (Ok writes).

(** Source: genesis/src/framework.rs 179-222 [deploy_aptos_framework] *)
Definition package_writes (state : FwState) (package : ReleasePackage) : exec (result VMError ChangeSet) :=
  if bool_decide (package_name package = L2_PACKAGE_NAME)
  then l2_package_writes state (sorted_modules package) []
  else framework_package_writes state (sorted_modules package).

(** The writes of a package are applied so that the next can link against it, and
    collected.
    Source: genesis/src/framework.rs 175-230 [deploy_aptos_framework] *)
Fixpoint deploy_packages (state : FwState) (packages : list ReleasePackage) (framework_writes : ChangeSet)
    : exec (result VMError (ChangeSet * FwState)) :=
  match packages with
  | [] => Done (Ok (framework_writes, state))
  | package :: packages =>
    writes ←? package_writes state package;
    state ← fw_apply state writes;
    framework_writes ← expect (cs_squash framework_writes writes);
    deploy_packages state packages framework_writes
  end.

(** Source: genesis/src/framework.rs 240-255 [deploy_aptos_framework] *)
Fixpoint initialize_packages (state : FwState) (packages : list ReleasePackage) (session : Session)
    : exec Session :=
  match packages with
  | [] => Done session
  | pack :: packages =>
    first ← expect (head (sorted_modules pack));
    session ← initialize_package state (module_address first.2) pack session;
    initialize_packages state packages session
  end.

(** Source: genesis/src/framework.rs 169-261 [deploy_aptos_framework] *)
Definition deploy_aptos_framework (framework : list ReleasePackage) (state : FwState)
    : exec (result VMError (ChangeSet * FwState)) :=
  '(framework_writes, state) ←? deploy_packages state framework [];
  session ←? Done (create_session (resolver state));
  session ← initialize_packages state framework session;
  session_changes ←? Done (finish_changes (resolver state) session);
  framework_writes ← expect (cs_squash framework_writes session_changes);
  Done (Ok (framework_writes, state)).

(** One package of the Sui framework.
    Source: genesis/src/framework.rs 269-290 [deploy_sui_framework] *)
Definition deploy_sui_package (snapshots : SuiPackages) (id : bytes) (address : AccountAddress)
    (state : FwState) (total_writes : ChangeSet) : exec (result VMError (ChangeSet * FwState)) :=
  package ← expect (assoc id snapshots);
  bundle ←? Done (stage_modules (resolver state) address package);
  writes ← convert_bundle_into_module_ops bundle;
  state ← fw_apply state writes;
  total_writes ← expect (cs_squash total_writes writes);
  Done (Ok (total_writes, state)).

(** Source: genesis/src/framework.rs 263-313 [deploy_sui_framework] *)
Definition deploy_sui_framework (snapshots : SuiPackages) (state : FwState)
    : exec (result VMError (ChangeSet * FwState)) :=
  '(total_writes, state) ←? deploy_sui_package snapshots SUI_STDLIB_PACKAGE_ID SUI_STDLIB_ADDRESS state [];
  deploy_sui_package snapshots SUI_FRAMEWORK_PACKAGE_ID SUI_FRAMEWORK_ADDRESS state total_writes.

(** Source: genesis/src/framework.rs 99-114 [deploy_framework] *)
Definition deploy_framework (aptos : list ReleasePackage) (sui : SuiPackages) (state : FwState)
    : exec (result VMError (ChangeSet * FwState)) :=
  '(aptos_changeset, state) ←? deploy_aptos_framework aptos state;
  eth_changeset ←? initialize_eth_token state;
  '(sui_changeset, state) ←? deploy_sui_framework sui state;
  aptos_changeset ← expect (cs_squash aptos_changeset eth_changeset);
  aptos_changeset ← expect (cs_squash aptos_changeset sui_changeset);
  Done (Ok (aptos_changeset, state)).

(** Source: genesis/src/framework.rs 91-93 [init_state] *)
Definition init_state (aptos : list ReleasePackage) (sui : SuiPackages) (state : FwState)
    : exec (ChangeSet * FwState) :=
  r ← deploy_framework aptos sui state; unwrap r.

End Framework.

(** ** Where the modules are *)

Section Placed.
Context `{FrameworkLaws, EthTrie, !EffectsOpsLaws}.

(** The addresses of the frameworks and the range of the L2 contracts. *)
Definition Placed (a : AccountAddress) : Prop :=
  a ∈ [FRAMEWORK_ADDRESS; TOKEN_ADDRESS; TOKEN_OBJECT_ADDRESS; SUI_STDLIB_ADDRESS; SUI_FRAMEWORK_ADDRESS]
  ∨ bytes_le L2_LOWEST_ADDRESS a && bytes_le a L2_HIGHEST_ADDRESS = true.

(** An ordered change set with modules at placed addresses only. *)
Definition placed_changes (cs : ChangeSet) : Prop :=
  changes_ordered cs ∧ ∀ a n, is_Some (key_op cs a (inl n)) → Placed a.

Lemma placed_empty : placed_changes [].
Proof. split; [split; constructor|]. by intros a n [? ?]. Qed.

Lemma placed_squash cs1 cs2 cs : placed_changes cs1 → placed_changes cs2 → cs_squash cs1 cs2 = Some cs →
  placed_changes cs.
Proof.
  intros [O1 P1] [O2 P2] Hs. destruct (cs_squash_ops _ _ _ O1 O2 Hs) as [Ho Hk]. split; [done|].
  intros a n Hn. destruct (Hk a (inl n) Hn); eauto.
Qed.

Lemma placed_session r s cs : finish_changes r s = Ok cs → placed_changes cs.
Proof.
  intros Hf. split; [by eapply finish_changes_ordered|]. intros a n.
  rewrite (finish_changes_modules _ _ _ a n Hf). by intros [? ?].
Qed.

Lemma placed_bundle bundle : ∀ writes writes', Forall (λ m, Placed (module_address m.1)) bundle →
  placed_changes writes → add_bundle bundle writes = Done writes' → placed_changes writes'.
Proof.
  induction bundle as [|[id code] bundle IH]; intros writes writes' Hb Hw Ha.
  - by injection Ha as <-.
  - apply Forall_cons in Hb as [Hid Hb]. apply bind_Done in Ha as (w & Hadd%expect_Done & Ha).
    apply (IH w writes' Hb); [|done]. destruct Hw as [Ho Hp].
    assert (cs_add (module_address id) (inl (module_name id)) (ChNew code) writes = Some w) as Hc by done.
    destruct (key_op writes (module_address id) (inl (module_name id))) eqn:Hk.
    { rewrite cs_add_taken in Hc; [done|rewrite Hk; by eexists]. }
    destruct (cs_add_fresh _ _ (ChNew code) _ Ho Hk) as (w' & Hw' & Ho' & Hk' & _). simplify_eq.
    split; [done|]. intros a n. rewrite Hk'. case_decide as E; [by injection E as -> _|]. apply Hp.
Qed.

Lemma placed_stage r a code bundle writes : Placed a → stage_modules r a code = Ok bundle →
  convert_bundle_into_module_ops bundle = Done writes → placed_changes writes.
Proof.
  intros Ha Hs. apply placed_bundle; [|apply placed_empty].
  eapply Forall_impl; [by eapply stage_modules_at|]. by intros m ->.
Qed.

Lemma placed_l2 state modules : ∀ writes writes', placed_changes writes →
  l2_package_writes state modules writes = Done (Ok writes') → placed_changes writes'.
Proof.
  induction modules as [|[code id] modules IH]; intros writes writes' Hw Hl.
  - by injection Hl as <-.
  - cbn [l2_package_writes] in Hl. destruct (_ && _) eqn:Hr in Hl; [|done]. cbn [assert_or_panic mbind exec_bind] in Hl.
    apply qbind_Ok in Hl as (bundle & Hs & Hl). injection Hs as Hs.
    apply bind_Done in Hl as (single & Hc & Hl). apply bind_Done in Hl as (w & Hq%expect_Done & Hl).
    apply (IH w writes'); [|done]. eapply placed_squash; [exact Hw| |exact Hq].
    eapply placed_stage; [|exact Hs|exact Hc]. by right.
Qed.

Lemma placed_package state package writes :
  package_writes state package = Done (Ok writes) → placed_changes writes.
Proof.
  unfold package_writes. case_bool_decide as Hn; [apply placed_l2, placed_empty|].
  unfold framework_package_writes. intros (first & _ & Hp)%bind_Done.
  destruct (_ || _) eqn:Hr in Hp; [|done]. cbn [assert_or_panic mbind exec_bind] in Hp.
  apply qbind_Ok in Hp as (bundle & Hs & Hp). injection Hs as Hs.
  apply bind_Done in Hp as (w & Hc & Hp). injection Hp as ->.
  eapply placed_stage; [|exact Hs|exact Hc]. left.
  rewrite !orb_true_iff, !bool_decide_eq_true in Hr. rewrite !elem_of_cons. tauto.
Qed.

Lemma placed_packages packages : ∀ state writes writes' state', placed_changes writes →
  deploy_packages state packages writes = Done (Ok (writes', state')) → placed_changes writes'.
Proof.
  induction packages as [|package packages IH]; intros state writes writes' state' Hw Hd.
  - by injection Hd as <- <-.
  - apply qbind_Ok in Hd as (w & Hp & Hd). apply bind_Done in Hd as (s & _ & Hd).
    apply bind_Done in Hd as (fw & Hq%expect_Done & Hd). eapply IH; [|exact Hd].
    eapply placed_squash; [exact Hw|by eapply placed_package|exact Hq].
Qed.

Lemma placed_sui snapshots id a state total writes state' : Placed a → placed_changes total →
  deploy_sui_package snapshots id a state total = Done (Ok (writes, state')) → placed_changes writes.
Proof.
  intros Ha Ht (package & _ & Hd)%bind_Done. apply qbind_Ok in Hd as (bundle & Hs & Hd). injection Hs as Hs.
  apply bind_Done in Hd as (w & Hc & Hd). apply bind_Done in Hd as (s & _ & Hd).
  apply bind_Done in Hd as (t & Hq%expect_Done & Hd). injection Hd as <- <-.
  eapply placed_squash; [exact Ht|by eapply placed_stage|exact Hq].
Qed.

(** The genesis state has framework modules at known addresses only.
    Whatever the bundles hold, either the deployment of the frameworks fails or
    every module it publishes is at one of the five framework addresses or in the
    range of the L2 contracts. *)
Lemma framework_modules_placed aptos sui state changes state' a n :
  init_state aptos sui state = Done (changes, state') →
  is_Some (key_op changes a (inl n)) → Placed a.
Proof.
  intros (r & Hd & ->%unwrap_Done)%bind_Done. revert a n. enough (placed_changes changes) as [_ Hp] by done.
  apply qbind_Ok in Hd as ([aptos_cs s1] & Ha & Hd). apply qbind_Ok in Hd as (eth_cs & He & Hd).
  apply qbind_Ok in Hd as ([sui_cs s2] & Hs & Hd). apply bind_Done in Hd as (cs & Hq1%expect_Done & Hd).
  apply bind_Done in Hd as (cs' & Hq2%expect_Done & Hd). injection Hd as -> ->.
  eapply placed_squash; [eapply placed_squash; [|  |exact Hq1]| |exact Hq2].
  - unfold deploy_aptos_framework in Ha. apply qbind_Ok in Ha as ([fw s3] & Hp & Ha).
    apply qbind_Ok in Ha as (session & _ & Ha). apply bind_Done in Ha as (session' & _ & Ha).
    apply qbind_Ok in Ha as (scs & Hf & Ha). injection Hf as Hf.
    apply bind_Done in Ha as (fw' & Hq%expect_Done & Ha). injection Ha as -> ->.
    eapply placed_squash; [eapply placed_packages; [apply placed_empty|exact Hp]|by eapply placed_session|exact Hq].
  - unfold initialize_eth_token in He. apply qbind_Ok in He as (session & _ & He).
    apply bind_Done in He as (arg & _ & He). apply qbind_Ok in He as (session' & _ & He).
    injection He as He. by eapply placed_session.
  - unfold deploy_sui_framework in Hs. apply qbind_Ok in Hs as ([w s3] & H1' & Hs).
    eapply placed_sui; [|eapply placed_sui; [|apply placed_empty|exact H1']|exact Hs]; left; set_solver.
Qed.

End Placed.

(** ** The configuration *)

(** The gas schedule of Aptos. *)
Class GasSchedule := {
  VMGasParameters : Type; StorageGasParameters : Type; NativeGasParameters : Type;
  vm_gas_initial : VMGasParameters; storage_gas_latest : StorageGasParameters;
  native_gas_initial : NativeGasParameters;
  LATEST_GAS_FEATURE_VERSION : Z;
  set_gas_unit_scaling_factor : Z → VMGasParameters → VMGasParameters;
  set_max_execution_gas : Z → VMGasParameters → VMGasParameters;
  set_min_transaction_gas_units : Z → VMGasParameters → VMGasParameters;
  (** [StandardGasMeter::new] of [StandardGasAlgebra::new]. *)
  StandardGasMeter : Type;
  standard_gas_meter : Z → VMGasParameters → StorageGasParameters → bool → Z → StandardGasMeter;
}.

(** Source: genesis/src/config.rs 18 [EXTERNAL_GAS_SCALE_FACTOR] *)
Definition EXTERNAL_GAS_SCALE_FACTOR : Z := 600.
(** Source: genesis/src/config.rs 27 [INTERNAL_EXECUTION_LIMIT] *)
Definition INTERNAL_EXECUTION_LIMIT : Z := 3000000000.
(** Source: genesis/src/config.rs 33 [TRANSACTION_BASE_COST] *)
Definition TRANSACTION_BASE_COST : Z := 11400000.

Section Config.
Context `{GasSchedule}.

(** Source: genesis/src/config.rs 35-42 [GasCosts] *)
Record GasCosts := MkGasCosts {
  gc_vm : VMGasParameters; gc_storage : StorageGasParameters; gc_natives : NativeGasParameters;
  gc_version : Z }.

(** Source: genesis/src/config.rs 55-68 [GasCosts::default] *)
Definition gas_costs_default : GasCosts :=
  let vm := set_gas_unit_scaling_factor EXTERNAL_GAS_SCALE_FACTOR vm_gas_initial in
  let vm := set_max_execution_gas INTERNAL_EXECUTION_LIMIT vm in
  let vm := set_min_transaction_gas_units TRANSACTION_BASE_COST vm in
  MkGasCosts vm storage_gas_latest native_gas_initial LATEST_GAS_FEATURE_VERSION.

(** The accounts of the L2 genesis are what is read of it.
    Source: genesis/src/config.rs 44-53 [GenesisConfig] *)
Record GenesisConfig := MkGenesisConfig {
  cfg_chain_id : Z; cfg_initial_state_root : B256; cfg_gas_costs : GasCosts; cfg_treasury : AccountAddress;
  cfg_l2_contract_genesis : list (Address * GenesisAccount); cfg_token_list : list BridgedToken }.

(** [l2_genesis] is the parsed default genesis of the L2 contracts, [tokens] the
    default token list.
    Source: genesis/src/config.rs 70-87 [GenesisConfig::default] *)
Definition genesis_config_default `{TokenLibrary}
    (l2_genesis : option (list (Address * GenesisAccount))) (tokens : TokenList)
    : exec GenesisConfig :=
  l2_contract_genesis ← expect l2_genesis;
  token_list ← unwrap (parse_token_list tokens);
  Done (MkGenesisConfig Events.CHAIN_ID
    (be_bytes 32 0x4805267476cb522274ec2fe790b4dc6e889ed0d57377f90770d4a658f6b8e4ae) gas_costs_default address_one l2_contract_genesis token_list).

(** Source: execution/src/gas.rs 14-25 [new_gas_meter] *)
Definition new_gas_meter (genesis_config : GenesisConfig) (gas_limit : Z) : StandardGasMeter :=
  let gas_costs := cfg_gas_costs genesis_config in
  standard_gas_meter (gc_version gas_costs) (gc_vm gas_costs) (gc_storage gas_costs) false gas_limit.

End Config.

(** ** The genesis state *)

Section Build.
Context `{FrameworkLibrary, EthTrie, !EffectsOps, !EvmStateLibrary, !ChangeSetLibrary, !Revm}.
Context `{!JsonNumbers, !TokenLibrary, !DeployLibrary, !SolCodec, !GasSchedule}.

(** Source: genesis/src/l2_contracts.rs 7-13 [init_state] *)
Definition l2_init_state (genesis : list (Address * GenesisAccount)) (state : InMemoryState VmResolver)
    (storage_trie : InMemoryStorageTrieRepository) : exec SessionChanges :=
  genesis_state_changes (move_resolver (resolver state)) storage_trie genesis.

(** Source: genesis/src/lib.rs 27-57 [build] *)
Definition build (aptos : list ReleasePackage) (sui : SuiPackages) (config : GenesisConfig)
    (storage_trie : InMemoryStorageTrieRepository)
    : exec (ChangeSet * TableChangeSet * StorageTriesChanges) :=
  let state := MkState vm_resolver_new ∅ None in
  '(changes_framework, state) ← init_state aptos sui state;
  changes_l2 ← l2_init_state (cfg_l2_contract_genesis config) state storage_trie;
  changes_l2 ← match cfg_token_list config with
    | [] => Done changes_l2
    | _ => deployed ← deploy_bridged_tokens changes_l2 (cfg_token_list config); unwrap deployed
    end;
  changes ← expect (cs_squash [] changes_framework);
  changes ← expect (cs_squash changes (sc_accounts changes_l2));
  Done (changes, MkTableChangeSet [] [] [], sc_storage changes_l2).

Context `{!TxLibrary, EnvelopeLibrary, !HeaderLibrary, EvMap}.

(** Source: genesis/src/lib.rs 84-99 [build_and_apply] *)
Definition build_and_apply (aptos : list ReleasePackage) (sui : SuiPackages) (config : GenesisConfig)
    (app : Application) : exec Application :=
  '(changes, _, evm_storage_changes) ← build aptos sui config (evm_storage app);
  genesis_apply changes evm_storage_changes (cfg_initial_state_root config) app.

End Build.

(** Witness: bundles of one module, sessions that change nothing. *)
Module GenesisWitness.
Import Envelope.Witness EvmStateWitness WorldWitness GenesisImageWitness.
#[local] Existing Instance unit_errors.
#[local] Existing Instance trie.
#[local] Existing Instance world_library.
#[local] Existing Instance list_effects.
#[local] Existing Instance list_effects_order.
#[local] Existing Instance list_effects_laws.

#[local] Instance small_framework : FrameworkLibrary := {|
  VMError := (); vm_resolver_new := (); move_resolver := λ _, MkResolver _ (λ _ _, Done (Ok None)) (λ _ _, Done (Ok (None, 0)));
  stage_modules := λ _ a code, Ok ((λ c, (MkModuleId a "module", c)) <$> code);
  Session := (); create_session := λ _, Ok (); execute_function := λ _ _ _ _ s, Ok s;
  finish_changes := λ _ _, Ok []; signer_bytes := Some |}.

#[local] Instance small_framework_laws : FrameworkLaws.
Proof.
  split; simpl.
  - intros _ a code bundle [= <-]. apply Forall_fmap, Forall_true. done.
  - intros _ _ cs [= <-]. split; constructor.
  - by intros _ _ cs a n [= <-].
Qed.

Definition bundles : list ReleasePackage :=
  [MkPackage "MoveStdlib" (Some []) [([1], MkModuleId address_one "vector")];
   MkPackage "L2" (Some []) [([2], MkModuleId L2_LOWEST_ADDRESS "predeploy")]].
Definition snapshots : SuiPackages := [(SUI_STDLIB_PACKAGE_ID, [[3]]); (SUI_FRAMEWORK_PACKAGE_ID, [[4]])].
Definition deployed : ChangeSet :=
  match init_state bundles snapshots (MkState () ∅ None) with Done (cs, _) => cs | Panic => [] end.
Definition deployed_state : InMemoryState () :=
  match init_state bundles snapshots (MkState () ∅ None) with Done (_, s) => s | Panic => MkState () ∅ None end.

Lemma framework_modules_placed_witness : is_Some (key_op deployed L2_LOWEST_ADDRESS (inl "module"%string))
  ∧ Placed L2_LOWEST_ADDRESS.
Proof.
  assert (is_Some (key_op deployed L2_LOWEST_ADDRESS (inl "module"%string))) as Hk by (vm_compute; by eexists).
  split; [exact Hk|]. refine (framework_modules_placed bundles snapshots (MkState () ∅ None) deployed deployed_state
    L2_LOWEST_ADDRESS "module" _ Hk).
  assert (match init_state bundles snapshots (MkState () ∅ None) with Done _ => true | Panic => false end = true)
    as Hd by (vm_compute; reflexivity).
  unfold deployed, deployed_state. by destruct (init_state _ _ _) as [[]|].
Defined.

(** A module at another address makes the deployment fail. *)
Example elsewhere : init_state [MkPackage "Other" (Some []) [([1], MkModuleId [9] "m")]] snapshots
  (MkState () ∅ None) = Panic.
Proof. reflexivity. Qed.

End GenesisWitness.
