(* ===== verification/Node.v ===== *)
(** The parts put together: the executor of [execution/src] drives the block
    builder of [app/src], and the chain it builds is what the EVM sees through
    its block hashes. *)
From S2P Require Import Prelude Primitives MoveTypes Errors Envelope EvMap.
From S2P Require Import Transactions Fees BaseFee Receipts Payloads Blocks Application Chain.
From S2P Require Import MoveVm EthToken ToyVm Nonces Events TagValidation Execution.

Local Open Scope Z_scope.

Section Node.
Context `{ErrorTypes, !TxLibrary, EnvelopeLibrary, HeaderLibrary, EvMapLaws, !AppLibrary}.
Context `{!WorldState, !VmTypes, !MoveVm, !ExecutionLibrary}.
Context `{!Bcs SerializableTransactionData, !Bcs ScriptOrDeployment}.
Context (genesis_config : GenesisConfig) (base_token : MovedBaseTokenAccounts).

#[local] Instance executor : Executor := moved_executor genesis_config base_token.

(** The gas meter counts in [u64]s and the scaling factor is positive. *)
Definition MeterTyped : Prop :=
  0 < scaling_factor
  ∧ ∀ g, 0 ≤ execution_gas_used g ∧ 0 ≤ io_gas_used g ∧ 0 ≤ storage_fee_used_in_gas_units g.

Lemma total_gas_used_typed g used : MeterTyped → total_gas_used g = Done used → uint 64 used.
Proof.
  intros [Hs Hg] Hu. specialize (Hg g) as (Ha & Hb & Hc). unfold total_gas_used, div_exec in Hu.
  case_decide; [done|]. injection Hu as <-.
  set (total := sat_add 64 _ _).
  assert (uint 64 total) as [Elo Ehi].
  { apply sat_add_uint; [done| |done]. by apply sat_add_uint. }
  split; [by apply Z.div_pos|]. apply Z.div_lt_upper_bound; [done|]. nia.
Qed.

(** The executor reports gas as the block builder expects it. *)
Lemma moved_gas_typed : MeterTyped → GasTyped.
Proof.
  intros Hm i o Ho. destruct i as [input|input]; simpl in Ho;
    change (execute_transaction ?x) with (execute_one genesis_config base_token x) in Ho; simpl in Ho.
  - unfold execute_deposited_transaction in Ho. destruct create_move_vm; [|done].
    apply bind_Done in Ho as (to & _ & Ho). apply bind_Done in Ho as (args & _ & Ho).
    apply bind_Done in Ho as ([outcome v] & _ & Ho).
    destruct outcome as [l|[u|c|x]]; try done;
      apply bind_Done in Ho as (fin & _ & Ho); destruct fin as [[ch lg]|]; try done;
      apply bind_Done in Ho as (g & Hg & Ho); injection Ho as <-; by eapply total_gas_used_typed.
  - unfold execute_canonical_transaction in Ho. destruct (parse_from _); [|done].
    destruct create_move_vm; [|done].
    apply bind_Done in Ho as ([ver v1] & _ & Ho). destruct ver as [[]|]; [|done].
    apply bind_Done in Ho as ([[out pl] v2] & _ & Ho). apply bind_Done in Ho as (g & Hg & Ho).
    apply bind_Done in Ho as ([ref v3] & _ & Ho). destruct ref as [[]|]; [|done].
    apply bind_Done in Ho as (fin & _ & Ho). destruct fin as [[ch lg]|]; [|done].
    destruct out as [[]|[u|c|x]]; try done; injection Ho as <-; by eapply total_gas_used_typed.
Qed.

Context `{!Callbacks}.

(** While block number [n] is built, the EVM reads as the hash of
    block [i] the hash of the chain's block at that height exactly when it is
    one of the 256 blocks before it, and zero for every other number: older
    blocks, the block itself and the future. *)
Lemma evm_sees_block_hashes app log n i :
  History app log → n = Z.of_nat (length log) → 0 ≤ i →
  block_hash_ref (hash_by_number (storage app)) n i =
    if decide (n - 256 ≤ i < n)
    then match log !! Z.to_nat i with Some e => hash (en_block e) | None => replicate 32 0 end
    else replicate 32 0.
Proof.
  intros Hh Hn Hi. unfold block_hash_ref, sat_sub.
  destruct (decide (n - 256 ≤ i < n)) as [[Hlo Hhi]|Hout].
  - rewrite (proj2 (Z.leb_le (Z.max (n - 256) 0) i)) by lia.
    rewrite (proj2 (Z.ltb_lt i n)) by lia. simpl.
    destruct (log !! Z.to_nat i) as [e|] eqn:He; [|apply lookup_ge_None in He; lia].
    unfold hash_by_number. rewrite <- (Z2Nat.id i) by done.
    rewrite (by_height_linked _ (en_block <$> log) (Z.to_nat i) (en_block e)); [done| | |].
    + apply (hist_blocks _ _ Hh).
    + apply (hist_linked _ _ Hh).
    + by rewrite list_lookup_fmap, He.
  - destruct (Z.leb_spec (Z.max (n - 256) 0) i), (Z.ltb_spec i n); simpl; try done. lia.
Qed.

End Node.

(** Witness: the hash of the genesis block while block 1 is built. *)
Module NodeWitness.
Import EvMap.Model Envelope.Witness BlockWitness ChainWitness.
#[local] Existing Instance unit_errors.
#[local] Existing Instance tx_library.
#[local] Existing Instance envelopes.
#[local] Existing Instance headers.
#[local] Existing Instance world.

Lemma evm_sees_block_hashes_witness :
  block_hash_ref (hash_by_number (storage start)) 1 0 =
    if decide (1 - 256 ≤ 0 < 1)
    then match [MkEntry genesis [] []] !! Z.to_nat 0 with
         | Some e => hash (en_block e) | None => replicate 32 0 end
    else replicate 32 0.
Proof. apply (evm_sees_block_hashes start [MkEntry genesis [] []] 1 0); [apply start_history|done|done]. Defined.

End NodeWitness.
