(* ===== verification/Dependencies.v ===== *)
(** The wiring of a node ([app/src/dependency.rs], [server/src/dependency]): the
    stores a process has, the handles the application and its readers hold on
    them, and the three back ends that hand them out.

    Values without state (the queries and repositories of the stores, the fee
    functions) are the functions of the other files; the hooks of the back ends
    are in [Application], [RocksDb], [RocksState], [Heed] and [HeedState]. *)
From S2P Require Import Prelude Primitives MoveTypes Errors Envelope EvMap.
From S2P Require Import Transactions Fees BaseFee Receipts Payloads Blocks Application Chain.
From S2P Require Import MoveVm EthToken ToyVm Nonces Events TagValidation Execution.
From S2P Require Import Storage StateTree GenesisImage EvmState EvmCalls StateQueries World Queries.
From S2P Require Import Columns RocksDb RocksState Heed HeedState Rpc BridgedTokens Engine Api Server.
From S2P Require Import Genesis.

Local Open Scope Z_scope.

(** ** Programs over the stores of a process *)

(** Code that may create stores or panic. *)
Definition prog (W A : Type) : Type := W → exec (A * W).
#[export] Instance prog_ret {W} : MRet (prog W) := λ A a w, Done (a, w).
#[export] Instance prog_bind {W} : MBind (prog W) := λ A B f m w,
  match m w with Done (a, w) => f a w | Panic => Panic end.
Definition lift {W A} (m : exec A) : prog W A := λ w, a ← m; Done (a, w).

Lemma prog_bind_Done {W A B} (m : prog W A) (f : A → prog W B) w r :
  (m ≫= f) w = Done r ↔ ∃ a w', m w = Done (a, w') ∧ f a w' = Done r.
Proof. unfold mbind, prog_bind. destruct (m w) as [[a w']|]; naive_solver. Qed.

Lemma prog_bind_step {W A B} (m : prog W A) (f : A → prog W B) w a w' r :
  m w = Done (a, w') → f a w' = r → (m ≫= f) w = r.
Proof. unfold mbind, prog_bind. by intros -> <-. Qed.

(** Source: server/src/lib.rs 53-53 [EIP1559_ELASTICITY_MULTIPLIER] *)
Definition EIP1559_ELASTICITY_MULTIPLIER : Z := 6.
(** Source: server/src/lib.rs 54-54 [EIP1559_BASE_FEE_MAX_CHANGE_DENOMINATOR] *)
Definition EIP1559_BASE_FEE_MAX_CHANGE_DENOMINATOR : Z := 250.

(** Source: server/src/dependency/shared.rs 13-18 [base_gas_fee] *)
Definition base_gas_fee : exec Eip1559GasFee :=
  BaseFee.new EIP1559_ELASTICITY_MULTIPLIER EIP1559_BASE_FEE_MAX_CHANGE_DENOMINATOR.

(** ** What a back end hands out *)

Section Dependencies.
Context `{GasSchedule}.

(** Source: server/src/dependency/shared.rs 28-30 [base_token_accounts] *)
Definition base_token_accounts (genesis_config : Genesis.GenesisConfig) : MovedBaseTokenAccounts :=
  MkBaseToken (cfg_treasury genesis_config).

(** The handles of a back end with the dependencies [D], in a process with the
    stores [W].
    Source: app/src/dependency.rs 229-247 [Dependencies] *)
Class Dependencies (W D : Type) := {
  PayloadQueriesRef : Type;
  ReceiptStorage : Type;
  SharedStorage : Type;
  ReceiptStorageReader : Type;
  SharedStorageReader : Type;
  StateRef : Type;
  StateQueriesRef : Type;
  StorageTrieRef : Type;
  payload_queries : prog W PayloadQueriesRef;
  (** [&mut self] *)
  receipt_storage : D → prog W (ReceiptStorage * D);
  shared_storage : D → prog W (SharedStorage * D);
  receipt_storage_reader : D → prog W ReceiptStorageReader;
  shared_storage_reader : D → prog W SharedStorageReader;
  state_ref : D → prog W StateRef;
  state_queries : D → Genesis.GenesisConfig → prog W StateQueriesRef;
  storage_trie_repository : prog W StorageTrieRef;
}.

Context {W D : Type} `{!Dependencies W D}.

(** Source: app/src/dependency.rs 10-21 [ApplicationReader] *)
Record ReaderHandles := MkReaderHandles {
  rh_genesis_config : Genesis.GenesisConfig;
  rh_base_token : MovedBaseTokenAccounts;
  rh_payload_queries : PayloadQueriesRef (W:=W) (D:=D);
  rh_receipt_memory : ReceiptStorageReader (W:=W) (D:=D);
  rh_storage : SharedStorageReader (W:=W) (D:=D);
  rh_state_queries : StateQueriesRef (W:=W) (D:=D);
  rh_evm_storage : StorageTrieRef (W:=W) (D:=D);
}.

(** Source: app/src/dependency.rs 42-57 [ApplicationReader::new] *)
Definition application_reader_new (deps : D) (genesis_config : Genesis.GenesisConfig)
    : prog W ReaderHandles :=
  queries ← payload_queries (D:=D);
  receipts ← receipt_storage_reader deps;
  storage ← shared_storage_reader deps;
  states ← state_queries deps genesis_config;
  evm_storage ← storage_trie_repository (D:=D);
  mret (MkReaderHandles genesis_config (base_token_accounts genesis_config) queries receipts storage
    states evm_storage).

(** Source: app/src/dependency.rs 59-84 [Application] *)
Record ApplicationHandles := MkHandles {
  ah_genesis_config : Genesis.GenesisConfig;
  ah_mem_pool : gmap B256 (OpTxEnvelope * L1GasFeeInput);
  ah_gas_fee : Eip1559GasFee;
  ah_base_token : MovedBaseTokenAccounts;
  ah_payload_queries : PayloadQueriesRef (W:=W) (D:=D);
  ah_receipt_memory : ReceiptStorage (W:=W) (D:=D);
  ah_storage : SharedStorage (W:=W) (D:=D);
  ah_receipt_memory_reader : ReceiptStorageReader (W:=W) (D:=D);
  ah_storage_reader : SharedStorageReader (W:=W) (D:=D);
  ah_state : StateRef (W:=W) (D:=D);
  ah_state_queries : StateQueriesRef (W:=W) (D:=D);
  ah_evm_storage : StorageTrieRef (W:=W) (D:=D);
}.

(** Source: app/src/dependency.rs 86-116 [Application::new] *)
Definition application_new (deps : D) (genesis_config : Genesis.GenesisConfig)
    : prog W ApplicationHandles :=
  gas_fee ← lift base_gas_fee;
  queries ← payload_queries (D:=D);
  '(receipts, deps) ← receipt_storage deps;
  '(storage, deps) ← shared_storage deps;
  receipts_reader ← receipt_storage_reader deps;
  storage_reader ← shared_storage_reader deps;
  state ← state_ref deps;
  states ← state_queries deps genesis_config;
  evm_storage ← storage_trie_repository (D:=D);
  mret (MkHandles genesis_config ∅ gas_fee (base_token_accounts genesis_config) queries receipts
    storage receipts_reader storage_reader state states evm_storage).

End Dependencies.

(** ** The stores in memory *)

Section InMemory.
Context `{FrameworkLibrary, EthTrie, GasSchedule, !TxLibrary, EnvelopeLibrary, HeaderLibrary, EvMapLaws}.

(** What an [Arc] or the two handles of a map point to. *)
Inductive Cell :=
| CHashes (m : evmap B256 ExtendedBlock)
| CHeights (m : evmap Z ExtendedBlock)
| CPayloads (m : evmap PayloadId ExtendedBlock)
| CTransactions (m : TransactionMemory)
| CReceipts (m : ReceiptMemory)
| CNodes (nodes : Nodes)
| CStorage (repository : InMemoryStorageTrieRepository).

Abbreviation Loc := nat.
Abbreviation Heap := (gmap Loc Cell).

Definition alloc (c : Cell) : prog Heap Loc := λ h,
  let l := fresh (dom h) in Done (l, <[l := c]> h).

(** [evmap::new]: the two handles of one map. *)
Definition evmap_new (c : Cell) : prog Heap (Loc * Loc) := l ← alloc c; mret (l, l).

(** Source: blockchain/src/block/in_memory.rs 68-73 [BlockMemoryReader] *)
Record BlockMemoryRef := MkBlockRef { br_hashes : Loc; br_heights : Loc; br_payload_ids : Loc }.
(** Source: blockchain/src/in_memory.rs 6-10 [SharedMemoryReader] *)
Record SharedMemoryRef := MkSharedRef { sr_block_memory : BlockMemoryRef; sr_transaction_memory : Loc }.

(** Source: blockchain/src/in_memory.rs 46-59 [shared_memory::new] *)
Definition shared_memory_create : prog Heap (SharedMemoryRef * SharedMemoryRef) :=
  '(r1, w1) ← evmap_new (CHashes ev_new);
  '(r2, w2) ← evmap_new (CHeights ev_new);
  '(r3, w3) ← evmap_new (CPayloads ev_new);
  let bw := MkBlockRef w1 w2 w3 in
  let br := MkBlockRef r1 r2 r3 in
  '(r1, w1) ← evmap_new (CTransactions ev_new);
  mret (MkSharedRef br r1, MkSharedRef bw w1).

(** Source: blockchain/src/receipt/in_memory.rs 95-99 [receipt_memory::new] *)
Definition receipt_memory_create : prog Heap (Loc * Loc) := evmap_new (CReceipts ev_new).

(** Source: server/src/dependency/in_memory.rs 25-31 [InMemoryDependencies] *)
Record InMemoryDependencies := MkInMemory {
  im_memory_reader : SharedMemoryRef;
  im_memory : option SharedMemoryRef;
  im_receipt_memory_reader : Loc;
  im_receipt_memory : option Loc;
  im_trie_db : Loc;
}.

(** Source: server/src/dependency/in_memory.rs 34-46 [InMemoryDependencies::new] *)
Definition in_memory_new : prog Heap InMemoryDependencies :=
  '(memory_reader, memory) ← shared_memory_create;
  '(receipt_memory_reader, receipt_memory) ← receipt_memory_create;
  trie_db ← alloc (CNodes ∅);
  mret (MkInMemory memory_reader (Some memory) receipt_memory_reader (Some receipt_memory) trie_db).

(** Source: server/src/dependency/in_memory.rs 51-59 [InMemoryDependencies::reader] *)
Definition in_memory_reader (self : InMemoryDependencies) : InMemoryDependencies :=
  MkInMemory (im_memory_reader self) None (im_receipt_memory_reader self) None (im_trie_db self).

(** [Option::take] of a writer.
    Source: server/src/dependency/in_memory.rs 119-123 [InMemoryDependencies::receipt_memory] *)
Definition take_receipt_memory (self : InMemoryDependencies) : prog Heap (Loc * InMemoryDependencies) :=
  w ← lift (expect (im_receipt_memory self));
  mret (w, MkInMemory (im_memory_reader self) (im_memory self) (im_receipt_memory_reader self) None
    (im_trie_db self)).

(** Source: server/src/dependency/in_memory.rs 125-129 [InMemoryDependencies::shared_storage] *)
Definition take_shared_storage (self : InMemoryDependencies)
    : prog Heap (SharedMemoryRef * InMemoryDependencies) :=
  w ← lift (expect (im_memory self));
  mret (w, MkInMemory (im_memory_reader self) None (im_receipt_memory_reader self)
    (im_receipt_memory self) (im_trie_db self)).

(** A state and the queries, with their node database behind an [Arc].
    Source: state/src/lib.rs 67-71 [InMemoryState] *)
Record StateHandle := MkStateHandle { sh_resolver : VmResolver; sh_db : Loc; sh_root : option B256 }.
(** Source: blockchain/src/state/read.rs 109-116 [InMemoryStateQueries] *)
Record StateQueriesHandle := MkQueriesHandle {
  qh_memory : SharedMemoryRef; qh_db : Loc; qh_genesis_state_root : B256 }.

(** Source: state/src/lib.rs 90-96 [InMemoryState::new] *)
Definition in_memory_state_new (db : Loc) : StateHandle := MkStateHandle vm_resolver_new db None.

(** Source: server/src/dependency/in_memory.rs 131-153 [InMemoryDependencies] *)
#[export] Instance in_memory_dependencies : Dependencies Heap InMemoryDependencies := {|
  PayloadQueriesRef := ();
  ReceiptStorage := Loc;
  SharedStorage := SharedMemoryRef;
  ReceiptStorageReader := Loc;
  SharedStorageReader := SharedMemoryRef;
  StateRef := StateHandle;
  StateQueriesRef := StateQueriesHandle;
  StorageTrieRef := Loc;
  payload_queries := mret ();
  receipt_storage := take_receipt_memory;
  shared_storage := take_shared_storage;
  receipt_storage_reader := λ self, mret (im_receipt_memory_reader self);
  shared_storage_reader := λ self, mret (im_memory_reader self);
  state_ref := λ self, mret (in_memory_state_new (im_trie_db self));
  state_queries := λ self genesis_config,
    mret (MkQueriesHandle (im_memory_reader self) (im_trie_db self)
      (cfg_initial_state_root genesis_config));
  storage_trie_repository := alloc (CStorage (MkRepository ∅));
|}.

(** Source: server/src/dependency/in_memory.rs 10-23 [create] *)
Definition in_memory_create (genesis_config : Genesis.GenesisConfig)
    : prog Heap (ApplicationHandles (W:=Heap) (D:=InMemoryDependencies)
                 * ReaderHandles (W:=Heap) (D:=InMemoryDependencies)) :=
  deps ← in_memory_new;
  let reader_deps := in_memory_reader deps in
  app ← application_new deps genesis_config;
  reader ← application_reader_new reader_deps genesis_config;
  mret (app, reader).

(** ** What the handles read *)

Definition hashes_at (h : Heap) (l : Loc) : option (evmap B256 ExtendedBlock) :=
  c ← h !! l; match c with CHashes m => Some m | _ => None end.
Definition heights_at (h : Heap) (l : Loc) : option (evmap Z ExtendedBlock) :=
  c ← h !! l; match c with CHeights m => Some m | _ => None end.
Definition payloads_at (h : Heap) (l : Loc) : option (evmap PayloadId ExtendedBlock) :=
  c ← h !! l; match c with CPayloads m => Some m | _ => None end.
Definition transactions_at (h : Heap) (l : Loc) : option TransactionMemory :=
  c ← h !! l; match c with CTransactions m => Some m | _ => None end.
Definition receipts_at (h : Heap) (l : Loc) : option ReceiptMemory :=
  c ← h !! l; match c with CReceipts m => Some m | _ => None end.
Definition nodes_at (h : Heap) (l : Loc) : option Nodes :=
  c ← h !! l; match c with CNodes nodes => Some nodes | _ => None end.
Definition storage_at (h : Heap) (l : Loc) : option InMemoryStorageTrieRepository :=
  c ← h !! l; match c with CStorage r => Some r | _ => None end.

Definition shared_at (h : Heap) (r : SharedMemoryRef) : option SharedMemory :=
  hashes ← hashes_at h (br_hashes (sr_block_memory r));
  heights ← heights_at h (br_heights (sr_block_memory r));
  payload_ids ← payloads_at h (br_payload_ids (sr_block_memory r));
  transactions ← transactions_at h (sr_transaction_memory r);
  Some (MkSharedMemory (MkBlockMemory hashes heights payload_ids) transactions).

Abbreviation AppHandles := (ApplicationHandles (W:=Heap) (D:=InMemoryDependencies)).
Abbreviation RdHandles := (ReaderHandles (W:=Heap) (D:=InMemoryDependencies)).

(** The application its handles make. *)
Definition app_at (h : Heap) (app : AppHandles) : option Application :=
  receipts ← receipts_at h (ah_receipt_memory app);
  storage ← shared_at h (ah_storage app);
  nodes ← nodes_at h (sh_db (ah_state app));
  repository ← storage_at h (ah_evm_storage app);
  Some (MkApplication (ah_mem_pool app) (ah_gas_fee app) receipts storage
    (MkState (sh_resolver (ah_state app)) nodes (sh_root (ah_state app))) repository).

(** What a reader of the handles sees. *)
Definition reader_at (h : Heap) (rd : RdHandles) : option ApplicationReader :=
  receipts ← receipts_at h (rh_receipt_memory rd);
  storage ← shared_at h (rh_storage rd);
  memory ← shared_at h (qh_memory (rh_state_queries rd));
  nodes ← nodes_at h (qh_db (rh_state_queries rd));
  repository ← storage_at h (rh_evm_storage rd);
  Some (MkReader (Execution.MkGenesisConfig (cfg_chain_id (rh_genesis_config rd))) (rh_base_token rd)
    receipts storage
    (MkStateQueries memory nodes (qh_genesis_state_root (rh_state_queries rd))) repository).

(** The application writes through its handles whatever it has become. *)
Definition app_cells (app : AppHandles) (a : Application) : list (Loc * Cell) :=
  let b := sr_block_memory (ah_storage app) in
  [ (br_hashes b, CHashes (hashes (block_memory (storage a))));
    (br_heights b, CHeights (heights (block_memory (storage a))));
    (br_payload_ids b, CPayloads (payload_ids (block_memory (storage a))));
    (sr_transaction_memory (ah_storage app), CTransactions (transaction_memory (storage a)));
    (ah_receipt_memory app, CReceipts (receipt_memory a));
    (sh_db (ah_state app), CNodes (db (state a)));
    (ah_evm_storage app, CStorage (evm_storage a)) ].

Definition write_cells (cells : list (Loc * Cell)) (h : Heap) : Heap :=
  fold_right (λ '(l, c) h, <[l := c]> h) h cells.

Definition app_store (h : Heap) (app : AppHandles) (a : Application) : Heap * AppHandles :=
  (write_cells (app_cells app a) h,
   MkHandles (ah_genesis_config app) (mem_pool a) (gas_fee a) (ah_base_token app)
     (ah_payload_queries app) (ah_receipt_memory app) (ah_storage app) (ah_receipt_memory_reader app)
     (ah_storage_reader app)
     (MkStateHandle (resolver (state a)) (sh_db (ah_state app)) (current_state_root (state a)))
     (ah_state_queries app) (ah_evm_storage app)).

(** The reader of an application of this back end: the one [Server] asks for. *)
Definition in_memory_reader_of (genesis_config : Genesis.GenesisConfig) (a : Application)
    : ApplicationReader :=
  MkReader (Execution.MkGenesisConfig (cfg_chain_id genesis_config)) (base_token_accounts genesis_config)
    (receipt_memory a) (storage a) (queries_of a (cfg_initial_state_root genesis_config)) (MkRepository ∅).

(** The application before it has a genesis state. *)
Definition initial_application : Application :=
  MkApplication ∅ (MkEip1559GasFee EIP1559_ELASTICITY_MULTIPLIER EIP1559_BASE_FEE_MAX_CHANGE_DENOMINATOR)
    ev_new shared_memory_new (MkState vm_resolver_new ∅ None) (MkRepository ∅).

(** ** The reader follows the writer *)

Definition app_locs (app : AppHandles) : list Loc :=
  let b := sr_block_memory (ah_storage app) in
  [br_hashes b; br_heights b; br_payload_ids b; sr_transaction_memory (ah_storage app);
   ah_receipt_memory app; sh_db (ah_state app); ah_evm_storage app].

(** The reader holds the application's stores, and an EVM storage of its own. *)
Record connected (genesis_config : Genesis.GenesisConfig) (h : Heap) (app : AppHandles)
    (rd : RdHandles) : Prop := {
  cn_locs : NoDup (rh_evm_storage rd :: app_locs app);
  cn_config : rh_genesis_config rd = genesis_config;
  cn_token : rh_base_token rd = base_token_accounts genesis_config;
  cn_receipts : rh_receipt_memory rd = ah_receipt_memory app;
  cn_storage : rh_storage rd = ah_storage app;
  cn_queries : rh_state_queries rd = MkQueriesHandle (ah_storage app) (sh_db (ah_state app))
    (cfg_initial_state_root genesis_config);
  cn_evm : storage_at h (rh_evm_storage rd) = Some (MkRepository ∅);
}.

Lemma connected_reads genesis_config h app rd a :
  connected genesis_config h app rd → app_at h app = Some a →
  reader_at h rd = Some (in_memory_reader_of genesis_config a).
Proof.
  intros [_ Hc Ht Hr Hs Hq He]. unfold app_at, reader_at. rewrite Hc, Ht, Hr, Hs, Hq, He. simpl.
  destruct (receipts_at _ _); [|done]. destruct (shared_at _ _); [|done].
  destruct (nodes_at _ _); [|done]. destruct (storage_at h (ah_evm_storage app)); [|done].
  simpl. intros Ha. by injection Ha as <-.
Qed.

Lemma write_cells_other cells h l : l ∉ cells.*1 → write_cells cells h !! l = h !! l.
Proof.
  induction cells as [|[l' c'] cells IH]; [done|]. simpl. intros [Hne Hl]%not_elem_of_cons.
  by rewrite lookup_insert_ne, IH by done.
Qed.

Lemma write_cells_in cells h l c : NoDup cells.*1 → (l, c) ∈ cells → write_cells cells h !! l = Some c.
Proof.
  induction cells as [|[l' c'] cells IH]; [set_solver|]. simpl.
  intros [Hl Hnd]%NoDup_cons [[= -> ->]|Hin]%elem_of_cons; [by rewrite lookup_insert_eq|].
  rewrite lookup_insert_ne; [by apply IH|]. intros <-. apply Hl.
  by apply (list_elem_of_fmap_2 fst _ (l', c)).
Qed.

(** What the application writes it reads back. *)
Lemma store_reads h app a : NoDup (app_locs app) →
  let '(h', app') := app_store h app a in app_at h' app' = Some a.
Proof.
  intros Hnd.
  assert (Forall (λ lc, write_cells (app_cells app a) h !! lc.1 = Some lc.2) (app_cells app a)) as Hc.
  { apply Forall_forall. intros [l c] Hin. by apply write_cells_in. }
  unfold app_store. revert Hc. generalize (write_cells (app_cells app a) h). intros h'.
  unfold app_cells. rewrite !Forall_cons. cbn [fst snd]. intros (E1 & E2 & E3 & E4 & E5 & E6 & E7 & _).
  unfold app_at, shared_at, receipts_at, hashes_at, heights_at, payloads_at, transactions_at, nodes_at,
    storage_at. simpl. rewrite E1, E2, E3, E4, E5, E6, E7. simpl.
  by destruct a as [? ? ? [[] ?] [] ?].
Qed.

Lemma store_connected genesis_config h app rd a : connected genesis_config h app rd →
  let '(h', app') := app_store h app a in connected genesis_config h' app' rd ∧ app_locs app' = app_locs app.
Proof.
  intros [Hl Hc Ht Hr Hs Hq He]. split; [|done]. split; try done. unfold storage_at in *.
  apply NoDup_cons in Hl as [Hl _]. by rewrite write_cells_other by exact Hl.
Qed.

(** The handles after the application has gone through some states. *)
Definition app_run (h : Heap) (app : AppHandles) (history : list Application) : Heap * AppHandles :=
  fold_left (λ '(h, app) a, app_store h app a) history (h, app).

Lemma last_of_cons {A} (x : A) l a : List.last (x :: l) a = List.last l x.
Proof.
  revert x a. induction l as [|y l IH]; intros x a; [done|].
  etrans; [apply (IH y a)|symmetry; apply (IH y x)].
Qed.

Lemma app_run_connected genesis_config rd history : ∀ h app a,
  connected genesis_config h app rd → app_at h app = Some a →
  let '(h', app') := app_run h app history in
  connected genesis_config h' app' rd ∧ app_at h' app' = Some (List.last history a)
  ∧ ∀ l, l ∉ app_locs app → h' !! l = h !! l.
Proof.
  induction history as [|b history IH]; intros h app a Hc Ha; [done|]. unfold app_run. cbn [fold_left].
  pose proof (store_connected genesis_config h app rd b Hc) as Hs.
  pose proof (store_reads h app b) as Hr.
  pose proof (λ l, write_cells_other (app_cells app b) h l) as Ho.
  assert ((app_store h app b).1 = write_cells (app_cells app b) h) as Hw by done. rewrite <- Hw in Ho.
  clear Hw. destruct (app_store h app b) as [h1 app1]. destruct Hs as [Hc1 Hl].
  specialize (IH h1 app1 b Hc1). unfold app_run in IH. destruct (fold_left _ _ _) as [h2 app2].
  destruct IH as (? & Hlast & Hrest); [apply Hr, (NoDup_cons_1_2 _ _ (cn_locs _ _ _ _ Hc))|].
  split; [done|]. split; [by rewrite last_of_cons|].
  intros l Hn. rewrite Hrest by by rewrite Hl. by apply Ho.
Qed.

(** A store that was just created is not one that was there. *)
Lemma fresh_after (h : Heap) l c k : k ∉ dom (<[l := c]> h) → k ≠ l ∧ k ∉ dom h.
Proof. rewrite dom_insert_L. by intros [?%not_elem_of_singleton ?]%not_elem_of_union. Qed.

Ltac split_fresh :=
  repeat match goal with
  | N : _ ∉ dom (<[_ := _]> _) |- _ => apply fresh_after in N as [? N]
  end.

Ltac pairwise := rewrite ?NoDup_cons, ?not_elem_of_cons; repeat split;
  first [done | apply not_elem_of_nil | apply NoDup_nil_2 | by apply not_eq_sym].

Lemma alloc_Done c h : ∃ l, alloc c h = Done (l, <[l := c]> h) ∧ l ∉ dom h.
Proof. exists (fresh (dom h)). split; [done|]. apply is_fresh. Qed.

Lemma evmap_new_Done c h : ∃ l, evmap_new c h = Done ((l, l), <[l := c]> h) ∧ l ∉ dom h.
Proof. destruct (alloc_Done c h) as (l & E & Hl). exists l. split; [|done]. unfold evmap_new, mbind, prog_bind. by rewrite E. Qed.

Lemma shared_memory_create_Done h : ∃ l1 l2 l3 l4,
  let r := MkSharedRef (MkBlockRef l1 l2 l3) l4 in
  let h' := <[l4 := CTransactions ev_new]> (<[l3 := CPayloads ev_new]> (<[l2 := CHeights ev_new]>
    (<[l1 := CHashes ev_new]> h))) in
  shared_memory_create h = Done ((r, r), h') ∧ NoDup [l1; l2; l3; l4]
  ∧ l1 ∉ dom h ∧ l2 ∉ dom h ∧ l3 ∉ dom h ∧ l4 ∉ dom h.
Proof.
  destruct (evmap_new_Done (CHashes ev_new) h) as (l1 & E1 & N1).
  destruct (evmap_new_Done (CHeights ev_new) (<[l1 := CHashes ev_new]> h)) as (l2 & E2 & N2).
  edestruct (evmap_new_Done (CPayloads ev_new)) as (l3 & E3 & N3).
  edestruct (evmap_new_Done (CTransactions ev_new)) as (l4 & E4 & N4).
  exists l1, l2, l3, l4. simpl. split.
  - unfold shared_memory_create, mbind, prog_bind. rewrite E1, E2. by erewrite E3, E4.
  - split_fresh. pairwise.
Qed.

(** Two applications need two sets of stores: a writer can be taken once. *)
Lemma writers_are_taken_once deps genesis_config h app h' :
  application_new deps genesis_config h = Done (app, h') →
  (∃ w, im_memory deps = Some w ∧ ah_storage app = w)
  ∧ (∃ w, im_receipt_memory deps = Some w ∧ ah_receipt_memory app = w)
  ∧ application_new (in_memory_reader deps) genesis_config h = Panic.
Proof.
  unfold application_new. intros (fee & h1 & Hf & (q & h2 & [= <- <-] & Ha)%prog_bind_Done)%prog_bind_Done.
  apply prog_bind_Done in Ha as ([r d1] & h3 & Hr & Ha).
  apply prog_bind_Done in Ha as ([m d2] & h4 & Hm & Ha).
  simpl in Hr, Hm. unfold take_receipt_memory, take_shared_storage, lift in *.
  apply prog_bind_Done in Hr as (r' & h5 & Hr & [= <- <- <-]).
  apply prog_bind_Done in Hm as (m' & h6 & Hm & [= <- <- <-]). simpl in Hm.
  destruct (im_receipt_memory deps) as [x|] eqn:Hx; [|done]. injection Hr as <- <-.
  destruct (im_memory deps) as [y|] eqn:Hy; [|done]. injection Hm as <- <-.
  repeat (apply prog_bind_Done in Ha as (? & ? & ? & Ha)). injection Ha as <- _. simpl.
  split; [eauto|]. split; [eauto|]. done.
Qed.

(** The handles of [create] on the stores it made. *)
Definition created_app (genesis_config : Genesis.GenesisConfig) (m : SharedMemoryRef) (receipts nodes evm : Loc)
    : AppHandles := {|
  ah_genesis_config := genesis_config; ah_mem_pool := ∅;
  ah_gas_fee := MkEip1559GasFee EIP1559_ELASTICITY_MULTIPLIER EIP1559_BASE_FEE_MAX_CHANGE_DENOMINATOR;
  ah_base_token := base_token_accounts genesis_config; ah_payload_queries := tt;
  ah_receipt_memory := receipts; ah_storage := m; ah_receipt_memory_reader := receipts;
  ah_storage_reader := m; ah_state := in_memory_state_new nodes;
  ah_state_queries := MkQueriesHandle m nodes (cfg_initial_state_root genesis_config);
  ah_evm_storage := evm |}.
Definition created_reader (genesis_config : Genesis.GenesisConfig) (m : SharedMemoryRef) (receipts nodes evm : Loc)
    : RdHandles := {|
  rh_genesis_config := genesis_config; rh_base_token := base_token_accounts genesis_config;
  rh_payload_queries := tt; rh_receipt_memory := receipts; rh_storage := m;
  rh_state_queries := MkQueriesHandle m nodes (cfg_initial_state_root genesis_config);
  rh_evm_storage := evm |}.

Lemma in_memory_create_connected genesis_config h : ∃ app rd h',
  in_memory_create genesis_config h = Done ((app, rd), h')
  ∧ connected genesis_config h' app rd ∧ app_at h' app = Some initial_application
  ∧ ∀ l, l ∈ dom h → h' !! l = h !! l ∧ l ∉ rh_evm_storage rd :: app_locs app.
Proof.
  destruct (shared_memory_create_Done h) as (l1 & l2 & l3 & l4 & E & Hnd & N1 & N2 & N3 & N4).
  simpl in E. set (h4 := <[l4 := _]> _) in E.
  destruct (evmap_new_Done (CReceipts ev_new) h4) as (l5 & E5 & N5).
  destruct (alloc_Done (CNodes ∅) (<[l5 := CReceipts ev_new]> h4)) as (l6 & E6 & N6).
  set (h6 := <[l6 := _]> _) in E6.
  set (m := MkSharedRef (MkBlockRef l1 l2 l3) l4) in E.
  destruct (alloc_Done (CStorage (MkRepository ∅)) h6) as (l7 & E7 & N7).
  destruct (alloc_Done (CStorage (MkRepository ∅)) (<[l7 := CStorage (MkRepository ∅)]> h6)) as (l8 & E8 & N8).
  exists (created_app genesis_config m l5 l6 l7), (created_reader genesis_config m l5 l6 l8),
    (<[l8 := CStorage (MkRepository ∅)]> (<[l7 := CStorage (MkRepository ∅)]> h6)).
  split.
  { unfold in_memory_create, in_memory_new, receipt_memory_create, mbind, prog_bind.
    rewrite E, E5, E6. unfold application_new, application_reader_new, mbind, prog_bind.
    change (storage_trie_repository (D:=InMemoryDependencies)) with (alloc (CStorage (MkRepository ∅))).
    remember (alloc (CStorage (MkRepository ∅))) as new eqn:Hn. simpl.
    rewrite E7. simpl. by rewrite E8. }
  subst h4 h6. split_fresh. rewrite !NoDup_cons, !not_elem_of_cons in Hnd. destruct_and! Hnd.
  split; [|split].
  - split; try done.
    + unfold app_locs. simpl. pairwise.
    + unfold storage_at. simpl. by rewrite lookup_insert_eq.
  - unfold app_at, receipts_at, shared_at, hashes_at, heights_at, payloads_at, transactions_at, nodes_at,
      storage_at. simpl. repeat first [rewrite lookup_insert_eq; simpl | rewrite lookup_insert_ne by (done || by apply not_eq_sym)].
    done.
  - intros l Hl. assert (∀ k, k ∉ dom h → l ≠ k) as Hk by by intros k Hk ->.
    rewrite !lookup_insert_ne by by apply not_eq_sym, Hk. split; [done|].
    unfold app_locs. simpl. rewrite !not_elem_of_cons. repeat split; try by apply Hk. apply not_elem_of_nil.
Qed.

(** C29 (safety): readers follow the writer.  In a process whatever stores it
    already has, a node in memory is created without a panic, with stores of its
    own and the application before genesis.  Then, whatever states the
    application goes through, its handles hold the last one, no store of anyone
    else has changed, and the reader sees exactly its chain, receipts and state.
    Only the EVM storage is not followed: the reader's stays empty. *)
Theorem reader_follows_writer genesis_config h : ∃ app rd h1,
  in_memory_create genesis_config h = Done ((app, rd), h1)
  ∧ app_at h1 app = Some initial_application
  ∧ ∀ history, let '(h2, app2) := app_run h1 app history in
      let last := List.last history initial_application in
      app_at h2 app2 = Some last
      ∧ (∀ l, l ∈ dom h → h2 !! l = h !! l)
      ∧ ∃ r, reader_at h2 rd = Some r ∧ Reads r last
          ∧ rd_state_queries r = queries_of last (cfg_initial_state_root genesis_config)
          ∧ rd_evm_storage r = MkRepository ∅.
Proof.
  destruct (in_memory_create_connected genesis_config h) as (app & rd & h1 & E & Hc & Ha & Ho).
  exists app, rd, h1. split; [done|]. split; [done|]. intros history.
  assert (∀ l, l ∈ dom h → l ∉ app_locs app ∧ h1 !! l = h !! l) as Hold.
  { intros l [Hl Hn]%Ho. by apply not_elem_of_cons in Hn as [_ Hn]. }
  pose proof (app_run_connected genesis_config rd history h1 app initial_application Hc Ha) as Hrun.
  destruct (app_run h1 app history) as [h2 app2]. destruct Hrun as (Hc2 & Ha2 & Hr2).
  cbv zeta. split; [done|]. split.
  - intros l Hl. destruct (Hold l Hl) as [Hn <-]. by apply Hr2.
  - eexists. split; [by apply (connected_reads genesis_config h2 app2)|]. done.
Qed.


End InMemory.

(** ** From creation to the genesis block *)

Section Start.
Context `{FrameworkLibrary, EthTrie, GasSchedule, !TxLibrary, EnvelopeLibrary, HeaderLibrary, EvMapLaws}.
Context `{!AppLibrary, !Executor, !Callbacks}.

(** What [Server] asks of the reader. *)
Lemma in_memory_reads genesis_config a : Reads (in_memory_reader_of genesis_config a) a.
Proof. done. Qed.

Lemma initial_fresh : Fresh initial_application.
Proof. done. Qed.

(** The node that [create] makes starts at its genesis block, and its readers see
    block 0. *)
Lemma in_memory_node_starts genesis_config build app b :
  initialize_app build (cfg_initial_state_root genesis_config) initial_application = Done app →
  Blocks.number b = 0 → Blocks.transactions (block b) = [] →
  Application.state_root (state app) = cfg_initial_state_root genesis_config
  ∧ History (genesis_update app b) [Chain.MkEntry b [] []]
  ∧ block_number (in_memory_reader_of genesis_config (genesis_update app b)) = Done 0.
Proof.
  intros Hi Hn Ht. destruct (node_starts build _ _ _ b Hi initial_fresh Hn Ht) as (Hr & _ & Hh & _).
  split; [done|]. split; [done|]. unfold block_number, in_memory_reader_of. cbn [rd_storage].
  by rewrite (query_latest_history _ _ Hh).
Qed.

End Start.

(** Witness: a node in a process that already has a store. *)
Module DependenciesWitness.
Import EvMap.Model Envelope.Witness BlockWitness ChainWitness EvmStateWitness WorldWitness GenesisWitness.
#[local] Existing Instance unit_errors.
#[local] Existing Instance tx_library.
#[local] Existing Instance envelopes.
#[local] Existing Instance headers.
#[local] Existing Instance WorldWitness.trie.
#[local] Existing Instance WorldWitness.world_library.
#[local] Existing Instance GenesisWitness.small_framework.

#[local] Instance no_schedule : GasSchedule := {|
  VMGasParameters := (); StorageGasParameters := (); NativeGasParameters := (); vm_gas_initial := ();
  storage_gas_latest := (); native_gas_initial := (); LATEST_GAS_FEATURE_VERSION := 0;
  set_gas_unit_scaling_factor := λ _ x, x; set_max_execution_gas := λ _ x, x;
  set_min_transaction_gas_units := λ _ x, x; StandardGasMeter := ();
  standard_gas_meter := λ _ _ _ _ _, () |}.
Definition config : Genesis.GenesisConfig :=
  Genesis.MkGenesisConfig 404 (replicate 32 1) gas_costs_default [200] [] [].
Definition other_stores : gmap nat Cell := {[ 0%nat := CNodes {[ [1] := [2] ]} ]}.
(** The genesis block is stored. *)
Definition moved : Application := genesis_update initial_application genesis.

Lemma reader_follows_writer_witness : ∃ app rd h1,
  in_memory_create config other_stores = Done ((app, rd), h1)
  ∧ let '(h2, app2) := app_run h1 app [initial_application; moved] in
    h2 !! 0%nat = Some (CNodes {[ [1] := [2] ]})
    ∧ ∃ r, reader_at h2 rd = Some r ∧ block_number r = block_number (in_memory_reader_of config moved).
Proof.
  destruct (reader_follows_writer config other_stores) as (app & rd & h1 & E & _ & Hrun).
  exists app, rd, h1. split; [exact E|]. specialize (Hrun [initial_application; moved]).
  destruct (app_run h1 app [initial_application; moved]) as [h2 app2].
  destruct Hrun as (_ & Ho & r & Hr & [Hs _] & _). split.
  - rewrite Ho; [reflexivity|]. apply elem_of_dom. exists (CNodes {[ [1] := [2] ]}). reflexivity.
  - exists r. split; [exact Hr|]. unfold block_number. by rewrite Hs.
Defined.

(** The reader sees block 0. *)
Example moved_number : block_number (in_memory_reader_of config moved) = Done 0.
Proof. vm_compute. reflexivity. Qed.

End DependenciesWitness.
