(* ===== verification/DiskDependencies.v ===== *)
(** The two back ends on disk ([server/src/dependency/rocksdb.rs], [heed.rs]): how
    a process opens its database once and hands it out, and that a node that
    stops and starts again has the state it had.

    Files and the opening of databases are third-party code and the standard
    library's effects: [FileSystem], [RocksOpen] and [HeedOpen]. *)
From S2P Require Import Prelude Primitives MoveTypes Errors Envelope EvMap.
From S2P Require Import Transactions Fees BaseFee Receipts Payloads Blocks Application Chain.
From S2P Require Import MoveVm EthToken ToyVm Nonces Events TagValidation Execution.
From S2P Require Import Storage StateTree GenesisImage EvmState EvmCalls StateQueries World Queries.
From S2P Require Import Columns RocksDb RocksState Heed HeedState Rpc BridgedTokens Engine Api Server.
From S2P Require Import Genesis Dependencies.

Local Open Scope Z_scope.

(** What the path of the database may hold, and the effect on it of two calls
    whose result is ignored. *)
Class FileSystem := {
  Directory : Type;
  remove_dir_all : Directory → Directory;
  create_dir : Directory → Directory;
}.

(** ** A database that is opened once *)

(** The path of the database, whether the variable PURGE is 1, and the [static]
    that holds the database from its first use. *)
Record Process `{FileSystem} (S : Type) := MkProcess { disk : Directory; purge : bool; opened_db : option S }.
Arguments MkProcess {_} _ _ _ _.
Arguments disk {_ _} _.
Arguments purge {_ _} _.
Arguments opened_db {_ _} _.

(** A [&'static] reference to the database. *)
Inductive DatabaseRef := TheDatabase.

(** Source: storage/rocksdb/src/state.rs 94-99 [RocksDbStateQueries] *)
Record DiskStateQueries := MkDiskQueries {
  dq_db : DatabaseRef; dq_trie_db : DatabaseRef; dq_genesis_state_root : B256 }.

Section Static.
Context `{FileSystem} {S : Type} (create_db : bool → Directory → exec S).

(** [lazy_static]: the first use opens the database. *)
Definition static_db : prog (Process S) S := λ w,
  match opened_db w with
  | Some s => Done (s, w)
  | None => s ← create_db (purge w) (disk w); Done (s, MkProcess S (disk w) (purge w) (Some s))
  end.

Lemma static_db_Done w s w' : static_db w = Done (s, w') →
  disk w' = disk w ∧ purge w' = purge w ∧ opened_db w' = Some s
  ∧ match opened_db w with Some s' => s = s' | None => create_db (purge w) (disk w) = Done s end.
Proof.
  unfold static_db. destruct (opened_db w) as [s'|] eqn:Hd.
  - by intros [= <- <-].
  - intros (x & Hx & [= <- <-])%bind_Done. by rewrite Hx.
Qed.

(** Later uses find the database of the first. *)
Lemma static_db_again w s w' : static_db w = Done (s, w') → static_db w' = Done (s, w').
Proof. intros (_ & _ & Hd & _)%static_db_Done. unfold static_db. by rewrite Hd. Qed.

Definition static_ref : prog (Process S) DatabaseRef := _ ← static_db; mret TheDatabase.

Context `{GasSchedule} {D St : Type} (state_new : S → exec St).

(** Both back ends hand out references to their database, and open the state on
    it.  The node database of the tries is a [static] over the same database.
    Source: server/src/dependency/rocksdb.rs 68-110 [RocksDbDependencies] *)
Definition disk_dependencies : Dependencies (Process S) D := {|
  PayloadQueriesRef := DatabaseRef;
  ReceiptStorage := DatabaseRef;
  SharedStorage := DatabaseRef;
  ReceiptStorageReader := DatabaseRef;
  SharedStorageReader := DatabaseRef;
  StateRef := St;
  StateQueriesRef := DiskStateQueries;
  StorageTrieRef := DatabaseRef;
  payload_queries := static_ref;
  receipt_storage := λ self, r ← static_ref; mret (r, self);
  shared_storage := λ self, r ← static_ref; mret (r, self);
  receipt_storage_reader := λ _, static_ref;
  shared_storage_reader := λ _, static_ref;
  state_ref := λ _, s ← static_db; lift (state_new s);
  state_queries := λ _ genesis_config,
    r ← static_ref;
    t ← static_ref;
    mret (MkDiskQueries r t (cfg_initial_state_root genesis_config));
  storage_trie_repository := static_ref;
|}.

#[local] Existing Instance disk_dependencies.

(** Source: server/src/dependency/rocksdb.rs 10-20 [create] *)
Definition disk_create (deps : D) (genesis_config : Genesis.GenesisConfig)
    : prog (Process S) (ApplicationHandles (W:=Process S) (D:=D) * ReaderHandles (W:=Process S) (D:=D)) :=
  app ← application_new deps genesis_config;
  reader ← application_reader_new deps genesis_config;
  mret (app, reader).

(** The application starts with an empty pool, in the state that opens. *)
Definition disk_app (genesis_config : Genesis.GenesisConfig) (st : St)
    : ApplicationHandles (W:=Process S) (D:=D) := {|
  ah_genesis_config := genesis_config; ah_mem_pool := ∅;
  ah_gas_fee := MkEip1559GasFee EIP1559_ELASTICITY_MULTIPLIER EIP1559_BASE_FEE_MAX_CHANGE_DENOMINATOR;
  ah_base_token := base_token_accounts genesis_config; ah_payload_queries := TheDatabase;
  ah_receipt_memory := TheDatabase; ah_storage := TheDatabase; ah_receipt_memory_reader := TheDatabase;
  ah_storage_reader := TheDatabase; ah_state := st;
  ah_state_queries := MkDiskQueries TheDatabase TheDatabase (cfg_initial_state_root genesis_config);
  ah_evm_storage := TheDatabase |}.

Lemma disk_create_opens deps genesis_config w s w1 st :
  static_db w = Done (s, w1) → state_new s = Done st →
  ∃ rd, disk_create deps genesis_config w = Done ((disk_app genesis_config st, rd), w1).
Proof.
  intros E Hst. pose proof (static_db_again _ _ _ E) as E1.
  assert (static_ref w = Done (TheDatabase, w1)) as R by (unfold static_ref, mbind, prog_bind; by rewrite E).
  assert (static_ref w1 = Done (TheDatabase, w1)) as R1 by (unfold static_ref, mbind, prog_bind; by rewrite E1).
  eexists. unfold disk_create. eapply prog_bind_step; [|eapply prog_bind_step; [|done]].
  - unfold application_new. eapply prog_bind_step; [done|].
    eapply prog_bind_step; [exact R|].
    eapply prog_bind_step; [by apply (prog_bind_step _ _ _ _ _ _ R1)|]. simpl.
    eapply prog_bind_step; [by apply (prog_bind_step _ _ _ _ _ _ R1)|]. simpl.
    eapply prog_bind_step; [exact R1|]. eapply prog_bind_step; [exact R1|].
    eapply prog_bind_step; [apply (prog_bind_step _ _ _ _ _ _ E1); unfold lift; by rewrite Hst|].
    eapply prog_bind_step; [apply (prog_bind_step _ _ _ _ _ _ R1), (prog_bind_step _ _ _ _ _ _ R1); done|].
    by eapply prog_bind_step; [exact R1|].
  - unfold application_reader_new. eapply prog_bind_step; [exact R1|].
    eapply prog_bind_step; [exact R1|]. eapply prog_bind_step; [exact R1|].
    eapply prog_bind_step; [apply (prog_bind_step _ _ _ _ _ _ R1), (prog_bind_step _ _ _ _ _ _ R1); done|].
    by eapply prog_bind_step; [exact R1|].
Qed.

End Static.

(** ** RocksDB *)

Class RocksOpen `{RocksDb, FileSystem} := {
  open_cf : Directory → list string → result DbError Db;
  (** What a directory that a database left holds. *)
  stored_columns : Directory → Columns;
}.
Class RocksOpenLaws `{RocksOpen} : Prop :=
  open_cf_ok d names db : open_cf d names = Ok db →
    (∀ c, contents db c = stored_columns d c) ∧ ∀ c, c ∈ names → has_column db c = true.

Section Rocks.
Context `{RocksOpen, !TrieReads, StateReading, EthTrie, GasSchedule}.

(** Source: server/src/dependency/rocksdb.rs 138-151 [create_db] *)
Definition rocks_create_db (purge : bool) (path : Directory) : exec Db :=
  let path := if purge then remove_dir_all path else path in
  unwrap (open_cf path COLUMN_FAMILIES).

(** Source: server/src/dependency/rocksdb.rs 134-136 [db] *)
Definition rocks_db : prog (Process Db) Db := static_db rocks_create_db.

(** Source: server/src/dependency/rocksdb.rs 22-22 [RocksDbDependencies] *)
Inductive RocksDbDependencies := MkRocksDbDependencies.

#[export] Instance rocks_dependencies : Dependencies (Process Db) RocksDbDependencies :=
  disk_dependencies rocks_create_db rocks_state_new.

Definition rocks_create (genesis_config : Genesis.GenesisConfig)
    : prog (Process Db) (ApplicationHandles (W:=Process Db) (D:=RocksDbDependencies)
                         * ReaderHandles (W:=Process Db) (D:=RocksDbDependencies)) :=
  disk_create rocks_create_db rocks_state_new MkRocksDbDependencies genesis_config.

End Rocks.

(** ** LMDB *)

Class HeedOpen `{Heed, FileSystem} := {
  env_open : Directory → nat → result HeedError Env;
  create_database : Txn → string → result HeedError Txn;
  stored_databases : Directory → Columns;
  stored_has : Directory → string → bool;
}.
Class HeedOpenLaws `{HeedOpen} : Prop := {
  env_open_ok d n env : env_open d n = Ok env →
    ∀ c, env_contents env c = stored_databases d c ∧ env_has env c = stored_has d c;
  create_database_ok t name t' : create_database t name = Ok t' →
    ∀ c, txn_view t' c = txn_view t c ∧ txn_has t' c = bool_decide (c = name) || txn_has t c;
}.

Section LMDB.
Context `{HeedOpen, !HeedReads, StateReading, EthTrie, GasSchedule}.

(** Source: server/src/dependency/heed.rs 157-190 [create_db] *)
Fixpoint create_databases (t : Txn) (names : list string) : exec Txn :=
  match names with
  | [] => Done t
  | name :: names => t ← unwrap (create_database t name); create_databases t names
  end.

(** Source: server/src/dependency/heed.rs 136-196 [create_db] *)
Definition heed_create_db (purge : bool) (path : Directory) : exec Env :=
  assert_or_panic (bool_decide (length COLUMN_FAMILIES = 11%nat));;
  let path := if purge then remove_dir_all path else path in
  let path := create_dir path in
  env ← unwrap (env_open path (length COLUMN_FAMILIES));
  t ← unwrap (write_txn env);
  t ← create_databases t COLUMN_FAMILIES;
  unwrap (rw_commit env t).

(** Source: server/src/dependency/heed.rs 132-134 [db] *)
Definition heed_db : prog (Process Env) Env := static_db heed_create_db.

(** Source: server/src/dependency/heed.rs 26-26 [HeedDependencies] *)
Inductive HeedDependencies := MkHeedDependencies.

(** Source: server/src/dependency/heed.rs 72-110 [HeedDependencies] *)
#[export] Instance heed_dependencies : Dependencies (Process Env) HeedDependencies :=
  disk_dependencies heed_create_db heed_state_new.

(** Source: server/src/dependency/heed.rs 14-24 [create] *)
Definition heed_create (genesis_config : Genesis.GenesisConfig)
    : prog (Process Env) (ApplicationHandles (W:=Process Env) (D:=HeedDependencies)
                          * ReaderHandles (W:=Process Env) (D:=HeedDependencies)) :=
  disk_create heed_create_db heed_state_new MkHeedDependencies genesis_config.

End LMDB.

(** ** A node that stops and starts again *)

Section RocksRestart.
Context `{RocksOpen, !TrieReads, StateReading, EthTrie, GasSchedule}.
Context `{!RocksDbLaws, !RocksOpenLaws, !TrieReadsLaws, !EthTrieLaws}.
Context (commit_root_size : ∀ t : Trie, length (trie_commit t).1 = 32%nat).

Lemma rocks_create_db_opens purge path db : rocks_create_db purge path = Done db →
  Opened db
  ∧ ∀ c, contents db c = stored_columns (if purge then remove_dir_all path else path) c.
Proof.
  unfold rocks_create_db. intros [Hs Hc]%unwrap_Done%open_cf_ok. split; [|done]. intros c. apply Hc.
Qed.

(** The database a process has, moved. *)
Lemma in_step_moved db self m db' : in_step db self m → Opened db' →
  (∀ c, contents db' c = contents db c) → in_step db' self m.
Proof. intros [_ Hd] Ho Hc. split; [done|]. by rewrite !Hc. Qed.

Lemma rocks_starts genesis_config purge path db m self :
  rocks_create_db purge path = Done db → readable db → in_step db self m →
  ∃ st rd, rocks_create genesis_config (MkProcess Db path purge None)
      = Done ((disk_app rocks_create_db rocks_state_new genesis_config st, rd), MkProcess Db path purge (Some db))
    ∧ rocks_state_root st = StateTree.state_root m
    ∧ ∀ k, trie_get (rs_resolver st) k = trie_get (rs_resolver self) k.
Proof.
  intros Hc Hr Hs. destruct (reopened commit_root_size db self m Hs Hr) as (st & Hst & Hin & Hg). exists st.
  destruct (disk_create_opens rocks_create_db rocks_state_new MkRocksDbDependencies genesis_config
    (MkProcess Db path purge None) db (MkProcess Db path purge (Some db)) st) as [rd Hrd]; [|done|].
  { unfold static_db. simpl. by rewrite Hc. }
  exists rd. split; [done|]. split; [|done]. unfold rocks_state_root. by rewrite (step_root _ _ _ Hin).
Qed.

Lemma rocks_empty_step db : Opened db → (∀ c, contents db c = ∅) →
  in_step db (MkRocksState (trie_new ∅) None) (MkState () ∅ None).
Proof.
  intros Ho Hc. split; [done|]. rewrite !Hc. split; try done. by exists (trie_new ∅).
Qed.

End RocksRestart.

Section HeedRestart.
Context `{HeedOpen, !HeedReads, StateReading, EthTrie, GasSchedule}.
Context `{!HeedLaws, !HeedOpenLaws, !HeedReadsLaws, !EthTrieLaws}.
Context (commit_root_size : ∀ t : Trie, length (trie_commit t).1 = 32%nat).

Lemma create_databases_spec names : ∀ t t', create_databases t names = Done t' →
  ∀ c, txn_view t' c = txn_view t c ∧ txn_has t' c = bool_decide (c ∈ names) || txn_has t c.
Proof.
  induction names as [|name names IH]; intros t t' Hc c.
  - injection Hc as <-. rewrite bool_decide_false by apply not_elem_of_nil. done.
  - apply bind_Done in Hc as (t1 & Ht%unwrap_Done & Hc).
    destruct (IH t1 t' Hc c) as [-> ->]. destruct (create_database_ok _ _ _ Ht c) as [-> ->].
    split; [done|]. rewrite orb_assoc. f_equal.
    destruct (decide (c = name)) as [->|Hne].
    + rewrite (bool_decide_true (name = name)), orb_true_r, bool_decide_true by (done || by left). done.
    + rewrite (bool_decide_false (c = name)), orb_false_r by done. apply bool_decide_ext.
      rewrite elem_of_cons. tauto.
Qed.

Lemma heed_create_db_opens purge path env : heed_create_db purge path = Done env →
  Created env
  ∧ ∀ c, env_contents env c
      = stored_databases (create_dir (if purge then remove_dir_all path else path)) c.
Proof.
  unfold heed_create_db. intros (u & _ & Hc)%bind_Done.
  apply bind_Done in Hc as (e & He%unwrap_Done & Hc). apply bind_Done in Hc as (t & Ht%unwrap_Done & Hc).
  apply bind_Done in Hc as (t' & Ht' & Hc%unwrap_Done).
  pose proof (env_open_ok _ _ _ He) as Ho. pose proof (write_txn_ok _ _ Ht) as Hw.
  pose proof (create_databases_spec _ _ _ Ht') as Hd. pose proof (rw_commit_ok _ _ _ Hc) as Hr. split.
  - intros c Hin. rewrite (proj2 (Hr c)), (proj2 (Hd c)), bool_decide_true by done. done.
  - intros c. by rewrite (proj1 (Hr c)), (proj1 (Hd c)), (proj1 (Hw c)), (proj1 (Ho c)).
Qed.

Lemma heed_starts genesis_config purge path env m self :
  heed_create_db purge path = Done env → readable_tries env → heed_in_step env self m →
  ∃ st rd, heed_create genesis_config (MkProcess Env path purge None)
      = Done ((disk_app heed_create_db heed_state_new genesis_config st, rd), MkProcess Env path purge (Some env))
    ∧ heed_state_root st = StateTree.state_root m
    ∧ ∀ k, trie_get (hs_resolver st) k = trie_get (hs_resolver self) k.
Proof.
  intros Hc Hr Hs. destruct (heed_reopened commit_root_size env self m Hs Hr) as (st & Hst & Hin & Hroot & Hg). exists st.
  destruct (disk_create_opens heed_create_db heed_state_new MkHeedDependencies genesis_config
    (MkProcess Env path purge None) env (MkProcess Env path purge (Some env)) st) as [rd Hrd]; [|done|].
  { unfold static_db. simpl. by rewrite Hc. }
  exists rd. done.
Qed.

Lemma heed_in_step_moved env self m env' : heed_in_step env self m → Created env' →
  (∀ c, env_contents env' c = env_contents env c) → heed_in_step env' self m.
Proof. intros [_ Hd] Ho Hc. split; [done|]. by rewrite !Hc. Qed.

Lemma heed_empty_step env : Created env → (∀ c, env_contents env c = ∅) →
  heed_in_step env (MkHeedState (trie_new ∅) None) (MkState () ∅ None).
Proof.
  intros Ho Hc. split; [done|]. rewrite !Hc. split; try done. by exists (trie_new ∅).
Qed.

End HeedRestart.

Section Restart.
Context `{StateReading, EthTrie, GasSchedule, !EthTrieLaws}.
Context `{FileSystem, RocksDb, Heed, !RocksOpen, !HeedOpen, !TrieReads, !HeedReads}.
Context `{!RocksDbLaws, !RocksOpenLaws, !TrieReadsLaws, !HeedLaws, !HeedOpenLaws, !HeedReadsLaws}.
Context (commit_root_size : ∀ t : Trie, length (trie_commit t).1 = 32%nat).

Lemma latest_height_empty db : Opened db → readable db → (∀ c, contents db c = ∅) →
  latest_height db = Done (Ok None).
Proof.
  intros Ho [[_ Hl] _] Hc. unfold latest_height. rewrite cf_opened by (done || set_solver).
  cbn [mbind exec_bind]. destruct (Hl "height"%string) as [e He]. rewrite He. cbn [qbind].
  apply db_last_ok in He. rewrite Hc in He. destruct e as [[k v]|]; [|done].
  destruct He as [He _]. by rewrite lookup_empty in He.
Qed.

Lemma heed_latest_height_empty env : Created env → readable_tries env → (∀ c, env_contents env c = ∅) →
  heed_latest_height env = Done (Ok None).
Proof.
  intros Ho [[[t Ht] Hr] _] Hc. unfold heed_latest_height, database. rewrite Ht. cbn [qbind].
  destruct (Hr t Ht) as [Hcommit Hops]. destruct (Hops "height"%string) as ([b Hb] & [e He] & _).
  rewrite Hb. cbn [qbind]. apply open_database_ok in Hb as ->.
  rewrite (proj2 (read_txn_ok _ _ Ht _)), Ho by set_solver. cbn [assert_or_panic mbind exec_bind qbind].
  unfold heed_last. rewrite He. cbn [mbind result_bind]. apply txn_last_ok in He.
  rewrite (proj1 (read_txn_ok _ _ Ht _)), Hc in He. destruct e as [[k v]|].
  - destruct He as [He _]. by rewrite lookup_empty in He.
  - simpl. by rewrite Hcommit.
Qed.

(** A node on disk survives a restart, and PURGE=1 is the only thing
    that makes it start over.  On the directory its database left, with either
    back end, the node starts again on the same records, in the state that was
    last committed: same root, same content.  With PURGE=1 on a directory that
    could be removed it starts with an empty state and no block, so that the
    genesis state is applied again. *)
Lemma nodes_restart genesis_config (db : Db) self (env : Env) state m d :
  in_step db self m → (∀ c, stored_columns d c = contents db c) →
  heed_in_step env state m → (∀ c, stored_databases (create_dir d) c = env_contents env c) →
  (∀ db', rocks_create_db false d = Done db' → readable db' →
    ∃ st rd, rocks_create genesis_config (MkProcess Db d false None)
        = Done ((disk_app rocks_create_db rocks_state_new genesis_config st, rd), MkProcess Db d false (Some db'))
      ∧ (∀ c, contents db' c = contents db c) ∧ rocks_state_root st = StateTree.state_root m
      ∧ ∀ k, trie_get (rs_resolver st) k = trie_get (rs_resolver self) k)
  ∧ (∀ env', heed_create_db false d = Done env' → readable_tries env' →
    ∃ st rd, heed_create genesis_config (MkProcess Env d false None)
        = Done ((disk_app heed_create_db heed_state_new genesis_config st, rd), MkProcess Env d false (Some env'))
      ∧ (∀ c, env_contents env' c = env_contents env c) ∧ heed_state_root st = StateTree.state_root m
      ∧ ∀ k, trie_get (hs_resolver st) k = trie_get (hs_resolver state) k)
  ∧ (∀ db', (∀ c, stored_columns (remove_dir_all d) c = ∅) →
      rocks_create_db true d = Done db' → readable db' →
      latest_height db' = Done (Ok None)
      ∧ ∃ st rd, rocks_create genesis_config (MkProcess Db d true None)
          = Done ((disk_app rocks_create_db rocks_state_new genesis_config st, rd), MkProcess Db d true (Some db'))
        ∧ rocks_state_root st = replicate 32 0)
  ∧ ∀ env', (∀ c, stored_databases (create_dir (remove_dir_all d)) c = ∅) →
      heed_create_db true d = Done env' → readable_tries env' →
      heed_latest_height env' = Done (Ok None)
      ∧ ∃ st rd, heed_create genesis_config (MkProcess Env d true None)
          = Done ((disk_app heed_create_db heed_state_new genesis_config st, rd), MkProcess Env d true (Some env'))
        ∧ heed_state_root st = replicate 32 0.
Proof.
  intros Hs Hd Ht He. split; [|split; [|split]].
  - intros db' Hc Hr. destruct (rocks_create_db_opens _ _ _ Hc) as [Ho Hk].
    assert (∀ c, contents db' c = contents db c) as Hk' by (intros c; by rewrite Hk, Hd).
    destruct (rocks_starts commit_root_size genesis_config false d db' m self Hc Hr) as (st & rd & E & Hroot & Hg);
      [by eapply in_step_moved|]. by exists st, rd.
  - intros env' Hc Hr. destruct (heed_create_db_opens _ _ _ Hc) as [Ho Hk].
    assert (∀ c, env_contents env' c = env_contents env c) as Hk' by (intros c; by rewrite Hk, He).
    destruct (heed_starts commit_root_size genesis_config false d env' m state Hc Hr) as (st & rd & E & Hroot & Hg);
      [by eapply heed_in_step_moved|]. by exists st, rd.
  - intros db' Hd' Hc Hr. destruct (rocks_create_db_opens _ _ _ Hc) as [Ho Hk].
    assert (∀ c, contents db' c = ∅) as Hk' by (intros c; by rewrite Hk, Hd').
    split; [by apply latest_height_empty|].
    destruct (rocks_starts commit_root_size genesis_config true d db' _ _ Hc Hr (rocks_empty_step db' Ho Hk'))
      as (st & rd & E & Hroot & _). by exists st, rd.
  - intros env' Hd' Hc Hr. destruct (heed_create_db_opens _ _ _ Hc) as [Ho Hk].
    assert (∀ c, env_contents env' c = ∅) as Hk' by (intros c; by rewrite Hk, Hd').
    split; [by apply heed_latest_height_empty|].
    destruct (heed_starts commit_root_size genesis_config true d env' _ _ Hc Hr (heed_empty_step env' Ho Hk'))
      as (st & rd & E & Hroot & _). by exists st, rd.
Qed.

End Restart.

(** Witness: a node whose genesis state is on both databases starts again. *)
Module DiskWitness.
Import Envelope.Witness EvmStateWitness RocksWitness HeedWitness RocksStateWitness HeedStateWitness.
#[local] Existing Instance unit_errors.
#[local] Existing Instance plain_db.
#[local] Existing Instance plain_db_laws.
#[local] Existing Instance plain_reads.
#[local] Existing Instance plain_reads_laws.
#[local] Existing Instance plain_heed.
#[local] Existing Instance plain_heed_laws.
#[local] Existing Instance wide_trie.
#[local] Existing Instance wide_trie_laws.
#[local] Existing Instance plain_heed_reads.
#[local] Existing Instance plain_heed_reads_laws.

(** A directory holds what either database wrote. *)
#[local] Instance files : FileSystem := {|
  Directory := Columns * Columns; remove_dir_all := λ _, (λ _, ∅, λ _, ∅); create_dir := id |}.
#[local] Instance rocks_open : RocksOpen := {|
  open_cf := λ d names,
    (if bool_decide (Forall (.∈ COLUMN_FAMILIES) names) then Ok d.1 else Err ())
      : result (@DbError plain_db) (@Db plain_db);
  stored_columns := fst |}.
#[local] Instance rocks_open_laws : RocksOpenLaws.
Proof.
  intros d names db. simpl. case_bool_decide as Hn; [|done]. intros [= <-]. split; [done|].
  intros c Hc. apply bool_decide_eq_true_2. by apply (proj1 (Forall_forall _ _) Hn).
Qed.

#[local] Instance heed_open : HeedOpen := {|
  env_open := λ d _, Ok d.2 : result (@HeedError plain_heed) (@Env plain_heed);
  create_database := λ t name,
    (if bool_decide (name ∈ COLUMN_FAMILIES) then Ok t else Err ())
      : result (@HeedError plain_heed) (@Txn plain_heed);
  stored_databases := snd; stored_has := λ _ c, bool_decide (c ∈ COLUMN_FAMILIES) |}.
#[local] Instance heed_open_laws : HeedOpenLaws.
Proof.
  split; simpl.
  - by intros d n env [= <-].
  - intros t name t'. case_bool_decide as Hn; [|done]. intros [= <-] c. split; [done|].
    case_bool_decide as Hc; [by rewrite orb_true_r|]. rewrite bool_decide_false; [done|]. by intros ->.
Qed.

#[local] Instance no_schedule : GasSchedule := {|
  VMGasParameters := (); StorageGasParameters := (); NativeGasParameters := (); vm_gas_initial := ();
  storage_gas_latest := (); native_gas_initial := (); LATEST_GAS_FEATURE_VERSION := 0;
  set_gas_unit_scaling_factor := λ _ x, x; set_max_execution_gas := λ _ x, x;
  set_min_transaction_gas_units := λ _ x, x; StandardGasMeter := ();
  standard_gas_meter := λ _ _ _ _ _, () |}.
Definition config : Genesis.GenesisConfig :=
  Genesis.MkGenesisConfig 404 (StateTree.state_root genesis_memory) gas_costs_default [200] [] [].

Definition rocks_done : option (Db * RocksDbState) :=
  match rocks_state_apply map_to_list no_columns (MkRocksState (trie_new ∅) None)
    (HeedStateWitness.account_change 1) with Done (Ok x) => Some x | _ => None end.
Definition rocks_disk : Db := from_option fst no_columns rocks_done.
Definition rocks_left : RocksDbState := from_option snd (MkRocksState (trie_new ∅) None) rocks_done.

Lemma rocks_applied :
  rocks_state_apply map_to_list no_columns (MkRocksState (trie_new ∅) None)
    (HeedStateWitness.account_change 1) = Done (Ok (rocks_disk, rocks_left)).
Proof. unfold rocks_disk, rocks_left, rocks_done. computed. Qed.

Lemma rocks_left_in_step : in_step rocks_disk rocks_left genesis_memory.
Proof.
  destruct (rocks_apply_step map_to_list wide_root_size no_columns _ _ (HeedStateWitness.account_change 1)
    rocks_disk rocks_left (rocks_empty_step no_columns (plain_opened _) (λ _, eq_refl)) rocks_applied)
    as (m' & Hm' & Hs & _).
  assert (m' = genesis_memory) as -> by (unfold genesis_memory; rewrite Hm'; done). done.
Qed.

Definition left_on_disk : Directory := (rocks_disk, genesis_env).

Lemma stored_left c : stored_columns left_on_disk c = contents rocks_disk c.
Proof. done. Qed.
Lemma stored_left_heed c : stored_databases (create_dir left_on_disk) c = env_contents genesis_env c.
Proof. done. Qed.

Lemma nodes_restart_witness :
  (∃ st rd, rocks_create config (MkProcess Db left_on_disk false None)
      = Done ((disk_app rocks_create_db rocks_state_new config st, rd),
          MkProcess Db left_on_disk false (Some rocks_disk))
    ∧ rocks_state_root st = StateTree.state_root genesis_memory)
  ∧ (∃ st rd, heed_create config (MkProcess Env left_on_disk false None)
      = Done ((disk_app heed_create_db heed_state_new config st, rd),
          MkProcess Env left_on_disk false (Some genesis_env))
    ∧ heed_state_root st = StateTree.state_root genesis_memory)
  ∧ latest_height (no_columns : Db) = Done (Ok None).
Proof.
  destruct (nodes_restart wide_root_size config rocks_disk rocks_left genesis_env genesis_heed genesis_memory
    left_on_disk rocks_left_in_step stored_left (run_step _ _ _ _ genesis_run) stored_left_heed)
    as (H1' & H2' & H3' & _).
  split; [|split].
  - destruct (H1' rocks_disk eq_refl (RocksStateWitness.plain_readable _)) as (st & rd & E & _ & Hr & _).
    exists st, rd. split; [exact E|exact Hr].
  - destruct (H2' genesis_env eq_refl (plain_readable_env _)) as (st & rd & E & _ & Hr & _).
    exists st, rd. split; [exact E|exact Hr].
  - exact (proj1 (H3' no_columns (λ _, eq_refl) eq_refl (RocksStateWitness.plain_readable _))).
Defined.

(** The roots are not the empty state's. *)
Example restarted_root : StateTree.state_root genesis_memory ≠ replicate 32 0.
Proof. vm_compute. done. Qed.

End DiskWitness.
