(* ===== verification/GenesisBuilder.v ===== *)
(** The genesis builder ([genesis-builder/src]): the Move modules generated from
    the Solidity ABIs of the L2 contracts, and the edits of the package files of
    the frameworks.

    Reading, writing and compiling files is left out.  The words of an identifier
    ([convert_case]) and the selectors of functions ([alloy]) are third-party
    code ([AbiLibrary]); the template that a module is rendered with is not Rust. *)
From Stdlib Require Import Ascii.
From S2P Require Import Prelude.

Local Open Scope Z_scope.

(** ** Texts *)

(** [str::replace]: the occurrences from the left that do not overlap; [skip]
    characters are of the last one. *)
Fixpoint replace_from (from to : string) (skip : nat) (s : string) : string :=
  match s with
  | "" => ""
  | String c rest =>
    match skip with
    | S skip => replace_from from to skip rest
    | O => if String.prefix from s then to +:+ replace_from from to (pred (String.length from)) rest
           else String c (replace_from from to 0 rest)
    end
  end%string.
Definition replace (from to s : string) : string := replace_from from to 0 s.

(** [trim_start_matches("_")] *)
Fixpoint trim_underscores (s : string) : string :=
  match s with
  | String (Ascii true true true true true false true false) rest => trim_underscores rest
  | _ => s
  end.

(** Does a text occur in another? *)
Fixpoint occurs (needle s : string) : bool :=
  String.prefix needle s || match s with "" => false | String _ s => occurs needle s end%string.

(** ** The ABI of a contract *)

Inductive StateMutability := Pure | View | NonPayable | Payable.
Inductive InternalType := StructType (ty : string) | OtherType (display : string).

(** A parameter with its internal type and the components of a tuple. *)
Inductive Param := MkParam {
  p_name : string; p_ty : string; p_internal_type : option InternalType; p_components : list Param }.

Record AbiFunction := MkAbiFunction {
  af_signature : string; af_state_mutability : StateMutability; af_inputs : list Param }.

(** The functions by name, in the order of the names. *)
Abbreviation AbiFunctions := (list (string * list AbiFunction)).

Class AbiLibrary := {
  (** [Casing::to_case(Case::Snake)] *)
  snake_case : string → string;
  (** [Function::selector] *)
  selector_of : AbiFunction → list Z;
}.

(** Source: genesis-builder/src/generate.rs 34-38 [L2Input] *)
Record L2Input := MkInput { in_name : string; in_ty : string }.

(** Source: genesis-builder/src/generate.rs 25-32 [L2Function] *)
Record L2Function := MkFunction {
  fn_name : string; fn_selector : list Z; fn_inputs : list L2Input; fn_has_value : bool; fn_is_view : bool }.

(** A sorted map in the code.
    Source: genesis-builder/src/generate.rs 14-23 [L2Module] *)
Record L2Module := MkModule {
  md_name : string;
  md_functions : list L2Function;
  md_structs : gmap string (list L2Input);
  md_has_fungible_asset : bool;
  md_has_non_empty_args : bool;
  md_has_evm_call : bool;
  md_has_eth_token_metadata : bool;
}.

Section Generate.
Context `{AbiLibrary}.

(** Source: genesis-builder/src/generate.rs 185-192 [to_snake_case] *)
Definition to_snake_case (s : string) : string :=
  let s := snake_case s in
  let s := replace "l_1" "l1" s in
  let s := replace "l_2" "l2" s in
  let s := replace "erc_20" "erc20" s in
  replace "erc_721" "erc721" s.

(** The types an L2 contract may take, with their names in Move. *)
Definition MOVE_TYPES : list (string * string) :=
  [("address", "address");
   ("address[]", "vector<address>");
   ("bytes", "vector<u8>");
   ("bytes[]", "vector<vector<u8>>");
   ("bytes32", "Evm::evm::SolidityFixedBytes<Evm::evm::U5<Evm::evm::B1, Evm::evm::B1, Evm::evm::B1, Evm::evm::B1, Evm::evm::B1>>");
   ("string", "vector<u8>");
   ("uint256", "u256");
   ("uint128", "u128");
   ("uint64", "u64");
   ("uint32", "u32");
   ("uint8", "u8");
   ("bool", "bool")]%string.

(** Source: genesis-builder/src/generate.rs 207-225 [get_input_match] *)
Definition get_input_match (solidity_type : string) : exec string :=
  expect (assoc solidity_type MOVE_TYPES).

(** Unnamed parameters of a mapping's getter get the names of keys.
    Source: genesis-builder/src/generate.rs 115-124 [l2_abi_to_move] *)
Definition input_name (fun_ : AbiFunction) (inputs : list L2Input) (name : string) : string :=
  let name := trim_underscores name in
  if decide (name = ""%string) then
    if (1 <? length (af_inputs fun_))%nat && negb (bool_decide (inputs = [])) then "key2" else "key"
  else name.

(** Source: genesis-builder/src/generate.rs 138-142 [l2_abi_to_move] *)
Definition struct_component (c : Param) : exec L2Input :=
  ty ← get_input_match (p_ty c); Done (MkInput (p_name c) ty).

(** The type of a parameter, and the structs with that of a tuple.
    Source: genesis-builder/src/generate.rs 126-152 [l2_abi_to_move] *)
Definition input_type (input : Param) (structs : gmap string (list L2Input))
    : exec (string * gmap string (list L2Input)) :=
  if decide (p_ty input = "tuple"%string) then
    tuple ← expect (p_internal_type input);
    match tuple with
    | StructType ty =>
      match structs !! ty with
      | Some _ => Done (ty, structs)
      | None =>
        components ← exec_map struct_component (p_components input);
        Done (ty, <[ty := components]> structs)
      end
    | OtherType _ => Panic
    end
  else ty ← get_input_match (p_ty input); Done (ty, structs).

(** Source: genesis-builder/src/generate.rs 113-155 [l2_abi_to_move] *)
Fixpoint function_inputs (fun_ : AbiFunction) (params : list Param) (inputs : list L2Input)
    (structs : gmap string (list L2Input)) : exec (list L2Input * gmap string (list L2Input)) :=
  match params with
  | [] => Done (inputs, structs)
  | input :: params =>
    let name := input_name fun_ inputs (p_name input) in
    '(ty, structs) ← input_type input structs;
    function_inputs fun_ params (inputs ++ [MkInput name ty]) structs
  end.

(** The locals of the loop over the functions of one contract. *)
Record Generated := MkGenerated {
  gn_functions : list L2Function;
  gn_unique_function_names : list string;
  gn_structs : gmap string (list L2Input);
  gn_has_fungible_asset : bool;
  gn_has_non_empty_args : bool;
  gn_has_evm_call : bool;
  gn_has_eth_token_metadata : bool;
}.
Definition nothing_generated : Generated := MkGenerated [] [] ∅ false false false false.

Definition is_view (m : StateMutability) : bool := match m with View | Pure => true | _ => false end.
Definition is_payable (m : StateMutability) : bool := match m with Payable => true | _ => false end.

(** Source: genesis-builder/src/generate.rs 82-161 [l2_abi_to_move] *)
Definition generate_function (g : Generated) (name : string) (fun_ : AbiFunction) : exec Generated :=
  let function_name := to_snake_case name in
  if decide (function_name ∈ gn_unique_function_names g) then Done g else
  let m := af_state_mutability fun_ in
  '(inputs, structs) ← function_inputs fun_ (af_inputs fun_) [] (gn_structs g);
  Done {| gn_functions := gn_functions g ++
            [MkFunction name (selector_of fun_) inputs (is_payable m) (is_view m)];
          gn_unique_function_names := gn_unique_function_names g ++ [function_name];
          gn_structs := structs;
          gn_has_fungible_asset := gn_has_fungible_asset g || is_payable m;
          gn_has_non_empty_args := gn_has_non_empty_args g || negb (bool_decide (inputs = []));
          gn_has_evm_call := gn_has_evm_call g || negb (is_view m);
          gn_has_eth_token_metadata :=
            gn_has_eth_token_metadata g || negb (is_view m || is_payable m) |}.

Fixpoint generate_functions (g : Generated) (funs : list (string * AbiFunction)) : exec Generated :=
  match funs with
  | [] => Done g
  | (name, fun_) :: funs => g ← generate_function g name fun_; generate_functions g funs
  end.

(** Source: genesis-builder/src/generate.rs 68-178 [l2_abi_to_move] *)
Definition l2_module (name : string) (functions : AbiFunctions) : exec L2Module :=
  g ← generate_functions nothing_generated (functions ≫= λ '(name, funs), pair name <$> funs);
  Done {| md_name := name; md_functions := gn_functions g; md_structs := gn_structs g;
          md_has_fungible_asset := gn_has_fungible_asset g;
          md_has_non_empty_args := gn_has_non_empty_args g;
          md_has_evm_call := gn_has_evm_call g;
          md_has_eth_token_metadata := gn_has_eth_token_metadata g |}.

(** ** What a generated module is *)

(** A type the template can write: one of Move or of the Evm package, or a struct
    of the module. *)
Definition writable (structs : gmap string (list L2Input)) (ty : string) : Prop :=
  ty ∈ MOVE_TYPES.*2 ∨ is_Some (structs !! ty).
Definition structs_wf (structs : gmap string (list L2Input)) : Prop :=
  ∀ s components, structs !! s = Some components → Forall (λ c, in_ty c ∈ MOVE_TYPES.*2) components.

Lemma get_input_match_in ty t : get_input_match ty = Done t → t ∈ MOVE_TYPES.*2.
Proof. intros Ht%expect_Done%assoc_in. by apply (list_elem_of_fmap_2 snd _ (ty, t)). Qed.

Lemma writable_mono structs structs' ty : structs ⊆ structs' → writable structs ty → writable structs' ty.
Proof. intros Hs [?|[c Hc]]; [by left|right]. exists c. by eapply lookup_weaken. Qed.

Lemma input_type_spec input structs ty structs' :
  input_type input structs = Done (ty, structs') → structs_wf structs →
  structs ⊆ structs' ∧ structs_wf structs' ∧ writable structs' ty.
Proof.
  unfold input_type. intros Hi Hw. case_decide; last first.
  { apply bind_Done in Hi as (t & Ht & [= <- <-]). split; [done|]. split; [done|]. left.
    by eapply get_input_match_in. }
  apply bind_Done in Hi as ([t|d] & _ & Hi); [|done].
  destruct (structs !! t) as [cs|] eqn:Ht; [injection Hi as <- <-; split_and!; try done; by right; exists cs|].
  apply bind_Done in Hi as (cs & Hcs & [= <- <-]). split; [by apply insert_subseteq|]. split.
  - intros s components [[<- <-]|[_ Hs]]%lookup_insert_Some; [|by apply (Hw s)].
    apply exec_map_Done in Hcs. clear -Hcs. induction Hcs as [|p c ps cs Hp _ IH]; constructor; [|done].
    apply bind_Done in Hp as (t & Ht & [= <-]). by eapply get_input_match_in.
  - right. rewrite lookup_insert_eq. by eexists.
Qed.

Lemma function_inputs_spec fun_ params : ∀ inputs structs inputs' structs',
  function_inputs fun_ params inputs structs = Done (inputs', structs') → structs_wf structs →
  Forall (λ i, writable structs (in_ty i)) inputs →
  structs ⊆ structs' ∧ structs_wf structs' ∧ Forall (λ i, writable structs' (in_ty i)) inputs'
  ∧ length inputs' = (length inputs + length params)%nat.
Proof.
  induction params as [|input params IH]; intros inputs structs inputs' structs' Hf Hw Hin.
  - injection Hf as <- <-. simpl. split_and!; [done..|lia].
  - apply bind_Done in Hf as ([ty structs1] & Ht & Hf).
    destruct (input_type_spec _ _ _ _ Ht Hw) as (Hs & Hw1 & Hty).
    destruct (IH _ _ _ _ Hf Hw1) as (Hs' & Hw' & Hin' & Hl).
    + apply Forall_app. split; [|by constructor]. eapply Forall_impl; [exact Hin|].
      intros i. by apply writable_mono.
    + split; [by etrans|]. split; [done|]. split; [done|]. rewrite Hl, length_app. simpl. lia.
Qed.

(** The function that [name] and [fun_] of the ABI give. *)
Definition function_of (structs : gmap string (list L2Input)) (name : string) (fun_ : AbiFunction)
    (f : L2Function) : Prop :=
  fn_name f = name ∧ fn_selector f = selector_of fun_
  ∧ fn_is_view f = is_view (af_state_mutability fun_)
  ∧ fn_has_value f = is_payable (af_state_mutability fun_)
  ∧ length (fn_inputs f) = length (af_inputs fun_)
  ∧ Forall (λ i, writable structs (in_ty i)) (fn_inputs f).

(** What holds after the functions [funs]. *)
Record generated (g : Generated) (funs : list (string * AbiFunction)) : Prop := {
  gen_names : gn_unique_function_names g = (λ f, to_snake_case (fn_name f)) <$> gn_functions g;
  gen_unique : NoDup (gn_unique_function_names g);
  gen_all : ∀ name fun_, (name, fun_) ∈ funs → to_snake_case name ∈ gn_unique_function_names g;
  gen_from : Forall (λ f, ∃ name fun_, (name, fun_) ∈ funs ∧ function_of (gn_structs g) name fun_ f)
    (gn_functions g);
  gen_structs : structs_wf (gn_structs g);
  gen_fungible_asset : gn_has_fungible_asset g = existsb fn_has_value (gn_functions g);
  gen_args : gn_has_non_empty_args g
    = existsb (λ f, negb (bool_decide (fn_inputs f = []))) (gn_functions g);
  gen_evm_call : gn_has_evm_call g = existsb (λ f, negb (fn_is_view f)) (gn_functions g);
  gen_metadata : gn_has_eth_token_metadata g
    = existsb (λ f, negb (fn_is_view f || fn_has_value f)) (gn_functions g);
}.

Lemma function_of_mono structs structs' name fun_ f : structs ⊆ structs' →
  function_of structs name fun_ f → function_of structs' name fun_ f.
Proof.
  intros Hs (? & ? & ? & ? & ? & Hi). split_and!; try done. eapply Forall_impl; [exact Hi|].
  intros i. by apply writable_mono.
Qed.

Lemma generate_function_step g funs name fun_ g' :
  generated g funs → generate_function g name fun_ = Done g' → generated g' (funs ++ [(name, fun_)]).
Proof.
  intros [Hn Hu Ha Hf Hs F1 F2 F3 F4] Hg. unfold generate_function in Hg. case_decide as Hin.
  - injection Hg as <-. split; try done.
    + intros n f [Hnf|[= -> ->]%list_elem_of_singleton]%elem_of_app; [by eapply Ha|done].
    + eapply Forall_impl; [exact Hf|]. intros f (n & x & Hx & Hof). exists n, x. split; [|done]. set_solver.
  - apply bind_Done in Hg as ([inputs structs] & Hi & [= <-]).
    destruct (function_inputs_spec _ _ _ _ _ _ Hi Hs) as (Hsub & Hs' & Hin' & Hlen); [by constructor|].
    split; simpl; try done; rewrite ?existsb_app; simpl; rewrite ?orb_false_r.
    + by rewrite Hn, fmap_app.
    + apply NoDup_app. split; [done|]. split; [|apply NoDup_singleton].
      intros x Hx ->%list_elem_of_singleton. done.
    + intros n f [Hnf|[= -> ->]%list_elem_of_singleton]%elem_of_app; [|set_solver].
      apply elem_of_app. left. by eapply Ha.
    + apply Forall_app. split.
      * eapply Forall_impl; [exact Hf|]. intros f (n & x & Hx & Hof). exists n, x.
        split; [set_solver|by eapply function_of_mono].
      * constructor; [|done]. exists name, fun_. split; [set_solver|]. by split_and!.
    + by rewrite F1.
    + by rewrite F2.
    + by rewrite F3.
    + by rewrite F4.
Qed.

Lemma generate_functions_spec funs : ∀ g before g',
  generated g before → generate_functions g funs = Done g' → generated g' (before ++ funs).
Proof.
  induction funs as [|[name fun_] funs IH]; intros g before g' Hg He.
  - injection He as <-. by rewrite app_nil_r.
  - apply bind_Done in He as (g1 & H1' & He). rewrite (cons_middle (name, fun_)), app_assoc.
    eapply IH; [|exact He]. by eapply generate_function_step.
Qed.

Lemma nothing_generated_spec : generated nothing_generated [].
Proof. split; simpl; try done; [constructor|by intros ? ? ?%not_elem_of_nil]. Qed.

(** A generated module is well formed.  Its functions have different names in
    Move, one for every name of the ABI, and each has the selector, the
    mutability and as many inputs as a function of the ABI under its name; every
    type it takes can be written, structs being declared with the module; and
    the module imports what its functions use and nothing else. *)
Lemma l2_module_wf name functions m : l2_module name functions = Done m →
  let funs := functions ≫= (λ '(name, funs), pair name <$> funs) in
  md_name m = name
  ∧ NoDup ((λ f, to_snake_case (fn_name f)) <$> md_functions m)
  ∧ (∀ n f, (n, f) ∈ funs → to_snake_case n ∈ (λ f, to_snake_case (fn_name f)) <$> md_functions m)
  ∧ Forall (λ f, ∃ n fun_, (n, fun_) ∈ funs ∧ function_of (md_structs m) n fun_ f) (md_functions m)
  ∧ structs_wf (md_structs m)
  ∧ (md_has_fungible_asset m = true ↔ ∃ f, f ∈ md_functions m ∧ fn_has_value f = true)
  ∧ (md_has_non_empty_args m = true ↔ ∃ f, f ∈ md_functions m ∧ fn_inputs f ≠ [])
  ∧ (md_has_evm_call m = true ↔ ∃ f, f ∈ md_functions m ∧ fn_is_view f = false)
  ∧ (md_has_eth_token_metadata m = true
     ↔ ∃ f, f ∈ md_functions m ∧ fn_is_view f = false ∧ fn_has_value f = false).
Proof.
  intros (g & Hg & [= <-])%bind_Done. cbv zeta. simpl.
  apply (generate_functions_spec _ _ [] _ nothing_generated_spec) in Hg as [Hn Hu Ha Hf Hs F1 F2 F3 F4].
  simpl in Ha, Hf. rewrite Hn in Hu, Ha. split; [done|]. split; [done|]. split; [done|]. split; [done|].
  split; [done|].
  rewrite F1, F2, F3, F4, !existsb_exists. setoid_rewrite <- list_elem_of_In.
  repeat split; intros (f & Hin & Hx); exists f; (split; [done|]);
    first [done | by rewrite negb_true_iff, bool_decide_eq_false in *
      | by destruct (fn_is_view f), (fn_has_value f); destruct_and?].
Qed.

End Generate.

(** ** The contracts *)

(** ** The contracts *)

(** A quotation mark. *)
Definition QUOTE : string := String (ascii_of_nat 34) "".
Definition ADDRESS_PREFIX : string := " = " +:+ QUOTE +:+ "0x42".

Fixpoint ends_with_quote (s : string) : bool :=
  match s with
  | "" => false
  | String c "" => bool_decide (c = ascii_of_nat 34)
  | String _ s => ends_with_quote s
  end%string.

Fixpoint drop_str (n : nat) (s : string) : string :=
  match n, s with
  | S n, String _ s => drop_str n s
  | _, _ => s
  end.

(** The name of a contract whose address starts with 0x42: the regular expression
    takes the longest name there is.
    Source: genesis-builder/src/generate.rs 194-205 [get_l2_contract_names] *)
Fixpoint contract_name (line : string) : option string :=
  match line with
  | "" => None
  | String c rest =>
    match contract_name rest with
    | Some name => Some (String c name)
    | None =>
      if String.prefix ADDRESS_PREFIX line && ends_with_quote (drop_str (String.length ADDRESS_PREFIX) line)
      then Some "" else None
    end
  end%string.

Example a_contract : contract_name ("L1Block = " +:+ QUOTE +:+ "0x4215" +:+ QUOTE) = Some "L1Block"%string.
Proof. reflexivity. Qed.
Example not_a_contract : contract_name ("Evm = " +:+ QUOTE +:+ "0x1" +:+ QUOTE) = None.
Proof. reflexivity. Qed.

(** Source: genesis-builder/src/generate.rs 194-204 [get_l2_contract_names] *)
Definition l2_contract_names (move_toml : list string) : list string := omap contract_name move_toml.

(** The modules of the ABI files of the contracts, in the order of the directory.
    Source: genesis-builder/src/generate.rs 54-62 [l2_abi_to_move] *)
Definition l2_abi_to_move `{AbiLibrary} (move_toml : list string) (directory : list (string * AbiFunctions))
    : exec (list L2Module) :=
  exec_map (λ '(name, functions), l2_module name functions)
    (filter (λ file, file.1 ∈ l2_contract_names move_toml) directory).

(** ** The package files *)

Definition quoted (s : string) : string := QUOTE +:+ s +:+ QUOTE.

(** In the order of the keys.
    Source: genesis-builder/src/main.rs 61-70 [APTOS_ADDRESS_MAPPING] *)
Definition APTOS_ADDRESS_MAPPING : list (string * string) :=
  [(quoted "0x0", quoted "0x10"); (quoted "0x3", quoted "0x13"); (quoted "0x4", quoted "0x14");
   (quoted "0xA", quoted "0x1A"); (quoted "0xA550C18", quoted "0x15")].

(** Source: genesis-builder/src/main.rs 127-134 [fix_aptos_packages] *)
Definition fix_addresses (content : string) : string :=
  fold_left (λ content '(from, to), replace from to content) APTOS_ADDRESS_MAPPING content.

Definition NEWLINE : string := String (ascii_of_nat 10) "".

(** Source: genesis-builder/src/main.rs 136-146 [fix_aptos_packages] *)
Definition fix_object_module (content : string) : string :=
  replace "friend aptos_framework::primary_fungible_store;"
    ("friend aptos_framework::primary_fungible_store;" +:+ NEWLINE
     +:+ "    friend aptos_framework::primary_fungible_store_u256;") content.

(** The hexadecimal literals of the packages, without quotes.
    Source: genesis-builder/src/main.rs 182-198 [fix_sui_packages] *)
Definition fix_sui_stdlib (content : string) : string := replace "0x1" "0x21" content.
Definition fix_sui_framework (content : string) : string := replace "0x2" "0x22" content.

(** Source: genesis-builder/src/main.rs 206-213 [fix_sui_packages] *)
Definition remove_deprecated (lines : list string) : string :=
  String.concat NEWLINE (filter (λ line, occurs "#[deprecated" line = false) lines).

Example addresses_fixed :
  fix_addresses ("std = " +:+ quoted "0x1" +:+ NEWLINE +:+ "token = " +:+ quoted "0x3")
    = ("std = " +:+ quoted "0x1" +:+ NEWLINE +:+ "token = " +:+ quoted "0x13")%string.
Proof. reflexivity. Qed.

(** Witness: a contract with a getter of two keys and a payable function that takes
    a struct; the names are kept as they are. *)
Module BuilderWitness.
#[local] Instance plain_abi : AbiLibrary := {| snake_case := id; selector_of := λ _, [1; 2; 3; 4] |}.

Definition address_param (name : string) : Param := MkParam name "address" None [].
Definition abi : AbiFunctions :=
  [("allowance", [MkAbiFunction "allowance(address,address)" View [address_param ""; address_param ""]]);
   ("bridge", [MkAbiFunction "bridge((uint256))" Payable
      [MkParam "_request" "tuple" (Some (StructType "Request")) [MkParam "amount" "uint256" None []]]])]%string.

Definition built : L2Module :=
  match l2_module "Bridge" abi with Done m => m
  | Panic => MkModule "" [] ∅ false false false false end.

Lemma abi_built : l2_module "Bridge" abi = Done built.
Proof. vm_compute. reflexivity. Qed.

Lemma l2_module_wf_witness :
  NoDup ((λ f, to_snake_case (fn_name f)) <$> md_functions built)
  ∧ (md_has_evm_call built = true ↔ ∃ f, f ∈ md_functions built ∧ fn_is_view f = false).
Proof.
  destruct (l2_module_wf "Bridge" abi built abi_built) as (_ & H1' & _ & _ & _ & _ & _ & H2' & _). done.
Defined.

(** The inputs of the getter are named, and the struct is declared. *)
Example built_inputs :
  ((λ f, in_name <$> fn_inputs f) <$> md_functions built) = [["key"; "key2"]; ["request"]]%string
  ∧ md_structs built !! "Request"%string = Some [MkInput "amount" "u256"].
Proof. vm_compute. done. Qed.

(** A getter of three keys gets two parameters of one name, and an overloaded
    function is generated once. *)
Example three_keys :
  match l2_module "C" [("m", [MkAbiFunction "m" View [address_param ""; address_param ""; address_param ""];
                             MkAbiFunction "m2" View []])]%string with
  | Done m => ((λ f, in_name <$> fn_inputs f) <$> md_functions m) = [["key"; "key2"; "key2"]]%string
  | Panic => False
  end.
Proof. vm_compute. done. Qed.

End BuilderWitness.
